(** * TQMesh: advancing front refinement, quad layers and the layering driver

  A shallow embedding of
      - src/algorithm/Front.h              (class Front),
      - src/algorithm/QuadLayer.h          (class QuadLayer),
      - src/algorithm/FrontQuadLayering.h  (class FrontQuadLayering),
  together with the properties of these classes that the specification
  states.

  Conventions.
      - A C++ [double] is a binary64 primitive float.
      - A [Vertex*] and an [Edge*] are handles ([nat]); a nullable pointer is
        an [option] of a handle.
      - A computation that can leave the normal control flow lives in the
        monad [Exec]: it returns, fails an [ASSERT], runs into undefined
        behaviour (a null dereference, a vector index out of range, a
        dangling handle), or exhausts the fuel that bounds its loops. *)

From Stdlib Require Import Floats SpecFloat ZArith Lia.
From stdpp Require Import base list.

Set Default Proof Using "Type".

(** ** Outcomes of a computation *)

Inductive Exec (A : Type) : Type :=
| Ret (a : A)   (* normal completion *)
| Abort         (* an ASSERT failed: fatal *)
| Undef         (* undefined behaviour *)
| OutOfFuel.    (* the loop bound of the model was reached *)

Arguments Ret {A} a.
Arguments Abort {A}.
Arguments Undef {A}.
Arguments OutOfFuel {A}.

#[global] Instance Exec_ret : MRet Exec := fun A a => Ret a.
#[global] Instance Exec_bind : MBind Exec := fun A B k m =>
match m with
| Ret a => k a
| Abort => Abort
| Undef => Undef
| OutOfFuel => OutOfFuel
end.

(** Dereferencing a nullable pointer, and [std::vector::operator[]]. *)
Definition deref_opt {A} (o : option A) : Exec A :=
match o with Some a => Ret a | None => Undef end.

Definition at_index {A} (l : list A) (i : nat) : Exec A := deref_opt (l !! i).

(** [ASSERT(cond, msg)].
  Modelled from the spec: the macro [ASSERT] of utils.h is not under src/;
  the spec makes a failed assertion a fatal StructuralAssertion. *)
Definition ASSERT (cond : bool) : Exec unit := if cond then Ret tt else Abort.

(** ** Numbers *)

(** [MIN(a, b)] and [MOD(i, n)].
  Modelled from the spec: the macros of utils.h are not under src/; the
  spec reads them as the minimum and as the mathematical remainder, which
  for a positive modulus is what the usual [((i % n) + n) % n] gives. *)
Definition MIN (a b : float) : float := if (a <? b)%float then a else b.

Definition MOD (i n : Z) : Z := Z.rem (Z.rem i n + n) n.

(** ** Plane vectors
  Modelled from the spec: VecND.h is not under src/; a [Vec2d] is an
  ordered pair of doubles with the componentwise operations. *)

Module Vec2d.
Record t := mk { x : float; y : float }.

Definition add (a b : t) : t := mk (x a + x b)%float (y a + y b)%float.
Definition sub (a b : t) : t := mk (x a - x b)%float (y a - y b)%float.
Definition neg (a : t) : t := mk (- x a)%float (- y a)%float.
Definition scale (s : float) (a : t) : t := mk (s * x a)%float (s * y a)%float.
Definition mul (a : t) (s : float) : t := mk (x a * s)%float (y a * s)%float.
Definition div (a : t) (s : float) : t := mk (x a / s)%float (y a / s)%float.
Definition norm_sqr (a : t) : float := (x a * x a + y a * y a)%float.
Definition norm (a : t) : float := sqrt (norm_sqr a).
End Vec2d.

Abbreviation Vec2d := Vec2d.t.

(** ** Vertices and their container
  Modelled from the spec: Vertex.h is not under src/; a vertex has
  coordinates and the flags on_front, on_boundary and is_fixed, it lives in
  the vertex container of the mesh, and the container has [push_back] and
  [insert] (before a position). *)

Definition VertexPtr := nat.
Definition EdgePtr := nat.

Module Vertex.
Record t := mk {
  xy : Vec2d;
  on_front : bool;
  on_boundary : bool;
  is_fixed : bool }.

Definition create (c : Vec2d) : t := mk c false false false.
Definition set_on_front (b : bool) (v : t) : t :=
  mk (xy v) b (on_boundary v) (is_fixed v).
Definition set_on_boundary (b : bool) (v : t) : t :=
  mk (xy v) (on_front v) b (is_fixed v).
Definition set_is_fixed (b : bool) (v : t) : t :=
  mk (xy v) (on_front v) (on_boundary v) b.
End Vertex.

Abbreviation Vertex := Vertex.t.

Module Vertices.
Record t := mk {
  cells : list (VertexPtr * Vertex);   (* in container order *)
  fresh : VertexPtr }.                  (* the next handle *)

Fixpoint find (p : VertexPtr) (l : list (VertexPtr * Vertex)) : option Vertex :=
  match l with
  | [] => None
  | (q, v) :: l' => if Nat.eqb q p then Some v else find p l'
  end.

Definition get (vs : t) (p : VertexPtr) : Exec Vertex :=
  deref_opt (find p (cells vs)).

Definition update (p : VertexPtr) (f : Vertex → Vertex) (vs : t) : t :=
  mk (map (λ c, if Nat.eqb (fst c) p then (fst c, f (snd c)) else c) (cells vs))
       (fresh vs).

Definition push_back (c : Vec2d) (vs : t) : VertexPtr * t :=
  (fresh vs, mk (cells vs ++ [(fresh vs, Vertex.create c)]) (S (fresh vs))).

Fixpoint insert_before (pos : VertexPtr) (c : VertexPtr * Vertex)
      (l : list (VertexPtr * Vertex)) : list (VertexPtr * Vertex) :=
  match l with
  | [] => [c]
  | d :: l' => if Nat.eqb (fst d) pos then c :: d :: l'
                 else d :: insert_before pos c l'
  end.

Definition insert (pos : VertexPtr) (c : Vec2d) (vs : t) : VertexPtr * t :=
  (fresh vs,
     mk (insert_before pos (fresh vs, Vertex.create c) (cells vs)) (S (fresh vs))).

(** Handles are distinct and below the next handle. *)
Definition wf (vs : t) : Prop :=
  NoDup (map fst (cells vs)) ∧ Forall (λ c, fst c < fresh vs) (cells vs).
End Vertices.

Abbreviation Vertices := Vertices.t.

(** ** Edges and edge lists
  Modelled from the spec: Edge.h and EdgeList.h are not under src/. An edge
  is a directed segment between two vertices with a marker, an optional
  twin, and its cached length, tangent ((v2 - v1) / length), normal (the
  tangent rotated by +90 degrees) and midpoint; an edge list is an ordered
  sequence of edges that owns them, with [insert_edge] (before a position),
  [add_edge] (append), [remove], [get_edge] (by ordered endpoint pair) and
  [split_edge]. *)

Module Edge.
Record t := mk {
  ptr : EdgePtr;
  v1 : VertexPtr;
  v2 : VertexPtr;
  marker : Z;
  twin_edge : option EdgePtr;
  length : float;
  tangent : Vec2d;
  normal : Vec2d;
  xy : Vec2d }.

Definition create (p : EdgePtr) (a b : VertexPtr) (xa xb : Vec2d) (m : Z) : t :=
  let d := Vec2d.sub xb xa in
  let len := Vec2d.norm d in
  let tg := Vec2d.div d len in
  mk p a b m None len tg
       (Vec2d.mk (- Vec2d.y tg)%float (Vec2d.x tg))
       (Vec2d.scale 0.5%float (Vec2d.add xa xb)).

Definition set_twin_edge (tw : option EdgePtr) (e : t) : t :=
  mk (ptr e) (v1 e) (v2 e) (marker e) tw (length e) (tangent e) (normal e) (xy e).
End Edge.

Abbreviation Edge := Edge.t.

Module EdgeList.
Record t := mk {
  edges_ : list Edge;    (* in container order *)
  fresh : EdgePtr;       (* the next handle *)
  area_ : float }.       (* the cached signed area *)

Definition size (el : t) : nat := length (edges_ el).

Fixpoint find (p : EdgePtr) (l : list Edge) : option Edge :=
  match l with
  | [] => None
  | e :: l' => if Nat.eqb (Edge.ptr e) p then Some e else find p l'
  end.

Definition get (el : t) (p : EdgePtr) : Exec Edge := deref_opt (find p (edges_ el)).

Fixpoint insert_before (pos : EdgePtr) (e : Edge) (l : list Edge) : list Edge :=
  match l with
  | [] => [e]
  | d :: l' => if Nat.eqb (Edge.ptr d) pos then e :: d :: l'
               else d :: insert_before pos e l'
  end.

(** [remove(edge)] destroys the edge with that identity. *)
Definition remove (p : EdgePtr) (el : t) : t :=
  mk (filter (λ e, Edge.ptr e ≠ p) (edges_ el)) (fresh el) (area_ el).

Definition clear_edges (el : t) : t := mk [] (fresh el) (area_ el).

(** A write through an [Edge*] that points into the list. *)
Definition update (p : EdgePtr) (f : Edge → Edge) (el : t) : t :=
  mk (map (λ e, if Nat.eqb (Edge.ptr e) p then f e else e) (edges_ el))
     (fresh el) (area_ el).

(** [get_edge(v1, v2)]: lookup by ordered endpoint pair. *)
Definition get_edge (el : t) (a b : VertexPtr) : option Edge :=
  List.find (λ e, Nat.eqb (Edge.v1 e) a && Nat.eqb (Edge.v2 e) b) (edges_ el).

(** [get_edge(vertex, which)]: with [which = 1] the edge that has the vertex
    as v1, with [which = 2] the edge that has it as v2. *)
Definition get_edge_at (el : t) (v : VertexPtr) (which : Z) : option Edge :=
  List.find (λ e, if (which =? 1)%Z then Nat.eqb (Edge.v1 e) v
                  else if (which =? 2)%Z then Nat.eqb (Edge.v2 e) v
                  else false) (edges_ el).

(** The hook [mark_objects(v1, v2, e)] that an edge list calls on the end
    vertices of every edge it creates. *)
Definition Marker := VertexPtr → VertexPtr → Vertices → Vertices.

(** [insert_edge(pos, v1, v2, marker)] creates an edge before [pos];
    [add_edge(v1, v2, marker)] appends one. *)
Definition insert_edge (mark : Marker) (pos : EdgePtr) (a b : VertexPtr) (m : Z)
    (el : t) (vs : Vertices) : Exec (Edge * t * Vertices) :=
  va ← Vertices.get vs a;
  vb ← Vertices.get vs b;
  let e := Edge.create (fresh el) a b (Vertex.xy va) (Vertex.xy vb) m in
  Ret (e, mk (insert_before pos e (edges_ el)) (S (fresh el)) (area_ el),
       mark a b vs).

Definition add_edge (mark : Marker) (a b : VertexPtr) (m : Z)
    (el : t) (vs : Vertices) : Exec (Edge * t * Vertices) :=
  va ← Vertices.get vs a;
  vb ← Vertices.get vs b;
  let e := Edge.create (fresh el) a b (Vertex.xy va) (Vertex.xy vb) m in
  Ret (e, mk (edges_ el ++ [e]) (S (fresh el)) (area_ el), mark a b vs).

(** [split_edge(e, verts, s, recursive)] replaces [e] by two edges that share
    a new vertex at parameter [s] along [e], and keeps the marker. *)
Definition split_edge (mark : Marker) (p : EdgePtr) (sf : float)
    (el : t) (vs : Vertices) : Exec (Edge * Edge * t * Vertices) :=
  e ← get el p;
  va ← Vertices.get vs (Edge.v1 e);
  vb ← Vertices.get vs (Edge.v2 e);
  let c := Vec2d.add (Vertex.xy va)
             (Vec2d.scale sf (Vec2d.sub (Vertex.xy vb) (Vertex.xy va))) in
  let '(vn, vs1) := Vertices.push_back c vs in
  '(e1, el1, vs2) ← insert_edge mark p (Edge.v1 e) vn (Edge.marker e) el vs1;
  '(e2, el2, vs3) ← insert_edge mark p vn (Edge.v2 e) (Edge.marker e) el1 vs2;
  Ret (e1, e2, remove p el2, vs3).

(** The signed area, half the sum of x_i * y_(i+1) - x_(i+1) * y_i over the
    edges in order. *)
Fixpoint area_sum (vs : Vertices) (l : list Edge) (acc : float) : Exec float :=
  match l with
  | [] => Ret acc
  | e :: l' =>
      va ← Vertices.get vs (Edge.v1 e);
      vb ← Vertices.get vs (Edge.v2 e);
      area_sum vs l'
        (acc + (Vec2d.x (Vertex.xy va) * Vec2d.y (Vertex.xy vb)
                - Vec2d.x (Vertex.xy vb) * Vec2d.y (Vertex.xy va)))%float
  end.

Definition compute_area (vs : Vertices) (el : t) : Exec t :=
  a ← area_sum vs (edges_ el) 0%float;
  Ret (mk (edges_ el) (fresh el) (0.5 * a)%float).

(** Edge handles are distinct and below the next handle. *)
Definition wf (el : t) : Prop :=
  NoDup (map Edge.ptr (edges_ el)) ∧ Forall (λ e, Edge.ptr e < fresh el) (edges_ el).
End EdgeList.

Abbreviation EdgeList := EdgeList.t.

(** ** The collaborators of the front
    Domain.h and FrontInitializer.h are not under src/: the front consumes
    the number of boundaries and the size function of a domain, and, per
    boundary, the seed edges of an initializer with their twin flags and
    markers. The build decides whether the checks under [#ifndef NDEBUG]
    are compiled in. *)

Module Domain.
Record t := mk {
  size : nat;
  size_function : Vec2d → float }.
End Domain.

Abbreviation Domain := Domain.t.

Class Build := { NDEBUG : bool }.

(** A seed edge belongs to a boundary of the domain or to a neighbouring
    mesh; the front reads the coordinates of its end vertices and, for a
    twin, writes its twin reference. *)
Record SeedEdge := mkSeedEdge {
  seed_ptr : EdgePtr;
  seed_v1_xy : Vec2d;
  seed_v2_xy : Vec2d }.

Module FrontInitializer.
Record t := mk {
  edges : list (list SeedEdge);
  is_twin_edge : list (list bool);
  markers : list (list Z) }.
End FrontInitializer.

(** ** class Front (Front.h) *)

Module Front.

(** [Front::mark_objects] *)
Definition mark_objects : EdgeList.Marker := λ a b vs,
  Vertices.update b (Vertex.set_on_front true)
    (Vertices.update a (Vertex.set_on_front true) vs).

(** [Front::get_edges_to_refine] *)
Definition get_edges_to_refine (front : EdgeList) : list EdgePtr :=
  map Edge.ptr
    (List.filter (λ e, match Edge.twin_edge e with None => true | Some _ => false end)
       (EdgeList.edges_ front)).

(** The predictor-corrector loop [while ( true )] of
    [Front::create_sub_vertex_coords]; it returns [xy_new] and [s_last]. *)
Fixpoint sub_vertex_loop (fuel : nat) (domain : Domain) (len : float)
    (tang xy_a : Vec2d) (s_end : float) (xy_new : list Vec2d) (xy : Vec2d)
    : Exec (list Vec2d * float) :=
  match fuel with
  | 0 => OutOfFuel
  | S fuel' =>
      let rho := Domain.size_function domain xy in
      let xy_p := Vec2d.add xy (Vec2d.scale rho tang) in
      let rho_p := Domain.size_function domain xy_p in
      let dxy_c := Vec2d.scale (0.5 * (rho + rho_p))%float tang in
      let xy_c := Vec2d.add xy dxy_c in
      let l := Vec2d.norm (Vec2d.sub xy_c xy_a) in
      let s := (l / len)%float in
      let xy_new' := xy_new ++ [xy_c] in
      if (s_end <? s)%float then Ret (xy_new', s)
      else sub_vertex_loop fuel' domain len tang xy_a s_end xy_new' xy_c
  end.

(** The debug check that the new points are ordered ascendingly. *)
Fixpoint ascending (xy_0 : Vec2d) (s_prev : float) (l : list Vec2d) : bool :=
  match l with
  | [] => true
  | p :: l' =>
      let s := Vec2d.norm (Vec2d.sub p xy_0) in
      (s_prev <? s)%float && ascending xy_0 s l'
  end.

(** The points strictly between the first and the last one. *)
Definition interior {A} (l : list A) : list A := removelast (tail l).

(** [Front::create_sub_vertex_coords]. After the loop, [xy_new] is the
    start point followed by at least one more point; its last point is
    overwritten by the end point and the cropped distance is distributed
    among the points in between. *)
Definition create_sub_vertex_coords `{Build} (fuel : nat) (vs : Vertices)
    (e : Edge) (dir : bool) (rho_1 rho_2 : float) (domain : Domain)
    : Exec (list Vec2d) :=
  v_a ← Vertices.get vs (if dir then Edge.v1 e else Edge.v2 e);
  v_b ← Vertices.get vs (if dir then Edge.v2 e else Edge.v1 e);
  let tang := if dir then Edge.tangent e else Vec2d.neg (Edge.tangent e) in
  let rho_b := if dir then rho_2 else rho_1 in
  let s_end := (1 - 0.5 * rho_b / Edge.length e)%float in
  '(xy_loop, s_last) ←
     sub_vertex_loop fuel domain (Edge.length e) tang (Vertex.xy v_a) s_end
       [Vertex.xy v_a] (Vertex.xy v_a);
  let mid := interior xy_loop in
  let d_cr := Vec2d.scale ((1 - s_last) * Edge.length e)%float tang in
  let rho_i := 0%float :: map (Domain.size_function domain) mid ++ [0%float] in
  let rho_tot := fold_left PrimFloat.add rho_i 0%float in
  let w := map (λ v, (v / rho_tot)%float) (interior rho_i) in
  let mid' := zip_with (λ p r, Vec2d.add p (Vec2d.scale r d_cr)) mid w in
  let xy_new := Vertex.xy v_a :: mid' ++ [Vertex.xy v_b] in
  ASSERT (NDEBUG || ascending (Vertex.xy v_a) 0%float (tail xy_new));;
  Ret (if dir then xy_new else rev xy_new).

(** [Front::create_sub_edges]: the loop over the interior points, then the
    closing edge to [e.v2()]. *)
Fixpoint create_sub_edges_loop (e : Edge) (pts : list Vec2d) (v_cur : VertexPtr)
    (front : EdgeList) (vs : Vertices) : Exec (VertexPtr * EdgeList * Vertices) :=
  match pts with
  | [] => Ret (v_cur, front, vs)
  | c :: pts' =>
      let '(v_n, vs1) := Vertices.insert (Edge.v2 e) c vs in
      let vs2 := Vertices.update v_n (Vertex.set_is_fixed true) vs1 in
      '(e_new, front1, vs3) ←
         EdgeList.insert_edge mark_objects (Edge.ptr e) v_cur v_n (Edge.marker e)
           front vs2;
      let vs4 := Vertices.update (Edge.v1 e_new) (Vertex.set_on_boundary true) vs3 in
      let vs5 := Vertices.update (Edge.v2 e_new) (Vertex.set_on_boundary true) vs4 in
      create_sub_edges_loop e pts' v_n front1 vs5
  end.

Definition create_sub_edges (e : Edge) (xy_new : list Vec2d)
    (front : EdgeList) (vs : Vertices) : Exec (EdgeList * Vertices) :=
  '(v_cur, front1, vs1) ←
     create_sub_edges_loop e (interior xy_new) (Edge.v1 e) front vs;
  '(e_new, front2, vs2) ←
     EdgeList.insert_edge mark_objects (Edge.ptr e) v_cur (Edge.v2 e) (Edge.marker e)
       front1 vs1;
  let vs3 := Vertices.update (Edge.v1 e_new) (Vertex.set_on_boundary true) vs2 in
  let vs4 := Vertices.update (Edge.v2 e_new) (Vertex.set_on_boundary true) vs3 in
  Ret (front2, vs4).

(** [Front::refine_edge] *)
Definition refine_edge `{Build} (fuel : nat) (domain : Domain) (edge : EdgePtr)
    (front : EdgeList) (vs : Vertices) : Exec (bool * EdgeList * Vertices) :=
  e ← EdgeList.get front edge;
  a ← Vertices.get vs (Edge.v1 e);
  b ← Vertices.get vs (Edge.v2 e);
  let rho_1 := Domain.size_function domain (Vertex.xy a) in
  let rho_2 := Domain.size_function domain (Vertex.xy b) in
  let dir := (rho_1 <? rho_2)%float in
  xy_new ← create_sub_vertex_coords fuel vs e dir rho_1 rho_2 domain;
  if length xy_new <? 3 then Ret (false, front, vs)
  else
    '(front', vs') ← create_sub_edges e xy_new front vs;
    Ret (true, front', vs').

(** [Front::refine_front_edges]: the loop over [edges_to_refine], which
    collects [edges_to_remove], then the removal, then the area. *)
Fixpoint refine_loop `{Build} (fuel : nat) (domain : Domain)
    (edges_to_refine : list EdgePtr) (edges_to_remove : list EdgePtr)
    (front : EdgeList) (vs : Vertices) : Exec (list EdgePtr * EdgeList * Vertices) :=
  match edges_to_refine with
  | [] => Ret (edges_to_remove, front, vs)
  | cur_edge :: rest =>
      '(ok, front', vs') ← refine_edge fuel domain cur_edge front vs;
      refine_loop fuel domain rest
        (if ok : bool then edges_to_remove ++ [cur_edge] else edges_to_remove) front' vs'
  end.

Definition refine_front_edges `{Build} (fuel : nat) (domain : Domain)
    (front : EdgeList) (vs : Vertices) : Exec (Z * EdgeList * Vertices) :=
  let n_before := EdgeList.size front in
  let edges_to_refine := get_edges_to_refine front in
  '(edges_to_remove, front1, vs1) ←
     refine_loop fuel domain edges_to_refine [] front vs;
  let front2 := fold_left (λ f p, EdgeList.remove p f) edges_to_remove front1 in
  front3 ← EdgeList.compute_area vs1 front2;
  Ret ((Z.of_nat (EdgeList.size front3) - Z.of_nat n_before)%Z, front3, vs1).

(** [Front::init_mesh_vertices] *)
Fixpoint init_mesh_vertices_loop (front_edges : list SeedEdge) (i : nat)
    (is_twin_edge : list bool) (new_vertices : list VertexPtr) (vs : Vertices)
    : Exec (list VertexPtr * Vertices) :=
  match front_edges with
  | [] => Ret (new_vertices, vs)
  | e :: rest =>
      tw ← at_index is_twin_edge i;
      let c := if negb tw then seed_v1_xy e else seed_v2_xy e in
      let '(v_new, vs1) := Vertices.push_back c vs in
      let vs2 := Vertices.update v_new (Vertex.set_on_front true) vs1 in
      let vs3 := Vertices.update v_new (Vertex.set_on_boundary true) vs2 in
      let vs4 := Vertices.update v_new (Vertex.set_is_fixed true) vs3 in
      init_mesh_vertices_loop rest (S i) is_twin_edge (new_vertices ++ [v_new]) vs4
  end.

Definition init_mesh_vertices (front_edges : list SeedEdge)
    (is_twin_edge : list bool) (vs : Vertices) : Exec (list VertexPtr * Vertices) :=
  init_mesh_vertices_loop front_edges 0 is_twin_edge [] vs.

(** [Front::init_front_edges] *)
Fixpoint init_front_edges_loop (front_edges : list SeedEdge) (i_edge : nat)
    (markers : list Z) (new_vertices : list VertexPtr) (new_edges : list EdgePtr)
    (front : EdgeList) (vs : Vertices) : Exec (list EdgePtr * EdgeList * Vertices) :=
  match front_edges with
  | [] => Ret (new_edges, front, vs)
  | _ :: rest =>
      let n_verts := Z.of_nat (length new_vertices) in
      let i1 := Z.of_nat i_edge in
      let i2 := MOD (i1 + 1) n_verts in
      a ← at_index new_vertices (Z.to_nat i1);
      b ← at_index new_vertices (Z.to_nat i2);
      m ← at_index markers i_edge;
      '(e_new, front1, vs1) ← EdgeList.add_edge mark_objects a b m front vs;
      init_front_edges_loop rest (S i_edge) markers new_vertices
        (new_edges ++ [Edge.ptr e_new]) front1 vs1
  end.

Definition init_front_edges (front_edges : list SeedEdge) (markers : list Z)
    (new_vertices : list VertexPtr) (front : EdgeList) (vs : Vertices)
    : Exec (list EdgePtr * EdgeList * Vertices) :=
  init_front_edges_loop front_edges 0 markers new_vertices [] front vs.

(** [Front::mark_twin_edges]; the second component collects the writes
    [twin_edge->twin_edge( new_edges[i_edge] )] to the seed edges, as pairs
    of the seed edge and its new twin. *)
Fixpoint mark_twin_edges_loop (front_edges : list SeedEdge) (i_edge : nat)
    (is_twin_edge : list bool) (new_edges : list EdgePtr)
    (front : EdgeList) (seed_twins : list (EdgePtr * EdgePtr))
    : Exec (EdgeList * list (EdgePtr * EdgePtr)) :=
  match front_edges with
  | [] => Ret (front, seed_twins)
  | twin_edge :: rest =>
      tw ← at_index is_twin_edge i_edge;
      ne ← at_index new_edges i_edge;
      if tw : bool then
        mark_twin_edges_loop rest (S i_edge) is_twin_edge new_edges
          (EdgeList.update ne (Edge.set_twin_edge (Some (seed_ptr twin_edge))) front)
          (seed_twins ++ [(seed_ptr twin_edge, ne)])
      else
        e ← EdgeList.get front ne;
        ASSERT (match Edge.twin_edge e with None => true | Some _ => false end);;
        mark_twin_edges_loop rest (S i_edge) is_twin_edge new_edges front seed_twins
  end.

Definition mark_twin_edges (front_edges : list SeedEdge) (is_twin_edge : list bool)
    (new_edges : list EdgePtr) (front : EdgeList) (seed_twins : list (EdgePtr * EdgePtr))
    : Exec (EdgeList * list (EdgePtr * EdgePtr)) :=
  mark_twin_edges_loop front_edges 0 is_twin_edge new_edges front seed_twins.

(** [Front::init_front]: the loop over the boundaries of the domain, then
    the refinement. [seed_front] is the loop alone. *)
Fixpoint init_front_loop (n_bdry : nat) (i_bdry : nat)
    (front_initializer : FrontInitializer.t)
    (front : EdgeList) (vs : Vertices) (seed_twins : list (EdgePtr * EdgePtr))
    : Exec (EdgeList * Vertices * list (EdgePtr * EdgePtr)) :=
  match n_bdry with
  | 0 => Ret (front, vs, seed_twins)
  | S n' =>
      front_edges ← at_index (FrontInitializer.edges front_initializer) i_bdry;
      is_twin_edge ← at_index (FrontInitializer.is_twin_edge front_initializer) i_bdry;
      markers ← at_index (FrontInitializer.markers front_initializer) i_bdry;
      '(new_vertices, vs1) ← init_mesh_vertices front_edges is_twin_edge vs;
      '(new_edges, front1, vs2) ←
         init_front_edges front_edges markers new_vertices front vs1;
      '(front2, seed_twins1) ←
         mark_twin_edges front_edges is_twin_edge new_edges front1 seed_twins;
      init_front_loop n' (S i_bdry) front_initializer front2 vs2 seed_twins1
  end.

Definition seed_front (domain : Domain) (front_initializer : FrontInitializer.t)
    (front : EdgeList) (vs : Vertices)
    : Exec (EdgeList * Vertices * list (EdgePtr * EdgePtr)) :=
  init_front_loop (Domain.size domain) 0 front_initializer front vs [].

Definition init_front `{Build} (fuel : nat) (domain : Domain)
    (front_initializer : FrontInitializer.t) (front : EdgeList) (vs : Vertices)
    : Exec (EdgeList * Vertices * list (EdgePtr * EdgePtr)) :=
  '(front1, vs1, seed_twins) ← seed_front domain front_initializer front vs;
  '(_, front2, vs2) ← refine_front_edges fuel domain front1 vs1;
  Ret (front2, vs2, seed_twins).

(** The cursor [base_] of the front, [Front::set_base_first] and
    [Front::set_base_next].
    Modelled from the spec: [Edge::pos()] (Edge.h) is not under src/; it is
    the position handle of an edge inside the list that owns it, so that
    [base_->pos()] is the place of the base edge in [edges_]; a base that is
    null or no longer in the list has no place to advance from. *)
Fixpoint position (p : EdgePtr) (l : list Edge) : option nat :=
  match l with
  | [] => None
  | e :: l' => if Nat.eqb (Edge.ptr e) p then Some 0 else S <$> position p l'
  end.

Definition set_base_first (front : EdgeList) (base_ : option EdgePtr)
    : option EdgePtr :=
  if EdgeList.size front <? 1 then base_
  else match EdgeList.edges_ front with
       | e :: _ => Some (Edge.ptr e)
       | [] => base_
       end.

Definition set_base_next (front : EdgeList) (base_ : option EdgePtr)
    : Exec (option EdgePtr) :=
  if EdgeList.size front <? 1 then Ret base_
  else
    b ← deref_opt base_;
    iter ← deref_opt (position b (EdgeList.edges_ front));
    match EdgeList.edges_ front !! S iter with
    | Some e => Ret (Some (Edge.ptr e))
    | None => Ret (set_base_first front base_)
    end.

End Front.

(** ** The collaborators of the quad layer
    Geometry.h, the constants of the library and [Edge::get_next_edge] /
    [Edge::get_prev_edge] are not under src/, and [sin] and [cos] come from
    the C library: they are taken as interfaces. *)

Class Geometry := {
  angle : Vec2d → Vec2d → float;
  is_left : Vec2d → Vec2d → Vec2d → bool;
  sin : float → float;
  cos : float → float;
  CONSTANTS_quad_layer_angle : float }.

Class EdgeLinks := {
  get_next_edge : EdgeList → EdgePtr → option EdgePtr;
  get_prev_edge : EdgeList → EdgePtr → option EdgePtr;
  (* [mark_objects] of the boundary edge list of the mesh *)
  bdry_mark_objects : EdgeList.Marker }.

(** The vertex container, the front and the boundary edges of the mesh:
    what [QuadLayer::setup_vertex_projection] reads and writes. *)
Record Env := mkEnv {
  verts : Vertices;
  front : EdgeList;
  bdry_edges : EdgeList }.

(** Vector access with an [int] index, and a write [v[i] = x]. *)
Definition at_Z {A} (l : list A) (i : Z) : Exec A :=
  if (i <? 0)%Z then Undef else at_index l (Z.to_nat i).

Definition set_Z {A} (l : list A) (i : Z) (a : A) : Exec (list A) :=
  if (i <? 0)%Z then Undef
  else if Z.to_nat i <? length l then Ret (<[Z.to_nat i := a]> l) else Undef.

(** [v.back()] and [v.back() = x]. *)
Definition back {A} (l : list A) : Exec A := deref_opt (last l).

Definition set_back {A} (l : list A) (a : A) : Exec (list A) :=
  match l with
  | [] => Undef
  | _ => Ret (<[pred (length l) := a]> l)
  end.

(** ** class QuadLayer (QuadLayer.h) *)

Module QuadLayer.

Record t := mk {
  e_start_ : EdgePtr;
  e_end_ : EdgePtr;
  is_closed_ : bool;
  height_ : float;
  base_edges_ : list EdgePtr;
  base_v1_ : list VertexPtr;
  base_v2_ : list VertexPtr;
  proj_v1_ : list (option VertexPtr);
  proj_v2_ : list (option VertexPtr);
  proj_v1_xy_ : list Vec2d;
  proj_v2_xy_ : list Vec2d;
  heights_ : list float }.

Definition set_proj_v1_ (l : list (option VertexPtr)) (q : t) : t :=
  mk (e_start_ q) (e_end_ q) (is_closed_ q) (height_ q) (base_edges_ q)
     (base_v1_ q) (base_v2_ q) l (proj_v2_ q) (proj_v1_xy_ q) (proj_v2_xy_ q)
     (heights_ q).
Definition set_proj_v2_ (l : list (option VertexPtr)) (q : t) : t :=
  mk (e_start_ q) (e_end_ q) (is_closed_ q) (height_ q) (base_edges_ q)
     (base_v1_ q) (base_v2_ q) (proj_v1_ q) l (proj_v1_xy_ q) (proj_v2_xy_ q)
     (heights_ q).
Definition set_proj_v1_xy_ (l : list Vec2d) (q : t) : t :=
  mk (e_start_ q) (e_end_ q) (is_closed_ q) (height_ q) (base_edges_ q)
     (base_v1_ q) (base_v2_ q) (proj_v1_ q) (proj_v2_ q) l (proj_v2_xy_ q)
     (heights_ q).
Definition set_proj_v2_xy_ (l : list Vec2d) (q : t) : t :=
  mk (e_start_ q) (e_end_ q) (is_closed_ q) (height_ q) (base_edges_ q)
     (base_v1_ q) (base_v2_ q) (proj_v1_ q) (proj_v2_ q) (proj_v1_xy_ q) l
     (heights_ q).
Definition set_heights_ (l : list float) (q : t) : t :=
  mk (e_start_ q) (e_end_ q) (is_closed_ q) (height_ q) (base_edges_ q)
     (base_v1_ q) (base_v2_ q) (proj_v1_ q) (proj_v2_ q) (proj_v1_xy_ q)
     (proj_v2_xy_ q) l.

(** [QuadLayer::n_base_edges] *)
Definition n_base_edges (q : t) : Z := Z.of_nat (length (base_edges_ q)).

(** [QuadLayer::add_quadlayer_edge] *)
Definition add_quadlayer_edge (env : Env) (e_cur : EdgePtr) (q : t) : Exec t :=
  e ← EdgeList.get (front env) e_cur;
  a ← Vertices.get (verts env) (Edge.v1 e);
  b ← Vertices.get (verts env) (Edge.v2 e);
  let h := MIN (height_ q) (Edge.length e) in
  Ret (mk (e_start_ q) (e_end_ q) (is_closed_ q) (height_ q)
          (base_edges_ q ++ [e_cur])
          (base_v1_ q ++ [Edge.v1 e])
          (base_v2_ q ++ [Edge.v2 e])
          (proj_v1_ q ++ [None])
          (proj_v2_ q ++ [None])
          (proj_v1_xy_ q ++ [Vec2d.add (Vertex.xy a) (Vec2d.mul (Edge.normal e) h)])
          (proj_v2_xy_ q ++ [Vec2d.add (Vertex.xy b) (Vec2d.mul (Edge.normal e) h)])
          (heights_ q ++ [h])).

(** The loop [do { ... } while ( e_cur != e_end_ )] of the constructor. *)
Fixpoint walk `{EdgeLinks} (fuel : nat) (env : Env) (e_cur : option EdgePtr)
    (q : t) : Exec t :=
  match fuel with
  | 0 => OutOfFuel
  | S fuel' =>
      ASSERT (bool_decide (is_Some e_cur));;
      e ← deref_opt e_cur;
      q' ← add_quadlayer_edge env e q;
      let e_nxt := get_next_edge (front env) e in
      if bool_decide (e_nxt ≠ Some (e_end_ q)) then walk fuel' env e_nxt q'
      else Ret q'
  end.

(** [QuadLayer::QuadLayer] *)
Definition create `{EdgeLinks} (fuel : nat) (env : Env) (e_start e_end : EdgePtr)
    (is_closed : bool) (height : float) : Exec t :=
  let q0 := mk e_start e_end is_closed height [] [] [] [] [] [] [] [] in
  q1 ← walk fuel env (Some e_start) q0;
  add_quadlayer_edge env e_end q1.

(** [QuadLayer::smooth_heights]: the loop counter and the bound
    [heights_.size()-1] are of type [size_t]. *)
Definition size_t_max : Z := 2 ^ 64.

Fixpoint smooth_loop (fuel : nat) (domain : Domain) (env : Env) (i : nat) (q : t)
    : Exec t :=
  match fuel with
  | 0 => OutOfFuel
  | S fuel' =>
      if (Z.of_nat i <? (Z.of_nat (length (heights_ q)) - 1) `mod` size_t_max)%Z then
        h1 ← at_index (heights_ q) (i - 1);
        h2 ← at_index (heights_ q) i;
        h3 ← at_index (heights_ q) (i + 1);
        ep ← at_index (base_edges_ q) i;
        e ← EdgeList.get (front env) ep;
        let rho := Domain.size_function domain (Edge.xy e) in
        smooth_loop fuel' domain env (S i)
          (set_heights_ (<[i := MIN rho ((h1 + h2 + h3) / 3)%float]> (heights_ q)) q)
      else Ret q
  end.

Definition smooth_heights (domain : Domain) (env : Env) (q : t) : Exec t :=
  smooth_loop (S (length (heights_ q))) domain env 1 q.

(** [QuadLayer::adjust_projected_vertex_coordinates] *)
Definition adjust_projected_vertex_coordinates `{Geometry} (env : Env)
    (i j : Z) (q : t) : Exec t :=
  pi ← at_Z (base_v1_ q) i;
  p ← Vertices.get (verts env) pi;
  qj ← at_Z (base_v1_ q) j;
  qv ← Vertices.get (verts env) qj;
  rj ← at_Z (base_v2_ q) j;
  r ← Vertices.get (verts env) rj;
  let p := Vertex.xy p in
  let qq := Vertex.xy qv in
  let r := Vertex.xy r in
  let alpha := angle (Vec2d.sub p qq) (Vec2d.sub r qq) in
  if is_left p r qq && (alpha <=? CONSTANTS_quad_layer_angle)%float then Ret q
  else
    ei ← at_Z (base_edges_ q) i;
    e_i ← EdgeList.get (front env) ei;
    l1 ← at_Z (heights_ q) i;
    ej ← at_Z (base_edges_ q) j;
    e_j ← EdgeList.get (front env) ej;
    l2 ← at_Z (heights_ q) j;
    let n1 := Edge.normal e_i in
    let n2 := Edge.normal e_j in
    let normal := Vec2d.scale 0.5%float (Vec2d.add n1 n2) in
    let l := (0.5 * (l1 + l2))%float in
    let nn := Vec2d.div normal (Vec2d.norm normal) in
    let xy_proj :=
      Vec2d.add qq (Vec2d.div (Vec2d.mul nn l) (sin (0.5 * alpha)%float)) in
    p1 ← set_Z (proj_v1_xy_ q) j xy_proj;
    let q1 := set_proj_v1_xy_ p1 q in
    p2 ← set_Z (proj_v2_xy_ q1) i xy_proj;
    Ret (set_proj_v2_xy_ p2 q1).

(** The part of [place_start_vertex] and [place_end_vertex] that removes the
    boundary edge between the end vertices of the adjacent edge, if there is
    one, and keeps the position of its successor. *)
Definition remove_bdry_edge `{EdgeLinks} (e_adj : Edge) (bdry : EdgeList)
    : Exec (option EdgePtr * EdgeList) :=
  match EdgeList.get_edge bdry (Edge.v1 e_adj) (Edge.v2 e_adj) with
  | Some e_bdry_rem =>
      let tmp := get_next_edge bdry (Edge.ptr e_bdry_rem) in
      let bdry1 := EdgeList.remove (Edge.ptr e_bdry_rem) bdry in
      ASSERT (bool_decide (is_Some tmp));;
      Ret (tmp, bdry1)
  | None => Ret (None, bdry)
  end.

(** The part that adds the two new boundary edges at that position. *)
Definition insert_bdry_edges `{EdgeLinks} (e_bdry_rem : option EdgePtr)
    (e1 e2 : Edge) (bdry : EdgeList) (vs : Vertices) : Exec (EdgeList * Vertices) :=
  match e_bdry_rem with
  | Some pos =>
      '(_, bdry1, vs1) ←
         EdgeList.insert_edge bdry_mark_objects pos (Edge.v1 e1) (Edge.v2 e1)
           (Edge.marker e1) bdry vs;
      '(_, bdry2, vs2) ←
         EdgeList.insert_edge bdry_mark_objects pos (Edge.v1 e2) (Edge.v2 e2)
           (Edge.marker e2) bdry1 vs1;
      Ret (bdry2, vs2)
  | None => Ret (bdry, vs)
  end.

(** [QuadLayer::place_start_vertex] *)
Definition place_start_vertex `{Geometry} `{EdgeLinks} (env : Env) (q : t)
    : Exec (t * Env) :=
  let e_prv := get_prev_edge (front env) (e_start_ q) in
  v_start ← at_index (base_v1_ q) 0;
  ok ← match e_prv with
       | None => Ret false
       | Some p => e ← EdgeList.get (front env) p; Ret (Nat.eqb (Edge.v2 e) v_start)
       end;
  ASSERT ok;;
  p_prv ← deref_opt e_prv;
  e_prv ← EdgeList.get (front env) p_prv;
  let v_prev := Edge.v1 e_prv in
  vp ← Vertices.get (verts env) v_prev;
  b1 ← at_index (base_v1_ q) 0;
  vb1 ← Vertices.get (verts env) b1;
  b2 ← at_index (base_v2_ q) 0;
  vb2 ← Vertices.get (verts env) b2;
  if negb (is_left (Vertex.xy vb1) (Vertex.xy vb2) (Vertex.xy vp)) then Ret (q, env)
  else
    h ← at_index (heights_ q) 0;
    pxy ← at_index (proj_v1_xy_ q) 0;
    let d_fac := (Vec2d.norm (Vec2d.sub (Vertex.xy vp) pxy) / h)%float in
    if (d_fac <? 1)%float then
      p1 ← set_Z (proj_v1_ q) 0 (Some v_prev);
      Ret (set_proj_v1_ p1 q, env)
    else if (h <? Edge.length e_prv)%float then
      vs ← Vertices.get (verts env) v_start;
      let d1 := Vec2d.sub (Vertex.xy vp) (Vertex.xy vs) in
      let d2 := Vec2d.sub pxy (Vertex.xy vs) in
      let alpha := angle d1 d2 in
      let ang_fac := cos alpha in
      '(e_bdry_rem, bdry1) ← remove_bdry_edge e_prv (bdry_edges env);
      let sf := (h * ang_fac / Edge.length e_prv)%float in
      '(e1, e2, front1, verts1) ←
         EdgeList.split_edge Front.mark_objects p_prv sf (front env) (verts env);
      '(bdry2, verts2) ← insert_bdry_edges e_bdry_rem e1 e2 bdry1 verts1;
      let v_new := Edge.v2 e1 in
      vn ← Vertices.get verts2 v_new;
      p1 ← set_Z (proj_v1_ q) 0 (Some v_new);
      let q1 := set_proj_v1_ p1 q in
      p1xy ← set_Z (proj_v1_xy_ q1) 0 (Vertex.xy vn);
      Ret (set_proj_v1_xy_ p1xy q1, mkEnv verts2 front1 bdry2)
    else
      p1 ← set_Z (proj_v1_ q) 0 (Some v_prev);
      let q1 := set_proj_v1_ p1 q in
      p1xy ← set_Z (proj_v1_xy_ q1) 0 (Vertex.xy vp);
      Ret (set_proj_v1_xy_ p1xy q1, env).

(** [QuadLayer::place_end_vertex] *)
Definition place_end_vertex `{Geometry} `{EdgeLinks} (env : Env) (q : t)
    : Exec (t * Env) :=
  let e_nxt := get_next_edge (front env) (e_end_ q) in
  v_end ← back (base_v2_ q);
  ok ← match e_nxt with
       | None => Ret false
       | Some p => e ← EdgeList.get (front env) p; Ret (Nat.eqb (Edge.v1 e) v_end)
       end;
  ASSERT ok;;
  p_nxt ← deref_opt e_nxt;
  e_nxt ← EdgeList.get (front env) p_nxt;
  let v_next := Edge.v2 e_nxt in
  vx ← Vertices.get (verts env) v_next;
  b1 ← back (base_v1_ q);
  vb1 ← Vertices.get (verts env) b1;
  b2 ← back (base_v2_ q);
  vb2 ← Vertices.get (verts env) b2;
  if negb (is_left (Vertex.xy vb1) (Vertex.xy vb2) (Vertex.xy vx)) then Ret (q, env)
  else
    h ← back (heights_ q);
    pxy ← back (proj_v2_xy_ q);
    let d_fac := (Vec2d.norm (Vec2d.sub (Vertex.xy vx) pxy) / h)%float in
    if (d_fac <? 1)%float then
      p2 ← set_back (proj_v2_ q) (Some v_next);
      Ret (set_proj_v2_ p2 q, env)
    else if (h <? Edge.length e_nxt)%float then
      ve ← Vertices.get (verts env) v_end;
      let d1 := Vec2d.sub (Vertex.xy vx) (Vertex.xy ve) in
      let d2 := Vec2d.sub pxy (Vertex.xy ve) in
      let alpha := angle d1 d2 in
      let ang_fac := cos alpha in
      '(e_bdry_rem, bdry1) ← remove_bdry_edge e_nxt (bdry_edges env);
      let sf := (1 - h * ang_fac / Edge.length e_nxt)%float in
      '(e1, e2, front1, verts1) ←
         EdgeList.split_edge Front.mark_objects p_nxt sf (front env) (verts env);
      '(bdry2, verts2) ← insert_bdry_edges e_bdry_rem e1 e2 bdry1 verts1;
      let v_new := Edge.v2 e1 in
      vn ← Vertices.get verts2 v_new;
      p2 ← set_back (proj_v2_ q) (Some v_new);
      let q1 := set_proj_v2_ p2 q in
      p2xy ← set_back (proj_v2_xy_ q1) (Vertex.xy vn);
      Ret (set_proj_v2_xy_ p2xy q1, mkEnv verts2 front1 bdry2)
    else
      p2 ← set_back (proj_v2_ q) (Some v_next);
      let q1 := set_proj_v2_ p2 q in
      p2xy ← set_back (proj_v2_xy_ q1) (Vertex.xy vx);
      Ret (set_proj_v2_xy_ p2xy q1, env).

(** [QuadLayer::setup_vertex_projection]: the loop
    [for ( size_t i = 1; i < base_edges_.size(); ++i )], then the two ends. *)
Fixpoint adjust_loop `{Geometry} (todo : nat) (env : Env) (i : nat) (q : t)
    : Exec t :=
  match todo with
  | 0 => Ret q
  | S todo' =>
      q' ← adjust_projected_vertex_coordinates env (Z.of_nat i - 1) (Z.of_nat i) q;
      adjust_loop todo' env (S i) q'
  end.

Definition setup_vertex_projection `{Geometry} `{EdgeLinks} (env : Env) (q : t)
    : Exec (t * Env) :=
  q1 ← adjust_loop (length (base_edges_ q) - 1) env 1 q;
  if is_closed_ q1 then
    q2 ← adjust_projected_vertex_coordinates env (n_base_edges q1 - 1) 0 q1;
    Ret (q2, env)
  else
    '(q2, env1) ← place_start_vertex env q1;
    place_end_vertex env1 q2.

End QuadLayer.

(** ** The collaborators of the driver
    Mesh.h, FrontUpdate.h, FrontAlgorithm.h, Cleanup and
    [EdgeList::is_traversable] are not under src/. The driver works on the
    vertex container, the front and the boundary edges, and on the rest of
    the mesh (interior edges, triangles, quads, waste), which only the
    collaborators look into. *)

Definition TrianglePtr := nat.

Record World (Rest : Type) := mkWorld {
  env : Env;
  mesh_rest : Rest }.

Arguments mkWorld {Rest} env mesh_rest.
Arguments env {Rest} w.
Arguments mesh_rest {Rest} w.

Class Collaborators (Rest : Type) := {
  (* Cleanup and FrontAlgorithm *)
  setup_facet_connectivity : World Rest → Exec (World Rest);
  init_advancing_front : bool → World Rest → Exec (World Rest);
  remove_invalid_mesh_edges : World Rest → Exec (World Rest);
  finish_mesh_for_output : World Rest → Exec (World Rest);
  (* Mesh *)
  clear_waste : World Rest → Exec (World Rest);
  add_vertex : Vec2d → World Rest → Exec (VertexPtr * World Rest);
  add_triangle :
    VertexPtr → VertexPtr → VertexPtr → World Rest → Exec (TrianglePtr * World Rest);
  (* [add_quad] followed by [is_active( true )] on the new quad *)
  add_active_quad :
    VertexPtr → VertexPtr → VertexPtr → VertexPtr → World Rest → Exec (World Rest);
  remove_triangle : TrianglePtr → World Rest → Exec (World Rest);
  interior_edges_get_edge : World Rest → VertexPtr → VertexPtr → option EdgePtr;
  remove_interior_edge : EdgePtr → World Rest → Exec (World Rest);
  triangle_v3 : World Rest → TrianglePtr → Exec VertexPtr;
  (* Edge and EdgeList *)
  in_container : World Rest → EdgePtr → Exec bool;
  is_traversable : World Rest → EdgePtr → EdgePtr → bool;
  (* FrontUpdate *)
  update_front :
    EdgePtr → Vec2d → Vec2d → float → World Rest → Exec (option TrianglePtr * World Rest);
  remove_from_mesh_if_invalid : TrianglePtr → World Rest → Exec (bool * World Rest);
  remove_from_mesh_if_invalid_3 :
    VertexPtr → TrianglePtr → TrianglePtr → World Rest → Exec (bool * World Rest);
  advance_front : EdgePtr → VertexPtr → TrianglePtr → World Rest → Exec (World Rest) }.

(** ** class FrontQuadLayering (FrontQuadLayering.h)
    The driver names the members of the quad layer [n_bases], [bases], [b1],
    [b2], [p1], [p2], [p1_xy], [p2_xy]; they are [n_base_edges],
    [base_edges_], [base_v1_], [base_v2_], [proj_v1_], [proj_v2_],
    [proj_v1_xy_] and [proj_v2_xy_] of QuadLayer.h. *)

Module FrontQuadLayering.

Record t (Rest : Type) := mk {
  mesh_ : World Rest;          (* mesh_ and front_ *)
  domain_ : Domain;
  n_layers_ : nat;
  first_height_ : float;
  growth_rate_ : float;
  xy_start_ : Vec2d;
  xy_end_ : Vec2d }.

Arguments mk {Rest}.
Arguments mesh_ {Rest}.
Arguments domain_ {Rest}.
Arguments n_layers_ {Rest}.
Arguments first_height_ {Rest}.
Arguments growth_rate_ {Rest}.
Arguments xy_start_ {Rest}.
Arguments xy_end_ {Rest}.

(* 1.57079633, rounded to binary64 *)
Definition quad_layer_angle_ : float := 0x1.921fb55206ddfp+0%float.
Definition quad_layer_range_ : float := 0.75%float.

Definition set_mesh_ {Rest} (w : World Rest) (s : t Rest) : t Rest :=
  mk w (domain_ s) (n_layers_ s) (first_height_ s) (growth_rate_ s)
     (xy_start_ s) (xy_end_ s).

Definition set_anchors {Rest} (a b : Vec2d) (s : t Rest) : t Rest :=
  mk (mesh_ s) (domain_ s) (n_layers_ s) (first_height_ s) (growth_rate_ s) a b.

(** The scan [for ( const auto& e_ptr : front_ )] of [generate_quad_layer]
    for the front vertices closest to the start and ending coordinates. *)
Fixpoint closest_vertices (es : list Edge) (vs : Vertices) (xy_start xy_end : Vec2d)
    (v_start v_end : option VertexPtr) (d_start_sqr_min d_end_sqr_min : float)
    : Exec (option VertexPtr * option VertexPtr) :=
  match es with
  | [] => Ret (v_start, v_end)
  | e :: es' =>
      v1 ← Vertices.get vs (Edge.v1 e);
      let d_start_sqr := Vec2d.norm_sqr (Vec2d.sub xy_start (Vertex.xy v1)) in
      let d_end_sqr := Vec2d.norm_sqr (Vec2d.sub xy_end (Vertex.xy v1)) in
      let '(v_start, d_start_sqr_min) :=
        if (d_start_sqr <? d_start_sqr_min)%float
        then (Some (Edge.v1 e), d_start_sqr) else (v_start, d_start_sqr_min) in
      let '(v_end, d_end_sqr_min) :=
        if (d_end_sqr <? d_end_sqr_min)%float
        then (Some (Edge.v1 e), d_end_sqr) else (v_end, d_end_sqr_min) in
      closest_vertices es' vs xy_start xy_end v_start v_end
        d_start_sqr_min d_end_sqr_min
  end.

(** One pass of the loop body of [create_quad_layer_elements]; every
    [continue] returns the layer and the world as they are at that point. *)
Definition create_quad_layer_element {Rest} `{Collaborators Rest} (i : nat)
    (ql : QuadLayer.t) (w : World Rest) : Exec (QuadLayer.t * World Rest) :=
  h ← at_index (QuadLayer.heights_ ql) i;
  let r := (quad_layer_range_ * h)%float in
  base ← at_index (QuadLayer.base_edges_ ql) i;
  inc ← in_container w base;
  if negb inc then Ret (ql, w)
  else
    p1_xy ← at_index (QuadLayer.proj_v1_xy_ ql) i;
    '(t1, w1) ← update_front base p1_xy p1_xy r w;
    match t1 with
    | None => Ret (ql, w1)
    | Some t1 =>
        p1i ← triangle_v3 w1 t1;
        p1 ← set_Z (QuadLayer.proj_v1_ ql) (Z.of_nat i) (Some p1i);
        let ql1 := QuadLayer.set_proj_v1_ p1 ql in
        b2i ← at_index (QuadLayer.base_v2_ ql1) i;
        match EdgeList.get_edge (front (env w1)) p1i b2i with
        | None => Ret (ql1, w1)
        | Some base' =>
            p2_xy ← at_index (QuadLayer.proj_v2_xy_ ql1) i;
            '(t2, w2) ← update_front (Edge.ptr base') p2_xy p2_xy r w1;
            match t2 with
            | None => Ret (ql1, w2)
            | Some t2 =>
                p2i ← triangle_v3 w2 t2;
                p2 ← set_Z (QuadLayer.proj_v2_ ql1) (Z.of_nat i) (Some p2i);
                let ql2 := QuadLayer.set_proj_v2_ p2 ql1 in
                match interior_edges_get_edge w2 b2i p1i with
                | None => Ret (ql2, w2)
                | Some e_rem =>
                    w3 ← remove_interior_edge e_rem w2;
                    w4 ← remove_triangle t1 w3;
                    w5 ← remove_triangle t2 w4;
                    b1i ← at_index (QuadLayer.base_v1_ ql2) i;
                    w6 ← add_active_quad b1i b2i p2i p1i w5;
                    Ret (ql2, w6)
                end
            end
        end
    end.

(** [FrontQuadLayering::create_quad_layer_elements] *)
Fixpoint create_quad_layer_elements_loop {Rest} `{Collaborators Rest}
    (todo : nat) (i : nat) (ql : QuadLayer.t) (w : World Rest)
    : Exec (QuadLayer.t * World Rest) :=
  match todo with
  | 0 => Ret (ql, w)
  | S todo' =>
      '(ql', w') ← create_quad_layer_element i ql w;
      create_quad_layer_elements_loop todo' (S i) ql' w'
  end.

Definition create_quad_layer_elements {Rest} `{Collaborators Rest}
    (ql : QuadLayer.t) (w : World Rest) : Exec (QuadLayer.t * World Rest) :=
  create_quad_layer_elements_loop (length (QuadLayer.base_edges_ ql)) 0 ql w.

(** One pass of the loop body of [finish_quad_layer]. *)
Definition finish_quad_layer_gap {Rest} `{Geometry} `{Collaborators Rest} (i : nat)
    (ql : QuadLayer.t) (w : World Rest) : Exec (World Rest) :=
  p1i ← at_index (QuadLayer.proj_v1_ ql) i;
  match p1i with
  | None => Ret w
  | Some c =>
      p2i ← at_index (QuadLayer.proj_v2_ ql) (i - 1);
      match p2i with
      | None => Ret w
      | Some a =>
          if Nat.eqb c a then Ret w
          else
            b ← at_index (QuadLayer.base_v1_ ql) i;
            va ← Vertices.get (verts (env w)) a;
            vb ← Vertices.get (verts (env w)) b;
            vc ← Vertices.get (verts (env w)) c;
            let l1 := Vec2d.sub (Vertex.xy va) (Vertex.xy vb) in
            let l2 := Vec2d.sub (Vertex.xy vc) (Vertex.xy vb) in
            let alpha := angle l1 l2 in
            if (alpha <=? quad_layer_angle_)%float then
              '(t_new, w1) ← add_triangle a b c w;
              '(removed, w2) ← remove_from_mesh_if_invalid t_new w1;
              if removed : bool then Ret w2
              else
                base ← deref_opt (EdgeList.get_edge (front (env w2)) b c);
                advance_front (Edge.ptr base) a t_new w2
            else
              let v_xy := Vec2d.add (Vec2d.add (Vertex.xy vb) l1) l2 in
              '(v_new, w1) ← add_vertex v_xy w;
              '(t1_new, w2) ← add_triangle a b v_new w1;
              '(t2_new, w3) ← add_triangle b c v_new w2;
              '(removed, w4) ← remove_from_mesh_if_invalid_3 v_new t1_new t2_new w3;
              if removed : bool then Ret w4
              else
                base ← deref_opt (EdgeList.get_edge (front (env w4)) a b);
                w5 ← advance_front (Edge.ptr base) v_new t1_new w4;
                base ← deref_opt (EdgeList.get_edge (front (env w5)) b c);
                w6 ← advance_front (Edge.ptr base) v_new t2_new w5;
                Ret (mkWorld
                       (mkEnv (Vertices.update v_new (Vertex.set_is_fixed true)
                                 (verts (env w6)))
                              (front (env w6)) (bdry_edges (env w6)))
                       (mesh_rest w6))
      end
  end.

(** [FrontQuadLayering::finish_quad_layer] *)
Fixpoint finish_quad_layer_loop {Rest} `{Geometry} `{Collaborators Rest}
    (todo : nat) (i : nat) (ql : QuadLayer.t) (w : World Rest) : Exec (World Rest) :=
  match todo with
  | 0 => Ret w
  | S todo' =>
      w' ← finish_quad_layer_gap i ql w;
      finish_quad_layer_loop todo' (S i) ql w'
  end.

Definition finish_quad_layer {Rest} `{Geometry} `{Collaborators Rest}
    (ql : QuadLayer.t) (w : World Rest) : Exec (World Rest) :=
  finish_quad_layer_loop (length (QuadLayer.base_edges_ ql) - 1) 1 ql w.

(** The loop [do { ... } while ( !(v_start_in->on_front())
    && !(v_end_in->on_front()) )] at the end of [generate_quad_layer]; it
    returns the two pointers it stops with. *)
Fixpoint anchor_walk (fuel : nat) (vs : Vertices) (is_closed : bool)
    (ql : QuadLayer.t) (n : Z) (i : Z)
    : Exec (option VertexPtr * option VertexPtr) :=
  match fuel with
  | 0 => OutOfFuel
  | S fuel' =>
      v_start_in ← at_Z (QuadLayer.proj_v1_ ql) i;
      v_end_in ← (if is_closed then Ret v_start_in
                  else at_Z (QuadLayer.proj_v2_ ql) (MOD (i - 1) n));
      p ← deref_opt v_start_in;
      vp ← Vertices.get vs p;
      if negb (Vertex.on_front vp) then
        q ← deref_opt v_end_in;
        vq ← Vertices.get vs q;
        if negb (Vertex.on_front vq) then
          anchor_walk fuel' vs is_closed ql n (i + 1)
        else Ret (v_start_in, v_end_in)
      else Ret (v_start_in, v_end_in)
  end.

(** The end of [generate_quad_layer], from [int i = 0;]: the new start and
    ending coordinates and the result. *)
Definition set_new_anchors {Rest} (is_closed : bool) (ql : QuadLayer.t)
    (s : t Rest) : Exec (bool * t Rest) :=
  let n := QuadLayer.n_base_edges ql in
  let vs := verts (env (mesh_ s)) in
  '(v_start_in, v_end_in) ← anchor_walk (S (Z.to_nat n)) vs is_closed ql n 0;
  match v_start_in, v_end_in with
  | Some p, Some q =>
      vp ← Vertices.get vs p;
      vq ← Vertices.get vs q;
      Ret (true, set_anchors (Vertex.xy vp) (Vertex.xy vq) s)
  | _, _ => Ret (false, s)
  end.

(** [FrontQuadLayering::generate_quad_layer] *)
Definition generate_quad_layer {Rest} `{Geometry} `{EdgeLinks} `{Collaborators Rest}
    (fuel : nat) (height : float) (s : t Rest) : Exec (bool * t Rest) :=
  let w := mesh_ s in
  '(v_start, v_end) ←
     closest_vertices (EdgeList.edges_ (front (env w))) (verts (env w))
       (xy_start_ s) (xy_end_ s) None None 1.0E+10%float 1.0E+10%float;
  match v_start, v_end with
  | Some v_start, Some v_end =>
      match EdgeList.get_edge_at (front (env w)) v_start 1,
            EdgeList.get_edge_at (front (env w)) v_end 2 with
      | Some e_start, Some e_end =>
          if negb (is_traversable w (Edge.ptr e_start) (Edge.ptr e_end))
          then Ret (false, s)
          else
            let is_closed := Nat.eqb v_start v_end in
            '(e_start, e_end) ←
               (if is_closed then
                  v1 ← Vertices.get (verts (env w)) (Edge.v1 e_end);
                  v2 ← Vertices.get (verts (env w)) (Edge.v2 e_end);
                  v3 ← Vertices.get (verts (env w)) (Edge.v2 e_start);
                  let ang := angle (Vec2d.sub (Vertex.xy v1) (Vertex.xy v2))
                                   (Vec2d.sub (Vertex.xy v3) (Vertex.xy v2)) in
                  match get_next_edge (front (env w)) (Edge.ptr e_start) with
                  | Some e_next =>
                      if (ang <=? quad_layer_angle_)%float
                      then Ret (e_next, Edge.ptr e_start)
                      else Ret (Edge.ptr e_start, Edge.ptr e_end)
                  | None => Ret (Edge.ptr e_start, Edge.ptr e_end)
                  end
                else Ret (Edge.ptr e_start, Edge.ptr e_end));
            ql ← QuadLayer.create fuel (env w) e_start e_end is_closed height;
            ql ← QuadLayer.smooth_heights (domain_ s) (env w) ql;
            '(ql, env1) ← QuadLayer.setup_vertex_projection (env w) ql;
            '(ql, w1) ← create_quad_layer_elements ql (mkWorld env1 (mesh_rest w));
            w2 ← finish_quad_layer ql w1;
            w3 ← clear_waste w2;
            set_new_anchors is_closed ql (set_mesh_ w3 s)
      | _, _ => Ret (false, s)
      end
  | _, _ => Ret (false, s)
  end.

(** The loop over the layers of [generate_elements]; it returns [success]. *)
Fixpoint layer_loop {Rest} `{Geometry} `{EdgeLinks} `{Collaborators Rest}
    (fuel : nat) (todo : nat) (height : float) (success : bool) (s : t Rest)
    : Exec (bool * t Rest) :=
  match todo with
  | 0 => Ret (success, s)
  | S todo' =>
      '(success, s') ← generate_quad_layer fuel height s;
      if success : bool
      then layer_loop fuel todo' (height * growth_rate_ s')%float success s'
      else Ret (success, s')
  end.

(** [FrontQuadLayering::generate_elements] *)
Definition generate_elements {Rest} `{Geometry} `{EdgeLinks} `{Collaborators Rest}
    (fuel : nat) (s : t Rest) : Exec (bool * t Rest) :=
  if EdgeList.size (bdry_edges (env (mesh_ s))) <? 1 then Ret (false, s)
  else
    w1 ← setup_facet_connectivity (mesh_ s);
    w2 ← init_advancing_front false w1;
    w3 ← remove_invalid_mesh_edges w2;
    '(success, s1) ←
       layer_loop fuel (n_layers_ s) (first_height_ s) true (set_mesh_ w3 s);
    w4 ← finish_mesh_for_output (mesh_ s1);
    let w5 := mkWorld (mkEnv (verts (env w4)) (EdgeList.clear_edges (front (env w4)))
                         (bdry_edges (env w4))) (mesh_rest w4) in
    Ret (success, set_mesh_ w5 s1).

End FrontQuadLayering.

(** * Specification predicates *)

(** ** QuadLayer::smooth_heights *)

(** The layer is in the state the constructor leaves it in: one height per
    base edge, every base edge in the front, and fewer than 2^64 of them. *)
Definition bases_ok (env : Env) (q : QuadLayer.t) : Prop :=
  length (QuadLayer.base_edges_ q) = length (QuadLayer.heights_ q) ∧
  Forall (λ p, is_Some (EdgeList.find p (EdgeList.edges_ (front env))))
    (QuadLayer.base_edges_ q) ∧
  (Z.of_nat (length (QuadLayer.heights_ q)) < QuadLayer.size_t_max)%Z.

(** The value that the loop body assigns to [heights_[i]], from the three
    heights it reads and the base edge. *)
Definition smoothed (domain : Domain) (env : Env) (hs' hs : list float)
    (q : QuadLayer.t) (i : nat) (v : float) : Prop :=
  ∃ h1 h2 h3 ep e,
    hs' !! (i - 1) = Some h1 ∧ hs !! i = Some h2 ∧ hs !! (i + 1) = Some h3 ∧
    QuadLayer.base_edges_ q !! i = Some ep ∧
    EdgeList.find ep (EdgeList.edges_ (front env)) = Some e ∧
    v = MIN (Domain.size_function domain (Edge.xy e)) ((h1 + h2 + h3) / 3)%float.


(** ** QuadLayer::QuadLayer *)

(** The edge is in the front and its end vertices are in the container. *)
Definition edge_ok (env : Env) (p : EdgePtr) : Prop :=
  ∃ e a b,
    EdgeList.find p (EdgeList.edges_ (front env)) = Some e ∧
    Vertices.find (Edge.v1 e) (Vertices.cells (verts env)) = Some a ∧
    Vertices.find (Edge.v2 e) (Vertices.cells (verts env)) = Some b.

(** [chain fr e_end e l last]: the next-edge links lead from [e] through the
    edges of [l], none of which is [e_end], and the link of the last of
    these edges is [last]. *)
Fixpoint chain `{EdgeLinks} (fr : EdgeList) (e_end : EdgePtr) (e : EdgePtr)
    (l : list EdgePtr) (last : option EdgePtr) : Prop :=
  match l with
  | [] => get_next_edge fr e = last
  | e' :: l' =>
      get_next_edge fr e = Some e' ∧ e' ≠ e_end ∧ chain fr e_end e' l' last
  end.

(** A set of edges that the next-edge links never leave and that does not
    contain [e_end] behind its entry. *)
Definition closed_under_next `{EdgeLinks} (env : Env) (e_end : EdgePtr)
    (S : EdgePtr → Prop) : Prop :=
  ∀ e, S e → edge_ok env e ∧
    ∃ e', get_next_edge (front env) e = Some e' ∧ e' ≠ e_end ∧ S e'.

(** Adding the edges of a list to a layer, one after the other. *)
Fixpoint add_all (env : Env) (ps : list EdgePtr) (q : QuadLayer.t)
    : Exec QuadLayer.t :=
  match ps with
  | [] => Ret q
  | p :: ps' => q' ← QuadLayer.add_quadlayer_edge env p q; add_all env ps' q'
  end.

(** Row [i] of the parallel arrays is what the constructor computes for the
    base edge [p]. *)
Definition row_ok (env : Env) (q : QuadLayer.t) (i : nat) (p : EdgePtr) : Prop :=
  ∃ e a b,
    EdgeList.find p (EdgeList.edges_ (front env)) = Some e ∧
    Vertices.find (Edge.v1 e) (Vertices.cells (verts env)) = Some a ∧
    Vertices.find (Edge.v2 e) (Vertices.cells (verts env)) = Some b ∧
    QuadLayer.base_v1_ q !! i = Some (Edge.v1 e) ∧
    QuadLayer.base_v2_ q !! i = Some (Edge.v2 e) ∧
    QuadLayer.heights_ q !! i = Some (MIN (QuadLayer.height_ q) (Edge.length e)) ∧
    QuadLayer.proj_v1_xy_ q !! i =
      Some (Vec2d.add (Vertex.xy a)
              (Vec2d.mul (Edge.normal e) (MIN (QuadLayer.height_ q) (Edge.length e)))) ∧
    QuadLayer.proj_v2_xy_ q !! i =
      Some (Vec2d.add (Vertex.xy b)
              (Vec2d.mul (Edge.normal e) (MIN (QuadLayer.height_ q) (Edge.length e)))) ∧
    QuadLayer.proj_v1_ q !! i = Some None ∧
    QuadLayer.proj_v2_ q !! i = Some None.

Definition same_lengths (q : QuadLayer.t) : Prop :=
  let n := length (QuadLayer.base_edges_ q) in
  length (QuadLayer.base_v1_ q) = n ∧ length (QuadLayer.base_v2_ q) = n ∧
  length (QuadLayer.proj_v1_ q) = n ∧ length (QuadLayer.proj_v2_ q) = n ∧
  length (QuadLayer.proj_v1_xy_ q) = n ∧ length (QuadLayer.proj_v2_xy_ q) = n ∧
  length (QuadLayer.heights_ q) = n.

Definition rows_ok (env : Env) (q : QuadLayer.t) : Prop :=
  same_lengths q ∧
  ∀ i p, QuadLayer.base_edges_ q !! i = Some p → row_ok env q i p.

(** ** QuadLayer::adjust_projected_vertex_coordinates *)

(** What a joint reads: the coordinates of the end vertices of a base edge,
    its normal and its height. *)
Definition v1_xy (env : Env) (q : QuadLayer.t) (i : nat) : option Vec2d :=
  p ← QuadLayer.base_v1_ q !! i;
  Vertex.xy <$> Vertices.find p (Vertices.cells (verts env)).

Definition v2_xy (env : Env) (q : QuadLayer.t) (i : nat) : option Vec2d :=
  p ← QuadLayer.base_v2_ q !! i;
  Vertex.xy <$> Vertices.find p (Vertices.cells (verts env)).

Definition base_normal (env : Env) (q : QuadLayer.t) (i : nat) : option Vec2d :=
  p ← QuadLayer.base_edges_ q !! i;
  Edge.normal <$> EdgeList.find p (EdgeList.edges_ (front env)).

Record Joint := mkJoint {
  joint_p : Vec2d;     (* start of base edge i *)
  joint_q : Vec2d;     (* start of base edge j, the corner of the joint *)
  joint_r : Vec2d;     (* end of base edge j *)
  joint_n1 : Vec2d;    (* normal of base edge i *)
  joint_n2 : Vec2d;    (* normal of base edge j *)
  joint_l1 : float;    (* height of base edge i *)
  joint_l2 : float }.  (* height of base edge j *)

Definition joint_reads (env : Env) (q : QuadLayer.t) (i j : nat) (J : Joint) : Prop :=
  v1_xy env q i = Some (joint_p J) ∧
  v1_xy env q j = Some (joint_q J) ∧
  v2_xy env q j = Some (joint_r J) ∧
  base_normal env q i = Some (joint_n1 J) ∧
  base_normal env q j = Some (joint_n2 J) ∧
  QuadLayer.heights_ q !! i = Some (joint_l1 J) ∧
  QuadLayer.heights_ q !! j = Some (joint_l2 J).

(** The same reading as a function. *)
Definition read_joint (env : Env) (q : QuadLayer.t) (i j : nat) : option Joint :=
  p ← v1_xy env q i;
  c ← v1_xy env q j;
  r ← v2_xy env q j;
  n1 ← base_normal env q i;
  n2 ← base_normal env q j;
  l1 ← QuadLayer.heights_ q !! i;
  l2 ← QuadLayer.heights_ q !! j;
  Some (mkJoint p c r n1 n2 l1 l2).

(** A wedge: the corner lies left of the segment from p to r and the angle
    at the corner is at most the quad layer angle. *)
Definition is_wedge `{Geometry} (J : Joint) : bool :=
  is_left (joint_p J) (joint_r J) (joint_q J) &&
  (angle (Vec2d.sub (joint_p J) (joint_q J)) (Vec2d.sub (joint_r J) (joint_q J))
   <=? CONSTANTS_quad_layer_angle)%float.

(** The merged coordinate q + n * l / sin(alpha / 2), with n the normalised
    mean of the two normals and l the mean of the two heights. *)
Definition merged_xy `{Geometry} (J : Joint) : Vec2d :=
  let alpha :=
    angle (Vec2d.sub (joint_p J) (joint_q J)) (Vec2d.sub (joint_r J) (joint_q J)) in
  let mean := Vec2d.scale 0.5%float (Vec2d.add (joint_n1 J) (joint_n2 J)) in
  let n := Vec2d.div mean (Vec2d.norm mean) in
  let l := (0.5 * (joint_l1 J + joint_l2 J))%float in
  Vec2d.add (joint_q J) (Vec2d.div (Vec2d.mul n l) (sin (0.5 * alpha)%float)).

(** The layer has one entry per base edge in each of its arrays, its base
    edges are in the front and their end vertices in the container. *)
Definition joints_ready (env : Env) (q : QuadLayer.t) : Prop :=
  same_lengths q ∧
  ∀ i, i < length (QuadLayer.base_edges_ q) →
    is_Some (v1_xy env q i) ∧ is_Some (v2_xy env q i) ∧
    is_Some (base_normal env q i).

(** The joints of a layer: base edge i and its successor, and for a closed
    layer the last base edge and the first one. *)
Definition is_joint (q : QuadLayer.t) (i j : nat) : Prop :=
  (j = i + 1 ∧ j < length (QuadLayer.base_edges_ q)) ∨
  (QuadLayer.is_closed_ q = true ∧ i + 1 = length (QuadLayer.base_edges_ q) ∧ j = 0).

(** What holds at a joint between the layer [q'] after the projection set-up
    and the layer [q] before it. *)
Definition joint_settled `{Geometry} (q q' : QuadLayer.t) (i j : nat) (J : Joint)
    : Prop :=
  if is_wedge J then
    QuadLayer.proj_v2_xy_ q' !! i = QuadLayer.proj_v2_xy_ q !! i ∧
    QuadLayer.proj_v1_xy_ q' !! j = QuadLayer.proj_v1_xy_ q !! j
  else
    QuadLayer.proj_v2_xy_ q' !! i = Some (merged_xy J) ∧
    QuadLayer.proj_v1_xy_ q' !! j = Some (merged_xy J).

(** Two layers that differ at most in the projected vertices and their
    coordinates, entry by entry. *)
Definition same_bases (q q' : QuadLayer.t) : Prop :=
  QuadLayer.e_start_ q' = QuadLayer.e_start_ q ∧
  QuadLayer.e_end_ q' = QuadLayer.e_end_ q ∧
  QuadLayer.is_closed_ q' = QuadLayer.is_closed_ q ∧
  QuadLayer.height_ q' = QuadLayer.height_ q ∧
  QuadLayer.base_edges_ q' = QuadLayer.base_edges_ q ∧
  QuadLayer.base_v1_ q' = QuadLayer.base_v1_ q ∧
  QuadLayer.base_v2_ q' = QuadLayer.base_v2_ q ∧
  QuadLayer.heights_ q' = QuadLayer.heights_ q ∧
  length (QuadLayer.proj_v1_ q') = length (QuadLayer.proj_v1_ q) ∧
  length (QuadLayer.proj_v2_ q') = length (QuadLayer.proj_v2_ q) ∧
  length (QuadLayer.proj_v1_xy_ q') = length (QuadLayer.proj_v1_xy_ q) ∧
  length (QuadLayer.proj_v2_xy_ q') = length (QuadLayer.proj_v2_xy_ q).

(** ** QuadLayer::place_start_vertex and QuadLayer::place_end_vertex *)

(** What the handling of an end of an open layer reads: the adjacent front
    edge ([e_prv] or [e_nxt]), the coordinates of its far vertex ([v_prev]
    or [v_next]), the coordinates of the end vertices of the terminal base
    edge, its height and the projected coordinate at that end. *)
Record EndReads := mkEndReads {
  adj_ptr : EdgePtr;
  adj_edge : Edge;
  xy_adj : Vec2d;
  xy_b1 : Vec2d;
  xy_b2 : Vec2d;
  end_h : float;
  end_pxy : Vec2d }.

Definition start_reads `{EdgeLinks} (env : Env) (q : QuadLayer.t) (R : EndReads)
    : Prop :=
  get_prev_edge (front env) (QuadLayer.e_start_ q) = Some (adj_ptr R) ∧
  EdgeList.find (adj_ptr R) (EdgeList.edges_ (front env)) = Some (adj_edge R) ∧
  QuadLayer.base_v1_ q !! 0 = Some (Edge.v2 (adj_edge R)) ∧
  Vertex.xy <$> Vertices.find (Edge.v1 (adj_edge R)) (Vertices.cells (verts env))
    = Some (xy_adj R) ∧
  v1_xy env q 0 = Some (xy_b1 R) ∧
  v2_xy env q 0 = Some (xy_b2 R) ∧
  QuadLayer.heights_ q !! 0 = Some (end_h R) ∧
  QuadLayer.proj_v1_xy_ q !! 0 = Some (end_pxy R) ∧
  0 < length (QuadLayer.proj_v1_ q).

Definition end_reads `{EdgeLinks} (env : Env) (q : QuadLayer.t) (R : EndReads)
    : Prop :=
  get_next_edge (front env) (QuadLayer.e_end_ q) = Some (adj_ptr R) ∧
  EdgeList.find (adj_ptr R) (EdgeList.edges_ (front env)) = Some (adj_edge R) ∧
  last (QuadLayer.base_v2_ q) = Some (Edge.v1 (adj_edge R)) ∧
  Vertex.xy <$> Vertices.find (Edge.v2 (adj_edge R)) (Vertices.cells (verts env))
    = Some (xy_adj R) ∧
  (p ← last (QuadLayer.base_v1_ q);
   Vertex.xy <$> Vertices.find p (Vertices.cells (verts env))) = Some (xy_b1 R) ∧
  (p ← last (QuadLayer.base_v2_ q);
   Vertex.xy <$> Vertices.find p (Vertices.cells (verts env))) = Some (xy_b2 R) ∧
  last (QuadLayer.heights_ q) = Some (end_h R) ∧
  last (QuadLayer.proj_v2_xy_ q) = Some (end_pxy R) ∧
  0 < length (QuadLayer.proj_v2_ q) ∧
  0 < length (QuadLayer.proj_v2_xy_ q).

(** The three tests of the case split. *)
Definition lies_left `{Geometry} (R : EndReads) : bool :=
  is_left (xy_b1 R) (xy_b2 R) (xy_adj R).

Definition d_fac (R : EndReads) : float :=
  (Vec2d.norm (Vec2d.sub (xy_adj R) (end_pxy R)) / end_h R)%float.

Definition fits_adjacent (R : EndReads) : bool :=
  (end_h R <? Edge.length (adj_edge R))%float.

(** The split parameters (h * cos alpha) / |e_prv| and
    1 - (h * cos alpha) / |e_nxt|, alpha being the angle at the end vertex
    between the adjacent edge and the projection. *)
Definition start_sf `{Geometry} (R : EndReads) : float :=
  (end_h R
   * cos (angle (Vec2d.sub (xy_adj R) (xy_b1 R)) (Vec2d.sub (end_pxy R) (xy_b1 R)))
   / Edge.length (adj_edge R))%float.

Definition end_sf `{Geometry} (R : EndReads) : float :=
  (1 - end_h R
       * cos (angle (Vec2d.sub (xy_adj R) (xy_b2 R)) (Vec2d.sub (end_pxy R) (xy_b2 R)))
       / Edge.length (adj_edge R))%float.

(** The layer with a new projected vertex at the start or at the end, and
    with its coordinates as well. *)
Definition with_start_vertex (v : VertexPtr) (q : QuadLayer.t) : QuadLayer.t :=
  QuadLayer.set_proj_v1_ (<[0 := Some v]> (QuadLayer.proj_v1_ q)) q.

Definition with_start_xy (c : Vec2d) (q : QuadLayer.t) : QuadLayer.t :=
  QuadLayer.set_proj_v1_xy_ (<[0 := c]> (QuadLayer.proj_v1_xy_ q)) q.

Definition with_end_vertex (v : VertexPtr) (q : QuadLayer.t) : QuadLayer.t :=
  QuadLayer.set_proj_v2_
    (<[pred (length (QuadLayer.proj_v2_ q)) := Some v]> (QuadLayer.proj_v2_ q)) q.

Definition with_end_xy (c : Vec2d) (q : QuadLayer.t) : QuadLayer.t :=
  QuadLayer.set_proj_v2_xy_
    (<[pred (length (QuadLayer.proj_v2_xy_ q)) := c]> (QuadLayer.proj_v2_xy_ q)) q.

(** The split case of [place_start_vertex] and of [place_end_vertex], after
    the reads: the boundary edge is removed, the adjacent edge is split at
    [sf], the halves are added to the boundary edges, and the new vertex is
    stored in the layer by [upd]. *)
Definition split_run `{EdgeLinks} (env : Env) (R : EndReads) (sf : float)
    (upd : VertexPtr → Vec2d → QuadLayer.t) : Exec (QuadLayer.t * Env) :=
  '(e_bdry_rem, bdry1) ← QuadLayer.remove_bdry_edge (adj_edge R) (bdry_edges env);
  '(e1, e2, front1, verts1) ←
     EdgeList.split_edge Front.mark_objects (adj_ptr R) sf (front env) (verts env);
  '(bdry2, verts2) ← QuadLayer.insert_bdry_edges e_bdry_rem e1 e2 bdry1 verts1;
  vn ← Vertices.get verts2 (Edge.v2 e1);
  Ret (upd (Edge.v2 e1) (Vertex.xy vn), mkEnv verts2 front1 bdry2).

Definition start_split `{Geometry} `{EdgeLinks} (env : Env) (q : QuadLayer.t)
    (R : EndReads) : Exec (QuadLayer.t * Env) :=
  split_run env R (start_sf R) (λ vn c, with_start_xy c (with_start_vertex vn q)).

Definition end_split `{Geometry} `{EdgeLinks} (env : Env) (q : QuadLayer.t)
    (R : EndReads) : Exec (QuadLayer.t * Env) :=
  split_run env R (end_sf R) (λ vn c, with_end_xy c (with_end_vertex vn q)).





(** The two layers agree in every field but [proj_v1_] (resp. [proj_v2_]). *)
Definition differ_in_proj_v1 (q q' : QuadLayer.t) : Prop :=
  QuadLayer.e_start_ q' = QuadLayer.e_start_ q ∧
  QuadLayer.e_end_ q' = QuadLayer.e_end_ q ∧
  QuadLayer.is_closed_ q' = QuadLayer.is_closed_ q ∧
  QuadLayer.height_ q' = QuadLayer.height_ q ∧
  QuadLayer.base_edges_ q' = QuadLayer.base_edges_ q ∧
  QuadLayer.base_v1_ q' = QuadLayer.base_v1_ q ∧
  QuadLayer.base_v2_ q' = QuadLayer.base_v2_ q ∧
  QuadLayer.proj_v2_ q' = QuadLayer.proj_v2_ q ∧
  QuadLayer.proj_v1_xy_ q' = QuadLayer.proj_v1_xy_ q ∧
  QuadLayer.proj_v2_xy_ q' = QuadLayer.proj_v2_xy_ q ∧
  QuadLayer.heights_ q' = QuadLayer.heights_ q.

Definition differ_in_proj_v2 (q q' : QuadLayer.t) : Prop :=
  QuadLayer.e_start_ q' = QuadLayer.e_start_ q ∧
  QuadLayer.e_end_ q' = QuadLayer.e_end_ q ∧
  QuadLayer.is_closed_ q' = QuadLayer.is_closed_ q ∧
  QuadLayer.height_ q' = QuadLayer.height_ q ∧
  QuadLayer.base_edges_ q' = QuadLayer.base_edges_ q ∧
  QuadLayer.base_v1_ q' = QuadLayer.base_v1_ q ∧
  QuadLayer.base_v2_ q' = QuadLayer.base_v2_ q ∧
  QuadLayer.proj_v1_ q' = QuadLayer.proj_v1_ q ∧
  QuadLayer.proj_v1_xy_ q' = QuadLayer.proj_v1_xy_ q ∧
  QuadLayer.proj_v2_xy_ q' = QuadLayer.proj_v2_xy_ q ∧
  QuadLayer.heights_ q' = QuadLayer.heights_ q.

(** The readings of the two ends as functions. *)
Definition read_start `{EdgeLinks} (env : Env) (q : QuadLayer.t) : option EndReads :=
  p ← get_prev_edge (front env) (QuadLayer.e_start_ q);
  e ← EdgeList.find p (EdgeList.edges_ (front env));
  a ← Vertex.xy <$> Vertices.find (Edge.v1 e) (Vertices.cells (verts env));
  b1 ← v1_xy env q 0;
  b2 ← v2_xy env q 0;
  h ← QuadLayer.heights_ q !! 0;
  c ← QuadLayer.proj_v1_xy_ q !! 0;
  Some (mkEndReads p e a b1 b2 h c).

Definition read_end `{EdgeLinks} (env : Env) (q : QuadLayer.t) : option EndReads :=
  p ← get_next_edge (front env) (QuadLayer.e_end_ q);
  e ← EdgeList.find p (EdgeList.edges_ (front env));
  a ← Vertex.xy <$> Vertices.find (Edge.v2 e) (Vertices.cells (verts env));
  b1 ← (p ← last (QuadLayer.base_v1_ q);
        Vertex.xy <$> Vertices.find p (Vertices.cells (verts env)));
  b2 ← (p ← last (QuadLayer.base_v2_ q);
        Vertex.xy <$> Vertices.find p (Vertices.cells (verts env)));
  h ← last (QuadLayer.heights_ q);
  c ← last (QuadLayer.proj_v2_xy_ q);
  Some (mkEndReads p e a b1 b2 h c).

(** ** The anchors of the next layer (the end of generate_quad_layer) *)

(** The two pointers that the walk reads at index [i]: [p1[i]], and either
    the same pointer (closed layer) or [p2[(i - 1) mod n]]. *)
Definition start_in (ql : QuadLayer.t) (i : nat) : option (option VertexPtr) :=
  QuadLayer.proj_v1_ ql !! i.

Definition end_in (is_closed : bool) (ql : QuadLayer.t) (i : nat)
    : option (option VertexPtr) :=
  if is_closed then QuadLayer.proj_v1_ ql !! i
  else QuadLayer.proj_v2_ ql
         !! Z.to_nat ((Z.of_nat i - 1) `mod` QuadLayer.n_base_edges ql).

Definition on_front_of (vs : Vertices) (p : VertexPtr) : option bool :=
  Vertex.on_front <$> Vertices.find p (Vertices.cells vs).

(** At index [i] both pointers are non-null and both vertices are off the
    front: the loop goes on. *)
Definition both_off_front (vs : Vertices) (is_closed : bool) (ql : QuadLayer.t)
    (i : nat) : Prop :=
  ∃ p q, start_in ql i = Some (Some p) ∧ end_in is_closed ql i = Some (Some q) ∧
         on_front_of vs p = Some false ∧ on_front_of vs q = Some false.

(** At index [i] the loop stops with the pointers [Some p] and [b]: the
    start vertex is on the front (the end pointer is then not looked at), or
    it is not and the end vertex is. *)
Definition stops_at (vs : Vertices) (is_closed : bool) (ql : QuadLayer.t)
    (i : nat) (p : VertexPtr) (b : option VertexPtr) : Prop :=
  start_in ql i = Some (Some p) ∧ end_in is_closed ql i = Some b ∧
  (on_front_of vs p = Some true ∨
   (on_front_of vs p = Some false ∧
    ∃ q, b = Some q ∧ on_front_of vs q = Some true)).

(** ** The layers of generate_elements *)

(** The height of layer [k]: the first height times the growth rate, [k]
    times. *)
Fixpoint layer_height (first rate : float) (k : nat) : float :=
  match k with
  | 0 => first
  | S k' => (layer_height first rate k' * rate)%float
  end.

(** One call of [generate_quad_layer] per layer, from layer [k] on, for
    [todo] layers, with the height of the layer, until a call returns
    false. *)
Fixpoint run_layers {Rest} `{Geometry} `{EdgeLinks} `{Collaborators Rest}
    (fuel : nat) (first rate : float) (k todo : nat) (s : FrontQuadLayering.t Rest)
    : Exec (bool * FrontQuadLayering.t Rest) :=
  match todo with
  | 0 => Ret (true, s)
  | S todo' =>
      '(ok, s') ←
         FrontQuadLayering.generate_quad_layer fuel (layer_height first rate k) s;
      if ok : bool then run_layers fuel first rate (S k) todo' s'
      else Ret (false, s')
  end.

(** The calls of [generate_quad_layer] for the layers from [k] on, each with
    the height of its layer and on the driver that the call before it has
    left; [calls] lists what the calls have returned, in order. *)
Fixpoint layer_calls {Rest} `{Geometry} `{EdgeLinks} `{Collaborators Rest}
    (fuel : nat) (first rate : float) (k : nat) (s : FrontQuadLayering.t Rest)
    (calls : list (bool * FrontQuadLayering.t Rest)) : Prop :=
  match calls with
  | [] => True
  | c :: rest =>
      FrontQuadLayering.generate_quad_layer fuel (layer_height first rate k) s
        = Ret (fst c, snd c) ∧
      layer_calls fuel first rate (S k) (snd c) rest
  end.

(** The front of the world is emptied. *)
Definition with_cleared_front {Rest} (w : World Rest) : World Rest :=
  mkWorld (mkEnv (verts (env w)) (EdgeList.clear_edges (front (env w)))
             (bdry_edges (env w))) (mesh_rest w).

(** ** The refinement of the front *)

(** The coordinates of the vertex with handle [p]. *)
Definition vertex_xy (vs : Vertices) (p : VertexPtr) : option Vec2d :=
  Vertex.xy <$> Vertices.find p (Vertices.cells vs).

(** The edges [l] lead from the vertex [a] through the vertices [through],
    one edge per vertex, each with the marker [m] and without a twin. *)
Fixpoint links (m : Z) (a : VertexPtr) (through : list VertexPtr) (l : list Edge)
    : Prop :=
  match through, l with
  | [], [] => True
  | v :: through', e :: l' =>
      Edge.v1 e = a ∧ Edge.v2 e = v ∧ Edge.marker e = m ∧ Edge.twin_edge e = None ∧
      links m v through' l'
  | _, _ => False
  end.

(** The coordinates that [refine_edge] asks for: the direction and the two
    sizes are those at the end vertices [a] and [b] of the edge. *)
Definition sub_vertex_coords `{Build} (fuel : nat) (domain : Domain) (vs : Vertices)
    (e : Edge) (a b : Vertex) : Exec (list Vec2d) :=
  let rho_1 := Domain.size_function domain (Vertex.xy a) in
  let rho_2 := Domain.size_function domain (Vertex.xy b) in
  Front.create_sub_vertex_coords fuel vs e (rho_1 <? rho_2)%float rho_1 rho_2 domain.

(** A run of the refinement over the selected edges: [refine_edge] is called
    for every one of them, in order, on the front and the vertices that the
    calls before it have left, whatever these calls returned; [removed]
    collects the edges whose call returned true. *)
Inductive refine_run `{Build} (fuel : nat) (domain : Domain)
    : list EdgePtr → EdgeList → Vertices → list EdgePtr → EdgeList → Vertices → Prop :=
| refine_run_nil front vs : refine_run fuel domain [] front vs [] front vs
| refine_run_cons p ps front vs ok front1 vs1 removed front2 vs2 :
    Front.refine_edge fuel domain p front vs = Ret (ok, front1, vs1) →
    refine_run fuel domain ps front1 vs1 removed front2 vs2 →
    refine_run fuel domain (p :: ps) front vs
      (if ok : bool then p :: removed else removed) front2 vs2.

(** The edges of a list that have a twin, in the order of the list. *)
Definition twinned (l : list Edge) : list Edge :=
  filter (λ e, is_Some (Edge.twin_edge e)) l.

(** The front without the edges whose handle is in [removed]. *)
Definition without (removed : list EdgePtr) (front : EdgeList) : EdgeList :=
  EdgeList.mk (filter (λ e, Edge.ptr e ∉ removed) (EdgeList.edges_ front))
    (EdgeList.fresh front) (EdgeList.area_ front).

(** The vertices after one step of the loop of [create_sub_edges]. *)
Definition sub_vertex_step (pos v_cur : VertexPtr) (c : Vec2d) (vs : Vertices)
    : Vertices :=
  let v_n := Vertices.fresh vs in
  Vertices.update v_n (Vertex.set_on_boundary true)
    (Vertices.update v_cur (Vertex.set_on_boundary true)
       (Front.mark_objects v_cur v_n
          (Vertices.update v_n (Vertex.set_is_fixed true)
             (snd (Vertices.insert pos c vs))))).

(** The vertices after the closing edge of [create_sub_edges]. *)
Definition closing_step (v_cur v_end : VertexPtr) (vs : Vertices) : Vertices :=
  Vertices.update v_end (Vertex.set_on_boundary true)
    (Vertices.update v_cur (Vertex.set_on_boundary true)
       (Front.mark_objects v_cur v_end vs)).

(** ** The seeding of the front *)

(** The vertex that [init_mesh_vertices] creates for a seed edge: at the
    first vertex of the seed edge, or at its second one when the seed edge
    is a twin, with all three flags set. *)
Definition seed_vertex (s : SeedEdge) (tw : bool) : Vertex :=
  Vertex.mk (if tw then seed_v2_xy s else seed_v1_xy s) true true true.

Fixpoint seed_cells (fr : VertexPtr) (front_edges : list SeedEdge)
    (is_twin_edge : list bool) : list (VertexPtr * Vertex) :=
  match front_edges, is_twin_edge with
  | s :: rest, tw :: tws => (fr, seed_vertex s tw) :: seed_cells (S fr) rest tws
  | _, _ => []
  end.

(** Edge [k] of the ring that [init_front_edges] creates over the vertices
    [new_vertices]: from vertex [k] to the vertex after it, cyclically, with
    marker [k], without a twin, with the handle [p] and with the geometry
    of its end points. *)
Definition ring_edge (vs : Vertices) (new_vertices : list VertexPtr)
    (markers : list Z) (k : nat) (p : EdgePtr) (e : Edge) : Prop :=
  ∃ a b ca cb m,
    new_vertices !! k = Some a ∧
    new_vertices !! ((k + 1) `mod` length new_vertices) = Some b ∧
    markers !! k = Some m ∧
    vertex_xy vs a = Some ca ∧ vertex_xy vs b = Some cb ∧
    e = Edge.create p a b ca cb m.

(** The pairs (seed edge, new front edge) of the seed edges that are
    flagged as twins, in order. *)
Fixpoint twin_pairs (front_edges : list SeedEdge) (is_twin_edge : list bool)
    (new_edges : list EdgePtr) : list (EdgePtr * EdgePtr) :=
  match front_edges, is_twin_edge, new_edges with
  | s :: rest, tw :: tws, ne :: nes =>
      (if tw : bool then [(seed_ptr s, ne)] else []) ++ twin_pairs rest tws nes
  | _, _, _ => []
  end.

(** The twin of a front edge once the pairs are bound: the seed edge it is
    paired with, or else the twin it had. *)
Definition twin_for (pairs : list (EdgePtr * EdgePtr)) (e : Edge) : option EdgePtr :=
  match List.find (λ sp, Nat.eqb (snd sp) (Edge.ptr e)) pairs with
  | Some sp => Some (fst sp)
  | None => Edge.twin_edge e
  end.

Definition retwin (pairs : list (EdgePtr * EdgePtr)) (front : EdgeList) : EdgeList :=
  EdgeList.mk
    (map (λ e, Edge.set_twin_edge (twin_for pairs e) e) (EdgeList.edges_ front))
    (EdgeList.fresh front) (EdgeList.area_ front).

(** ** The cursor of the front *)

(** [k] calls of [set_base_next]. *)
Fixpoint base_steps (k : nat) (front : EdgeList) (base_ : option EdgePtr)
    : Exec (option EdgePtr) :=
  match k with
  | 0 => Ret base_
  | S k' => b ← Front.set_base_next front base_; base_steps k' front b
  end.

(** ** The search for the start and the end of a layer *)

(** The squared distance from [xy] to the first vertex of a front edge. *)
Definition d_sqr (vs : Vertices) (xy : Vec2d) (e : Edge) : option float :=
  (λ v, Vec2d.norm_sqr (Vec2d.sub xy (Vertex.xy v))) <$>
    Vertices.find (Edge.v1 e) (Vertices.cells vs).

(** The scan has looked at the edges [seen]: no squared distance among
    them is below [m], and [m] is the initial bound while nothing was
    found, or else below the initial bound and the squared distance of the
    first vertex [p] of one of the edges. *)
Definition closest_so_far (vs : Vertices) (seen : list Edge) (xy : Vec2d)
    (v : option VertexPtr) (m : float) : Prop :=
  (∀ e d, e ∈ seen → d_sqr vs xy e = Some d → (d <? m)%float = false) ∧
  match v with
  | None => m = 1.0E+10%float
  | Some p =>
      (m <? 1.0E+10)%float = true ∧
      ∃ e, e ∈ seen ∧ Edge.v1 e = p ∧ d_sqr vs xy e = Some m
  end.

(** [v] is what the scan of the edges [es] finds for [xy]: nothing when no
    first vertex lies below the bound, or else a first vertex below the
    bound than which none is nearer. *)
Definition nearest_to (vs : Vertices) (es : list Edge) (xy : Vec2d)
    (v : option VertexPtr) : Prop :=
  match v with
  | None => ∀ e d, e ∈ es → d_sqr vs xy e = Some d → (d <? 1.0E+10)%float = false
  | Some p =>
      ∃ e m, e ∈ es ∧ Edge.v1 e = p ∧ d_sqr vs xy e = Some m ∧
             (m <? 1.0E+10)%float = true ∧
             ∀ e' d, e' ∈ es → d_sqr vs xy e' = Some d → (d <? m)%float = false
  end.

(** ** The elements of a layer *)

(** Every call into the mesh and the front update that
    [create_quad_layer_elements] makes returns. *)
Definition collaborators_return {Rest} `{Collaborators Rest} : Prop :=
  (∀ w p, ∃ b, in_container w p = Ret b) ∧
  (∀ base c1 c2 r w, ∃ t w', update_front base c1 c2 r w = Ret (t, w')) ∧
  (∀ w t, ∃ v, triangle_v3 w t = Ret v) ∧
  (∀ e w, ∃ w', remove_interior_edge e w = Ret w') ∧
  (∀ t w, ∃ w', remove_triangle t w = Ret w') ∧
  (∀ a b c d w, ∃ w', add_active_quad a b c d w = Ret w').

(** The entries of [l'] are those of [l], except that some hold a vertex
    now. *)
Definition fills (l l' : list (option VertexPtr)) : Prop :=
  length l' = length l ∧
  ∀ j, l' !! j = l !! j ∨ ∃ p, l' !! j = Some (Some p).

(** Only the projected vertices of the layer may differ, and only by
    holding a vertex where they did not, or another one. *)
Definition only_fills (q q' : QuadLayer.t) : Prop :=
  same_bases q q' ∧
  QuadLayer.proj_v1_xy_ q' = QuadLayer.proj_v1_xy_ q ∧
  QuadLayer.proj_v2_xy_ q' = QuadLayer.proj_v2_xy_ q ∧
  fills (QuadLayer.proj_v1_ q) (QuadLayer.proj_v1_ q') ∧
  fills (QuadLayer.proj_v2_ q) (QuadLayer.proj_v2_ q').

(** ** The refined front *)

(** The handles of the edges of a list that are selected for refinement,
    as [get_edges_to_refine] selects them from the front. *)
Definition to_refine (l : list Edge) : list EdgePtr :=
  Front.get_edges_to_refine (EdgeList.mk l 0 0%float).

(** What the run of the refinement has made of the edge [e] by the time
    the last call has returned: the edge alone, not to be removed, or the
    new edges of its chain followed by the edge itself, which is to be
    removed. The handles of the new edges are not below [lo]. *)
Definition refined_part (removed : list EdgePtr) (lo : EdgePtr) (e : Edge)
    (part : list Edge) : Prop :=
  (part = [e] ∧ Edge.ptr e ∉ removed) ∨
  (Edge.twin_edge e = None ∧ Edge.ptr e ∈ removed ∧
   ∃ news mids,
     part = news ++ [e] ∧ mids ≠ [] ∧
     links (Edge.marker e) (Edge.v1 e) (mids ++ [Edge.v2 e]) news ∧
     Forall (λ x, lo ≤ Edge.ptr x) news).

(** What the refinement leaves in the place of the edge [e]: the edge
    itself, or a chain of at least two new edges from its first to its
    second vertex with its marker; only an edge without a twin is
    replaced. *)
Definition replaced_by (e : Edge) (part : list Edge) : Prop :=
  part = [e] ∨
  (Edge.twin_edge e = None ∧
   ∃ mids, mids ≠ [] ∧
           links (Edge.marker e) (Edge.v1 e) (mids ++ [Edge.v2 e]) part).

(** ** The calls of the refinement *)




(** What the refinement has made of the front [before]: [parts] lists, edge
    by edge and in the order of the front, what stands in the place of each
    edge afterwards. An edge with a twin stands there itself, neither split
    nor removed; an edge without a twin stands there itself or is replaced
    by its chain. The edges with a twin are the same before and after. *)
Definition twins_spared (before after : list Edge) (parts : list (list Edge)) : Prop :=
  after = concat parts ∧
  Forall2 replaced_by before parts ∧
  (∀ i e, before !! i = Some e → is_Some (Edge.twin_edge e) → parts !! i = Some [e]) ∧
  twinned after = twinned before.

(** ** Rings *)

(** The edges [l] lead from the vertex [a] to the vertex [b]: the first
    begins at [a], each begins where the one before it ends, and the last
    ends at [b]. *)
Fixpoint path (a : VertexPtr) (l : list Edge) (b : VertexPtr) : Prop :=
  match l with
  | [] => a = b
  | e :: l' => Edge.v1 e = a ∧ path (Edge.v2 e) l' b
  end.

(** A closed ring of edges: a path that ends where it begins. *)
Definition closed_ring (l : list Edge) : Prop := ∃ a, path a l a.

(** The front consists of closed rings, one after the other. *)
Definition rings_of (front : EdgeList) (rings : list (list Edge)) : Prop :=
  EdgeList.edges_ front = concat rings ∧ Forall closed_ring rings.

(** The edge [e'] is the edge [e] as far as its vertices and its marker go. *)
Definition same_edge (e e' : Edge) : Prop :=
  Edge.v1 e' = Edge.v1 e ∧ Edge.v2 e' = Edge.v2 e ∧ Edge.marker e' = Edge.marker e.

(** The edges [part] stand in the place of the edge [e]: at least one edge,
    leading from the first vertex of [e] to its second vertex, all with the
    marker of [e]. *)
Definition covers (e : Edge) (part : list Edge) : Prop :=
  part ≠ [] ∧ path (Edge.v1 e) part (Edge.v2 e) ∧
  Forall (λ x, Edge.marker x = Edge.marker e) part.

(** The ring [r'] is the ring [r] with every edge kept or refined in place. *)
Definition refined_ring (r r' : list Edge) : Prop :=
  ∃ parts, r' = concat parts ∧ Forall2 covers r parts.

(** The ring of boundary [i] of the front initializer: one part for every
    seed edge of the boundary, in order. The part of seed edge [k] consists
    of at least one edge, has the marker [k] and leads from corner [k] to the
    corner after it, cyclically; the corners are distinct vertices, corner
    [k] standing at the first vertex of seed edge [k], or at its second one
    when the seed edge is a twin. *)
Definition boundary_ring (vs : Vertices) (fi : FrontInitializer.t) (i : nat)
    (ring : list Edge) : Prop :=
  ∃ front_edges is_twin_edge markers corners parts,
    FrontInitializer.edges fi !! i = Some front_edges ∧
    FrontInitializer.is_twin_edge fi !! i = Some is_twin_edge ∧
    FrontInitializer.markers fi !! i = Some markers ∧
    length corners = length front_edges ∧ NoDup corners ∧
    length parts = length front_edges ∧ ring = concat parts ∧
    ∀ k s, front_edges !! k = Some s →
      ∃ tw m a b part,
        is_twin_edge !! k = Some tw ∧ markers !! k = Some m ∧
        corners !! k = Some a ∧ corners !! (S k `mod` length corners) = Some b ∧
        parts !! k = Some part ∧
        vertex_xy vs a = Some (if tw : bool then seed_v2_xy s else seed_v1_xy s) ∧
        part ≠ [] ∧ path a part b ∧ Forall (λ x, Edge.marker x = m) part.

(** * Scenarios
    Concrete fronts and layers on which the statements below are exercised.
    The links between edges follow the vertices (the next edge of [e] is
    the edge that starts where [e] ends); the geometry uses the cross
    product for [is_left] and polynomial stand-ins for [acos], [sin] and
    [cos]. *)

Module Scenario.

Set Warnings "-inexact-float".

Definition debug_build : Build := {| NDEBUG := false |}.

Definition next_by_vertex (el : EdgeList) (p : EdgePtr) : option EdgePtr :=
  match EdgeList.find p (EdgeList.edges_ el) with
  | Some e =>
      option_map Edge.ptr
        (List.find (λ e', Nat.eqb (Edge.v1 e') (Edge.v2 e)) (EdgeList.edges_ el))
  | None => None
  end.

Definition prev_by_vertex (el : EdgeList) (p : EdgePtr) : option EdgePtr :=
  match EdgeList.find p (EdgeList.edges_ el) with
  | Some e =>
      option_map Edge.ptr
        (List.find (λ e', Nat.eqb (Edge.v2 e') (Edge.v1 e)) (EdgeList.edges_ el))
  | None => None
  end.

Definition links_by_vertex : EdgeLinks :=
  {| get_next_edge := next_by_vertex;
     get_prev_edge := prev_by_vertex;
     bdry_mark_objects := λ _ _ vs, vs |}.

Definition cross_is_left (p q r : Vec2d) : bool :=
  (0 <? (Vec2d.x q - Vec2d.x p) * (Vec2d.y r - Vec2d.y p)
        - (Vec2d.y q - Vec2d.y p) * (Vec2d.x r - Vec2d.x p))%float.

Definition approx_acos_pos (x : float) : float :=
  (sqrt (1 - x)
   * (1.5707288 + x * (-0.2121144 + x * (0.0742610 + x * -0.0187293))))%float.

Definition approx_acos (x : float) : float :=
  if (x <? 0)%float then (3.141592653589793 - approx_acos_pos (- x))%float
  else approx_acos_pos x.

Definition approx_sin (x : float) : float :=
  let x2 := (x * x)%float in
  (x * (1 + x2 * (-1/6 + x2 * (1/120 + x2 * (-1/5040 + x2 * (1/362880))))))%float.

Definition approx_cos (x : float) : float :=
  let x2 := (x * x)%float in
  (1 + x2 * (-1/2 + x2 * (1/24 + x2 * (-1/720 + x2 * (1/40320)))))%float.

Definition approx_angle (a b : Vec2d) : float :=
  approx_acos
    ((Vec2d.x a * Vec2d.x b + Vec2d.y a * Vec2d.y b)
     / (Vec2d.norm a * Vec2d.norm b))%float.

Definition approx_geometry : Geometry :=
  {| angle := approx_angle;
     is_left := cross_is_left;
     sin := approx_sin;
     cos := approx_cos;
     CONSTANTS_quad_layer_angle := FrontQuadLayering.quad_layer_angle_ |}.

#[local] Existing Instance debug_build.
#[local] Existing Instance links_by_vertex.
#[local] Existing Instance approx_geometry.

Definition P (a b : float) : Vec2d := Vec2d.mk a b.

Definition empty_front : EdgeList := EdgeList.mk [] 0 0%float.
Definition empty_vertices : Vertices := Vertices.mk [] 0.

Definition ring (first : EdgePtr) (a b c d : Vec2d) : list SeedEdge :=
  [mkSeedEdge first a b; mkSeedEdge (first + 1) b c;
   mkSeedEdge (first + 2) c d; mkSeedEdge (first + 3) d a].

Definition no_twins : list bool := [false; false; false; false].
Definition markers_of (m : Z) : list Z := [m; m; m; m].

(** The unit square with size function 0.25: every side is refined into
    four edges. *)
Definition unit_square : FrontInitializer.t :=
  FrontInitializer.mk
    [ring 100 (P 0 0) (P 1 0) (P 1 1) (P 0 1)] [no_twins] [markers_of 1].

Definition uniform (n : nat) (rho : float) : Domain := Domain.mk n (λ _, rho).

Definition after_init (r : Exec (EdgeList * Vertices * list (EdgePtr * EdgePtr)))
    : EdgeList * Vertices :=
  match r with
  | Ret (f, vs, _) => (f, vs)
  | _ => (empty_front, empty_vertices)
  end.

Definition square16 : EdgeList * Vertices :=
  Eval vm_compute in
    after_init (Front.init_front 10 (uniform 1 0.25) unit_square
                  empty_front empty_vertices).

Definition square16_env : Env := mkEnv (snd square16) (fst square16) empty_front.

(** A square of side 4 with a square hole, size function 10: two rings of
    four edges each, the handles 0 to 3 and 4 to 7, not refined. *)
Definition square_with_hole : FrontInitializer.t :=
  FrontInitializer.mk
    [ring 100 (P 0 0) (P 4 0) (P 4 4) (P 0 4);
     ring 200 (P 1 1) (P 1 2) (P 2 2) (P 2 1)]
    [no_twins; no_twins] [markers_of 1; markers_of 2].

Definition two_rings : EdgeList * Vertices :=
  Eval vm_compute in
    after_init (Front.init_front 10 (uniform 2 10) square_with_hole
                  empty_front empty_vertices).

Definition two_rings_env : Env := mkEnv (snd two_rings) (fst two_rings) empty_front.

(** The outer ring without its last edge: the links end in a null link. *)
Definition open_ring_env : Env :=
  mkEnv (snd two_rings)
        (EdgeList.remove 3 (EdgeList.remove 4 (EdgeList.remove 5
           (EdgeList.remove 6 (EdgeList.remove 7 (fst two_rings))))))
        empty_front.

(** A closed layer of height 0.5 on the outer ring, and a size function
    that grows with x. *)
Definition after_create (r : Exec QuadLayer.t) : QuadLayer.t :=
  match r with
  | Ret q => q
  | _ => QuadLayer.mk 0 0 false 0%float [] [] [] [] [] [] [] []
  end.

Definition ring_layer : QuadLayer.t :=
  Eval vm_compute in
    after_create (QuadLayer.create 10 two_rings_env 0 3 true 0.5%float).

Definition graded : Domain := Domain.mk 2 (λ c, (0.125 + 0.0625 * Vec2d.x c)%float).

(** The first corner of that layer, a convex corner of the domain, and the
    first corner of a closed layer of height 0.25 around the hole, a reflex
    corner of the domain. *)
Definition the_joint (o : option Joint) : Joint :=
  default (mkJoint (P 0 0) (P 0 0) (P 0 0) (P 0 0) (P 0 0) 0%float 0%float) o.

Definition corner_joint : Joint :=
  Eval vm_compute in the_joint (read_joint two_rings_env ring_layer 0 1).

Definition hole_layer : QuadLayer.t :=
  Eval vm_compute in
    after_create (QuadLayer.create 10 two_rings_env 4 7 true 0.25%float).

Definition hole_joint : Joint :=
  Eval vm_compute in the_joint (read_joint two_rings_env hole_layer 0 1).

(** A quadrilateral front (0,0), (4,0), (4,4), d, not refined, with the same
    four edges as boundary edges of the mesh, and the open layer of height
    0.5 on its first two edges: the far vertex of the edge before the layer
    and of the edge after it is d. *)
Definition kite_env (d : Vec2d) : Env :=
  let r := after_init
             (Front.init_front 10 (uniform 1 100)
                (FrontInitializer.mk [ring 100 (P 0 0) (P 4 0) (P 4 4) d]
                   [no_twins] [markers_of 7])
                empty_front empty_vertices) in
  mkEnv (snd r) (fst r) (fst r).

Definition kite_layer (d : Vec2d) : QuadLayer.t :=
  after_create (QuadLayer.create 10 (kite_env d) 0 1 false 0.5%float).

Definition the_reads (o : option EndReads) : EndReads :=
  default (mkEndReads 0 (Edge.create 0 0 0 (P 0 0) (P 0 0) 0) (P 0 0) (P 0 0) (P 0 0)
             0%float (P 0 0)) o.

Definition kite_start (d : Vec2d) : EndReads :=
  the_reads (read_start (kite_env d) (kite_layer d)).

Definition kite_end (d : Vec2d) : EndReads :=
  the_reads (read_end (kite_env d) (kite_layer d)).

(** d close to the projection of the start: the start merges, the end
    splits. *)
Definition env_a : Env := Eval vm_compute in kite_env (P 0.25 0.5).
Definition layer_a : QuadLayer.t := Eval vm_compute in kite_layer (P 0.25 0.5).
Definition start_a : EndReads := Eval vm_compute in kite_start (P 0.25 0.5).

(** d close to the projection of the end: the start splits, the end
    merges. *)
Definition env_b : Env := Eval vm_compute in kite_env (P 3.75 4.25).
Definition layer_b : QuadLayer.t := Eval vm_compute in kite_layer (P 3.75 4.25).
Definition end_b : EndReads := Eval vm_compute in kite_end (P 3.75 4.25).





(** Stand-ins for the mesh and the front update, with nothing in the rest
    of the mesh: [rejecting] commits no triangle at all; [accepting] commits
    every triangle with a new apex vertex at the preferred coordinate, but
    does not advance the front. *)
Definition reject_update : EdgePtr → Vec2d → Vec2d → float → World unit →
    Exec (option TrianglePtr * World unit) :=
  λ _ _ _ _ w, Ret (None, w).

Definition accept_update : EdgePtr → Vec2d → Vec2d → float → World unit →
    Exec (option TrianglePtr * World unit) :=
  λ _ c _ _ w,
    let '(v, vs) := Vertices.push_back c (verts (env w)) in
    Ret (Some v,
         mkWorld (mkEnv (Vertices.update v (Vertex.set_on_front true) vs)
                    (front (env w)) (bdry_edges (env w))) tt).

Definition stub
    (update : EdgePtr → Vec2d → Vec2d → float → World unit →
              Exec (option TrianglePtr * World unit)) : Collaborators unit :=
  {| setup_facet_connectivity := Ret;
     init_advancing_front := λ _, Ret;
     remove_invalid_mesh_edges := Ret;
     finish_mesh_for_output := Ret;
     clear_waste := Ret;
     add_vertex := λ c w,
       let '(v, vs) := Vertices.push_back c (verts (env w)) in
       Ret (v, mkWorld (mkEnv vs (front (env w)) (bdry_edges (env w))) tt);
     add_triangle := λ _ _ c w, Ret (c, w);
     add_active_quad := λ _ _ _ _, Ret;
     remove_triangle := λ _, Ret;
     interior_edges_get_edge := λ _ _ _, None;
     remove_interior_edge := λ _, Ret;
     triangle_v3 := λ _ t, Ret t;
     in_container := λ w e,
       Ret (bool_decide (is_Some (EdgeList.find e (EdgeList.edges_ (front (env w))))));
     is_traversable := λ _ _ _, true;
     update_front := update;
     remove_from_mesh_if_invalid := λ _ w, Ret (true, w);
     remove_from_mesh_if_invalid_3 := λ _ _ _ w, Ret (true, w);
     advance_front := λ _ _ _, Ret |}.

Definition rejecting : Collaborators unit := stub reject_update.
Definition accepting : Collaborators unit := stub accept_update.

(** The driver on the square with the hole, its four outer and four inner
    edges being the boundary edges of the mesh as well: three layers, first
    height 0.5, growth rate 1.5, start and end at the corner (0, 0). *)
Definition ring_world : World unit :=
  mkWorld (mkEnv (snd two_rings) (fst two_rings) (fst two_rings)) tt.

Definition ring_driver : FrontQuadLayering.t unit :=
  FrontQuadLayering.mk ring_world (uniform 2 10) 3 0.5%float 1.5%float
    (P 0 0) (P 0 0).

(** An open layer of two base edges whose first projected vertex (vertex 0)
    is on the front and whose last projected vertex (vertex 1) is not. *)
Definition two_vertices : Vertices :=
  Vertices.mk
    [(0, Vertex.mk (P 0 1) true false false);
     (1, Vertex.mk (P 2 1) false false false)] 2.

Definition half_anchored : QuadLayer.t :=
  QuadLayer.mk 0 1 false 1%float [0; 1] [10; 11] [11; 12]
    [Some 0; Some 1] [Some 1; Some 1]
    [P 0 1; P 1 1] [P 1 1; P 2 1] [1%float; 1%float].

Definition two_vertex_driver : FrontQuadLayering.t unit :=
  FrontQuadLayering.mk (mkWorld (mkEnv two_vertices empty_front empty_front) tt)
    (uniform 1 1) 1 1%float 1%float (P 0 0) (P 2 0).

(** The same layer closed, with both projected vertices off the front. *)
Definition unanchored : QuadLayer.t :=
  QuadLayer.mk 0 1 true 1%float [0; 1] [10; 11] [11; 10]
    [Some 1; Some 1] [Some 1; Some 1]
    [P 0 1; P 1 1] [P 1 1; P 2 1] [1%float; 1%float].

(** The driver after one layer of height 0.5 with the accepting stand-in. *)
Definition ring_after_layer : FrontQuadLayering.t unit :=
  Eval vm_compute in
    match FrontQuadLayering.generate_quad_layer (H1 := accepting) 10 0.5%float
            ring_driver with
    | Ret (_, s) => s
    | _ => ring_driver
    end.

(** The driver after all three layers with the accepting stand-in. *)
Definition ring_after_layers : FrontQuadLayering.t unit :=
  Eval vm_compute in
    match run_layers (H1 := accepting) 10 0.5%float 1.5%float 0 3 ring_driver with
    | Ret (_, s) => s
    | _ => ring_driver
    end.

(** The closed layer on the outer ring once its four quads are built: the
    quads share their projected vertices, [p2[i]] being [p1[i+1]]; the
    projected vertices, 8 to 11, stand at the projected coordinates of the
    layer. *)
Definition quads_layer : QuadLayer.t :=
  QuadLayer.set_proj_v2_ [Some 9; Some 10; Some 11; Some 8]
    (QuadLayer.set_proj_v1_ [Some 8; Some 9; Some 10; Some 11] ring_layer).

Definition quads_world : World unit :=
  mkWorld
    (mkEnv (fold_left (λ vs c, snd (Vertices.push_back c vs))
              (QuadLayer.proj_v1_xy_ ring_layer) (snd two_rings))
           (fst two_rings) (fst two_rings)) tt.

(** A mesh with boundary edges whose front was left empty. *)
Definition frontless_driver : FrontQuadLayering.t unit :=
  FrontQuadLayering.mk
    (mkWorld (mkEnv (snd two_rings) empty_front (fst two_rings)) tt)
    (uniform 2 10) 3 0.5%float 1.5%float (P 0 0) (P 0 0).

(** The four edges of the unit square before the refinement. *)
Definition square4 : EdgeList * Vertices :=
  Eval vm_compute in
    after_init (Front.seed_front (uniform 1 0.25) unit_square
                  empty_front empty_vertices).

(** The size 0.25 below y = 0.5 and 10 above it: of the unit square only
    the bottom side is refined. *)
Definition coarse_top : Domain :=
  Domain.mk 1 (λ c, if (Vec2d.y c <? 0.5)%float then 0.25%float else 10%float).

Definition square7 : EdgeList * Vertices :=
  Eval vm_compute in
    match Front.refine_front_edges 10 coarse_top (fst square4) (snd square4) with
    | Ret (_, front, vs) => (front, vs)
    | _ => square4
    end.

(** The unit square beside another mesh: its side from (1, 0) to (1, 1) is
    the twin of the boundary edge 101 of that mesh, which runs the other
    way. *)
Definition square_beside_mesh : FrontInitializer.t :=
  FrontInitializer.mk
    [[mkSeedEdge 100 (P 0 0) (P 1 0); mkSeedEdge 101 (P 1 1) (P 1 0);
      mkSeedEdge 102 (P 1 1) (P 0 1); mkSeedEdge 103 (P 0 1) (P 0 0)]]
    [[false; true; false; false]] [markers_of 1].

Definition beside4 : EdgeList * Vertices :=
  Eval vm_compute in
    after_init (Front.seed_front (uniform 1 0.25) square_beside_mesh
                  empty_front empty_vertices).

Definition beside13 : EdgeList * Vertices :=
  Eval vm_compute in
    after_init (Front.init_front 10 (uniform 1 0.25) square_beside_mesh
                  empty_front empty_vertices).

(** A square hole in that square, seeded into the front that already holds
    the ring of the square: with the size 0.25 each side of the hole, 0.5
    long, is refined into two edges. *)
Definition hole_in_square : FrontInitializer.t :=
  FrontInitializer.mk
    [ring 200 (P 0.25 0.25) (P 0.25 0.75) (P 0.75 0.75) (P 0.75 0.25)]
    [no_twins] [markers_of 2].

Definition beside_with_hole : EdgeList * Vertices :=
  Eval vm_compute in
    after_init (Front.init_front 10 (uniform 1 0.25) hole_in_square
                  (fst beside13) (snd beside13)).

(** The sides and the corners of [square4], and the coordinates along its
    side from (1, 0) to (1, 1) for the size function 0.25. *)
Definition side (i : nat) : Edge :=
  Eval vm_compute in
    nth i (EdgeList.edges_ (fst square4)) (Edge.create 0 0 0 (P 0 0) (P 0 0) 0).

Definition corner (i : nat) : Vertex :=
  Eval vm_compute in
    nth i (map snd (Vertices.cells (snd square4))) (Vertex.create (P 0 0)).

Definition quarter_points : list Vec2d :=
  [P 1 0; P 1 0.25; P 1 0.5; P 1 0.75; P 1 1].

(** The twin of the boundary edge 101 in [beside4] and [beside13]. *)
Definition twin_side : Edge :=
  Eval vm_compute in
    nth 1 (EdgeList.edges_ (fst beside4)) (Edge.create 0 0 0 (P 0 0) (P 0 0) 0).

End Scenario.
(** * Properties *)

(** ** The monad *)

Lemma bind_Ret {A B} (a : A) (k : A → Exec B) : (Ret a ≫= k) = k a.
Proof. reflexivity. Qed.

Lemma bind_Ret_inv {A B} (m : Exec A) (k : A → Exec B) (b : B) :
  (m ≫= k) = Ret b → ∃ a, m = Ret a ∧ k a = Ret b.
Proof. destruct m as [a| | |]; intros E; try discriminate. by exists a. Qed.

Lemma at_index_Some {A} (l : list A) (i : nat) (a : A) :
  l !! i = Some a → at_index l i = Ret a.
Proof. unfold at_index. by intros ->. Qed.

Lemma at_index_None {A} (l : list A) (i : nat) :
  length l ≤ i → at_index l i = Undef.
Proof. intros Hi. unfold at_index. by rewrite lookup_ge_None_2. Qed.

Lemma at_Z_nat {A} (l : list A) (i : nat) : at_Z l (Z.of_nat i) = at_index l i.
Proof.
  unfold at_Z. destruct (Z.ltb_spec (Z.of_nat i) 0); [lia|]. by rewrite Nat2Z.id.
Qed.

Lemma set_Z_nat {A} (l : list A) (i : nat) (a : A) :
  i < length l → set_Z l (Z.of_nat i) a = Ret (<[i := a]> l).
Proof.
  intros Hi. unfold set_Z. destruct (Z.ltb_spec (Z.of_nat i) 0); [lia|].
  rewrite Nat2Z.id. by destruct (Nat.ltb_spec i (length l)); [|lia].
Qed.

(** ** QuadLayer::smooth_heights *)

Section SmoothHeights.
Context (domain : Domain) (env : Env).

Lemma smooth_loop_spec (fuel i : nat) (q : QuadLayer.t) :
  bases_ok env q → 1 ≤ i → 0 < length (QuadLayer.heights_ q) →
  0 < fuel → length (QuadLayer.heights_ q) ≤ fuel + i →
  ∃ hs',
    QuadLayer.smooth_loop fuel domain env i q = Ret (QuadLayer.set_heights_ hs' q) ∧
    length hs' = length (QuadLayer.heights_ q) ∧
    (∀ k, k < i ∨ length (QuadLayer.heights_ q) ≤ k + 1 →
          hs' !! k = QuadLayer.heights_ q !! k) ∧
    (∀ k v, i ≤ k → k + 1 < length (QuadLayer.heights_ q) →
            hs' !! k = Some v → smoothed domain env hs' (QuadLayer.heights_ q) q k v).
Proof.
  revert i q. induction fuel as [|fuel IH]; intros i q Hok Hi Hn Hpos Hfuel.
  - lia.
  - destruct Hok as (Hlen & Hfront & Hmax). cbn [QuadLayer.smooth_loop].
    set (n := length (QuadLayer.heights_ q)) in *.
    rewrite Z.mod_small by (unfold QuadLayer.size_t_max in *; lia).
    destruct (Z.ltb_spec (Z.of_nat i) (Z.of_nat n - 1)) as [Hlt|Hge].
    + (* one more height to smooth *)
      destruct (lookup_lt_is_Some_2 (QuadLayer.heights_ q) (i - 1)) as [h1 E1]; [lia|].
      destruct (lookup_lt_is_Some_2 (QuadLayer.heights_ q) i) as [h2 E2]; [lia|].
      destruct (lookup_lt_is_Some_2 (QuadLayer.heights_ q) (i + 1)) as [h3 E3]; [lia|].
      destruct (lookup_lt_is_Some_2 (QuadLayer.base_edges_ q) i) as [ep Ep]; [lia|].
      destruct (proj1 (Forall_lookup _ _) Hfront i ep Ep) as [e Ee].
      rewrite (at_index_Some _ _ _ E1), (at_index_Some _ _ _ E2),
        (at_index_Some _ _ _ E3), (at_index_Some _ _ _ Ep).
      cbn [mbind Exec_bind]. unfold EdgeList.get. rewrite Ee.
      cbn [deref_opt mbind Exec_bind].
      set (v := MIN _ _).
      set (q1 := QuadLayer.set_heights_ _ q).
      destruct (IH (S i) q1) as (hs' & Hrun & Hlen' & Hout & Hin).
      * repeat split; cbn; rewrite ?length_insert; done.
      * lia.
      * cbn. rewrite length_insert. done.
      * lia.
      * cbn. rewrite length_insert. fold n. lia.
      * cbn in Hlen', Hout, Hin. rewrite length_insert in Hlen', Hout, Hin.
        fold n in Hlen', Hout, Hin.
        exists hs'. split; [exact Hrun|]. split; [exact Hlen'|]. split.
        -- intros k Hk. rewrite Hout by lia.
           apply list_lookup_insert_ne. lia.
        -- intros k w Hik Hkn Hw.
           destruct (decide (k = i)) as [->|Hne].
           ++ (* the height written in this pass *)
              rewrite Hout in Hw by lia.
              rewrite list_lookup_insert_eq in Hw by lia. injection Hw as <-.
              exists h1, h2, h3, ep, e. repeat split; try done.
              rewrite Hout by lia. rewrite list_lookup_insert_ne by lia. done.
           ++ destruct (Hin k w) as (a & b & c & ep' & e' & Ha & Hb & Hc & Hp & He & Hv);
                [lia|lia|done|].
              rewrite list_lookup_insert_ne in Hb by lia.
              rewrite list_lookup_insert_ne in Hc by lia.
              exists a, b, c, ep', e'. repeat split; done.
    + (* the loop ends *)
      exists (QuadLayer.heights_ q). split; [by destruct q|].
      split; [done|]. split; [done|]. intros k w Hik Hkn. lia.
Qed.

End SmoothHeights.

(** C7: [smooth_heights] changes nothing but [heights_], and there only the
    entries from 1 to n-2: [heights_[0]] and [heights_[n-1]] keep their
    values, and every entry i in between becomes the minimum of the size
    function at the midpoint of base edge i and of (h1 + h2 + h3) / 3, where
    h2 and h3 are the old heights i and i+1 and h1 is height i-1 as the loop
    left it (the old one for i = 1, the smoothed one after that). *)
Theorem smooth_heights_spec (domain : Domain) (env : Env) (q : QuadLayer.t) :
  bases_ok env q → 0 < length (QuadLayer.heights_ q) →
  ∃ hs',
    QuadLayer.smooth_heights domain env q = Ret (QuadLayer.set_heights_ hs' q) ∧
    length hs' = length (QuadLayer.heights_ q) ∧
    hs' !! 0 = QuadLayer.heights_ q !! 0 ∧
    hs' !! (length hs' - 1) = QuadLayer.heights_ q !! (length hs' - 1) ∧
    ∀ i, 1 ≤ i → i + 1 < length hs' →
      ∃ v, hs' !! i = Some v ∧ smoothed domain env hs' (QuadLayer.heights_ q) q i v.
Proof.
  intros Hok Hn. unfold QuadLayer.smooth_heights.
  destruct (smooth_loop_spec domain env (S (length (QuadLayer.heights_ q))) 1 q)
    as (hs' & Hrun & Hlen & Hout & Hin); [done|lia|done|lia|lia|].
  exists hs'. split; [done|]. split; [done|]. split; [apply Hout; lia|].
  split; [apply Hout; lia|].
  intros i Hi Hi'. destruct (lookup_lt_is_Some_2 hs' i) as [v Hv]; [lia|].
  exists v. split; [done|]. apply Hin; [done|lia|done].
Qed.

Lemma smooth_heights_spec_witness :
  ∃ hs',
    QuadLayer.smooth_heights Scenario.graded Scenario.two_rings_env
      Scenario.ring_layer = Ret (QuadLayer.set_heights_ hs' Scenario.ring_layer) ∧
    length hs' = 4 ∧
    hs' !! 0 = Some 0.5%float ∧
    hs' !! (length hs' - 1) =
      QuadLayer.heights_ Scenario.ring_layer !! (length hs' - 1) ∧
    ∀ i, 1 ≤ i → i + 1 < length hs' →
      ∃ v, hs' !! i = Some v ∧
           smoothed Scenario.graded Scenario.two_rings_env hs'
             [0.5; 0.5; 0.5; 0.5]%float Scenario.ring_layer i v.
Proof.
  apply (smooth_heights_spec Scenario.graded Scenario.two_rings_env
           Scenario.ring_layer).
  - split; [reflexivity|]. split; [|reflexivity].
    repeat constructor; by eexists.
  - cbn. lia.
Defined.

(** The heights of that layer after smoothing. *)
Example smooth_heights_ring :
  QuadLayer.heights_ <$> option_map (λ q, q)
    (match QuadLayer.smooth_heights Scenario.graded Scenario.two_rings_env
             Scenario.ring_layer with Ret q => Some q | _ => None end)
  = Some [0.5; 0.375; 0.25; 0.5]%float.
Proof. vm_compute. reflexivity. Qed.

(** ** QuadLayer::QuadLayer *)

Section Constructor.
Context `{EdgeLinks} (env : Env).

Lemma add_quadlayer_edge_header (p : EdgePtr) (q q' : QuadLayer.t) :
  QuadLayer.add_quadlayer_edge env p q = Ret q' →
  QuadLayer.e_start_ q' = QuadLayer.e_start_ q ∧
  QuadLayer.e_end_ q' = QuadLayer.e_end_ q ∧
  QuadLayer.is_closed_ q' = QuadLayer.is_closed_ q ∧
  QuadLayer.height_ q' = QuadLayer.height_ q ∧
  QuadLayer.base_edges_ q' = QuadLayer.base_edges_ q ++ [p].
Proof.
  unfold QuadLayer.add_quadlayer_edge. intros E.
  apply bind_Ret_inv in E as (e & _ & E).
  apply bind_Ret_inv in E as (a & _ & E).
  apply bind_Ret_inv in E as (b & _ & E).
  injection E as <-. done.
Qed.

Lemma add_quadlayer_edge_row (p : EdgePtr) (q : QuadLayer.t) :
  edge_ok env p → rows_ok env q →
  ∃ q', QuadLayer.add_quadlayer_edge env p q = Ret q' ∧ rows_ok env q'.
Proof.
  intros (e & a & b & He & Ha & Hb) (Hlen & Hrows).
  unfold QuadLayer.add_quadlayer_edge, EdgeList.get, Vertices.get.
  rewrite He. cbn [deref_opt mbind Exec_bind]. rewrite Ha, Hb.
  cbn [deref_opt mbind Exec_bind]. eexists. split; [reflexivity|].
  destruct Hlen as (L1 & L2 & L3 & L4 & L5 & L6 & L7).
  split.
  - unfold same_lengths. cbn. rewrite !length_app. cbn. lia.
  - cbn. intros i p' Hi.
    destruct (decide (i < length (QuadLayer.base_edges_ q))) as [Hlt|Hge].
    + rewrite lookup_app_l in Hi by done.
      destruct (Hrows i p' Hi)
        as (e' & a' & b' & ? & ? & ? & ? & ? & ? & ? & ? & ? & ?).
      exists e', a', b'. cbn.
      rewrite !lookup_app_l by lia. done.
    + assert (i = length (QuadLayer.base_edges_ q)) as ->.
      { apply lookup_lt_Some in Hi. rewrite length_app in Hi. cbn in Hi. lia. }
      rewrite list_lookup_middle in Hi by done. injection Hi as <-.
      exists e, a, b. cbn.
      rewrite !list_lookup_middle by lia. done.
Qed.

Lemma add_all_rows (ps : list EdgePtr) (q : QuadLayer.t) :
  Forall (edge_ok env) ps → rows_ok env q →
  ∃ q', add_all env ps q = Ret q' ∧ rows_ok env q' ∧
        QuadLayer.base_edges_ q' = QuadLayer.base_edges_ q ++ ps ∧
        QuadLayer.e_start_ q' = QuadLayer.e_start_ q ∧
        QuadLayer.e_end_ q' = QuadLayer.e_end_ q ∧
        QuadLayer.is_closed_ q' = QuadLayer.is_closed_ q ∧
        QuadLayer.height_ q' = QuadLayer.height_ q.
Proof.
  revert q. induction ps as [|p ps IH]; intros q Hps Hq.
  - exists q. rewrite app_nil_r. done.
  - apply Forall_cons in Hps as [Hp Hps].
    destruct (add_quadlayer_edge_row p q Hp Hq) as (q1 & E1 & Hq1).
    destruct (add_quadlayer_edge_header p q q1 E1) as (S1 & S2 & S3 & S4 & S5).
    destruct (IH q1 Hps Hq1) as (q' & E' & Hq' & B & T1 & T2 & T3 & T4).
    exists q'. cbn [add_all]. rewrite E1. cbn [mbind Exec_bind].
    split; [done|]. split; [done|].
    rewrite B, S5, <- app_assoc. split; [done|]. by rewrite T1, T2, T3, T4.
Qed.

Lemma add_all_app (ps ps' : list EdgePtr) (q : QuadLayer.t) :
  add_all env (ps ++ ps') q = (add_all env ps q ≫= add_all env ps').
Proof.
  revert q. induction ps as [|p ps IH]; intros q; [done|].
  cbn [add_all app]. destruct (QuadLayer.add_quadlayer_edge env p q); try done.
  cbn [mbind Exec_bind]. apply IH.
Qed.

Lemma add_all_e_end (ps : list EdgePtr) (q q' : QuadLayer.t) :
  add_all env ps q = Ret q' → QuadLayer.e_end_ q' = QuadLayer.e_end_ q.
Proof.
  revert q. induction ps as [|p ps IH]; intros q E.
  - by injection E as <-.
  - cbn [add_all] in E. apply bind_Ret_inv in E as (q1 & E1 & E).
    rewrite (IH _ E). by apply add_quadlayer_edge_header in E1 as (_ & -> & _).
Qed.

(** The walk along a chain that ends in [e_end] adds the edges of the chain
    and stops. *)
Lemma walk_chain (fuel : nat) (e : EdgePtr) (l : list EdgePtr) (q : QuadLayer.t) :
  chain (front env) (QuadLayer.e_end_ q) e l (Some (QuadLayer.e_end_ q)) →
  length l < fuel →
  QuadLayer.walk fuel env (Some e) q = add_all env (e :: l) q.
Proof.
  revert e l q. induction fuel as [|fuel IH]; intros e l q Hch Hfuel; [lia|].
  cbn [QuadLayer.walk add_all]. rewrite bool_decide_true by (by eexists).
  cbn [ASSERT mbind Exec_bind deref_opt].
  destruct (QuadLayer.add_quadlayer_edge env e q) as [q1| | |] eqn:E1; try done.
  cbn [mbind Exec_bind].
  apply add_quadlayer_edge_header in E1 as (_ & Hend & _).
  destruct l as [|e' l]; cbn [chain] in Hch.
  - rewrite Hch. rewrite bool_decide_false by (intros ?; done). done.
  - destruct Hch as (Hn & Hne & Hch). rewrite Hn.
    rewrite bool_decide_true by congruence.
    apply IH; [by rewrite Hend|cbn in Hfuel; lia].
Qed.

(** The walk along a chain that ends in a null link adds the edges of the
    chain and then fails the assertion. *)
Lemma walk_chain_null (fuel : nat) (e : EdgePtr) (l : list EdgePtr) (q : QuadLayer.t) :
  chain (front env) (QuadLayer.e_end_ q) e l None →
  S (length l) < fuel →
  QuadLayer.walk fuel env (Some e) q = (add_all env (e :: l) q ≫= λ _, Abort).
Proof.
  revert e l q. induction fuel as [|fuel IH]; intros e l q Hch Hfuel; [lia|].
  cbn [QuadLayer.walk add_all]. rewrite bool_decide_true by (by eexists).
  cbn [ASSERT mbind Exec_bind deref_opt].
  destruct (QuadLayer.add_quadlayer_edge env e q) as [q1| | |] eqn:E1; try done.
  cbn [mbind Exec_bind].
  apply add_quadlayer_edge_header in E1 as (_ & Hend & _).
  destruct l as [|e' l]; cbn [chain] in Hch.
  - rewrite Hch. rewrite bool_decide_true by done.
    destruct fuel as [|fuel]; [cbn in Hfuel; lia|]. cbn [QuadLayer.walk add_all].
    rewrite bool_decide_false by (by intros [? ?]). done.
  - destruct Hch as (Hn & Hne & Hch). rewrite Hn.
    rewrite bool_decide_true by congruence.
    apply IH; [by rewrite Hend|cbn in Hfuel; lia].
Qed.

(** The walk inside a set of edges that the links never leave uses up any
    fuel. *)
Lemma walk_diverges (S : EdgePtr → Prop) (e_end : EdgePtr) (fuel : nat)
    (e : EdgePtr) (q : QuadLayer.t) :
  closed_under_next env e_end S → QuadLayer.e_end_ q = e_end → S e →
  rows_ok env q →
  QuadLayer.walk fuel env (Some e) q = OutOfFuel.
Proof.
  intros Hcl. revert e q. induction fuel as [|fuel IH]; intros e q Hq0 He Hq; [done|].
  cbn [QuadLayer.walk]. rewrite bool_decide_true by (by eexists).
  cbn [ASSERT mbind Exec_bind deref_opt].
  destruct (Hcl e He) as (Hok & e' & Hn & Hne & He').
  destruct (add_quadlayer_edge_row e q Hok Hq) as (q1 & E1 & Hq1).
  rewrite E1. cbn [mbind Exec_bind].
  apply add_quadlayer_edge_header in E1 as (_ & Hend & _).
  rewrite Hn. rewrite bool_decide_true by congruence.
  apply IH; [congruence|done|done].
Qed.

End Constructor.

Lemma rows_ok_empty (env : Env) (e_start e_end : EdgePtr) (c : bool) (h : float) :
  rows_ok env (QuadLayer.mk e_start e_end c h [] [] [] [] [] [] [] []).
Proof. split; [by repeat split|]. intros i p Hi. by destruct i. Qed.

(** C3 (as amended): the constructor adds [e_start], then the edges that the
    next-edge links lead through up to the first later occurrence of
    [e_end], then [e_end], in this order, one row of the parallel arrays per
    edge. It returns whenever the links lead from [e_start] to [e_end]; it
    fails the assertion when they lead to a null link first; and it does not
    return when they lead to neither (whatever the fuel, the model runs out
    of it). *)
Theorem QuadLayer_create_spec `{EdgeLinks} (fuel : nat) (env : Env)
    (e_start e_end : EdgePtr) (is_closed : bool) (height : float) :
  (∀ l, chain (front env) e_end e_start l (Some e_end) →
        length l < fuel →
        Forall (edge_ok env) (e_start :: l ++ [e_end]) →
        ∃ q, QuadLayer.create fuel env e_start e_end is_closed height = Ret q ∧
             QuadLayer.base_edges_ q = e_start :: l ++ [e_end] ∧
             rows_ok env q ∧
             QuadLayer.e_start_ q = e_start ∧ QuadLayer.e_end_ q = e_end ∧
             QuadLayer.is_closed_ q = is_closed ∧ QuadLayer.height_ q = height) ∧
  (∀ l, chain (front env) e_end e_start l None →
        S (length l) < fuel →
        Forall (edge_ok env) (e_start :: l) →
        QuadLayer.create fuel env e_start e_end is_closed height = Abort) ∧
  (∀ S : EdgePtr → Prop, closed_under_next env e_end S → S e_start →
        QuadLayer.create fuel env e_start e_end is_closed height = OutOfFuel).
Proof.
  unfold QuadLayer.create.
  set (q0 := QuadLayer.mk e_start e_end is_closed height [] [] [] [] [] [] [] []).
  pose proof (rows_ok_empty env e_start e_end is_closed height) as Hq0. fold q0 in Hq0.
  split; [|split].
  - intros l Hch Hfuel Hok.
    rewrite (walk_chain env fuel e_start l q0 Hch Hfuel).
    change (e_start :: l ++ [e_end]) with ((e_start :: l) ++ [e_end]) in Hok.
    apply Forall_app in Hok as [Hl Hend]. rewrite Forall_singleton in Hend.
    destruct (add_all_rows env (e_start :: l) q0 Hl Hq0)
      as (q1 & E1 & Hq1 & B1 & S1 & S2 & S3 & S4).
    rewrite E1. cbn [mbind Exec_bind].
    destruct (add_quadlayer_edge_row env e_end q1 Hend Hq1) as (q & E & Hq).
    destruct (add_quadlayer_edge_header env e_end q1 q E) as (T1 & T2 & T3 & T4 & T5).
    exists q. split; [done|]. split; [by rewrite T5, B1|]. split; [done|].
    by rewrite T1, T2, T3, T4, S1, S2, S3, S4.
  - intros l Hch Hfuel Hok.
    rewrite (walk_chain_null env fuel e_start l q0 Hch Hfuel).
    destruct (add_all_rows env (e_start :: l) q0 Hok Hq0) as (q1 & E1 & _).
    by rewrite E1.
  - intros S Hcl HS.
    by rewrite (walk_diverges env S e_end fuel e_start q0 Hcl eq_refl HS Hq0).
Qed.

Lemma square_ring_edge_ok (e : EdgePtr) :
  e < 4 → edge_ok Scenario.two_rings_env e.
Proof.
  intros He. do 4 (destruct e as [|e]; [by eexists _, _, _|]). lia.
Qed.

Lemma square_ring_closed :
  closed_under_next (H := Scenario.links_by_vertex) Scenario.two_rings_env 4
    (λ e, e < 4).
Proof.
  intros e He. split; [by apply square_ring_edge_ok|].
  do 4 (destruct e as [|e];
        [eexists; split; [vm_compute; reflexivity|split; [lia|lia]]|]).
  lia.
Qed.

Lemma QuadLayer_create_spec_witness :
  (∃ q, QuadLayer.create (H := Scenario.links_by_vertex) 10 Scenario.two_rings_env
          0 2 false 0.5%float = Ret q ∧
        QuadLayer.base_edges_ q = [0; 1; 2]) ∧
  QuadLayer.create (H := Scenario.links_by_vertex) 10 Scenario.open_ring_env
    0 3 false 0.5%float = Abort ∧
  QuadLayer.create (H := Scenario.links_by_vertex) 10 Scenario.two_rings_env
    0 4 false 0.5%float = OutOfFuel.
Proof.
  split; [|split].
  - destruct (proj1 (QuadLayer_create_spec (H := Scenario.links_by_vertex) 10
                       Scenario.two_rings_env 0 2 false 0.5%float) [1])
      as (q & E & B & _).
    + cbn. repeat split; (reflexivity || lia).
    + cbn. lia.
    + repeat constructor; by eexists _, _, _.
    + by exists q.
  - apply (proj1 (proj2 (QuadLayer_create_spec (H := Scenario.links_by_vertex) 10
                           Scenario.open_ring_env 0 3 false 0.5%float)) [1; 2]).
    + cbn. repeat split; (reflexivity || lia).
    + cbn. lia.
    + repeat constructor; by eexists _, _, _.
  - apply (proj2 (proj2 (QuadLayer_create_spec (H := Scenario.links_by_vertex) 10
                           Scenario.two_rings_env 0 4 false 0.5%float))
             (λ e, e < 4)).
    + apply square_ring_closed.
    + lia.
Defined.

(** C3 (as stated) fails: with [e_start] on the outer ring and [e_end] on
    the ring of the hole the constructor never returns and never fails, and
    with [e_start = e_end] it goes once around the ring and adds [e_start]
    twice. *)
Lemma QuadLayer_create_loops_or_wraps :
  (∀ fuel, QuadLayer.create (H := Scenario.links_by_vertex) fuel
             Scenario.two_rings_env 0 4 false 0.5%float = OutOfFuel) ∧
  (∃ q, QuadLayer.create (H := Scenario.links_by_vertex) 10
          Scenario.two_rings_env 0 0 false 0.5%float = Ret q ∧
        QuadLayer.base_edges_ q = [0; 1; 2; 3; 0]).
Proof.
  split.
  - intros fuel. unfold QuadLayer.create.
    rewrite (walk_diverges (H := Scenario.links_by_vertex) Scenario.two_rings_env
               (λ e, e < 4) 4 fuel 0); [done|apply square_ring_closed|done|lia|].
    apply rows_ok_empty.
  - eexists. split; [vm_compute; reflexivity|reflexivity].
Qed.

(** ** QuadLayer::adjust_projected_vertex_coordinates and the joints *)

Ltac exec_simpl := cbn [deref_opt mbind Exec_bind mret Exec_ret ASSERT].

Lemma v_xy_inv (l : list VertexPtr) (vs : Vertices) (i : nat) (c : Vec2d) :
  (p ← l !! i; Vertex.xy <$> Vertices.find p (Vertices.cells vs)) = Some c →
  ∃ p v, l !! i = Some p ∧ Vertices.find p (Vertices.cells vs) = Some v ∧
         Vertex.xy v = c.
Proof.
  intros E. apply bind_Some in E as (p & Hp & E).
  apply fmap_Some in E as (v & Hv & ->). by exists p, v.
Qed.

Lemma base_normal_inv (env : Env) (q : QuadLayer.t) (i : nat) (n : Vec2d) :
  base_normal env q i = Some n →
  ∃ p e, QuadLayer.base_edges_ q !! i = Some p ∧
         EdgeList.find p (EdgeList.edges_ (front env)) = Some e ∧
         Edge.normal e = n.
Proof.
  intros E. apply bind_Some in E as (p & Hp & E).
  apply fmap_Some in E as (e & He & ->). by exists p, e.
Qed.

Section Joints.
Context `{Geometry} (env : Env).

Lemma adjust_joint (q : QuadLayer.t) (i j : nat) (J : Joint) :
  joint_reads env q i j J →
  i < length (QuadLayer.proj_v2_xy_ q) → j < length (QuadLayer.proj_v1_xy_ q) →
  QuadLayer.adjust_projected_vertex_coordinates env (Z.of_nat i) (Z.of_nat j) q =
  Ret (if is_wedge J then q
       else QuadLayer.set_proj_v2_xy_
              (<[i := merged_xy J]> (QuadLayer.proj_v2_xy_ q))
              (QuadLayer.set_proj_v1_xy_
                 (<[j := merged_xy J]> (QuadLayer.proj_v1_xy_ q)) q)).
Proof.
  intros (Hp & Hq & Hr & Hn1 & Hn2 & Hl1 & Hl2) Hi Hj.
  apply v_xy_inv in Hp as (pi & vp & Ep & Fp & Xp).
  apply v_xy_inv in Hq as (qj & vq & Eq & Fq & Xq).
  apply v_xy_inv in Hr as (rj & vr & Er & Fr & Xr).
  apply base_normal_inv in Hn1 as (ei & e_i & Ei & Fi & Ni).
  apply base_normal_inv in Hn2 as (ej & e_j & Ej & Fj & Nj).
  unfold QuadLayer.adjust_projected_vertex_coordinates.
  rewrite !at_Z_nat. unfold at_index, Vertices.get, EdgeList.get.
  rewrite Ep. exec_simpl. rewrite Fp. exec_simpl.
  rewrite Eq. exec_simpl. rewrite Fq. exec_simpl.
  rewrite Er. exec_simpl. rewrite Fr. exec_simpl.
  rewrite Xp, Xq, Xr. unfold is_wedge.
  destruct (is_left _ _ _ && _); [done|].
  rewrite Ei. exec_simpl. rewrite Fi. exec_simpl. rewrite Hl1. exec_simpl.
  rewrite Ej. exec_simpl. rewrite Fj. exec_simpl. rewrite Hl2. exec_simpl.
  rewrite set_Z_nat by done. exec_simpl.
  rewrite set_Z_nat by done. exec_simpl.
  unfold merged_xy. by rewrite Ni, Nj.
Qed.

End Joints.

Lemma set_Z_inv {A} (l l' : list A) (i : Z) (a : A) :
  set_Z l i a = Ret l' →
  (0 ≤ i)%Z ∧ Z.to_nat i < length l ∧ l' = <[Z.to_nat i := a]> l.
Proof.
  unfold set_Z. destruct (Z.ltb_spec i 0); [done|].
  destruct (Nat.ltb_spec (Z.to_nat i) (length l)); [|done].
  intros E. injection E as <-. done.
Qed.

Lemma set_back_inv {A} (l l' : list A) (a : A) :
  set_back l a = Ret l' → 0 < length l ∧ l' = <[pred (length l) := a]> l.
Proof.
  destruct l as [|x l]; [done|]. intros E. injection E as <-. cbn. split; [lia|done].
Qed.

Lemma same_bases_refl (q : QuadLayer.t) : same_bases q q.
Proof. by repeat split. Qed.

Lemma same_bases_trans (q1 q2 q3 : QuadLayer.t) :
  same_bases q1 q2 → same_bases q2 q3 → same_bases q1 q3.
Proof.
  intros (A1 & A2 & A3 & A4 & A5 & A6 & A7 & A8 & A9 & A10 & A11 & A12)
         (B1 & B2 & B3 & B4 & B5 & B6 & B7 & B8 & B9 & B10 & B11 & B12).
  unfold same_bases.
  rewrite B1, B2, B3, B4, B5, B6, B7, B8, B9, B10, B11, B12. done.
Qed.

(** Inversion of a computation that returned. *)
Ltac exec_inv :=
  repeat match goal with
  | E : (_ ≫= _) = Ret _ |- _ =>
      let x := fresh "x" in let Ex := fresh "Ex" in
      apply bind_Ret_inv in E as (x & Ex & E)
  | E : Ret _ = Ret _ |- _ => injection E as ?; subst
  | E : Abort = Ret _ |- _ => discriminate E
  | E : Undef = Ret _ |- _ => discriminate E
  | E : OutOfFuel = Ret _ |- _ => discriminate E
  | E : (if ?c then _ else _) = Ret _ |- _ =>
      let C := fresh "C" in destruct c eqn:C
  | E : (let '(_, _) := ?p in _) = Ret _ |- _ => destruct p
  | E : match ?o with Some _ => _ | None => _ end = Ret _ |- _ =>
      let O := fresh "O" in destruct o eqn:O
  | E : set_Z _ _ _ = Ret _ |- _ => apply set_Z_inv in E as (? & ? & ->)
  | E : set_back _ _ = Ret _ |- _ => apply set_back_inv in E as (? & ->)
  end.

Section PlaceFrame.
Context `{Geometry} `{EdgeLinks}.

(** [place_start_vertex] leaves everything but entry 0 of [proj_v1_] and of
    [proj_v1_xy_] as it is. *)
Lemma place_start_vertex_frame (env env' : Env) (q q' : QuadLayer.t) :
  QuadLayer.place_start_vertex env q = Ret (q', env') →
  same_bases q q' ∧
  QuadLayer.proj_v2_ q' = QuadLayer.proj_v2_ q ∧
  QuadLayer.proj_v2_xy_ q' = QuadLayer.proj_v2_xy_ q ∧
  (∀ k, k ≠ 0 → QuadLayer.proj_v1_ q' !! k = QuadLayer.proj_v1_ q !! k) ∧
  (∀ k, k ≠ 0 → QuadLayer.proj_v1_xy_ q' !! k = QuadLayer.proj_v1_xy_ q !! k).
Proof.
  unfold QuadLayer.place_start_vertex. intros E. exec_inv.
  all: unfold same_bases; cbn; rewrite ?length_insert.
  all: repeat split; try done.
  all: intros k Hk; rewrite list_lookup_insert_ne by done; done.
Qed.

(** [place_end_vertex] leaves everything but the last entry of [proj_v2_] and
    of [proj_v2_xy_] as it is. *)
Lemma place_end_vertex_frame (env env' : Env) (q q' : QuadLayer.t) :
  QuadLayer.place_end_vertex env q = Ret (q', env') →
  same_bases q q' ∧
  QuadLayer.proj_v1_ q' = QuadLayer.proj_v1_ q ∧
  QuadLayer.proj_v1_xy_ q' = QuadLayer.proj_v1_xy_ q ∧
  (∀ k, k + 1 ≠ length (QuadLayer.proj_v2_ q) →
        QuadLayer.proj_v2_ q' !! k = QuadLayer.proj_v2_ q !! k) ∧
  (∀ k, k + 1 ≠ length (QuadLayer.proj_v2_xy_ q) →
        QuadLayer.proj_v2_xy_ q' !! k = QuadLayer.proj_v2_xy_ q !! k).
Proof.
  unfold QuadLayer.place_end_vertex. intros E. exec_inv.
  all: unfold same_bases; cbn; rewrite ?length_insert.
  all: repeat split; try done.
  all: intros k Hk; cbn in *; rewrite list_lookup_insert_ne by lia; done.
Qed.

End PlaceFrame.

Section JointsLoop.
Context `{Geometry} (env : Env).

Lemma joint_reads_same_bases (q q' : QuadLayer.t) (i j : nat) (J : Joint) :
  same_bases q q' → joint_reads env q i j J → joint_reads env q' i j J.
Proof.
  intros (_ & _ & _ & _ & B1 & B2 & B3 & B4 & _).
  unfold joint_reads, v1_xy, v2_xy, base_normal. by rewrite B1, B2, B3, B4.
Qed.

Lemma joints_ready_same_bases (q q' : QuadLayer.t) :
  same_bases q q' → joints_ready env q → joints_ready env q'.
Proof.
  intros (_ & _ & _ & _ & B1 & B2 & B3 & B4 & L1 & L2 & L3 & L4)
         ((M1 & M2 & M3 & M4 & M5 & M6 & M7) & Hr).
  split.
  - unfold same_lengths. rewrite B1, B2, B3, B4, L1, L2, L3, L4. done.
  - unfold v1_xy, v2_xy, base_normal. rewrite B1, B2, B3. exact Hr.
Qed.

Lemma joint_exists (q : QuadLayer.t) (i j : nat) :
  joints_ready env q →
  i < length (QuadLayer.base_edges_ q) → j < length (QuadLayer.base_edges_ q) →
  ∃ J, joint_reads env q i j J.
Proof.
  intros ((M1 & M2 & M3 & M4 & M5 & M6 & M7) & Hr) Hi Hj.
  destruct (Hr i Hi) as ([p Hp] & _ & [n1 Hn1]).
  destruct (Hr j Hj) as ([c Hc] & [r Hr'] & [n2 Hn2]).
  destruct (lookup_lt_is_Some_2 (QuadLayer.heights_ q) i) as [l1 Hl1]; [lia|].
  destruct (lookup_lt_is_Some_2 (QuadLayer.heights_ q) j) as [l2 Hl2]; [lia|].
  by exists (mkJoint p c r n1 n2 l1 l2).
Qed.

Lemma joint_reads_inj (q : QuadLayer.t) (i j : nat) (J J' : Joint) :
  joint_reads env q i j J → joint_reads env q i j J' → J = J'.
Proof.
  destruct J, J'. unfold joint_reads. cbn.
  intros (A1 & A2 & A3 & A4 & A5 & A6 & A7) (B1 & B2 & B3 & B4 & B5 & B6 & B7).
  congruence.
Qed.

Lemma adjust_same_bases (q : QuadLayer.t) (i j : nat) (J : Joint) :
  same_bases q
    (if is_wedge J then q
     else QuadLayer.set_proj_v2_xy_
            (<[i := merged_xy J]> (QuadLayer.proj_v2_xy_ q))
            (QuadLayer.set_proj_v1_xy_
               (<[j := merged_xy J]> (QuadLayer.proj_v1_xy_ q)) q)).
Proof.
  destruct (is_wedge J); [apply same_bases_refl|].
  unfold same_bases. cbn. rewrite !length_insert. by repeat split.
Qed.

Lemma adjust_loop_spec (todo i : nat) (q : QuadLayer.t) :
  joints_ready env q → 1 ≤ i → i + todo ≤ length (QuadLayer.base_edges_ q) →
  ∃ q1,
    QuadLayer.adjust_loop todo env i q = Ret q1 ∧ same_bases q q1 ∧
    QuadLayer.proj_v1_ q1 = QuadLayer.proj_v1_ q ∧
    QuadLayer.proj_v2_ q1 = QuadLayer.proj_v2_ q ∧
    (∀ k, k < i ∨ i + todo ≤ k →
          QuadLayer.proj_v1_xy_ q1 !! k = QuadLayer.proj_v1_xy_ q !! k) ∧
    (∀ k, k + 1 < i ∨ i + todo ≤ k + 1 →
          QuadLayer.proj_v2_xy_ q1 !! k = QuadLayer.proj_v2_xy_ q !! k) ∧
    (∀ k J, i ≤ k → k < i + todo → joint_reads env q (k - 1) k J →
            joint_settled q q1 (k - 1) k J).
Proof.
  revert i q. induction todo as [|todo IH]; intros i q Hq Hi Hn.
  - exists q. split; [done|]. split; [apply same_bases_refl|].
    repeat split; try done. intros k J ? ?. lia.
  - cbn [QuadLayer.adjust_loop].
    destruct (joint_exists q (i - 1) i Hq) as [J HJ]; [lia|lia|].
    pose proof Hq as ((M1 & M2 & M3 & M4 & M5 & M6 & M7) & _).
    replace (Z.of_nat i - 1)%Z with (Z.of_nat (i - 1)) by lia.
    rewrite (adjust_joint env q (i - 1) i J HJ) by lia. exec_simpl.
    set (q' := if is_wedge J then q else _).
    assert (same_bases q q') as Hqq' by apply adjust_same_bases.
    destruct (IH (S i) q') as (q1 & E1 & B1 & P1 & P2 & V1 & V2 & S1).
    { by apply (joints_ready_same_bases q). }
    { lia. }
    { destruct Hqq' as (_ & _ & _ & _ & -> & _). lia. }
    assert (∀ k, k ≠ i → QuadLayer.proj_v1_xy_ q' !! k = QuadLayer.proj_v1_xy_ q !! k)
      as K1.
    { intros k Hk. unfold q'. destruct (is_wedge J); [done|]. cbn.
      by rewrite list_lookup_insert_ne. }
    assert (∀ k, k ≠ i - 1 →
               QuadLayer.proj_v2_xy_ q' !! k = QuadLayer.proj_v2_xy_ q !! k) as K2.
    { intros k Hk. unfold q'. destruct (is_wedge J); [done|]. cbn.
      by rewrite list_lookup_insert_ne. }
    exists q1. split; [done|]. split; [by apply (same_bases_trans q q')|].
    split; [rewrite P1; unfold q'; by destruct (is_wedge J)|].
    split; [rewrite P2; unfold q'; by destruct (is_wedge J)|].
    split; [|split].
    + intros k Hk. rewrite V1 by lia. apply K1. lia.
    + intros k Hk. rewrite V2 by lia. apply K2. lia.
    + intros k J' Hk1 Hk2 HJ'.
      destruct (decide (k = i)) as [->|Hne].
      * (* the joint adjusted in this pass *)
        rewrite (joint_reads_inj q (i - 1) i J' J HJ' HJ).
        unfold joint_settled. rewrite V1, V2 by lia. unfold q'.
        destruct (is_wedge J); [done|]. cbn.
        rewrite !list_lookup_insert_eq by lia. done.
      * (* a later joint *)
        pose proof (S1 k J' ltac:(lia) ltac:(lia)
                      (joint_reads_same_bases q q' (k - 1) k J' Hqq' HJ')) as HS.
        unfold joint_settled in *. destruct (is_wedge J'); [|done].
        destruct HS as [-> ->]. split; [apply K2; lia|apply K1; lia].
Qed.

End JointsLoop.

(** C2: at every joint of the layer (base edge i and its successor j, and
    the last and the first base edge of a closed layer)
    [adjust_projected_vertex_coordinates] returns the layer as it is when
    the joint is a wedge ([is_left(p, r, q)] and alpha at most the quad
    layer angle), and otherwise writes the one merged coordinate
    q + n * l / sin(alpha / 2) to [proj_v1_xy_[j]] and to [proj_v2_xy_[i]];
    after [setup_vertex_projection] every joint is either a wedge whose two
    projected coordinates are the ones the layer had before, or carries the
    merged coordinate on both sides; on a closed layer the set-up always
    returns. *)
Theorem adjust_projected_vertex_coordinates_spec `{Geometry} `{EdgeLinks}
    (env : Env) (q : QuadLayer.t) :
  joints_ready env q →
  (∀ i j J, is_joint q i j → joint_reads env q i j J →
     QuadLayer.adjust_projected_vertex_coordinates env (Z.of_nat i) (Z.of_nat j) q =
     Ret (if is_wedge J then q
          else QuadLayer.set_proj_v2_xy_
                 (<[i := merged_xy J]> (QuadLayer.proj_v2_xy_ q))
                 (QuadLayer.set_proj_v1_xy_
                    (<[j := merged_xy J]> (QuadLayer.proj_v1_xy_ q)) q))) ∧
  (∀ q' env', QuadLayer.setup_vertex_projection env q = Ret (q', env') →
     ∀ i j, is_joint q i j →
       ∃ J, joint_reads env q i j J ∧ joint_settled q q' i j J) ∧
  (QuadLayer.is_closed_ q = true → 0 < length (QuadLayer.base_edges_ q) →
     ∃ q', QuadLayer.setup_vertex_projection env q = Ret (q', env)).
Proof.
  intros Hq. pose proof Hq as ((M1 & M2 & M3 & M4 & M5 & M6 & M7) & _).
  set (n := length (QuadLayer.base_edges_ q)) in *.
  destruct (decide (n = 0)) as [Hn0|Hn0].
  { (* a layer without base edges has no joints *)
    split; [|split].
    - intros i j J [[-> ?]|(_ & ? & ->)]; lia.
    - intros q' env' _ i j [[-> ?]|(_ & ? & ->)]; lia.
    - lia. }
  destruct (adjust_loop_spec env (n - 1) 1 q Hq) as
    (q1 & E1 & B1 & P1 & P2 & V1 & V2 & S1); [lia|fold n; lia|].
  pose proof B1 as (_ & _ & C1 & _ & C2 & _ & _ & _ & _ & _ & L1 & L2).
  split; [|split].
  - intros i j J Hij HJ. apply adjust_joint; [done| |].
    + destruct Hij as [[-> ?]|(_ & ? & ->)]; lia.
    + destruct Hij as [[-> ?]|(_ & ? & ->)]; lia.
  - intros q' env' E i j Hij.
    assert (i < n ∧ j < n) as [Hi Hj].
    { fold n in Hij. destruct Hij as [[-> ?]|(_ & ? & ->)]; lia. }
    destruct (joint_exists env q i j Hq Hi Hj) as [J HJ].
    exists J. split; [done|].
    unfold QuadLayer.setup_vertex_projection in E. fold n in E.
    rewrite E1 in E. exec_simpl. cbn [mbind Exec_bind] in E. rewrite C1 in E.
    destruct (QuadLayer.is_closed_ q) eqn:Hclosed.
    + (* closed: one more joint, between the last and the first base edge *)
      apply bind_Ret_inv in E as (q2 & E2 & E). injection E as <- <-.
      assert (0 < n) as Hn by lia.
      destruct (joint_exists env q (n - 1) 0 Hq) as [J0 HJ0]; [lia|lia|].
      unfold QuadLayer.n_base_edges in E2. rewrite C2 in E2. fold n in E2.
      replace (Z.of_nat n - 1)%Z with (Z.of_nat (n - 1)) in E2 by lia.
      change 0%Z with (Z.of_nat 0) in E2.
      rewrite (adjust_joint env q1 (n - 1) 0 J0) in E2;
        [|by apply (joint_reads_same_bases env q)|lia|lia].
      injection E2 as <-.
      destruct Hij as [[-> Hjn]|(_ & Hin & ->)].
      * (* a joint inside the layer *)
        replace i with (i + 1 - 1) at 1 by lia.
        pose proof (S1 (i + 1) J ltac:(lia) ltac:(lia)) as HS.
        replace (i + 1 - 1) with i in HS by lia. specialize (HS HJ).
        unfold joint_settled in *.
        assert (∀ l, QuadLayer.proj_v2_xy_
                       (if is_wedge J0 then q1
                        else QuadLayer.set_proj_v2_xy_
                               (<[n - 1 := merged_xy J0]> (QuadLayer.proj_v2_xy_ q1))
                               (QuadLayer.set_proj_v1_xy_ l q1)) !! i =
                     QuadLayer.proj_v2_xy_ q1 !! i) as K2.
        { intros l. destruct (is_wedge J0); [done|]. cbn.
          apply list_lookup_insert_ne. lia. }
        assert (QuadLayer.proj_v1_xy_
                  (if is_wedge J0 then q1
                   else QuadLayer.set_proj_v2_xy_
                          (<[n - 1 := merged_xy J0]> (QuadLayer.proj_v2_xy_ q1))
                          (QuadLayer.set_proj_v1_xy_
                             (<[0 := merged_xy J0]> (QuadLayer.proj_v1_xy_ q1)) q1))
                  !! (i + 1) = QuadLayer.proj_v1_xy_ q1 !! (i + 1)) as K1.
        { destruct (is_wedge J0); [done|]. cbn.
          apply list_lookup_insert_ne. lia. }
        replace (i + 1 - 1) with i by lia.
        rewrite K2, K1. exact HS.
      * (* the joint that closes the ring *)
        assert (i = n - 1) as -> by (fold n in Hin; lia).
        rewrite (joint_reads_inj env q (n - 1) 0 J J0 HJ HJ0).
        unfold joint_settled. destruct (is_wedge J0).
        -- split; [apply V2; lia|apply V1; lia].
        -- cbn. rewrite !list_lookup_insert_eq by lia. done.
    + (* open: the two ends are placed, the joints are inside *)
      apply bind_Ret_inv in E as ([q2 env1] & E2 & E).
      destruct (place_start_vertex_frame env env1 q1 q2 E2)
        as (B2 & _ & F2 & _ & F1).
      destruct (place_end_vertex_frame env1 env' q2 q' E)
        as (B3 & _ & G1 & _ & G2).
      destruct Hij as [[-> Hjn]|(Hc & _)]; [|congruence].
      pose proof (S1 (i + 1) J ltac:(lia) ltac:(lia)) as HS.
      replace (i + 1 - 1) with i in HS by lia. specialize (HS HJ).
      pose proof B2 as (_ & _ & _ & _ & _ & _ & _ & _ & _ & _ & _ & L3).
      assert (QuadLayer.proj_v2_xy_ q' !! i = QuadLayer.proj_v2_xy_ q1 !! i) as K2.
      { rewrite G2 by lia. by rewrite F2. }
      assert (QuadLayer.proj_v1_xy_ q' !! (i + 1) =
              QuadLayer.proj_v1_xy_ q1 !! (i + 1)) as K1.
      { rewrite G1. apply F1. lia. }
      unfold joint_settled in *. rewrite K2, K1. exact HS.
  - intros Hclosed Hn. unfold QuadLayer.setup_vertex_projection. fold n.
    rewrite E1. exec_simpl. rewrite C1, Hclosed.
    destruct (joint_exists env q (n - 1) 0 Hq) as [J0 HJ0]; [lia|lia|].
    unfold QuadLayer.n_base_edges. rewrite C2. fold n.
    replace (Z.of_nat n - 1)%Z with (Z.of_nat (n - 1)) by lia.
    change 0%Z with (Z.of_nat 0).
    rewrite (adjust_joint env q1 (n - 1) 0 J0);
      [|by apply (joint_reads_same_bases env q)|lia|lia].
    exec_simpl. by eexists.
Qed.

Lemma read_joint_reads (env : Env) (q : QuadLayer.t) (i j : nat) (J : Joint) :
  read_joint env q i j = Some J → joint_reads env q i j J.
Proof.
  unfold read_joint. intros E.
  apply bind_Some in E as (p & Hp & E). apply bind_Some in E as (c & Hc & E).
  apply bind_Some in E as (r & Hr & E). apply bind_Some in E as (n1 & Hn1 & E).
  apply bind_Some in E as (n2 & Hn2 & E). apply bind_Some in E as (l1 & Hl1 & E).
  apply bind_Some in E as (l2 & Hl2 & E). injection E as <-. by repeat split.
Qed.

Lemma ring_layer_ready : joints_ready Scenario.two_rings_env Scenario.ring_layer.
Proof.
  split; [by repeat split|]. intros i Hi.
  do 4 (destruct i as [|i]; [by repeat split; eexists|]). cbn in Hi. lia.
Qed.

Lemma hole_layer_ready : joints_ready Scenario.two_rings_env Scenario.hole_layer.
Proof.
  split; [by repeat split|]. intros i Hi.
  do 4 (destruct i as [|i]; [by repeat split; eexists|]). cbn in Hi. lia.
Qed.

Lemma adjust_projected_vertex_coordinates_spec_witness :
  QuadLayer.adjust_projected_vertex_coordinates (H := Scenario.approx_geometry)
    Scenario.two_rings_env 0 1 Scenario.ring_layer =
  Ret (if is_wedge (H := Scenario.approx_geometry) Scenario.corner_joint
       then Scenario.ring_layer
       else QuadLayer.set_proj_v2_xy_
              (<[0 := merged_xy (H := Scenario.approx_geometry) Scenario.corner_joint]>
                 (QuadLayer.proj_v2_xy_ Scenario.ring_layer))
              (QuadLayer.set_proj_v1_xy_
                 (<[1 := merged_xy (H := Scenario.approx_geometry)
                           Scenario.corner_joint]>
                    (QuadLayer.proj_v1_xy_ Scenario.ring_layer))
                 Scenario.ring_layer)) ∧
  QuadLayer.adjust_projected_vertex_coordinates (H := Scenario.approx_geometry)
    Scenario.two_rings_env 0 1 Scenario.hole_layer =
  Ret (if is_wedge (H := Scenario.approx_geometry) Scenario.hole_joint
       then Scenario.hole_layer
       else QuadLayer.set_proj_v2_xy_
              (<[0 := merged_xy (H := Scenario.approx_geometry) Scenario.hole_joint]>
                 (QuadLayer.proj_v2_xy_ Scenario.hole_layer))
              (QuadLayer.set_proj_v1_xy_
                 (<[1 := merged_xy (H := Scenario.approx_geometry)
                           Scenario.hole_joint]>
                    (QuadLayer.proj_v1_xy_ Scenario.hole_layer))
                 Scenario.hole_layer)) ∧
  ∃ q', QuadLayer.setup_vertex_projection (H := Scenario.approx_geometry)
          (H0 := Scenario.links_by_vertex) Scenario.two_rings_env
          Scenario.ring_layer = Ret (q', Scenario.two_rings_env).
Proof.
  split; [|split].
  - apply (proj1 (adjust_projected_vertex_coordinates_spec
                    (H := Scenario.approx_geometry) (H0 := Scenario.links_by_vertex)
                    Scenario.two_rings_env Scenario.ring_layer ring_layer_ready)
             0 1 Scenario.corner_joint).
    + left. split; [reflexivity|cbn; lia].
    + by apply read_joint_reads.
  - apply (proj1 (adjust_projected_vertex_coordinates_spec
                    (H := Scenario.approx_geometry) (H0 := Scenario.links_by_vertex)
                    Scenario.two_rings_env Scenario.hole_layer hole_layer_ready)
             0 1 Scenario.hole_joint).
    + left. split; [reflexivity|cbn; lia].
    + by apply read_joint_reads.
  - apply (proj2 (proj2 (adjust_projected_vertex_coordinates_spec
                           (H := Scenario.approx_geometry)
                           (H0 := Scenario.links_by_vertex)
                           Scenario.two_rings_env Scenario.ring_layer
                           ring_layer_ready))).
    + reflexivity.
    + cbn. lia.
Defined.

(** The convex corner is merged, the reflex corner is a wedge. *)
Example corner_is_merged :
  is_wedge (H := Scenario.approx_geometry) Scenario.corner_joint = false.
Proof. vm_compute. reflexivity. Qed.

Example hole_corner_is_wedge :
  is_wedge (H := Scenario.approx_geometry) Scenario.hole_joint = true.
Proof. vm_compute. reflexivity. Qed.

(** ** The vertex container and edge lists *)

Lemma Vertices_find_app (p : VertexPtr) (l l' : list (VertexPtr * Vertex)) :
  Vertices.find p (l ++ l') =
  match Vertices.find p l with Some v => Some v | None => Vertices.find p l' end.
Proof.
  induction l as [|[r v] l IH]; [done|]. cbn. by destruct (Nat.eqb r p).
Qed.

Lemma Vertices_find_update (p p' : VertexPtr) (f : Vertex → Vertex) (vs : Vertices) :
  Vertices.find p (Vertices.cells (Vertices.update p' f vs)) =
  (if Nat.eqb p p' then f else id) <$> Vertices.find p (Vertices.cells vs).
Proof.
  destruct vs as [cells fr]. cbn. induction cells as [|[r v] l IH]; [done|]. cbn.
  destruct (Nat.eqb_spec r p') as [->|Hne]; cbn.
  - destruct (Nat.eqb_spec p' p) as [->|Hne]; [by rewrite Nat.eqb_refl|done].
  - destruct (Nat.eqb_spec r p) as [->|Hne']; [|done].
    by destruct (Nat.eqb_spec p p').
Qed.


Lemma mark_objects_find (a b p : VertexPtr) (vs : Vertices) :
  Vertices.find p (Vertices.cells (Front.mark_objects a b vs)) =
  (if Nat.eqb p b then Vertex.set_on_front true else id) <$>
    ((if Nat.eqb p a then Vertex.set_on_front true else id) <$>
       Vertices.find p (Vertices.cells vs)).
Proof. unfold Front.mark_objects. by rewrite !Vertices_find_update. Qed.

Lemma mark_objects_xy (a b p : VertexPtr) (vs : Vertices) :
  Vertex.xy <$> Vertices.find p (Vertices.cells (Front.mark_objects a b vs)) =
  Vertex.xy <$> Vertices.find p (Vertices.cells vs).
Proof.
  rewrite mark_objects_find. destruct (Vertices.find p _) as [v|]; [|done].
  cbn. by destruct (Nat.eqb p b), (Nat.eqb p a).
Qed.

Lemma insert_edge_Ret (mark : EdgeList.Marker) (pos : EdgePtr) (a b : VertexPtr)
    (m : Z) (el : EdgeList) (vs : Vertices) (va vb : Vertex) :
  Vertices.find a (Vertices.cells vs) = Some va →
  Vertices.find b (Vertices.cells vs) = Some vb →
  EdgeList.insert_edge mark pos a b m el vs =
  Ret (Edge.create (EdgeList.fresh el) a b (Vertex.xy va) (Vertex.xy vb) m,
       EdgeList.mk
         (EdgeList.insert_before pos
            (Edge.create (EdgeList.fresh el) a b (Vertex.xy va) (Vertex.xy vb) m)
            (EdgeList.edges_ el))
         (S (EdgeList.fresh el)) (EdgeList.area_ el),
       mark a b vs).
Proof.
  intros Ha Hb. unfold EdgeList.insert_edge, Vertices.get. by rewrite Ha, Hb.
Qed.

Lemma insert_edge_inv (mark : EdgeList.Marker) (pos : EdgePtr) (a b : VertexPtr)
    (m : Z) (el el' : EdgeList) (vs vs' : Vertices) (e : Edge) :
  EdgeList.insert_edge mark pos a b m el vs = Ret (e, el', vs') →
  Edge.ptr e = EdgeList.fresh el ∧ Edge.v1 e = a ∧ Edge.v2 e = b ∧
  Edge.marker e = m ∧ Edge.twin_edge e = None ∧
  EdgeList.edges_ el' = EdgeList.insert_before pos e (EdgeList.edges_ el) ∧
  EdgeList.fresh el' = S (EdgeList.fresh el) ∧
  vs' = mark a b vs.
Proof.
  unfold EdgeList.insert_edge. intros E.
  apply bind_Ret_inv in E as (va & _ & E). apply bind_Ret_inv in E as (vb & _ & E).
  injection E as <- <- <-. done.
Qed.



Lemma insert_before_app (pos : EdgePtr) (x d : Edge) (pre post : list Edge) :
  Forall (λ e, Edge.ptr e ≠ pos) pre → Edge.ptr d = pos →
  EdgeList.insert_before pos x (pre ++ d :: post) = pre ++ x :: d :: post.
Proof.
  intros Hpre Hd. induction Hpre as [|e l He _ IH]; cbn.
  - by rewrite Hd, Nat.eqb_refl.
  - destruct (Nat.eqb_spec (Edge.ptr e) pos); [done|]. by rewrite IH.
Qed.



(** ** QuadLayer::place_start_vertex and QuadLayer::place_end_vertex *)

Lemma fmap_xy_inv (o : option Vertex) (c : Vec2d) :
  Vertex.xy <$> o = Some c → ∃ v, o = Some v ∧ Vertex.xy v = c.
Proof. intros E. apply fmap_Some in E as (v & -> & ->). by exists v. Qed.

Lemma last_xy_inv (l : list VertexPtr) (vs : Vertices) (c : Vec2d) :
  (p ← last l; Vertex.xy <$> Vertices.find p (Vertices.cells vs)) = Some c →
  ∃ p v, last l = Some p ∧ Vertices.find p (Vertices.cells vs) = Some v ∧
         Vertex.xy v = c.
Proof.
  intros E. apply bind_Some in E as (p & Hp & E).
  apply fmap_Some in E as (v & Hv & ->). by exists p, v.
Qed.

Lemma set_back_Ret {A} (l : list A) (a : A) :
  0 < length l → set_back l a = Ret (<[pred (length l) := a]> l).
Proof. destruct l; cbn; [lia|done]. Qed.

Section Ends.
Context `{Geometry} `{EdgeLinks} (env : Env) (q : QuadLayer.t) (R : EndReads).

Lemma place_start_vertex_cases :
  start_reads env q R →
  QuadLayer.place_start_vertex env q =
  if negb (lies_left R) then Ret (q, env)
  else if (d_fac R <? 1)%float
       then Ret (with_start_vertex (Edge.v1 (adj_edge R)) q, env)
  else if fits_adjacent R then start_split env q R
  else Ret (with_start_xy (xy_adj R) (with_start_vertex (Edge.v1 (adj_edge R)) q),
            env).
Proof.
  intros (Hprev & Hfind & Hv & Hadj & Hb1 & Hb2 & Hh & Hpxy & Hlen).
  apply fmap_xy_inv in Hadj as (vp & Fp & Xp).
  apply v_xy_inv in Hb1 as (b1 & vb1 & E1 & F1 & X1).
  apply v_xy_inv in Hb2 as (b2 & vb2 & E2 & F2 & X2).
  rewrite Hv in E1. injection E1 as <-.
  assert (0 < length (QuadLayer.proj_v1_xy_ q)) as Hlen'.
  { by apply lookup_lt_Some in Hpxy. }
  unfold QuadLayer.place_start_vertex, start_split, split_run.
  rewrite Hprev. unfold at_index, EdgeList.get, Vertices.get.
  rewrite Hv. exec_simpl. rewrite Hfind. exec_simpl.
  rewrite Nat.eqb_refl. exec_simpl. rewrite Fp. exec_simpl.
  rewrite F1. exec_simpl. rewrite E2. exec_simpl. rewrite F2. exec_simpl.
  unfold lies_left, d_fac, fits_adjacent, start_sf. rewrite X1, X2, Xp.
  destruct (negb _); [done|].
  rewrite Hh. exec_simpl. rewrite Hpxy. exec_simpl.
  destruct (_ <? 1)%float.
  { change 0%Z with (Z.of_nat 0). by rewrite set_Z_nat. }
  destruct (_ <? _)%float.
  - destruct (QuadLayer.remove_bdry_edge _ _) as [[e_bdry_rem bdry1]| | |]; try done.
    exec_simpl.
    destruct (EdgeList.split_edge _ _ _ _ _) as [[[[e1 e2] front1] verts1]| | |];
      try done.
    exec_simpl.
    destruct (QuadLayer.insert_bdry_edges _ _ _ _ _) as [[bdry2 verts2]| | |];
      try done.
    exec_simpl. destruct (deref_opt _) as [vn| | |]; try done. exec_simpl.
    change 0%Z with (Z.of_nat 0). rewrite set_Z_nat by done. exec_simpl.
    by rewrite set_Z_nat.
  - change 0%Z with (Z.of_nat 0). rewrite set_Z_nat by done. exec_simpl.
    by rewrite set_Z_nat.
Qed.

Lemma place_end_vertex_cases :
  end_reads env q R →
  QuadLayer.place_end_vertex env q =
  if negb (lies_left R) then Ret (q, env)
  else if (d_fac R <? 1)%float
       then Ret (with_end_vertex (Edge.v2 (adj_edge R)) q, env)
  else if fits_adjacent R then end_split env q R
  else Ret (with_end_xy (xy_adj R) (with_end_vertex (Edge.v2 (adj_edge R)) q),
            env).
Proof.
  intros (Hnext & Hfind & Hv & Hadj & Hb1 & Hb2 & Hh & Hpxy & Hlen & Hlen').
  apply fmap_xy_inv in Hadj as (vp & Fp & Xp).
  apply last_xy_inv in Hb1 as (b1 & vb1 & E1 & F1 & X1).
  apply last_xy_inv in Hb2 as (b2 & vb2 & E2 & F2 & X2).
  rewrite Hv in E2. injection E2 as <-.
  unfold QuadLayer.place_end_vertex, end_split, split_run.
  rewrite Hnext. unfold back, EdgeList.get, Vertices.get.
  rewrite Hv. exec_simpl. rewrite Hfind. exec_simpl.
  rewrite Nat.eqb_refl. exec_simpl. rewrite Fp. exec_simpl.
  rewrite E1. exec_simpl. rewrite F1. exec_simpl. rewrite F2. exec_simpl.
  unfold lies_left, d_fac, fits_adjacent, end_sf. rewrite X1, X2, Xp.
  destruct (negb _); [done|].
  rewrite Hh. exec_simpl. rewrite Hpxy. exec_simpl.
  destruct (_ <? 1)%float.
  { by rewrite set_back_Ret. }
  destruct (_ <? _)%float.
  - destruct (QuadLayer.remove_bdry_edge _ _) as [[e_bdry_rem bdry1]| | |]; try done.
    exec_simpl.
    destruct (EdgeList.split_edge _ _ _ _ _) as [[[[e1 e2] front1] verts1]| | |];
      try done.
    exec_simpl.
    destruct (QuadLayer.insert_bdry_edges _ _ _ _ _) as [[bdry2 verts2]| | |];
      try done.
    exec_simpl. destruct (deref_opt _) as [vn| | |]; try done. exec_simpl.
    rewrite set_back_Ret by done. exec_simpl. by rewrite set_back_Ret.
  - rewrite set_back_Ret by done. exec_simpl. by rewrite set_back_Ret.
Qed.

End Ends.





(** C10: in the merge case of an open layer ([v_prev] strictly left of the
    first base edge and d_fac < 1) [place_start_vertex] returns with the
    mesh untouched and with a layer that differs from the one it was given
    in [proj_v1_] only, where entry 0 is now [v_prev]; [proj_v1_xy_[0]] is
    still the projected coordinate that the layer had. [place_end_vertex]
    does the same with [v_next] and the last entries of [proj_v2_] and
    [proj_v2_xy_]. *)
Theorem place_vertex_merge_frame `{Geometry} `{EdgeLinks} (env : Env)
    (q : QuadLayer.t) (R : EndReads) :
  lies_left R = true → (d_fac R <? 1)%float = true →
  (start_reads env q R →
     ∃ q', QuadLayer.place_start_vertex env q = Ret (q', env) ∧
           QuadLayer.proj_v1_ q' =
             <[0 := Some (Edge.v1 (adj_edge R))]> (QuadLayer.proj_v1_ q) ∧
           differ_in_proj_v1 q q' ∧
           QuadLayer.proj_v1_xy_ q' !! 0 = Some (end_pxy R)) ∧
  (end_reads env q R →
     ∃ q', QuadLayer.place_end_vertex env q = Ret (q', env) ∧
           QuadLayer.proj_v2_ q' =
             <[pred (length (QuadLayer.proj_v2_ q)) := Some (Edge.v2 (adj_edge R))]>
               (QuadLayer.proj_v2_ q) ∧
           differ_in_proj_v2 q q' ∧
           last (QuadLayer.proj_v2_xy_ q') = Some (end_pxy R)).
Proof.
  intros Hleft Hfac. split.
  - intros HR. rewrite (place_start_vertex_cases env q R HR), Hleft, Hfac. cbn [negb].
    eexists. split; [reflexivity|]. split; [done|]. split; [by repeat split|].
    by destruct HR as (_ & _ & _ & _ & _ & _ & _ & Hpxy & _).
  - intros HR. rewrite (place_end_vertex_cases env q R HR), Hleft, Hfac. cbn [negb].
    eexists. split; [reflexivity|]. split; [done|]. split; [by repeat split|].
    by destruct HR as (_ & _ & _ & _ & _ & _ & _ & Hpxy & _).
Qed.

Lemma read_start_reads `{EdgeLinks} (env : Env) (q : QuadLayer.t) (R : EndReads) :
  read_start env q = Some R →
  QuadLayer.base_v1_ q !! 0 = Some (Edge.v2 (adj_edge R)) →
  0 < length (QuadLayer.proj_v1_ q) →
  start_reads env q R.
Proof.
  unfold read_start. intros E Hv Hlen.
  apply bind_Some in E as (p & Hp & E). apply bind_Some in E as (e & He & E).
  apply bind_Some in E as (a & Ha & E). apply bind_Some in E as (b1 & Hb1 & E).
  apply bind_Some in E as (b2 & Hb2 & E). apply bind_Some in E as (h & Hh & E).
  apply bind_Some in E as (c & Hc & E). injection E as <-. by repeat split.
Qed.

Lemma read_end_reads `{EdgeLinks} (env : Env) (q : QuadLayer.t) (R : EndReads) :
  read_end env q = Some R →
  last (QuadLayer.base_v2_ q) = Some (Edge.v1 (adj_edge R)) →
  0 < length (QuadLayer.proj_v2_ q) →
  0 < length (QuadLayer.proj_v2_xy_ q) →
  end_reads env q R.
Proof.
  unfold read_end. intros E Hv Hlen Hlen'.
  apply bind_Some in E as (p & Hp & E). apply bind_Some in E as (e & He & E).
  apply bind_Some in E as (a & Ha & E). apply bind_Some in E as (b1 & Hb1 & E).
  apply bind_Some in E as (b2 & Hb2 & E). apply bind_Some in E as (h & Hh & E).
  apply bind_Some in E as (c & Hc & E). injection E as <-. by repeat split.
Qed.

Ltac kite_start_reads :=
  apply (read_start_reads (H := Scenario.links_by_vertex));
  [vm_compute; reflexivity | reflexivity | cbn; lia].

Ltac kite_end_reads :=
  apply (read_end_reads (H := Scenario.links_by_vertex));
  [vm_compute; reflexivity | reflexivity | cbn; lia | cbn; lia].


Lemma place_vertex_merge_frame_witness :
  (∃ q', QuadLayer.place_start_vertex (H := Scenario.approx_geometry)
           (H0 := Scenario.links_by_vertex) Scenario.env_a Scenario.layer_a
         = Ret (q', Scenario.env_a) ∧
         QuadLayer.proj_v1_ q' = [Some 3; None] ∧
         differ_in_proj_v1 Scenario.layer_a q' ∧
         QuadLayer.proj_v1_xy_ q' !! 0 = Some (Scenario.P 0 0.5)) ∧
  (∃ q', QuadLayer.place_end_vertex (H := Scenario.approx_geometry)
           (H0 := Scenario.links_by_vertex) Scenario.env_b Scenario.layer_b
         = Ret (q', Scenario.env_b) ∧
         QuadLayer.proj_v2_ q' = [None; Some 3] ∧
         differ_in_proj_v2 Scenario.layer_b q' ∧
         last (QuadLayer.proj_v2_xy_ q') = Some (Scenario.P 3.5 4)).
Proof.
  split.
  - apply (proj1 (place_vertex_merge_frame (H := Scenario.approx_geometry)
                    (H0 := Scenario.links_by_vertex)
                    Scenario.env_a Scenario.layer_a Scenario.start_a
                    ltac:(vm_compute; reflexivity) ltac:(vm_compute; reflexivity))).
    kite_start_reads.
  - apply (proj2 (place_vertex_merge_frame (H := Scenario.approx_geometry)
                    (H0 := Scenario.links_by_vertex)
                    Scenario.env_b Scenario.layer_b Scenario.end_b
                    ltac:(vm_compute; reflexivity) ltac:(vm_compute; reflexivity))).
    kite_end_reads.
Defined.

(** In that merge the projected coordinate (0, 0.5) that stays in
    [proj_v1_xy_[0]] is not the coordinate (0.25, 0.5) of the vertex that
    [proj_v1_[0]] now points to. *)
Example merge_keeps_projection :
  xy_adj Scenario.start_a = Scenario.P 0.25 0.5 ∧
  end_pxy Scenario.start_a = Scenario.P 0 0.5.
Proof. split; reflexivity. Qed.

(** The split at the end of that layer: the edge 2 from vertex 2 to vertex 3
    makes room, in the front and in the boundary edges, for the edges 4 and
    5 through the new vertex 4, which becomes the last projected vertex. *)
Example place_end_vertex_splits :
  match QuadLayer.place_end_vertex (H := Scenario.approx_geometry)
          (H0 := Scenario.links_by_vertex) Scenario.env_a Scenario.layer_a with
  | Ret (q', env') =>
      QuadLayer.proj_v2_ q' = [None; Some 4] ∧
      map (λ e, (Edge.ptr e, Edge.v1 e, Edge.v2 e, Edge.marker e))
        (EdgeList.edges_ (front env')) =
        [(0, 0, 1, 7%Z); (1, 1, 2, 7%Z); (4, 2, 4, 7%Z); (5, 4, 3, 7%Z);
         (3, 3, 0, 7%Z)] ∧
      map (λ e, (Edge.ptr e, Edge.v1 e, Edge.v2 e, Edge.marker e))
        (EdgeList.edges_ (bdry_edges env')) =
        [(0, 0, 1, 7%Z); (1, 1, 2, 7%Z); (4, 2, 4, 7%Z); (5, 4, 3, 7%Z);
         (3, 3, 0, 7%Z)]
  | _ => False
  end.
Proof. vm_compute. repeat split. Qed.

(** ** The anchors of the next layer *)

Lemma MOD_mod (a n : Z) : (0 < n)%Z → MOD a n = (a `mod` n)%Z.
Proof.
  intros Hn. unfold MOD.
  pose proof (Z.rem_bound_abs a n ltac:(lia)) as Hb.
  pose proof (Z.quot_rem' a n) as Hq.
  assert (0 ≤ Z.rem a n + n)%Z as Hpos by lia.
  rewrite Z.rem_mod_nonneg by lia.
  replace (Z.rem a n + n)%Z with (a + (1 - Z.quot a n) * n)%Z by lia.
  apply Z_mod_plus_full.
Qed.

Lemma walk_reads (is_closed : bool) (ql : QuadLayer.t) (i : nat) :
  length (QuadLayer.proj_v1_ ql) = length (QuadLayer.base_edges_ ql) →
  (v_start_in ← at_Z (QuadLayer.proj_v1_ ql) (Z.of_nat i);
   v_end_in ← (if is_closed then Ret v_start_in
               else at_Z (QuadLayer.proj_v2_ ql)
                      (MOD (Z.of_nat i - 1) (QuadLayer.n_base_edges ql)));
   Ret (v_start_in, v_end_in)) =
  match start_in ql i, end_in is_closed ql i with
  | Some a, Some b => Ret (a, b)
  | _, _ => Undef
  end.
Proof.
  intros Hlen1. rewrite at_Z_nat. unfold at_index, start_in, end_in.
  destruct (QuadLayer.proj_v1_ ql !! i) as [a|] eqn:Ea; [|done]. exec_simpl.
  destruct is_closed; [done|].
  assert (0 < QuadLayer.n_base_edges ql)%Z as Hn.
  { apply lookup_lt_Some in Ea. unfold QuadLayer.n_base_edges. lia. }
  rewrite MOD_mod by done.
  pose proof (Z.mod_pos_bound (Z.of_nat i - 1) (QuadLayer.n_base_edges ql) Hn) as Hb.
  unfold at_Z.
  destruct (Z.ltb_spec ((Z.of_nat i - 1) `mod` QuadLayer.n_base_edges ql) 0); [lia|].
  unfold at_index.
  by destruct (QuadLayer.proj_v2_ ql !! _).
Qed.


Section Anchors.
Context (vs : Vertices) (is_closed : bool) (ql : QuadLayer.t).
Hypothesis Hlen1 :
  length (QuadLayer.proj_v1_ ql) = length (QuadLayer.base_edges_ ql).

Lemma anchor_walk_step (fuel i : nat) :
  FrontQuadLayering.anchor_walk (S fuel) vs is_closed ql
    (QuadLayer.n_base_edges ql) (Z.of_nat i) =
  match start_in ql i, end_in is_closed ql i with
  | Some a, Some b =>
      p ← deref_opt a;
      vp ← Vertices.get vs p;
      if negb (Vertex.on_front vp) then
        q ← deref_opt b;
        vq ← Vertices.get vs q;
        if negb (Vertex.on_front vq) then
          FrontQuadLayering.anchor_walk fuel vs is_closed ql
            (QuadLayer.n_base_edges ql) (Z.of_nat (S i))
        else Ret (a, b)
      else Ret (a, b)
  | _, _ => Undef
  end.
Proof using Hlen1.
  cbn [FrontQuadLayering.anchor_walk].
  replace (Z.of_nat i + 1)%Z with (Z.of_nat (S i)) by lia.
  rewrite at_Z_nat. unfold at_index, start_in, end_in.
  destruct (QuadLayer.proj_v1_ ql !! i) as [a|] eqn:Ea; [|done]. exec_simpl.
  destruct is_closed; [done|].
  assert (0 < QuadLayer.n_base_edges ql)%Z as Hn.
  { apply lookup_lt_Some in Ea. unfold QuadLayer.n_base_edges. lia. }
  rewrite MOD_mod by done.
  pose proof (Z.mod_pos_bound (Z.of_nat i - 1) (QuadLayer.n_base_edges ql) Hn) as Hb.
  unfold at_Z.
  destruct (Z.ltb_spec ((Z.of_nat i - 1) `mod` QuadLayer.n_base_edges ql) 0); [lia|].
  unfold at_index.
  by destruct (QuadLayer.proj_v2_ ql !! _).
Qed.

Lemma on_front_of_get (p : VertexPtr) (b : bool) :
  on_front_of vs p = Some b →
  ∃ v, Vertices.get vs p = Ret v ∧ Vertex.on_front v = b.
Proof.
  unfold on_front_of, Vertices.get. intros E.
  apply fmap_Some in E as (v & -> & ->). by exists v.
Qed.

Lemma anchor_walk_pass (fuel i : nat) :
  both_off_front vs is_closed ql i →
  FrontQuadLayering.anchor_walk (S fuel) vs is_closed ql
    (QuadLayer.n_base_edges ql) (Z.of_nat i) =
  FrontQuadLayering.anchor_walk fuel vs is_closed ql
    (QuadLayer.n_base_edges ql) (Z.of_nat (S i)).
Proof using Hlen1.
  intros (p & q & Hs & He & Hp & Hq). rewrite anchor_walk_step, Hs, He.
  apply on_front_of_get in Hp as (vp & Ep & Fp).
  apply on_front_of_get in Hq as (vq & Eq & Fq).
  exec_simpl. rewrite Ep. exec_simpl. rewrite Fp. cbn [negb].
  rewrite Eq. exec_simpl. by rewrite Fq.
Qed.

Lemma anchor_walk_stop (fuel i : nat) (p : VertexPtr) (b : option VertexPtr) :
  stops_at vs is_closed ql i p b →
  FrontQuadLayering.anchor_walk (S fuel) vs is_closed ql
    (QuadLayer.n_base_edges ql) (Z.of_nat i) = Ret (Some p, b).
Proof using Hlen1.
  intros (Hs & He & Hon). rewrite anchor_walk_step, Hs, He. exec_simpl.
  destruct Hon as [Hp|(Hp & q & -> & Hq)].
  - apply on_front_of_get in Hp as (vp & Ep & Fp).
    rewrite Ep. exec_simpl. by rewrite Fp.
  - apply on_front_of_get in Hp as (vp & Ep & Fp).
    apply on_front_of_get in Hq as (vq & Eq & Fq).
    rewrite Ep. exec_simpl. rewrite Fp. cbn [negb]. exec_simpl.
    rewrite Eq. exec_simpl. by rewrite Fq.
Qed.

Lemma anchor_walk_run (fuel j i : nat) (p : VertexPtr) (b : option VertexPtr) :
  (∀ k, j ≤ k → k < i → both_off_front vs is_closed ql k) →
  stops_at vs is_closed ql i p b → j ≤ i → i < fuel + j →
  FrontQuadLayering.anchor_walk fuel vs is_closed ql
    (QuadLayer.n_base_edges ql) (Z.of_nat j) = Ret (Some p, b).
Proof using Hlen1.
  revert j. induction fuel as [|fuel IH]; intros j Hoff Hstop Hji Hfuel; [lia|].
  destruct (decide (j = i)) as [->|Hne].
  - by apply anchor_walk_stop.
  - rewrite anchor_walk_pass by (apply Hoff; lia).
    apply IH; [|done|lia|lia]. intros k Hk1 Hk2. apply Hoff; lia.
Qed.

Lemma anchor_walk_inv (fuel j : nat) (a b : option VertexPtr) :
  FrontQuadLayering.anchor_walk fuel vs is_closed ql
    (QuadLayer.n_base_edges ql) (Z.of_nat j) = Ret (a, b) →
  ∃ i p, a = Some p ∧ j ≤ i ∧
         (∀ k, j ≤ k → k < i → both_off_front vs is_closed ql k) ∧
         stops_at vs is_closed ql i p b.
Proof using Hlen1.
  revert j. induction fuel as [|fuel IH]; intros j E; [done|].
  rewrite anchor_walk_step in E.
  destruct (start_in ql j) as [a'|] eqn:Hs; [|done].
  destruct (end_in is_closed ql j) as [b'|] eqn:He; [|done].
  destruct a' as [p|]; [|done]. exec_simpl. cbn [deref_opt mbind Exec_bind] in E.
  unfold Vertices.get in E.
  destruct (Vertices.find p (Vertices.cells vs)) as [vp|] eqn:Fp; [|done].
  cbn [deref_opt mbind Exec_bind] in E.
  destruct (Vertex.on_front vp) eqn:Op; cbn [negb] in E.
  - injection E as <- <-. exists j, p. split; [done|]. split; [done|].
    split; [intros k; lia|]. split; [done|]. split; [done|]. left.
    unfold on_front_of. rewrite Fp. cbn. by rewrite Op.
  - destruct b' as [q|]; [|done]. cbn [deref_opt mbind Exec_bind] in E.
    destruct (Vertices.find q (Vertices.cells vs)) as [vq|] eqn:Fq; [|done].
    cbn [deref_opt mbind Exec_bind] in E.
    destruct (Vertex.on_front vq) eqn:Oq; cbn [negb] in E.
    + injection E as <- <-. exists j, p. split; [done|]. split; [done|].
      split; [intros k; lia|]. split; [done|]. split; [done|]. right.
      unfold on_front_of. split; [rewrite Fp; cbn; by rewrite Op|].
      exists q. split; [done|]. rewrite Fq. cbn. by rewrite Oq.
    + destruct (IH (S j) E) as (i & p' & -> & Hji & Hoff & Hstop).
      exists i, p'. split; [done|]. split; [lia|]. split; [|done].
      intros k Hk1 Hk2. destruct (decide (k = j)) as [->|Hne]; [|apply Hoff; lia].
      exists p, q. unfold on_front_of. rewrite Fp, Fq. cbn. by rewrite Op, Oq.
Qed.

End Anchors.

Lemma set_new_anchors_true {Rest} (is_closed : bool) (ql : QuadLayer.t)
    (s s' : FrontQuadLayering.t Rest) :
  length (QuadLayer.proj_v1_ ql) = length (QuadLayer.base_edges_ ql) →
  FrontQuadLayering.set_new_anchors is_closed ql s = Ret (true, s') ↔
  ∃ i p q vp vq,
    (∀ k, k < i →
       both_off_front (verts (env (FrontQuadLayering.mesh_ s))) is_closed ql k) ∧
    stops_at (verts (env (FrontQuadLayering.mesh_ s))) is_closed ql i p (Some q) ∧
    Vertices.find p (Vertices.cells (verts (env (FrontQuadLayering.mesh_ s))))
      = Some vp ∧
    Vertices.find q (Vertices.cells (verts (env (FrontQuadLayering.mesh_ s))))
      = Some vq ∧
    s' = FrontQuadLayering.set_anchors (Vertex.xy vp) (Vertex.xy vq) s.
Proof.
  intros Hlen. unfold FrontQuadLayering.set_new_anchors. split.
  - intros E. apply bind_Ret_inv in E as ([a b] & Ew & E).
    change 0%Z with (Z.of_nat 0) in Ew.
    apply (anchor_walk_inv _ _ _ Hlen) in Ew as (i & p & -> & _ & Hoff & Hstop).
    destruct b as [q|]; [|done].
    apply bind_Ret_inv in E as (vp & Ep & E). apply bind_Ret_inv in E as (vq & Eq & E).
    injection E as <-. exists i, p, q, vp, vq.
    split; [intros k Hk; apply Hoff; lia|]. split; [done|].
    unfold Vertices.get in Ep, Eq.
    destruct (Vertices.find p _); [|done]. destruct (Vertices.find q _); [|done].
    injection Ep as ->. injection Eq as ->. done.
  - intros (i & p & q & vp & vq & Hoff & Hstop & Fp & Fq & ->).
    change 0%Z with (Z.of_nat 0).
    rewrite (anchor_walk_run _ _ _ Hlen _ 0 i p (Some q)); [|by intros; apply Hoff|done|lia|].
    + exec_simpl. unfold Vertices.get. by rewrite Fp, Fq.
    + destruct Hstop as (Hs & _). apply lookup_lt_Some in Hs.
      unfold QuadLayer.n_base_edges. lia.
Qed.

(** ** The layer keeps one entry per base edge throughout generate_quad_layer *)

Lemma same_lengths_same_bases (q q' : QuadLayer.t) :
  same_bases q q' → same_lengths q → same_lengths q'.
Proof.
  intros (_ & _ & _ & _ & B1 & B2 & B3 & B4 & L1 & L2 & L3 & L4)
         (M1 & M2 & M3 & M4 & M5 & M6 & M7).
  unfold same_lengths. rewrite B1, B2, B3, B4, L1, L2, L3, L4. done.
Qed.

Lemma add_quadlayer_edge_lengths (env : Env) (p : EdgePtr) (q q' : QuadLayer.t) :
  QuadLayer.add_quadlayer_edge env p q = Ret q' → same_lengths q → same_lengths q'.
Proof.
  unfold QuadLayer.add_quadlayer_edge. intros E (M1 & M2 & M3 & M4 & M5 & M6 & M7).
  exec_inv. unfold same_lengths. cbn. rewrite !length_app. cbn. lia.
Qed.

Lemma walk_lengths `{EdgeLinks} (fuel : nat) (env : Env) (e : option EdgePtr)
    (q q' : QuadLayer.t) :
  QuadLayer.walk fuel env e q = Ret q' → same_lengths q → same_lengths q'.
Proof.
  revert e q. induction fuel as [|fuel IH]; intros e q E Hq; [done|].
  cbn [QuadLayer.walk] in E.
  apply bind_Ret_inv in E as (_ & _ & E). apply bind_Ret_inv in E as (p & _ & E).
  apply bind_Ret_inv in E as (q1 & E1 & E).
  pose proof (add_quadlayer_edge_lengths env p q q1 E1 Hq) as Hq1.
  destruct (bool_decide _); [by apply (IH _ _ E)|]. by injection E as <-.
Qed.

Lemma create_lengths `{EdgeLinks} (fuel : nat) (env : Env) (e_start e_end : EdgePtr)
    (c : bool) (h : float) (q : QuadLayer.t) :
  QuadLayer.create fuel env e_start e_end c h = Ret q → same_lengths q.
Proof.
  unfold QuadLayer.create. intros E. apply bind_Ret_inv in E as (q1 & E1 & E).
  apply (add_quadlayer_edge_lengths _ _ _ _ E).
  apply (walk_lengths _ _ _ _ _ E1). by repeat split.
Qed.

Lemma smooth_loop_bases (fuel : nat) (domain : Domain) (env : Env) (i : nat)
    (q q' : QuadLayer.t) :
  QuadLayer.smooth_loop fuel domain env i q = Ret q' →
  same_lengths q → same_lengths q'.
Proof.
  revert i q. induction fuel as [|fuel IH]; intros i q E Hq; [done|].
  cbn [QuadLayer.smooth_loop] in E.
  destruct (_ <? _)%Z; [|by injection E as <-].
  apply bind_Ret_inv in E as (h1 & _ & E). apply bind_Ret_inv in E as (h2 & _ & E).
  apply bind_Ret_inv in E as (h3 & _ & E). apply bind_Ret_inv in E as (ep & _ & E).
  apply bind_Ret_inv in E as (e & _ & E).
  apply (IH _ _ E). destruct Hq as (M1 & M2 & M3 & M4 & M5 & M6 & M7).
  unfold same_lengths. cbn. rewrite length_insert. done.
Qed.

Lemma adjust_bases `{Geometry} (env : Env) (i j : Z) (q q' : QuadLayer.t) :
  QuadLayer.adjust_projected_vertex_coordinates env i j q = Ret q' →
  same_bases q q'.
Proof.
  unfold QuadLayer.adjust_projected_vertex_coordinates. intros E. exec_inv.
  - apply same_bases_refl.
  - unfold same_bases. cbn. rewrite !length_insert. by repeat split.
Qed.

Lemma adjust_loop_bases `{Geometry} (todo : nat) (env : Env) (i : nat)
    (q q' : QuadLayer.t) :
  QuadLayer.adjust_loop todo env i q = Ret q' → same_bases q q'.
Proof.
  revert i q. induction todo as [|todo IH]; intros i q E.
  - injection E as <-. apply same_bases_refl.
  - cbn [QuadLayer.adjust_loop] in E. apply bind_Ret_inv in E as (q1 & E1 & E).
    apply (same_bases_trans q q1); [by apply adjust_bases in E1|by apply (IH _ _ E)].
Qed.

Lemma setup_vertex_projection_bases `{Geometry} `{EdgeLinks} (env env' : Env)
    (q q' : QuadLayer.t) :
  QuadLayer.setup_vertex_projection env q = Ret (q', env') → same_bases q q'.
Proof.
  unfold QuadLayer.setup_vertex_projection. intros E.
  apply bind_Ret_inv in E as (q1 & E1 & E). apply adjust_loop_bases in E1.
  apply (same_bases_trans q q1); [done|].
  destruct (QuadLayer.is_closed_ q1).
  - apply bind_Ret_inv in E as (q2 & E2 & E). injection E as <- <-.
    by apply adjust_bases in E2.
  - apply bind_Ret_inv in E as ([q2 env1] & E2 & E).
    apply place_start_vertex_frame in E2 as (B2 & _).
    apply place_end_vertex_frame in E as (B3 & _).
    by apply (same_bases_trans q1 q2).
Qed.

Lemma create_quad_layer_element_bases {Rest} `{Collaborators Rest} (i : nat)
    (ql ql' : QuadLayer.t) (w w' : World Rest) :
  FrontQuadLayering.create_quad_layer_element i ql w = Ret (ql', w') →
  same_bases ql ql'.
Proof.
  unfold FrontQuadLayering.create_quad_layer_element. intros E. exec_inv.
  all: try apply same_bases_refl.
  all: unfold same_bases; cbn; rewrite ?length_insert; by repeat split.
Qed.

Lemma create_quad_layer_elements_bases {Rest} `{Collaborators Rest} (todo i : nat)
    (ql ql' : QuadLayer.t) (w w' : World Rest) :
  FrontQuadLayering.create_quad_layer_elements_loop todo i ql w = Ret (ql', w') →
  same_bases ql ql'.
Proof.
  revert i ql w. induction todo as [|todo IH]; intros i ql w E.
  - injection E as <- <-. apply same_bases_refl.
  - cbn [FrontQuadLayering.create_quad_layer_elements_loop] in E.
    apply bind_Ret_inv in E as ([ql1 w1] & E1 & E).
    apply (same_bases_trans ql ql1);
      [by apply create_quad_layer_element_bases in E1|by apply (IH _ _ _ E)].
Qed.

Lemma set_mesh_params {Rest} (w : World Rest) (s : FrontQuadLayering.t Rest) :
  FrontQuadLayering.first_height_ (FrontQuadLayering.set_mesh_ w s)
    = FrontQuadLayering.first_height_ s ∧
  FrontQuadLayering.growth_rate_ (FrontQuadLayering.set_mesh_ w s)
    = FrontQuadLayering.growth_rate_ s ∧
  FrontQuadLayering.n_layers_ (FrontQuadLayering.set_mesh_ w s)
    = FrontQuadLayering.n_layers_ s.
Proof. done. Qed.

(** [generate_quad_layer] returns true only through the anchor walk, on a
    layer with one entry per base edge in each array. *)
Lemma generate_quad_layer_true_inv {Rest} `{Geometry} `{EdgeLinks}
    `{Collaborators Rest} (fuel : nat) (height : float)
    (s s' : FrontQuadLayering.t Rest) :
  FrontQuadLayering.generate_quad_layer fuel height s = Ret (true, s') →
  ∃ is_closed ql w,
    same_lengths ql ∧
    FrontQuadLayering.set_new_anchors is_closed ql (FrontQuadLayering.set_mesh_ w s)
      = Ret (true, s').
Proof.
  unfold FrontQuadLayering.generate_quad_layer. intros E.
  apply bind_Ret_inv in E as ([v_start v_end] & _ & E).
  destruct v_start as [v_start|]; [|done]. destruct v_end as [v_end|]; [|done].
  destruct (EdgeList.get_edge_at _ v_start 1) as [e_start|]; [|done].
  destruct (EdgeList.get_edge_at _ v_end 2) as [e_end|]; [|done].
  destruct (negb _); [done|].
  apply bind_Ret_inv in E as ([p_start p_end] & _ & E).
  apply bind_Ret_inv in E as (ql1 & E1 & E). apply create_lengths in E1.
  apply bind_Ret_inv in E as (ql2 & E2 & E).
  apply smooth_loop_bases in E2; [|done].
  apply bind_Ret_inv in E as ([ql3 env1] & E3 & E).
  apply setup_vertex_projection_bases in E3.
  apply bind_Ret_inv in E as ([ql4 w1] & E4 & E).
  apply create_quad_layer_elements_bases in E4.
  apply bind_Ret_inv in E as (w2 & _ & E). apply bind_Ret_inv in E as (w3 & _ & E).
  exists (Nat.eqb v_start v_end), ql4, w3. split; [|done].
  apply (same_lengths_same_bases ql3); [done|].
  by apply (same_lengths_same_bases ql2).
Qed.

(** C1 (as amended): the final walk of [generate_quad_layer] stops at the
    first index i at which [p1[i]] is on the front or, if it is not, the
    end vertex ([p1[i]] again on a closed layer, [p2[(i - 1) mod n]]
    otherwise) is on the front; at every earlier index both pointers are
    non-null and both vertices off the front. The run returns true exactly
    when the walk stops so with a non-null end pointer, and [xy_start_] and
    [xy_end_] are then the coordinates of the two vertices. *)
Theorem generate_quad_layer_anchors {Rest} `{Geometry} `{EdgeLinks}
    `{Collaborators Rest} :
  (∀ is_closed ql (s s' : FrontQuadLayering.t Rest),
     length (QuadLayer.proj_v1_ ql) = length (QuadLayer.base_edges_ ql) →
     FrontQuadLayering.set_new_anchors is_closed ql s = Ret (true, s') ↔
     ∃ i p q vp vq,
       (∀ k, k < i →
          both_off_front (verts (env (FrontQuadLayering.mesh_ s))) is_closed ql k) ∧
       stops_at (verts (env (FrontQuadLayering.mesh_ s))) is_closed ql i p (Some q) ∧
       Vertices.find p (Vertices.cells (verts (env (FrontQuadLayering.mesh_ s))))
         = Some vp ∧
       Vertices.find q (Vertices.cells (verts (env (FrontQuadLayering.mesh_ s))))
         = Some vq ∧
       s' = FrontQuadLayering.set_anchors (Vertex.xy vp) (Vertex.xy vq) s) ∧
  (∀ fuel height (s s' : FrontQuadLayering.t Rest),
     FrontQuadLayering.generate_quad_layer fuel height s = Ret (true, s') →
     ∃ is_closed ql w i p q vp vq,
       (∀ k, k < i → both_off_front (verts (env w)) is_closed ql k) ∧
       stops_at (verts (env w)) is_closed ql i p (Some q) ∧
       Vertices.find p (Vertices.cells (verts (env w))) = Some vp ∧
       Vertices.find q (Vertices.cells (verts (env w))) = Some vq ∧
       FrontQuadLayering.xy_start_ s' = Vertex.xy vp ∧
       FrontQuadLayering.xy_end_ s' = Vertex.xy vq ∧
       FrontQuadLayering.mesh_ s' = w).
Proof.
  split.
  - intros is_closed ql s s' Hlen. by apply set_new_anchors_true.
  - intros fuel height s s' E.
    apply generate_quad_layer_true_inv in E as (is_closed & ql & w & Hlen & E).
    apply set_new_anchors_true in E;
      [|by destruct Hlen as (_ & _ & -> & _)].
    destruct E as (i & p & q & vp & vq & Hoff & Hstop & Fp & Fq & ->).
    by exists is_closed, ql, w, i, p, q, vp, vq.
Qed.

Lemma ring_layer_accepted :
  FrontQuadLayering.generate_quad_layer (H := Scenario.approx_geometry)
    (H0 := Scenario.links_by_vertex) (H1 := Scenario.accepting) 10 0.5%float
    Scenario.ring_driver = Ret (true, Scenario.ring_after_layer).
Proof. vm_compute. reflexivity. Qed.

Lemma generate_quad_layer_anchors_witness :
  FrontQuadLayering.set_new_anchors false Scenario.half_anchored
    Scenario.two_vertex_driver =
  Ret (true, FrontQuadLayering.set_anchors (Scenario.P 0 1) (Scenario.P 2 1)
               Scenario.two_vertex_driver) ∧
  ∃ is_closed ql w i p q vp vq,
    (∀ k, k < i → both_off_front (verts (env w)) is_closed ql k) ∧
    stops_at (verts (env w)) is_closed ql i p (Some q) ∧
    Vertices.find p (Vertices.cells (verts (env w))) = Some vp ∧
    Vertices.find q (Vertices.cells (verts (env w))) = Some vq ∧
    FrontQuadLayering.xy_start_ Scenario.ring_after_layer = Vertex.xy vp ∧
    FrontQuadLayering.xy_end_ Scenario.ring_after_layer = Vertex.xy vq ∧
    FrontQuadLayering.mesh_ Scenario.ring_after_layer = w.
Proof.
  split.
  - apply (proj1 (generate_quad_layer_anchors (H := Scenario.approx_geometry)
                    (H0 := Scenario.links_by_vertex) (H1 := Scenario.accepting))
             false Scenario.half_anchored Scenario.two_vertex_driver _ eq_refl).
    exists 0, 0, 1, (Vertex.mk (Scenario.P 0 1) true false false),
      (Vertex.mk (Scenario.P 2 1) false false false).
    split; [intros k Hk; lia|]. split; [|done].
    split; [reflexivity|]. split; [reflexivity|]. by left.
  - apply (proj2 (generate_quad_layer_anchors (H := Scenario.approx_geometry)
                    (H0 := Scenario.links_by_vertex) (H1 := Scenario.accepting))
             10 0.5%float Scenario.ring_driver Scenario.ring_after_layer).
    exact ring_layer_accepted.
Defined.

(** C1 (as stated) fails: on this open layer the run is successful and the
    walk stops at index 0, where the start vertex is on the front and the
    end vertex is not; at no index are both on the front. *)
Lemma anchor_walk_stops_on_one_vertex :
  FrontQuadLayering.set_new_anchors false Scenario.half_anchored
    Scenario.two_vertex_driver =
  Ret (true, FrontQuadLayering.set_anchors (Scenario.P 0 1) (Scenario.P 2 1)
               Scenario.two_vertex_driver) ∧
  start_in Scenario.half_anchored 0 = Some (Some 0) ∧
  end_in false Scenario.half_anchored 0 = Some (Some 1) ∧
  on_front_of Scenario.two_vertices 0 = Some true ∧
  on_front_of Scenario.two_vertices 1 = Some false ∧
  ∀ i q, end_in false Scenario.half_anchored i = Some (Some q) →
         on_front_of Scenario.two_vertices q = Some false.
Proof.
  split; [vm_compute; reflexivity|]. repeat split.
  intros i q Hq. unfold end_in in Hq.
  assert (Z.to_nat ((Z.of_nat i - 1) `mod`
                    QuadLayer.n_base_edges Scenario.half_anchored) < 2) as Hlt.
  { change (QuadLayer.n_base_edges Scenario.half_anchored) with 2%Z.
    pose proof (Z.mod_pos_bound (Z.of_nat i - 1) 2 ltac:(lia)). lia. }
  destruct (Z.to_nat _) as [|[|k]]; [| |lia].
  - injection Hq as <-. reflexivity.
  - injection Hq as <-. reflexivity.
Qed.

(** C9: when [update_front] commits no triangle, every projected vertex of
    the layer is still null and the final walk dereferences [p1[0]]; when
    all projected vertices are off the front, the walk reads [p1[n]]. In
    both cases the run is undefined instead of returning false. *)
Lemma generate_quad_layer_no_anchor :
  FrontQuadLayering.generate_quad_layer (H := Scenario.approx_geometry)
    (H0 := Scenario.links_by_vertex) (H1 := Scenario.rejecting) 10 0.5%float
    Scenario.ring_driver = Undef ∧
  FrontQuadLayering.set_new_anchors true Scenario.unanchored
    Scenario.two_vertex_driver = Undef.
Proof. split; vm_compute; reflexivity. Qed.

(** The early exits of [generate_quad_layer] return false and leave the
    driver and the mesh as they are. *)
Lemma generate_quad_layer_rejects {Rest} `{Geometry} `{EdgeLinks}
    `{Collaborators Rest} (fuel : nat) (height : float)
    (s : FrontQuadLayering.t Rest) (v_start v_end : option VertexPtr) :
  let w := FrontQuadLayering.mesh_ s in
  FrontQuadLayering.closest_vertices (EdgeList.edges_ (front (env w)))
    (verts (env w)) (FrontQuadLayering.xy_start_ s) (FrontQuadLayering.xy_end_ s)
    None None 1.0E+10%float 1.0E+10%float = Ret (v_start, v_end) →
  (* a vertex was not found *)
  (v_start = None ∨ v_end = None →
   FrontQuadLayering.generate_quad_layer fuel height s = Ret (false, s)) ∧
  (∀ a b, v_start = Some a → v_end = Some b →
     (* a front edge at [v_start] or at [v_end] is missing *)
     (EdgeList.get_edge_at (front (env w)) a 1 = None ∨
      EdgeList.get_edge_at (front (env w)) b 2 = None →
      FrontQuadLayering.generate_quad_layer fuel height s = Ret (false, s)) ∧
     (* the span is not traversable *)
     (∀ e_start e_end,
        EdgeList.get_edge_at (front (env w)) a 1 = Some e_start →
        EdgeList.get_edge_at (front (env w)) b 2 = Some e_end →
        is_traversable w (Edge.ptr e_start) (Edge.ptr e_end) = false →
        FrontQuadLayering.generate_quad_layer fuel height s = Ret (false, s))).
Proof.
  intros w Hc. unfold FrontQuadLayering.generate_quad_layer. fold w.
  rewrite Hc. exec_simpl. split.
  - intros [-> | ->]; [done|]. by destruct v_start.
  - intros a b -> ->. split.
    + intros [-> | ->]; [done|]. by destruct (EdgeList.get_edge_at _ a 1).
    + intros e_start e_end -> -> ->. done.
Qed.

(** ** FrontQuadLayering::generate_elements *)

Section Driver.
Context {Rest : Type} `{Geometry} `{EdgeLinks} `{Collaborators Rest}.

Lemma set_new_anchors_params (is_closed : bool) (ql : QuadLayer.t)
    (s s' : FrontQuadLayering.t Rest) (b : bool) :
  FrontQuadLayering.set_new_anchors is_closed ql s = Ret (b, s') →
  FrontQuadLayering.first_height_ s' = FrontQuadLayering.first_height_ s ∧
  FrontQuadLayering.growth_rate_ s' = FrontQuadLayering.growth_rate_ s ∧
  FrontQuadLayering.n_layers_ s' = FrontQuadLayering.n_layers_ s ∧
  FrontQuadLayering.mesh_ s' = FrontQuadLayering.mesh_ s.
Proof.
  unfold FrontQuadLayering.set_new_anchors. intros E.
  apply bind_Ret_inv in E as ([a c] & _ & E).
  destruct a as [p|]; [|by injection E as <- <-].
  destruct c as [q|]; [|by injection E as <- <-].
  apply bind_Ret_inv in E as (vp & _ & E). apply bind_Ret_inv in E as (vq & _ & E).
  by injection E as <- <-.
Qed.

(** [generate_quad_layer] does not touch the parameters of the driver. *)
Lemma generate_quad_layer_params (fuel : nat) (height : float)
    (s s' : FrontQuadLayering.t Rest) (b : bool) :
  FrontQuadLayering.generate_quad_layer fuel height s = Ret (b, s') →
  FrontQuadLayering.first_height_ s' = FrontQuadLayering.first_height_ s ∧
  FrontQuadLayering.growth_rate_ s' = FrontQuadLayering.growth_rate_ s ∧
  FrontQuadLayering.n_layers_ s' = FrontQuadLayering.n_layers_ s.
Proof.
  unfold FrontQuadLayering.generate_quad_layer. intros E.
  apply bind_Ret_inv in E as ([v_start v_end] & _ & E).
  destruct v_start as [v_start|]; [|by injection E as <- <-].
  destruct v_end as [v_end|]; [|by injection E as <- <-].
  destruct (EdgeList.get_edge_at _ v_start 1) as [e_start|];
    [|by injection E as <- <-].
  destruct (EdgeList.get_edge_at _ v_end 2) as [e_end|]; [|by injection E as <- <-].
  destruct (negb _); [by injection E as <- <-|].
  apply bind_Ret_inv in E as ([p_start p_end] & _ & E).
  apply bind_Ret_inv in E as (ql1 & _ & E). apply bind_Ret_inv in E as (ql2 & _ & E).
  apply bind_Ret_inv in E as ([ql3 env1] & _ & E).
  apply bind_Ret_inv in E as ([ql4 w1] & _ & E).
  apply bind_Ret_inv in E as (w2 & _ & E). apply bind_Ret_inv in E as (w3 & _ & E).
  apply set_new_anchors_params in E as (-> & -> & -> & _). done.
Qed.

(** The loop over the layers calls [generate_quad_layer] with the heights
    of the geometric progression and stops at the first call that returns
    false. *)
Lemma layer_loop_run_layers (fuel todo k : nat) (first rate : float)
    (s : FrontQuadLayering.t Rest) :
  FrontQuadLayering.growth_rate_ s = rate →
  FrontQuadLayering.layer_loop fuel todo (layer_height first rate k) true s =
  run_layers fuel first rate k todo s.
Proof.
  revert k s. induction todo as [|todo IH]; intros k s Hrate; [done|].
  cbn [FrontQuadLayering.layer_loop run_layers].
  destruct (FrontQuadLayering.generate_quad_layer _ _ _) as [[ok s']| | |] eqn:E;
    try done.
  exec_simpl. destruct ok; [|done].
  apply generate_quad_layer_params in E as (_ & Hr & _).
  rewrite Hr, Hrate. apply (IH (S k)). by rewrite Hr.
Qed.

End Driver.

Lemma last_default {A} (l : list A) :
  ∀ (x a b : A), default a (last (x :: l)) = default b (last (x :: l)).
Proof.
  induction l as [|y l IH]; intros x a b; [done|]. rewrite last_cons_cons. apply IH.
Qed.

(** [generate_elements] and its layers: without boundary edges it returns
    false at once, with the driver as it was. Otherwise, after the
    preparation of the mesh and the front, it calls [generate_quad_layer] for
    the layers k = 0, 1, ... with the heights h_0 = first_height and
    h_(k+1) = h_k * growth_rate, each call on the driver that the call
    before it has left, for at most n_layers layers and not beyond the first
    call that returns false; it then finishes the mesh, clears the front and
    returns as its result whether all calls returned true. *)
Theorem generate_elements_spec {Rest} `{Geometry} `{EdgeLinks} `{Collaborators Rest}
    (fuel : nat) (s : FrontQuadLayering.t Rest) :
  (EdgeList.size (bdry_edges (env (FrontQuadLayering.mesh_ s))) = 0 →
   FrontQuadLayering.generate_elements fuel s = Ret (false, s)) ∧
  (0 < EdgeList.size (bdry_edges (env (FrontQuadLayering.mesh_ s))) →
   FrontQuadLayering.generate_elements fuel s =
   w1 ← setup_facet_connectivity (FrontQuadLayering.mesh_ s);
   w2 ← init_advancing_front false w1;
   w3 ← remove_invalid_mesh_edges w2;
   '(success, s1) ←
      run_layers fuel (FrontQuadLayering.first_height_ s)
        (FrontQuadLayering.growth_rate_ s) 0 (FrontQuadLayering.n_layers_ s)
        (FrontQuadLayering.set_mesh_ w3 s);
   w4 ← finish_mesh_for_output (FrontQuadLayering.mesh_ s1);
   Ret (success, FrontQuadLayering.set_mesh_ (with_cleared_front w4) s1)) ∧
  (∀ first rate k todo (s0 s1 : FrontQuadLayering.t Rest) success,
     run_layers fuel first rate k todo s0 = Ret (success, s1) →
     ∃ calls,
       layer_calls fuel first rate k s0 calls ∧
       s1 = default s0 (last (map snd calls)) ∧
       if success then
         (* every layer was generated *)
         length calls = todo ∧ Forall (λ c, fst c = true) calls
       else
         (* the last call returned false, the calls before it true *)
         ∃ before, calls = before ++ [(false, s1)] ∧ length calls ≤ todo ∧
                   Forall (λ c, fst c = true) before).
Proof.
  split; [|split].
  - intros Hn. unfold FrontQuadLayering.generate_elements. by rewrite Hn.
  - intros Hn. unfold FrontQuadLayering.generate_elements.
    destruct (Nat.ltb_spec (EdgeList.size (bdry_edges (env (FrontQuadLayering.mesh_ s))))
                1); [lia|].
    destruct (setup_facet_connectivity _) as [w1| | |]; try done. exec_simpl.
    destruct (init_advancing_front false w1) as [w2| | |]; try done. exec_simpl.
    destruct (remove_invalid_mesh_edges w2) as [w3| | |]; try done. exec_simpl.
    change (FrontQuadLayering.first_height_ s)
      with (layer_height (FrontQuadLayering.first_height_ s)
              (FrontQuadLayering.growth_rate_ s) 0) at 1.
    by rewrite layer_loop_run_layers.
  - intros first rate k todo. revert k.
    induction todo as [|todo IH]; intros k s0 s1 success E.
    + injection E as <- <-. exists []. by repeat split.
    + cbn [run_layers] in E. apply bind_Ret_inv in E as ([ok s'] & E1 & E).
      destruct ok.
      * destruct (IH (S k) s' s1 success E) as (calls & Hcalls & Hlast & Hres).
        exists ((true, s') :: calls). split; [by split|]. split.
        -- destruct calls as [|c calls]; [done|]. cbn [map] in *.
           rewrite last_cons_cons, Hlast. apply last_default.
        -- destruct success.
           ++ destruct Hres as (Hlen & Hall). split; [cbn; lia|by constructor].
           ++ destruct Hres as (before & -> & Hlen & Hall).
              exists ((true, s') :: before). split; [done|].
              split; [cbn in *; lia|by constructor].
      * injection E as <- <-. exists [(false, s')]. split; [by split|].
        split; [done|]. exists []. split; [done|]. split; [cbn; lia|constructor].
Qed.

Lemma ring_layers_accepted :
  run_layers (H := Scenario.approx_geometry) (H0 := Scenario.links_by_vertex)
    (H1 := Scenario.accepting) 10 0.5%float 1.5%float 0 3 Scenario.ring_driver =
  Ret (true, Scenario.ring_after_layers).
Proof. vm_compute. reflexivity. Qed.

Lemma ring_driver_has_boundary :
  0 < EdgeList.size
        (bdry_edges (env (FrontQuadLayering.mesh_ Scenario.ring_driver))).
Proof. vm_compute. lia. Qed.

Lemma ring_layers_finished :
  (w1 ← setup_facet_connectivity (Collaborators := Scenario.accepting)
          (FrontQuadLayering.mesh_ Scenario.ring_driver);
   w2 ← init_advancing_front (Collaborators := Scenario.accepting) false w1;
   w3 ← remove_invalid_mesh_edges (Collaborators := Scenario.accepting) w2;
   '(success, s1) ←
      run_layers (H := Scenario.approx_geometry) (H0 := Scenario.links_by_vertex)
        (H1 := Scenario.accepting) 10
        (FrontQuadLayering.first_height_ Scenario.ring_driver)
        (FrontQuadLayering.growth_rate_ Scenario.ring_driver) 0
        (FrontQuadLayering.n_layers_ Scenario.ring_driver)
        (FrontQuadLayering.set_mesh_ w3 Scenario.ring_driver);
   w4 ← finish_mesh_for_output (Collaborators := Scenario.accepting)
          (FrontQuadLayering.mesh_ s1);
   Ret (success, FrontQuadLayering.set_mesh_ (with_cleared_front w4) s1)) =
  Ret (true,
       FrontQuadLayering.set_mesh_
         (with_cleared_front (FrontQuadLayering.mesh_ Scenario.ring_after_layers))
         Scenario.ring_after_layers).
Proof. vm_compute. reflexivity. Qed.

Lemma generate_elements_spec_witness :
  (EdgeList.size
     (bdry_edges (env (FrontQuadLayering.mesh_ Scenario.two_vertex_driver))) = 0 ∧
   FrontQuadLayering.generate_elements (H := Scenario.approx_geometry)
     (H0 := Scenario.links_by_vertex) (H1 := Scenario.accepting) 10
     Scenario.two_vertex_driver = Ret (false, Scenario.two_vertex_driver)) ∧
  (0 < EdgeList.size
         (bdry_edges (env (FrontQuadLayering.mesh_ Scenario.ring_driver))) ∧
   FrontQuadLayering.generate_elements (H := Scenario.approx_geometry)
     (H0 := Scenario.links_by_vertex) (H1 := Scenario.accepting) 10
     Scenario.ring_driver =
   Ret (true,
        FrontQuadLayering.set_mesh_
          (with_cleared_front (FrontQuadLayering.mesh_ Scenario.ring_after_layers))
          Scenario.ring_after_layers)) ∧
  ∃ calls,
    layer_calls (H := Scenario.approx_geometry) (H0 := Scenario.links_by_vertex)
      (H1 := Scenario.accepting) 10 0.5%float 1.5%float 0 Scenario.ring_driver calls ∧
    Scenario.ring_after_layers = default Scenario.ring_driver (last (map snd calls)) ∧
    length calls = 3 ∧ Forall (λ c, fst c = true) calls.
Proof.
  split; [|split].
  - split; [reflexivity|].
    apply (proj1 (generate_elements_spec (H := Scenario.approx_geometry)
                    (H0 := Scenario.links_by_vertex) (H1 := Scenario.accepting)
                    10 Scenario.two_vertex_driver)).
    reflexivity.
  - split; [exact ring_driver_has_boundary|].
    exact (eq_trans
             (proj1 (proj2 (generate_elements_spec (H := Scenario.approx_geometry)
                (H0 := Scenario.links_by_vertex) (H1 := Scenario.accepting)
                10 Scenario.ring_driver)) ring_driver_has_boundary)
             ring_layers_finished).
  - exact (proj2 (proj2 (generate_elements_spec (H := Scenario.approx_geometry)
                    (H0 := Scenario.links_by_vertex) (H1 := Scenario.accepting)
                    10 Scenario.ring_driver))
             0.5%float 1.5%float 0 3 Scenario.ring_driver Scenario.ring_after_layers
             true ring_layers_accepted).
Defined.

(** With boundary edges but nothing on the front, the first layer is
    rejected: no further layer is tried and the result is false. *)
Lemma generate_elements_stops :
  FrontQuadLayering.generate_quad_layer (H := Scenario.approx_geometry)
    (H0 := Scenario.links_by_vertex) (H1 := Scenario.accepting) 10 0.5%float
    Scenario.frontless_driver = Ret (false, Scenario.frontless_driver) ∧
  FrontQuadLayering.generate_elements (H := Scenario.approx_geometry)
    (H0 := Scenario.links_by_vertex) (H1 := Scenario.accepting) 10
    Scenario.frontless_driver = Ret (false, Scenario.frontless_driver).
Proof. split; vm_compute; reflexivity. Qed.

(** C8: the outcome of [generate_elements] is not always a boolean. On the
    square with the hole, whose mesh has boundary edges, with an update of
    the front that commits no triangle, the first call of
    [generate_quad_layer] reads through the null pointer [p1[0]] before it
    tests it, and [generate_elements] with it: the run is undefined, and
    neither true nor false is returned. *)
Theorem generate_elements_no_boolean :
  0 < EdgeList.size
        (bdry_edges (env (FrontQuadLayering.mesh_ Scenario.ring_driver))) ∧
  FrontQuadLayering.generate_quad_layer (H := Scenario.approx_geometry)
    (H0 := Scenario.links_by_vertex) (H1 := Scenario.rejecting) 10
    (FrontQuadLayering.first_height_ Scenario.ring_driver) Scenario.ring_driver
    = Undef ∧
  FrontQuadLayering.generate_elements (H := Scenario.approx_geometry)
    (H0 := Scenario.links_by_vertex) (H1 := Scenario.rejecting) 10
    Scenario.ring_driver = Undef ∧
  ∀ b s', FrontQuadLayering.generate_elements (H := Scenario.approx_geometry)
            (H0 := Scenario.links_by_vertex) (H1 := Scenario.rejecting) 10
            Scenario.ring_driver ≠ Ret (b, s').
Proof.
  assert (FrontQuadLayering.generate_elements (H := Scenario.approx_geometry)
            (H0 := Scenario.links_by_vertex) (H1 := Scenario.rejecting) 10
            Scenario.ring_driver = Undef) as E by (vm_compute; reflexivity).
  split; [vm_compute; lia|]. split; [vm_compute; reflexivity|]. split; [exact E|].
  intros b s'. by rewrite E.
Qed.

(** The heights of the first three layers of the ring: 0.5, 0.75, 1.125. *)
Lemma ring_layer_heights :
  layer_height 0.5 1.5 0 = 0.5%float ∧ layer_height 0.5 1.5 1 = 0.75%float ∧
  layer_height 0.5 1.5 2 = 1.125%float.
Proof. repeat split; vm_compute; reflexivity. Qed.

(** ** Front::refine_edge and Front::refine_front_edges *)

Lemma Vertices_update_handles (p : VertexPtr) (f : Vertex → Vertex) (vs : Vertices) :
  map fst (Vertices.cells (Vertices.update p f vs)) = map fst (Vertices.cells vs).
Proof.
  destruct vs as [cells fr]. cbn. rewrite map_map. apply map_ext.
  intros [q v]. cbn. by destruct (Nat.eqb q p).
Qed.

Lemma Vertices_wf_handles (vs : Vertices) :
  Vertices.wf vs ↔
  NoDup (map fst (Vertices.cells vs)) ∧
  Forall (λ q, q < Vertices.fresh vs) (map fst (Vertices.cells vs)).
Proof.
  unfold Vertices.wf. split; intros [Hnd Hlt]; (split; [done|]).
  - by apply Forall_fmap.
  - by apply Forall_fmap in Hlt.
Qed.

Lemma Vertices_update_wf (p : VertexPtr) (f : Vertex → Vertex) (vs : Vertices) :
  Vertices.wf vs → Vertices.wf (Vertices.update p f vs).
Proof.
  rewrite !Vertices_wf_handles, Vertices_update_handles. by destruct vs.
Qed.

Lemma Vertices_insert_before_perm (pos : VertexPtr) (c : VertexPtr * Vertex)
    (l : list (VertexPtr * Vertex)) :
  Vertices.insert_before pos c l ≡ₚ c :: l.
Proof.
  induction l as [|d l IH]; [done|]. cbn. destruct (Nat.eqb _ _); [done|].
  rewrite IH. apply Permutation_swap.
Qed.

Lemma Vertices_insert_wf (pos : VertexPtr) (c : Vec2d) (vs : Vertices) :
  Vertices.wf vs → Vertices.wf (snd (Vertices.insert pos c vs)).
Proof.
  rewrite !Vertices_wf_handles. intros [Hnd Hlt]. cbn.
  assert (map fst (Vertices.insert_before pos (Vertices.fresh vs, Vertex.create c)
                     (Vertices.cells vs)) ≡ₚ
          Vertices.fresh vs :: map fst (Vertices.cells vs)) as Hp.
  { change (map fst ?l) with (fst <$> l).
    by rewrite Vertices_insert_before_perm. }
  rewrite Hp. split.
  - apply NoDup_cons. split; [|done]. intros Hin.
    rewrite Forall_forall in Hlt. specialize (Hlt _ Hin). lia.
  - apply Forall_cons. split; [lia|]. eapply Forall_impl; [exact Hlt|].
    intros q Hq. cbn in Hq. lia.
Qed.

Lemma Vertices_find_lt (vs : Vertices) (q : VertexPtr) (v : Vertex) :
  Vertices.wf vs → Vertices.find q (Vertices.cells vs) = Some v →
  q < Vertices.fresh vs.
Proof.
  intros [_ Hlt]. destruct vs as [cells fr]. cbn in *.
  induction Hlt as [|[r w] l Hr _ IH]; [done|]. cbn in *.
  destruct (Nat.eqb_spec r q) as [<-|Hne]; [done|exact IH].
Qed.

Lemma Vertices_find_insert (pos q : VertexPtr) (c : Vec2d) (vs : Vertices) :
  Vertices.wf vs →
  Vertices.find q (Vertices.cells (snd (Vertices.insert pos c vs))) =
  if Nat.eqb q (Vertices.fresh vs) then Some (Vertex.create c)
  else Vertices.find q (Vertices.cells vs).
Proof.
  intros [_ Hlt]. destruct vs as [cells fr]. cbn in *.
  induction Hlt as [|[r w] l Hr _ IH]; cbn in *.
  - rewrite (Nat.eqb_sym fr q). done.
  - destruct (Nat.eqb_spec r pos) as [->|Hne]; cbn.
    + rewrite (Nat.eqb_sym fr q). done.
    + rewrite IH. destruct (Nat.eqb_spec r q) as [<-|Hne']; [|done].
      destruct (Nat.eqb_spec r fr); [lia|done].
Qed.

Lemma vertex_xy_update (p q : VertexPtr) (f : Vertex → Vertex) (vs : Vertices) :
  (∀ v, Vertex.xy (f v) = Vertex.xy v) →
  vertex_xy (Vertices.update p f vs) q = vertex_xy vs q.
Proof.
  intros Hf. unfold vertex_xy. rewrite Vertices_find_update.
  destruct (Vertices.find q _) as [v|]; [|done]. cbn.
  destruct (Nat.eqb q p); [by rewrite Hf|done].
Qed.

Lemma vertex_xy_insert (pos q : VertexPtr) (c : Vec2d) (vs : Vertices) :
  Vertices.wf vs →
  vertex_xy (snd (Vertices.insert pos c vs)) q =
  if Nat.eqb q (Vertices.fresh vs) then Some c else vertex_xy vs q.
Proof.
  intros Hwf. unfold vertex_xy. rewrite (Vertices_find_insert _ _ _ _ Hwf).
  by destruct (Nat.eqb q (Vertices.fresh vs)).
Qed.

Lemma vertex_xy_lt (vs : Vertices) (q : VertexPtr) :
  Vertices.wf vs → is_Some (vertex_xy vs q) → q < Vertices.fresh vs.
Proof.
  intros Hwf [c Hc]. apply fmap_xy_inv in Hc as (v & Hv & _).
  by apply (Vertices_find_lt vs q v).
Qed.

Lemma vertex_xy_find (vs : Vertices) (q : VertexPtr) :
  is_Some (vertex_xy vs q) → ∃ v, Vertices.find q (Vertices.cells vs) = Some v.
Proof. intros [c Hc]. apply fmap_xy_inv in Hc as (v & Hv & _). by exists v. Qed.

Lemma closing_step_spec (v_cur v_end : VertexPtr) (vs : Vertices) :
  Vertices.wf vs →
  Vertices.wf (closing_step v_cur v_end vs) ∧
  Vertices.fresh (closing_step v_cur v_end vs) = Vertices.fresh vs ∧
  ∀ q, vertex_xy (closing_step v_cur v_end vs) q = vertex_xy vs q.
Proof.
  intros Hwf. unfold closing_step, Front.mark_objects. split; [|split].
  - by repeat apply Vertices_update_wf.
  - done.
  - intros q. by rewrite !vertex_xy_update.
Qed.

Lemma sub_vertex_step_spec (pos v_cur : VertexPtr) (c : Vec2d) (vs : Vertices) :
  Vertices.wf vs →
  Vertices.wf (sub_vertex_step pos v_cur c vs) ∧
  Vertices.fresh (sub_vertex_step pos v_cur c vs) = S (Vertices.fresh vs) ∧
  ∀ q, vertex_xy (sub_vertex_step pos v_cur c vs) q =
       if Nat.eqb q (Vertices.fresh vs) then Some c else vertex_xy vs q.
Proof.
  intros Hwf. unfold sub_vertex_step, Front.mark_objects. split; [|split].
  - repeat apply Vertices_update_wf. by apply Vertices_insert_wf.
  - done.
  - intros q. rewrite !vertex_xy_update by done. by apply vertex_xy_insert.
Qed.

Lemma EdgeList_find_app (p : EdgePtr) (d : Edge) (pre post : list Edge) :
  Forall (λ x, Edge.ptr x ≠ p) pre → Edge.ptr d = p →
  EdgeList.find p (pre ++ d :: post) = Some d.
Proof.
  intros Hpre Hd. induction Hpre as [|x l Hx _ IH]; cbn.
  - by rewrite Hd, Nat.eqb_refl.
  - by destruct (Nat.eqb_spec (Edge.ptr x) p).
Qed.

Lemma links_snoc (m : Z) (b : VertexPtr) (x : Edge) (through : list VertexPtr) :
  ∀ (a v : VertexPtr) (l : list Edge),
  links m a through l → last (a :: through) = Some v →
  Edge.v1 x = v → Edge.v2 x = b → Edge.marker x = m → Edge.twin_edge x = None →
  links m a (through ++ [b]) (l ++ [x]).
Proof.
  induction through as [|w through IH]; intros a v l Hl Hlast H1 H2 H3 H4.
  - destruct l; [|done]. cbn in Hlast. injection Hlast as <-. by cbn.
  - destruct l as [|e l]; [done|]. destruct Hl as (E1 & E2 & E3 & E4 & Hl).
    cbn. repeat (split; [done|]). rewrite last_cons_cons in Hlast.
    by apply (IH w v).
Qed.

Lemma links_length (m : Z) (through : list VertexPtr) :
  ∀ (a : VertexPtr) (l : list Edge), links m a through l → length l = length through.
Proof.
  induction through as [|w through IH]; intros a [|e l] Hl; try done.
  destruct Hl as (_ & _ & _ & _ & Hl). cbn. f_equal. by apply (IH w).
Qed.

(** The loop of [create_sub_edges] returns: every point gets a new vertex
    and an edge from the vertex before it, and the edges are put before the
    edge that is refined, in order. *)
Lemma create_sub_edges_loop_spec (e : Edge) (pts : list Vec2d) :
  ∀ (v_cur : VertexPtr) (front : EdgeList) (vs : Vertices) (pre post : list Edge)
    (d : Edge),
  Vertices.wf vs → is_Some (vertex_xy vs v_cur) →
  EdgeList.edges_ front = pre ++ d :: post → Edge.ptr d = Edge.ptr e →
  Forall (λ x, Edge.ptr x ≠ Edge.ptr e) pre → Edge.ptr e < EdgeList.fresh front →
  ∃ v_last news vs',
    Front.create_sub_edges_loop e pts v_cur front vs =
      Ret (v_last,
           EdgeList.mk (pre ++ news ++ d :: post)
             (EdgeList.fresh front + length pts) (EdgeList.area_ front), vs') ∧
    last (v_cur :: seq (Vertices.fresh vs) (length pts)) = Some v_last ∧
    is_Some (vertex_xy vs' v_last) ∧
    links (Edge.marker e) v_cur (seq (Vertices.fresh vs) (length pts)) news ∧
    map Edge.ptr news = seq (EdgeList.fresh front) (length pts) ∧
    Vertices.wf vs' ∧ Vertices.fresh vs' = Vertices.fresh vs + length pts ∧
    (∀ q, q < Vertices.fresh vs → vertex_xy vs' q = vertex_xy vs q) ∧
    (∀ i c, pts !! i = Some c → vertex_xy vs' (Vertices.fresh vs + i) = Some c).
Proof.
  induction pts as [|c pts IH]; intros v_cur front vs pre post d Hwf Hcur Hfront Hd Hpre Hlt.
  - exists v_cur, [], vs. cbn. rewrite !Nat.add_0_r.
    split; [by destruct front; cbn in *; subst|].
    split; [done|]. split; [done|]. split; [done|]. split; [done|].
    split; [done|]. split; [done|]. split; [done|].
    intros i c Hc. by rewrite lookup_nil in Hc.
  - cbn [Front.create_sub_edges_loop].
    destruct (sub_vertex_step_spec (Edge.v2 e) v_cur c vs Hwf) as (Hwf5 & Hfr5 & Hxy5).
    assert (v_cur < Vertices.fresh vs) as Hcur_lt by by apply vertex_xy_lt.
    unfold Vertices.insert. cbn [fst snd].
    set (v_n := Vertices.fresh vs) in *.
    set (vs1 := Vertices.mk _ (S v_n)).
    assert (vs1 = snd (Vertices.insert (Edge.v2 e) c vs)) as Evs1 by done.
    set (vs2 := Vertices.update v_n (Vertex.set_is_fixed true) vs1).
    assert (∀ q, vertex_xy vs2 q = if Nat.eqb q v_n then Some c else vertex_xy vs q)
      as Hxy2.
    { intros q. unfold vs2. rewrite vertex_xy_update by done. rewrite Evs1.
      by apply vertex_xy_insert. }
    destruct (vertex_xy_find vs2 v_cur) as (va & Ha).
    { rewrite Hxy2. destruct (Nat.eqb_spec v_cur v_n); [lia|done]. }
    destruct (vertex_xy_find vs2 v_n) as (vb & Hb).
    { rewrite Hxy2, Nat.eqb_refl. by eexists. }
    rewrite (insert_edge_Ret _ _ _ _ _ _ _ va vb Ha Hb). exec_simpl.
    set (e_new := Edge.create _ _ _ _ _ _).
    cbn [Edge.v1 Edge.v2 Edge.create e_new].
    fold e_new.
    change (Vertices.update v_n (Vertex.set_on_boundary true)
              (Vertices.update v_cur (Vertex.set_on_boundary true)
                 (Front.mark_objects v_cur v_n vs2)))
      with (sub_vertex_step (Edge.v2 e) v_cur c vs).
    set (vs5 := sub_vertex_step (Edge.v2 e) v_cur c vs) in *.
    set (front1 := EdgeList.mk _ _ _).
    destruct (IH v_n front1 vs5 (pre ++ [e_new]) post d) as
      (v_last & news & vs' & Eloop & Hlast & Hvl & Hlinks & Hptrs & Hwf' & Hfr' & Hold & Hnew);
      try done.
    { rewrite Hxy5. unfold v_n. rewrite Nat.eqb_refl. by eexists. }
    { unfold front1. cbn. rewrite Hfront, (insert_before_app _ _ d pre post Hpre Hd).
      by rewrite <- app_assoc. }
    { apply Forall_app. split; [done|]. apply Forall_singleton. cbn. lia. }
    { cbn. lia. }
    exists v_last, (e_new :: news), vs'. rewrite Eloop.
    split; [|split; [|split; [|split; [|split; [|split; [|split; [|split]]]]]]].
    + do 3 f_equal. cbn. f_equal; [by rewrite <- app_assoc|lia].
    + cbn [length seq]. rewrite last_cons_cons. by rewrite Hfr5 in Hlast.
    + done.
    + cbn [length seq]. cbn. repeat (split; [done|]). by rewrite Hfr5 in Hlinks.
    + cbn. f_equal. exact Hptrs.
    + done.
    + rewrite Hfr', Hfr5. cbn. lia.
    + intros q Hq. rewrite Hold by (rewrite Hfr5; lia). rewrite Hxy5.
      destruct (Nat.eqb_spec q v_n); [lia|done].
    + intros [|i] c' Hc'.
      * injection Hc' as <-. rewrite Nat.add_0_r, Hold by (rewrite Hfr5; lia).
        by rewrite Hxy5, Nat.eqb_refl.
      * cbn in Hc'. specialize (Hnew i c' Hc'). rewrite Hfr5 in Hnew.
        by replace (v_n + S i) with (S v_n + i) by lia.
Qed.

Lemma removelast_length {A} (l : list A) : length (removelast l) = length l - 1.
Proof.
  induction l as [|a [|b l] IH]; [done|done|].
  change (removelast (a :: b :: l)) with (a :: removelast (b :: l)).
  cbn [length] in *. lia.
Qed.

Lemma interior_length {A} (l : list A) : length (Front.interior l) = length l - 2.
Proof.
  unfold Front.interior. rewrite removelast_length. destruct l; cbn; lia.
Qed.

Lemma EdgeList_wf_split (front : EdgeList) (pre post : list Edge) (e : Edge) :
  EdgeList.wf front → EdgeList.edges_ front = pre ++ e :: post →
  Forall (λ x, Edge.ptr x ≠ Edge.ptr e) pre ∧
  Forall (λ x, Edge.ptr x ≠ Edge.ptr e) post ∧
  Edge.ptr e < EdgeList.fresh front.
Proof.
  intros [Hnd Hlt] Hfront. rewrite Hfront in Hnd, Hlt.
  rewrite map_app in Hnd. cbn in Hnd.
  apply NoDup_app in Hnd as (_ & Hdisj & Hrest).
  apply NoDup_cons in Hrest as (He & _).
  split; [|split].
  - apply Forall_forall. intros x Hx Heq.
    apply (Hdisj (Edge.ptr x)); [by apply list_elem_of_fmap_2|]. rewrite Heq. left.
  - apply Forall_forall. intros x Hx Heq. apply He. rewrite <- Heq.
    by apply list_elem_of_fmap_2.
  - apply Forall_app in Hlt as (_ & Hlt). by apply Forall_cons in Hlt as (Hlt & _).
Qed.

(** [create_sub_edges] on an edge of a well-formed front whose end vertices
    are in the container. *)
Lemma create_sub_edges_spec (e : Edge) (xy_new : list Vec2d) (front : EdgeList)
    (vs : Vertices) (pre post : list Edge) :
  EdgeList.wf front → Vertices.wf vs →
  EdgeList.edges_ front = pre ++ e :: post →
  is_Some (vertex_xy vs (Edge.v1 e)) → is_Some (vertex_xy vs (Edge.v2 e)) →
  ∃ news vs',
    Front.create_sub_edges e xy_new front vs =
      Ret (EdgeList.mk (pre ++ news ++ e :: post)
             (EdgeList.fresh front + length news) (EdgeList.area_ front), vs') ∧
    links (Edge.marker e) (Edge.v1 e)
      (seq (Vertices.fresh vs) (length xy_new - 2) ++ [Edge.v2 e]) news ∧
    map Edge.ptr news = seq (EdgeList.fresh front) (length news) ∧
    Vertices.wf vs' ∧
    Vertices.fresh vs' = Vertices.fresh vs + (length xy_new - 2) ∧
    (∀ q, q < Vertices.fresh vs → vertex_xy vs' q = vertex_xy vs q) ∧
    (∀ i c, Front.interior xy_new !! i = Some c →
            vertex_xy vs' (Vertices.fresh vs + i) = Some c).
Proof.
  intros Hwf Hvwf Hfront H1 H2.
  destruct (EdgeList_wf_split front pre post e Hwf Hfront) as (Hpre & _ & Hlt).
  unfold Front.create_sub_edges.
  destruct (create_sub_edges_loop_spec e (Front.interior xy_new) (Edge.v1 e) front vs
              pre post e Hvwf H1 Hfront eq_refl Hpre Hlt)
    as (v_last & news & vs1 & Eloop & Hlast & Hvl & Hlinks & Hptrs & Hwf1 & Hfr1 & Hold & Hnew).
  rewrite Eloop. exec_simpl. rewrite interior_length in *.
  set (n := length xy_new - 2) in *.
  assert (Edge.v2 e < Vertices.fresh vs) as Hv2 by by apply vertex_xy_lt.
  destruct (vertex_xy_find vs1 v_last Hvl) as (va & Ha).
  destruct (vertex_xy_find vs1 (Edge.v2 e)) as (vb & Hb).
  { by rewrite Hold. }
  rewrite (insert_edge_Ret _ _ _ _ _ _ _ va vb Ha Hb). exec_simpl.
  set (e_new := Edge.create _ _ _ _ _ _).
  cbn [Edge.v1 Edge.v2 Edge.create e_new]. fold e_new.
  change (Vertices.update (Edge.v2 e) (Vertex.set_on_boundary true)
            (Vertices.update v_last (Vertex.set_on_boundary true)
               (Front.mark_objects v_last (Edge.v2 e) vs1)))
    with (closing_step v_last (Edge.v2 e) vs1).
  destruct (closing_step_spec v_last (Edge.v2 e) vs1 Hwf1) as (Hwf2 & Hfr2 & Hxy2).
  assert (length news = n) as Hlen.
  { rewrite (links_length _ _ _ _ Hlinks). by rewrite length_seq. }
  exists (news ++ [e_new]), (closing_step v_last (Edge.v2 e) vs1).
  split; [|split; [|split; [|split; [|split; [|split]]]]].
  - do 3 f_equal. cbn [EdgeList.edges_ EdgeList.fresh EdgeList.area_]. f_equal.
    + replace (pre ++ news ++ e :: post) with ((pre ++ news) ++ e :: post)
        by (by rewrite <- app_assoc).
      rewrite (insert_before_app _ e_new e (pre ++ news) post).
      * by rewrite <- !app_assoc.
      * apply Forall_app. split; [done|]. apply Forall_forall. intros x Hx Heq.
        assert (Edge.ptr x ∈ map Edge.ptr news) as Hin by by apply list_elem_of_fmap_2.
        rewrite Hptrs in Hin. apply elem_of_seq in Hin. lia.
      * done.
    + rewrite length_app. cbn. lia.
  - by apply (links_snoc _ _ _ _ _ v_last).
  - rewrite map_app, length_app, Hptrs, Hlen. cbn.
    replace (n + 1) with (S n) by lia. rewrite seq_S. done.
  - done.
  - by rewrite Hfr2, Hfr1.
  - intros q Hq. by rewrite Hxy2, Hold.
  - intros i c Hc. rewrite Hxy2. by apply Hnew.
Qed.

(** [refine_edge]: with fewer than three coordinates the front and the
    vertices stay as they are and the result is false; otherwise the new
    edges are put before the edge, which stays in the front, they lead
    from its first to its second vertex through one new vertex per interior
    coordinate, and they carry its marker. *)
Theorem refine_edge_spec `{Build} (fuel : nat) (domain : Domain) (front : EdgeList)
    (vs : Vertices) (pre post : list Edge) (e : Edge) (a b : Vertex)
    (xy_new : list Vec2d) :
  EdgeList.wf front → Vertices.wf vs →
  EdgeList.edges_ front = pre ++ e :: post →
  Vertices.find (Edge.v1 e) (Vertices.cells vs) = Some a →
  Vertices.find (Edge.v2 e) (Vertices.cells vs) = Some b →
  sub_vertex_coords fuel domain vs e a b = Ret xy_new →
  if length xy_new <? 3 then
    Front.refine_edge fuel domain (Edge.ptr e) front vs = Ret (false, front, vs)
  else
    ∃ news vs',
      Front.refine_edge fuel domain (Edge.ptr e) front vs =
        Ret (true,
             EdgeList.mk (pre ++ news ++ e :: post)
               (EdgeList.fresh front + length news) (EdgeList.area_ front), vs') ∧
      length news = length xy_new - 1 ∧
      links (Edge.marker e) (Edge.v1 e)
        (seq (Vertices.fresh vs) (length xy_new - 2) ++ [Edge.v2 e]) news ∧
      map Edge.ptr news = seq (EdgeList.fresh front) (length news) ∧
      Vertices.wf vs' ∧
      (∀ q, q < Vertices.fresh vs → vertex_xy vs' q = vertex_xy vs q) ∧
      (∀ i c, Front.interior xy_new !! i = Some c →
              vertex_xy vs' (Vertices.fresh vs + i) = Some c).
Proof.
  intros Hwf Hvwf Hfront Ha Hb Hxy.
  destruct (EdgeList_wf_split front pre post e Hwf Hfront) as (Hpre & _ & Hlt).
  unfold Front.refine_edge, EdgeList.get, Vertices.get.
  rewrite Hfront, (EdgeList_find_app _ e pre post Hpre eq_refl). exec_simpl.
  rewrite Ha, Hb. exec_simpl. unfold sub_vertex_coords in Hxy. rewrite Hxy. exec_simpl.
  destruct (Nat.ltb_spec (length xy_new) 3) as [Hshort|Hlong]; [done|].
  destruct (create_sub_edges_spec e xy_new front vs pre post Hwf Hvwf Hfront)
    as (news & vs' & E & Hlinks & Hptrs & Hwf' & Hfr' & Hold & Hnew).
  { unfold vertex_xy. rewrite Ha. by eexists. }
  { unfold vertex_xy. rewrite Hb. by eexists. }
  rewrite E. exec_simpl. exists news, vs'. split; [done|].
  split; [|done].
  rewrite (links_length _ _ _ _ Hlinks), length_app, length_seq. cbn. lia.
Qed.

(** *** What the refinement leaves alone *)

Lemma insert_before_sublist (pos : EdgePtr) (x : Edge) (l : list Edge) :
  l `sublist_of` EdgeList.insert_before pos x l.
Proof.
  induction l as [|d l IH]; cbn.
  - apply sublist_nil_l.
  - destruct (Nat.eqb _ _).
    + by apply sublist_cons.
    + by apply sublist_skip.
Qed.

Lemma twinned_insert_before (pos : EdgePtr) (x : Edge) (l : list Edge) :
  Edge.twin_edge x = None →
  twinned (EdgeList.insert_before pos x l) = twinned l.
Proof.
  intros Hx. unfold twinned.
  assert (¬ is_Some (Edge.twin_edge x)) as Hn by (rewrite Hx; by intros [? ?]).
  induction l as [|d l IH]; cbn [EdgeList.insert_before].
  - by rewrite filter_cons_False.
  - destruct (Nat.eqb _ _).
    + by rewrite filter_cons_False.
    + rewrite !filter_cons. by rewrite IH.
Qed.

Lemma create_sub_edges_loop_frame (e : Edge) (pts : list Vec2d) :
  ∀ (v_cur v' : VertexPtr) (front front' : EdgeList) (vs vs' : Vertices),
  Front.create_sub_edges_loop e pts v_cur front vs = Ret (v', front', vs') →
  EdgeList.edges_ front `sublist_of` EdgeList.edges_ front' ∧
  twinned (EdgeList.edges_ front') = twinned (EdgeList.edges_ front).
Proof.
  induction pts as [|c pts IH]; intros v_cur v' front front' vs vs' E.
  - by injection E as <- <- <-.
  - cbn [Front.create_sub_edges_loop] in E. unfold Vertices.insert in E.
    apply bind_Ret_inv in E as ([[e_new front1] vs3] & Eins & E).
    apply insert_edge_inv in Eins as (_ & _ & _ & _ & Htw & Hedges & _ & _).
    apply IH in E as (Hsub & Htwin). rewrite Hedges in Hsub, Htwin. split.
    + etrans; [apply insert_before_sublist|exact Hsub].
    + by rewrite Htwin, twinned_insert_before.
Qed.

(** [refine_edge] removes no edge and neither adds nor changes an edge with
    a twin; when it returns false it has changed nothing. *)
Lemma refine_edge_frame `{Build} (fuel : nat) (domain : Domain) (p : EdgePtr)
    (front front' : EdgeList) (vs vs' : Vertices) (ok : bool) :
  Front.refine_edge fuel domain p front vs = Ret (ok, front', vs') →
  EdgeList.edges_ front `sublist_of` EdgeList.edges_ front' ∧
  twinned (EdgeList.edges_ front') = twinned (EdgeList.edges_ front) ∧
  is_Some (EdgeList.find p (EdgeList.edges_ front)) ∧
  (ok = false → front' = front ∧ vs' = vs).
Proof.
  unfold Front.refine_edge, EdgeList.get. intros E.
  apply bind_Ret_inv in E as (e & Ee & E).
  assert (is_Some (EdgeList.find p (EdgeList.edges_ front))) as Hin.
  { destruct (EdgeList.find p _); [by eexists|done]. }
  apply bind_Ret_inv in E as (a & _ & E). apply bind_Ret_inv in E as (b & _ & E).
  apply bind_Ret_inv in E as (xy_new & _ & E).
  destruct (length xy_new <? 3).
  { injection E as <- <- <-. done. }
  apply bind_Ret_inv in E as ([front1 vs1] & Esub & E). injection E as <- <- <-.
  unfold Front.create_sub_edges in Esub.
  apply bind_Ret_inv in Esub as ([[v_cur front2] vs2] & Eloop & Esub).
  apply bind_Ret_inv in Esub as ([[e_new front3] vs3] & Eins & Esub).
  injection Esub as <- <-.
  apply create_sub_edges_loop_frame in Eloop as (Hsub & Htwin).
  apply insert_edge_inv in Eins as (_ & _ & _ & _ & Htw & Hedges & _ & _).
  rewrite Hedges. split; [|split; [|done]].
  - etrans; [exact Hsub|apply insert_before_sublist].
  - by rewrite twinned_insert_before.
Qed.

Lemma refine_run_frame `{Build} (fuel : nat) (domain : Domain) (ps removed : list EdgePtr)
    (front front' : EdgeList) (vs vs' : Vertices) :
  refine_run fuel domain ps front vs removed front' vs' →
  EdgeList.edges_ front `sublist_of` EdgeList.edges_ front' ∧
  twinned (EdgeList.edges_ front') = twinned (EdgeList.edges_ front) ∧
  removed `sublist_of` ps.
Proof.
  induction 1 as [|p ps front vs ok front1 vs1 removed front2 vs2 E _ (Hsub & Htwin & Hrem)];
    [done|].
  apply refine_edge_frame in E as (Hsub1 & Htwin1 & _ & _).
  split; [by etrans|]. split; [by rewrite Htwin|].
  destruct ok; [by apply sublist_skip|by apply sublist_cons].
Qed.

(** The loop of [refine_front_edges] is a run over the selected edges. *)
Lemma refine_loop_run `{Build} (fuel : nat) (domain : Domain) (ps : list EdgePtr) :
  ∀ (rem rem' : list EdgePtr) (front front' : EdgeList) (vs vs' : Vertices),
  Front.refine_loop fuel domain ps rem front vs = Ret (rem', front', vs') ↔
  ∃ removed, rem' = rem ++ removed ∧
             refine_run fuel domain ps front vs removed front' vs'.
Proof.
  induction ps as [|p ps IH]; intros rem rem' front front' vs vs'.
  - cbn. split.
    + intros E. injection E as <- <- <-. exists []. rewrite app_nil_r.
      split; [done|constructor].
    + intros (removed & -> & Hrun). inversion Hrun; subst. by rewrite app_nil_r.
  - cbn [Front.refine_loop]. split.
    + intros E. apply bind_Ret_inv in E as ([[ok front1] vs1] & Eedge & E).
      apply IH in E as (removed & -> & Hrun).
      exists (if ok then p :: removed else removed). split.
      * destruct ok; [by rewrite <- app_assoc|done].
      * by apply (refine_run_cons fuel domain p ps front vs ok front1 vs1).
    + intros (removed & -> & Hrun). inversion Hrun as [|? ? ? ? ok front1 vs1 removed' ? ? Eedge Hrun']; subst.
      rewrite Eedge. exec_simpl. apply IH. exists removed'. split; [|done].
      destruct ok; [by rewrite <- app_assoc|done].
Qed.

Lemma filter_Forall {A} (P : A → Prop) `{∀ x, Decision (P x)} (l : list A) :
  Forall P l → filter P l = l.
Proof.
  induction 1 as [|x l Hx _ IH]; [done|]. rewrite filter_cons_True by done.
  by rewrite IH.
Qed.

(** The removal loop of [refine_front_edges]. *)
Lemma remove_all_without (removed : list EdgePtr) :
  ∀ front, fold_left (λ f p, EdgeList.remove p f) removed front = without removed front.
Proof.
  induction removed as [|p removed IH]; intros front.
  - unfold without. cbn. rewrite filter_Forall; [by destruct front|].
    apply Forall_forall. intros x _. apply not_elem_of_nil.
  - cbn [fold_left]. rewrite IH. unfold without, EdgeList.remove. cbn. f_equal.
    rewrite list_filter_filter. apply list_filter_iff. intros x.
    rewrite not_elem_of_cons. tauto.
Qed.

Lemma compute_area_edges (vs : Vertices) (el el' : EdgeList) :
  EdgeList.compute_area vs el = Ret el' →
  EdgeList.edges_ el' = EdgeList.edges_ el ∧ EdgeList.fresh el' = EdgeList.fresh el.
Proof.
  unfold EdgeList.compute_area. intros E. apply bind_Ret_inv in E as (a & _ & E).
  by injection E as <-.
Qed.

Lemma refine_front_edges_inv `{Build} (fuel : nat) (domain : Domain)
    (front front' : EdgeList) (vs vs' : Vertices) (n : Z) :
  Front.refine_front_edges fuel domain front vs = Ret (n, front', vs') →
  ∃ removed front1,
    refine_run fuel domain (Front.get_edges_to_refine front) front vs
      removed front1 vs' ∧
    EdgeList.edges_ front' = EdgeList.edges_ (without removed front1) ∧
    n = (Z.of_nat (EdgeList.size front') - Z.of_nat (EdgeList.size front))%Z.
Proof.
  unfold Front.refine_front_edges. intros E.
  apply bind_Ret_inv in E as ([[rem front1] vs1] & Eloop & E).
  apply bind_Ret_inv in E as (front3 & Earea & E). injection E as <- <- <-.
  apply refine_loop_run in Eloop as (removed & -> & Hrun).
  apply compute_area_edges in Earea as (Hedges & _).
  rewrite remove_all_without in Hedges. cbn [app] in Hedges.
  by exists removed, front1.
Qed.

(** [refine_front_edges] calls [refine_edge] for every selected edge, in
    the order of the front and whatever the calls before returned; all
    edges of the front are still in it when the last call has returned,
    and only then are the edges whose call returned true removed. The
    result is the number of edges that the front has gained. *)
Theorem refine_front_edges_spec `{Build} (fuel : nat) (domain : Domain)
    (front : EdgeList) (vs : Vertices) :
  (∀ removed front1 vs1,
     refine_run fuel domain (Front.get_edges_to_refine front) front vs
       removed front1 vs1 →
     Front.refine_front_edges fuel domain front vs =
       front3 ← EdgeList.compute_area vs1 (without removed front1);
       Ret ((Z.of_nat (EdgeList.size front3) - Z.of_nat (EdgeList.size front))%Z,
            front3, vs1)) ∧
  (∀ n front' vs',
     Front.refine_front_edges fuel domain front vs = Ret (n, front', vs') →
     ∃ removed front1,
       refine_run fuel domain (Front.get_edges_to_refine front) front vs
         removed front1 vs' ∧
       removed `sublist_of` Front.get_edges_to_refine front ∧
       EdgeList.edges_ front `sublist_of` EdgeList.edges_ front1 ∧
       EdgeList.edges_ front' =
         filter (λ e, Edge.ptr e ∉ removed) (EdgeList.edges_ front1) ∧
       n = (Z.of_nat (EdgeList.size front') - Z.of_nat (EdgeList.size front))%Z).
Proof.
  split.
  - intros removed front1 vs1 Hrun. unfold Front.refine_front_edges.
    assert (Front.refine_loop fuel domain (Front.get_edges_to_refine front) [] front vs
            = Ret (removed, front1, vs1)) as ->.
    { apply refine_loop_run. by exists removed. }
    exec_simpl. by rewrite remove_all_without.
  - intros n front' vs' E.
    apply refine_front_edges_inv in E as (removed & front1 & Hrun & Hedges & Hn).
    destruct (refine_run_frame _ _ _ _ _ _ _ _ Hrun) as (Hsub & _ & Hrem).
    by exists removed, front1.
Qed.

(** *** Twin edges *)

Lemma NoDup_fmap_inj_on {A B} (f : A → B) (l : list A) (x y : A) :
  NoDup (map f l) → x ∈ l → y ∈ l → f x = f y → x = y.
Proof.
  induction l as [|a l IH]; intros Hnd Hx Hy Hf; [by apply elem_of_nil in Hx|].
  cbn in Hnd. apply NoDup_cons in Hnd as (Ha & Hnd).
  apply elem_of_cons in Hx as [->|Hx]; apply elem_of_cons in Hy as [->|Hy]; try done.
  - exfalso. apply Ha. rewrite Hf. by apply list_elem_of_fmap_2.
  - exfalso. apply Ha. rewrite <- Hf. by apply list_elem_of_fmap_2.
  - by apply IH.
Qed.

Lemma get_edges_to_refine_spec (front : EdgeList) (p : EdgePtr) :
  p ∈ Front.get_edges_to_refine front ↔
  ∃ e, e ∈ EdgeList.edges_ front ∧ Edge.ptr e = p ∧ Edge.twin_edge e = None.
Proof.
  unfold Front.get_edges_to_refine. split.
  - intros Hp. apply list_elem_of_fmap in Hp as (e & -> & He).
    apply list_elem_of_In, filter_In in He as (He & Htw). exists e.
    split; [by apply list_elem_of_In|]. split; [done|].
    by destruct (Edge.twin_edge e).
  - intros (e & He & <- & Htw). apply list_elem_of_fmap_2.
    apply list_elem_of_In, filter_In. split; [by apply list_elem_of_In|].
    by rewrite Htw.
Qed.

(** The refinement neither removes nor splits nor adds an edge with a
    twin. *)
Lemma refine_front_edges_twinned `{Build} (fuel : nat) (domain : Domain)
    (front front' : EdgeList) (vs vs' : Vertices) (n : Z) :
  EdgeList.wf front →
  Front.refine_front_edges fuel domain front vs = Ret (n, front', vs') →
  twinned (EdgeList.edges_ front') = twinned (EdgeList.edges_ front).
Proof.
  intros [Hnd _] E.
  apply refine_front_edges_inv in E as (removed & front1 & Hrun & Hedges & _).
  destruct (refine_run_frame _ _ _ _ _ _ _ _ Hrun) as (_ & Htwin & Hrem).
  rewrite Hedges. unfold without, twinned in *. cbn [EdgeList.edges_].
  rewrite list_filter_filter.
  rewrite (list_filter_iff _
             (λ e, (Edge.ptr e ∉ removed) ∧ is_Some (Edge.twin_edge e)))
    by (intros x; tauto).
  rewrite <- list_filter_filter.
  rewrite Htwin. apply filter_Forall, Forall_forall. intros e He Hin.
  apply list_elem_of_filter in He as (Htw & He).
  pose proof (elem_of_sublist _ _ _ Hin Hrem) as Hin'.
  apply get_edges_to_refine_spec in Hin' as (e' & He' & Hptr & Hnone).
  assert (e' = e) as -> by by apply (NoDup_fmap_inj_on Edge.ptr (EdgeList.edges_ front)).
  rewrite Hnone in Htw. by destruct Htw.
Qed.

(** *** Front::init_front_edges, Front::mark_twin_edges, Front::init_front *)

Lemma add_edge_inv (mark : EdgeList.Marker) (a b : VertexPtr) (m : Z)
    (el el' : EdgeList) (vs vs' : Vertices) (e : Edge) :
  EdgeList.add_edge mark a b m el vs = Ret (e, el', vs') →
  Edge.ptr e = EdgeList.fresh el ∧ Edge.v1 e = a ∧ Edge.v2 e = b ∧
  Edge.marker e = m ∧ Edge.twin_edge e = None ∧
  EdgeList.edges_ el' = EdgeList.edges_ el ++ [e] ∧
  EdgeList.fresh el' = S (EdgeList.fresh el) ∧
  EdgeList.area_ el' = EdgeList.area_ el ∧
  vs' = mark a b vs.
Proof.
  unfold EdgeList.add_edge. intros E.
  apply bind_Ret_inv in E as (va & _ & E). apply bind_Ret_inv in E as (vb & _ & E).
  injection E as <- <- <-. done.
Qed.

Lemma EdgeList_wf_handles (el : EdgeList) :
  EdgeList.wf el ↔
  NoDup (map Edge.ptr (EdgeList.edges_ el)) ∧
  Forall (λ q, q < EdgeList.fresh el) (map Edge.ptr (EdgeList.edges_ el)).
Proof.
  unfold EdgeList.wf. split; intros [Hnd Hlt]; (split; [done|]).
  - by apply Forall_fmap.
  - by apply Forall_fmap in Hlt.
Qed.

Lemma EdgeList_wf_snoc (el el' : EdgeList) (e : Edge) :
  EdgeList.wf el → Edge.ptr e = EdgeList.fresh el →
  EdgeList.edges_ el' = EdgeList.edges_ el ++ [e] →
  EdgeList.fresh el' = S (EdgeList.fresh el) →
  EdgeList.wf el'.
Proof.
  rewrite !EdgeList_wf_handles. intros [Hnd Hlt] Hp -> ->.
  rewrite map_app. cbn. rewrite Hp. split.
  - apply NoDup_app. split; [done|]. split; [|apply NoDup_singleton].
    intros q Hq Hq'. apply list_elem_of_singleton in Hq' as ->.
    rewrite Forall_forall in Hlt. specialize (Hlt _ Hq). lia.
  - apply Forall_app. split.
    + eapply Forall_impl; [exact Hlt|]. intros q Hq. cbn in Hq. lia.
    + apply Forall_singleton. lia.
Qed.

Lemma EdgeList_update_handles (p : EdgePtr) (f : Edge → Edge) (el : EdgeList) :
  (∀ e, Edge.ptr (f e) = Edge.ptr e) →
  map Edge.ptr (EdgeList.edges_ (EdgeList.update p f el)) =
  map Edge.ptr (EdgeList.edges_ el).
Proof.
  intros Hf. destruct el as [edges fr ar]. cbn. rewrite map_map. apply map_ext.
  intros e. by destruct (Nat.eqb (Edge.ptr e) p).
Qed.

Lemma EdgeList_update_wf (p : EdgePtr) (f : Edge → Edge) (el : EdgeList) :
  (∀ e, Edge.ptr (f e) = Edge.ptr e) →
  EdgeList.wf el → EdgeList.wf (EdgeList.update p f el).
Proof.
  intros Hf. rewrite !EdgeList_wf_handles, EdgeList_update_handles by done.
  by destruct el.
Qed.

Lemma init_front_edges_loop_wf (front_edges : list SeedEdge) :
  ∀ (i_edge : nat) (markers : list Z) (new_vertices : list VertexPtr)
    (new_edges new_edges' : list EdgePtr) (front front' : EdgeList) (vs vs' : Vertices),
  Front.init_front_edges_loop front_edges i_edge markers new_vertices new_edges front vs
    = Ret (new_edges', front', vs') →
  EdgeList.wf front → EdgeList.wf front'.
Proof.
  induction front_edges as [|s rest IH];
    intros i_edge markers new_vertices new_edges new_edges' front front' vs vs' E Hwf.
  - by injection E as <- <- <-.
  - cbn [Front.init_front_edges_loop] in E.
    apply bind_Ret_inv in E as (a & _ & E). apply bind_Ret_inv in E as (b & _ & E).
    apply bind_Ret_inv in E as (m & _ & E).
    apply bind_Ret_inv in E as ([[e_new front1] vs1] & Eadd & E).
    apply add_edge_inv in Eadd as (Hp & _ & _ & _ & _ & Hedges & Hfr & _ & _).
    apply IH in E; [done|]. by apply (EdgeList_wf_snoc front front1 e_new).
Qed.

Lemma mark_twin_edges_loop_wf (front_edges : list SeedEdge) :
  ∀ (i_edge : nat) (is_twin_edge : list bool) (new_edges : list EdgePtr)
    (front front' : EdgeList) (seeds seeds' : list (EdgePtr * EdgePtr)),
  Front.mark_twin_edges_loop front_edges i_edge is_twin_edge new_edges front seeds
    = Ret (front', seeds') →
  EdgeList.wf front → EdgeList.wf front'.
Proof.
  induction front_edges as [|s rest IH];
    intros i_edge is_twin_edge new_edges front front' seeds seeds' E Hwf.
  - by injection E as <- <-.
  - cbn [Front.mark_twin_edges_loop] in E.
    apply bind_Ret_inv in E as (tw & _ & E). apply bind_Ret_inv in E as (ne & _ & E).
    destruct tw.
    + apply IH in E; [done|]. by apply EdgeList_update_wf.
    + apply bind_Ret_inv in E as (e & _ & E). apply bind_Ret_inv in E as (u & _ & E).
      by apply IH in E.
Qed.

Lemma init_front_loop_wf (n_bdry : nat) :
  ∀ (i_bdry : nat) (fi : FrontInitializer.t) (front front' : EdgeList)
    (vs vs' : Vertices) (seeds seeds' : list (EdgePtr * EdgePtr)),
  Front.init_front_loop n_bdry i_bdry fi front vs seeds = Ret (front', vs', seeds') →
  EdgeList.wf front → EdgeList.wf front'.
Proof.
  induction n_bdry as [|n IH]; intros i_bdry fi front front' vs vs' seeds seeds' E Hwf.
  - by injection E as <- <- <-.
  - cbn [Front.init_front_loop] in E.
    apply bind_Ret_inv in E as (front_edges & _ & E).
    apply bind_Ret_inv in E as (is_twin_edge & _ & E).
    apply bind_Ret_inv in E as (markers & _ & E).
    apply bind_Ret_inv in E as ([new_vertices vs1] & _ & E).
    apply bind_Ret_inv in E as ([[new_edges front1] vs2] & Eedges & E).
    apply bind_Ret_inv in E as ([front2 seeds1] & Etwin & E).
    apply IH in E; [done|].
    apply (mark_twin_edges_loop_wf _ _ _ _ _ _ _ _ Etwin).
    by apply (init_front_edges_loop_wf _ _ _ _ _ _ _ _ _ _ Eedges).
Qed.

(** The refinement considers the edges without a twin and no others, and
    neither [refine_front_edges] nor the refinement pass of [init_front]
    removes, splits or adds an edge that has a twin: the edges with a twin
    are the same before and after, in the same order. *)
Theorem refinement_spares_twins `{Build} (fuel : nat) (domain : Domain)
    (front : EdgeList) (vs : Vertices) :
  EdgeList.wf front →
  (∀ p, p ∈ Front.get_edges_to_refine front ↔
        ∃ e, e ∈ EdgeList.edges_ front ∧ Edge.ptr e = p ∧ Edge.twin_edge e = None) ∧
  (∀ n front' vs',
     Front.refine_front_edges fuel domain front vs = Ret (n, front', vs') →
     twinned (EdgeList.edges_ front') = twinned (EdgeList.edges_ front)) ∧
  (∀ fi front2 vs2 seeds,
     Front.init_front fuel domain fi front vs = Ret (front2, vs2, seeds) →
     ∃ front1 vs1,
       Front.seed_front domain fi front vs = Ret (front1, vs1, seeds) ∧
       twinned (EdgeList.edges_ front2) = twinned (EdgeList.edges_ front1)).
Proof.
  intros Hwf. split; [|split].
  - intros p. apply get_edges_to_refine_spec.
  - intros n front' vs' E. by apply (refine_front_edges_twinned fuel domain front front' vs vs' n).
  - intros fi front2 vs2 seeds E. unfold Front.init_front in E.
    apply bind_Ret_inv in E as ([[front1 vs1] seeds1] & Eseed & E).
    apply bind_Ret_inv in E as ([[n front3] vs3] & Eref & E). injection E as <- <- <-.
    exists front1, vs1. split; [done|].
    apply (refine_front_edges_twinned fuel domain front1 front3 vs1 vs3 n); [|done].
    by apply (init_front_loop_wf _ _ _ _ _ _ _ _ _ Eseed).
Qed.

(** *** The unit square *)

Lemma square4_wf : EdgeList.wf (fst Scenario.square4).
Proof.
  split.
  - apply (bool_decide_unpack _). vm_compute. exact I.
  - apply (bool_decide_unpack _). vm_compute. exact I.
Qed.

Lemma square4_vertices_wf : Vertices.wf (snd Scenario.square4).
Proof.
  split.
  - apply (bool_decide_unpack _). vm_compute. exact I.
  - apply (bool_decide_unpack _). vm_compute. exact I.
Qed.

Lemma square4_sides :
  EdgeList.edges_ (fst Scenario.square4) =
  [Scenario.side 0] ++ Scenario.side 1 :: [Scenario.side 2; Scenario.side 3].
Proof. vm_compute. reflexivity. Qed.

Lemma square4_first_side :
  EdgeList.edges_ (fst Scenario.square4) =
  [] ++ Scenario.side 0 :: [Scenario.side 1; Scenario.side 2; Scenario.side 3].
Proof. vm_compute. reflexivity. Qed.

Lemma square4_corners (i : nat) :
  i < 4 →
  Vertices.find i (Vertices.cells (snd Scenario.square4)) = Some (Scenario.corner i).
Proof.
  intros Hi. destruct i as [|[|[|[|i]]]]; [vm_compute; reflexivity..|lia].
Qed.

Lemma side_1_quarters :
  sub_vertex_coords (H := Scenario.debug_build) 10 (Scenario.uniform 1 0.25)
    (snd Scenario.square4) (Scenario.side 1) (Scenario.corner 1) (Scenario.corner 2) =
  Ret Scenario.quarter_points.
Proof. vm_compute. reflexivity. Qed.

Lemma side_0_whole :
  sub_vertex_coords (H := Scenario.debug_build) 10 (Scenario.uniform 1 2)
    (snd Scenario.square4) (Scenario.side 0) (Scenario.corner 0) (Scenario.corner 1) =
  Ret [Scenario.P 0 0; Scenario.P 1 0].
Proof. vm_compute. reflexivity. Qed.

Lemma refine_edge_spec_witness :
  Front.refine_edge (H := Scenario.debug_build) 10 (Scenario.uniform 1 2) 0
    (fst Scenario.square4) (snd Scenario.square4) =
  Ret (false, fst Scenario.square4, snd Scenario.square4) ∧
  ∃ news vs',
    Front.refine_edge (H := Scenario.debug_build) 10 (Scenario.uniform 1 0.25) 1
      (fst Scenario.square4) (snd Scenario.square4) =
      Ret (true,
           EdgeList.mk
             ([Scenario.side 0] ++ news ++
              Scenario.side 1 :: [Scenario.side 2; Scenario.side 3])
             (4 + length news) 0%float, vs') ∧
    length news = 4 ∧
    links 1 1 ([4; 5; 6] ++ [2]) news ∧
    map Edge.ptr news = seq 4 (length news) ∧
    Vertices.wf vs' ∧
    (∀ q, q < 4 → vertex_xy vs' q = vertex_xy (snd Scenario.square4) q) ∧
    (∀ i c, [Scenario.P 1 0.25; Scenario.P 1 0.5; Scenario.P 1 0.75] !! i = Some c →
            vertex_xy vs' (4 + i) = Some c).
Proof.
  split.
  - exact (refine_edge_spec (H := Scenario.debug_build) 10 (Scenario.uniform 1 2)
             (fst Scenario.square4) (snd Scenario.square4) []
             [Scenario.side 1; Scenario.side 2; Scenario.side 3] (Scenario.side 0)
             (Scenario.corner 0) (Scenario.corner 1) [Scenario.P 0 0; Scenario.P 1 0]
             square4_wf square4_vertices_wf square4_first_side
             (square4_corners 0 ltac:(lia)) (square4_corners 1 ltac:(lia))
             side_0_whole).
  - exact (refine_edge_spec (H := Scenario.debug_build) 10 (Scenario.uniform 1 0.25)
             (fst Scenario.square4) (snd Scenario.square4) [Scenario.side 0]
             [Scenario.side 2; Scenario.side 3] (Scenario.side 1)
             (Scenario.corner 1) (Scenario.corner 2) Scenario.quarter_points
             square4_wf square4_vertices_wf square4_sides
             (square4_corners 1 ltac:(lia)) (square4_corners 2 ltac:(lia))
             side_1_quarters).
Defined.

Lemma square4_refined :
  Front.refine_front_edges (H := Scenario.debug_build) 10 (Scenario.uniform 1 0.25)
    (fst Scenario.square4) (snd Scenario.square4) =
  Ret (12%Z, fst Scenario.square16, snd Scenario.square16).
Proof. vm_compute. reflexivity. Qed.

Lemma refine_front_edges_spec_witness :
  ∃ removed front1,
    refine_run (H := Scenario.debug_build) 10 (Scenario.uniform 1 0.25)
      (Front.get_edges_to_refine (fst Scenario.square4))
      (fst Scenario.square4) (snd Scenario.square4) removed front1
      (snd Scenario.square16) ∧
    removed `sublist_of` Front.get_edges_to_refine (fst Scenario.square4) ∧
    EdgeList.edges_ (fst Scenario.square4) `sublist_of` EdgeList.edges_ front1 ∧
    EdgeList.edges_ (fst Scenario.square16) =
      filter (λ e, Edge.ptr e ∉ removed) (EdgeList.edges_ front1) ∧
    12%Z = (Z.of_nat (EdgeList.size (fst Scenario.square16)) -
            Z.of_nat (EdgeList.size (fst Scenario.square4)))%Z ∧
    Front.refine_front_edges (H := Scenario.debug_build) 10 (Scenario.uniform 1 0.25)
      (fst Scenario.square4) (snd Scenario.square4) =
      front3 ← EdgeList.compute_area (snd Scenario.square16) (without removed front1);
      Ret ((Z.of_nat (EdgeList.size front3) -
            Z.of_nat (EdgeList.size (fst Scenario.square4)))%Z,
           front3, snd Scenario.square16).
Proof.
  destruct (proj2 (refine_front_edges_spec (H := Scenario.debug_build) 10
                     (Scenario.uniform 1 0.25) (fst Scenario.square4)
                     (snd Scenario.square4))
              12%Z (fst Scenario.square16) (snd Scenario.square16) square4_refined)
    as (removed & front1 & Hrun & Hrem & Hsub & Hedges & Hn).
  exists removed, front1.
  split; [exact Hrun|]. split; [exact Hrem|]. split; [exact Hsub|].
  split; [exact Hedges|]. split; [exact Hn|].
  exact (proj1 (refine_front_edges_spec (H := Scenario.debug_build) 10
                  (Scenario.uniform 1 0.25) (fst Scenario.square4)
                  (snd Scenario.square4))
           removed front1 (snd Scenario.square16) Hrun).
Defined.

(** On the unit square with the size function 0.25 all four sides are
    refined and removed: sixteen edges are left. *)
Lemma square16_edges :
  map (λ e, (Edge.v1 e, Edge.v2 e)) (EdgeList.edges_ (fst Scenario.square16)) =
  [(0, 4); (4, 5); (5, 6); (6, 1); (1, 7); (7, 8); (8, 9); (9, 2);
   (2, 10); (10, 11); (11, 12); (12, 3); (3, 13); (13, 14); (14, 15); (15, 0)].
Proof. vm_compute. reflexivity. Qed.

(** *** The unit square beside another mesh *)

Lemma empty_front_wf : EdgeList.wf Scenario.empty_front.
Proof. split; constructor. Qed.

Lemma beside4_wf : EdgeList.wf (fst Scenario.beside4).
Proof.
  split.
  - apply (bool_decide_unpack _). vm_compute. exact I.
  - apply (bool_decide_unpack _). vm_compute. exact I.
Qed.

Lemma beside4_refined :
  Front.refine_front_edges (H := Scenario.debug_build) 10 (Scenario.uniform 1 0.25)
    (fst Scenario.beside4) (snd Scenario.beside4) =
  Ret (9%Z, fst Scenario.beside13, snd Scenario.beside13).
Proof. vm_compute. reflexivity. Qed.

Lemma beside13_initialised :
  Front.init_front (H := Scenario.debug_build) 10 (Scenario.uniform 1 0.25)
    Scenario.square_beside_mesh Scenario.empty_front Scenario.empty_vertices =
  Ret (fst Scenario.beside13, snd Scenario.beside13, [(101, 1)]).
Proof. vm_compute. reflexivity. Qed.

Lemma refinement_spares_twins_witness :
  twinned (EdgeList.edges_ (fst Scenario.beside13)) =
    twinned (EdgeList.edges_ (fst Scenario.beside4)) ∧
  ∃ front1 vs1,
    Front.seed_front (Scenario.uniform 1 0.25) Scenario.square_beside_mesh
      Scenario.empty_front Scenario.empty_vertices = Ret (front1, vs1, [(101, 1)]) ∧
    twinned (EdgeList.edges_ (fst Scenario.beside13)) =
      twinned (EdgeList.edges_ front1).
Proof.
  split.
  - exact (proj1 (proj2 (refinement_spares_twins (H := Scenario.debug_build) 10
                           (Scenario.uniform 1 0.25) (fst Scenario.beside4)
                           (snd Scenario.beside4) beside4_wf))
             9%Z (fst Scenario.beside13) (snd Scenario.beside13) beside4_refined).
  - exact (proj2 (proj2 (refinement_spares_twins (H := Scenario.debug_build) 10
                           (Scenario.uniform 1 0.25) Scenario.empty_front
                           Scenario.empty_vertices empty_front_wf))
             Scenario.square_beside_mesh (fst Scenario.beside13)
             (snd Scenario.beside13) [(101, 1)] beside13_initialised).
Defined.

(** The side with the twin is the only edge of the refined front that has
    one, and it is the edge that was seeded. *)
Lemma beside13_twin :
  twinned (EdgeList.edges_ (fst Scenario.beside13)) = [Scenario.twin_side] ∧
  Edge.twin_edge Scenario.twin_side = Some 101 ∧
  length (EdgeList.edges_ (fst Scenario.beside13)) = 13.
Proof. repeat split; vm_compute; reflexivity. Qed.

(** ** Front::create_sub_vertex_coords *)

Lemma sub_vertex_loop_length (fuel : nat) (domain : Domain) (len : float)
    (tang xy_a : Vec2d) (s_end : float) :
  ∀ (xy_new : list Vec2d) (xy : Vec2d) (l : list Vec2d) (s : float),
  Front.sub_vertex_loop fuel domain len tang xy_a s_end xy_new xy = Ret (l, s) →
  length xy_new < length l ∧ length l ≤ length xy_new + fuel.
Proof.
  induction fuel as [|fuel IH]; intros xy_new xy l s E; [done|].
  cbn [Front.sub_vertex_loop] in E. destruct (_ <? _)%float.
  - injection E as <- <-. rewrite length_app. cbn. lia.
  - apply IH in E. rewrite length_app in E. cbn in E. lia.
Qed.

Lemma last_app_singleton {A} (l : list A) (x : A) : last (l ++ [x]) = Some x.
Proof. by rewrite last_snoc. Qed.

(** The coordinates that [create_sub_vertex_coords] returns begin at the
    first vertex of the edge and end at its second vertex, whichever
    direction they were generated in; there are at least two and at most
    one more than the loop was given steps. *)
Theorem create_sub_vertex_coords_ends `{Build} (fuel : nat) (vs : Vertices)
    (e : Edge) (dir : bool) (rho_1 rho_2 : float) (domain : Domain)
    (xy_new : list Vec2d) :
  Front.create_sub_vertex_coords fuel vs e dir rho_1 rho_2 domain = Ret xy_new →
  ∃ a b,
    Vertices.find (Edge.v1 e) (Vertices.cells vs) = Some a ∧
    Vertices.find (Edge.v2 e) (Vertices.cells vs) = Some b ∧
    head xy_new = Some (Vertex.xy a) ∧
    last xy_new = Some (Vertex.xy b) ∧
    2 ≤ length xy_new ≤ S fuel.
Proof.
  unfold Front.create_sub_vertex_coords, Vertices.get. intros E.
  apply bind_Ret_inv in E as (v_a & Ea & E). apply bind_Ret_inv in E as (v_b & Eb & E).
  apply bind_Ret_inv in E as ([xy_loop s_last] & Eloop & E).
  apply bind_Ret_inv in E as (u & _ & E). injection E as <-.
  apply sub_vertex_loop_length in Eloop. cbn [length] in Eloop.
  set (mid := Front.interior xy_loop) in *.
  set (w := map _ (Front.interior _)).
  set (mid' := zip_with _ mid w).
  assert (length mid' = length xy_loop - 2) as Hmid.
  { unfold mid', w. rewrite length_zip_with, length_map, !interior_length.
    cbn [length]. rewrite length_app, length_map. cbn [length].
    unfold mid. rewrite interior_length. lia. }
  destruct (Vertices.find (if dir then Edge.v1 e else Edge.v2 e) _) as [va|] eqn:Fa;
    [|done].
  destruct (Vertices.find (if dir then Edge.v2 e else Edge.v1 e) _) as [vb|] eqn:Fb;
    [|done].
  cbn in Ea, Eb. injection Ea as ->. injection Eb as ->.
  destruct dir.
  - exists v_a, v_b. split; [done|]. split; [done|]. split; [done|]. split.
    + change (Vertex.xy v_a :: mid' ++ [Vertex.xy v_b])
        with ((Vertex.xy v_a :: mid') ++ [Vertex.xy v_b]).
      apply last_app_singleton.
    + cbn [length]. rewrite length_app. cbn [length]. lia.
  - exists v_b, v_a. split; [done|]. split; [done|].
    change (Vertex.xy v_a :: mid' ++ [Vertex.xy v_b])
      with ((Vertex.xy v_a :: mid') ++ [Vertex.xy v_b]).
    rewrite rev_app_distr. cbn [rev app]. split; [done|]. split.
    + rewrite app_comm_cons. apply last_app_singleton.
    + cbn [length]. rewrite length_app, length_rev. cbn [length]. lia.
Qed.

Lemma side_1_coords :
  Front.create_sub_vertex_coords (H := Scenario.debug_build) 10
    (snd Scenario.square4) (Scenario.side 1) false 0.25 0.25
    (Scenario.uniform 1 0.25) = Ret Scenario.quarter_points.
Proof. vm_compute. reflexivity. Qed.

Lemma create_sub_vertex_coords_ends_witness :
  ∃ a b,
    Vertices.find (Edge.v1 (Scenario.side 1))
      (Vertices.cells (snd Scenario.square4)) = Some a ∧
    Vertices.find (Edge.v2 (Scenario.side 1))
      (Vertices.cells (snd Scenario.square4)) = Some b ∧
    head Scenario.quarter_points = Some (Vertex.xy a) ∧
    last Scenario.quarter_points = Some (Vertex.xy b) ∧
    2 ≤ length Scenario.quarter_points ≤ 11.
Proof.
  exact (create_sub_vertex_coords_ends (H := Scenario.debug_build) 10
           (snd Scenario.square4) (Scenario.side 1) false 0.25 0.25
           (Scenario.uniform 1 0.25) Scenario.quarter_points side_1_coords).
Defined.

(** ** Front::init_mesh_vertices *)

Lemma Vertices_update_fresh (f : Vertex → Vertex) (cells : list (VertexPtr * Vertex))
    (fr : VertexPtr) (v : Vertex) :
  Forall (λ c, fst c < fr) cells →
  Vertices.update fr f (Vertices.mk (cells ++ [(fr, v)]) (S fr)) =
  Vertices.mk (cells ++ [(fr, f v)]) (S fr).
Proof.
  intros Hlt. unfold Vertices.update. cbn. f_equal. rewrite map_app. cbn.
  rewrite Nat.eqb_refl. f_equal. rewrite <- (map_id cells) at 2. apply map_ext_Forall.
  eapply Forall_impl; [exact Hlt|]. intros [q w] Hq. cbn in *.
  destruct (Nat.eqb_spec q fr); [lia|done].
Qed.

Lemma Vertices_push_back_wf (cells : list (VertexPtr * Vertex)) (fr : VertexPtr)
    (v : Vertex) :
  Vertices.wf (Vertices.mk cells fr) →
  Vertices.wf (Vertices.mk (cells ++ [(fr, v)]) (S fr)).
Proof.
  rewrite !Vertices_wf_handles. cbn. intros [Hnd Hlt]. rewrite map_app. cbn. split.
  - apply NoDup_app. split; [done|]. split; [|apply NoDup_singleton].
    intros q Hq Hq'. apply list_elem_of_singleton in Hq' as ->.
    rewrite Forall_forall in Hlt. specialize (Hlt _ Hq). lia.
  - apply Forall_app. split.
    + eapply Forall_impl; [exact Hlt|]. intros q Hq. cbn in Hq. lia.
    + apply Forall_singleton. lia.
Qed.

Lemma init_mesh_vertices_loop_spec (front_edges : list SeedEdge) :
  ∀ (i : nat) (is_twin_edge : list bool) (new_vertices : list VertexPtr)
    (vs : Vertices),
  Vertices.wf vs → i + length front_edges ≤ length is_twin_edge →
  Front.init_mesh_vertices_loop front_edges i is_twin_edge new_vertices vs =
  Ret (new_vertices ++ seq (Vertices.fresh vs) (length front_edges),
       Vertices.mk
         (Vertices.cells vs ++
          seed_cells (Vertices.fresh vs) front_edges (drop i is_twin_edge))
         (Vertices.fresh vs + length front_edges)).
Proof.
  induction front_edges as [|s rest IH]; intros i is_twin_edge new_vertices vs Hwf Hlen.
  - cbn. rewrite !app_nil_r, Nat.add_0_r. by destruct vs.
  - cbn [Front.init_mesh_vertices_loop length] in *.
    destruct (is_twin_edge !! i) as [tw|] eqn:Htw;
      [|apply lookup_ge_None in Htw; lia].
    unfold at_index. rewrite Htw. exec_simpl.
    rewrite (drop_S _ _ _ Htw). cbn [seed_cells seq].
    unfold Vertices.push_back. cbn [fst snd].
    destruct vs as [cells fr]. cbn [Vertices.cells Vertices.fresh] in *.
    assert (Forall (λ c, fst c < fr) cells) as Hlt by by destruct Hwf.
    rewrite !Vertices_update_fresh by done.
    rewrite IH; [|by apply Vertices_push_back_wf|lia].
    cbn [Vertices.cells Vertices.fresh]. do 2 f_equal.
    + by rewrite <- app_assoc.
    + f_equal; [|lia]. rewrite <- app_assoc. do 2 f_equal.
      unfold seed_vertex, Vertex.create, Vertex.set_is_fixed, Vertex.set_on_boundary,
        Vertex.set_on_front. cbn. by destruct tw.
Qed.

Lemma init_mesh_vertices_loop_short (front_edges : list SeedEdge) :
  ∀ (i : nat) (is_twin_edge : list bool) (new_vertices : list VertexPtr)
    (vs : Vertices),
  i ≤ length is_twin_edge < i + length front_edges →
  Front.init_mesh_vertices_loop front_edges i is_twin_edge new_vertices vs = Undef.
Proof.
  induction front_edges as [|s rest IH]; intros i is_twin_edge new_vertices vs Hlen.
  - cbn in Hlen. lia.
  - cbn [Front.init_mesh_vertices_loop length] in *. unfold at_index.
    destruct (is_twin_edge !! i) as [tw|] eqn:Htw; [|done]. exec_simpl.
    apply lookup_lt_Some in Htw.
    unfold Vertices.push_back. cbn [fst snd]. apply IH. lia.
Qed.

(** [init_mesh_vertices] appends one vertex per seed edge to the vertex
    container, in the order of the seed edges: at the first vertex of the
    seed edge, or at its second one when the seed edge is flagged as a twin,
    with on_front, on_boundary and is_fixed set; it returns these vertices
    in the same order and changes no other vertex. With fewer twin flags
    than seed edges it reads past the end of the flags. *)
Theorem init_mesh_vertices_spec (front_edges : list SeedEdge)
    (is_twin_edge : list bool) (vs : Vertices) :
  Vertices.wf vs →
  (length front_edges ≤ length is_twin_edge →
   Front.init_mesh_vertices front_edges is_twin_edge vs =
   Ret (seq (Vertices.fresh vs) (length front_edges),
        Vertices.mk
          (Vertices.cells vs ++ seed_cells (Vertices.fresh vs) front_edges is_twin_edge)
          (Vertices.fresh vs + length front_edges))) ∧
  (length is_twin_edge < length front_edges →
   Front.init_mesh_vertices front_edges is_twin_edge vs = Undef).
Proof.
  intros Hwf. unfold Front.init_mesh_vertices. split; intros Hlen.
  - by rewrite init_mesh_vertices_loop_spec.
  - apply init_mesh_vertices_loop_short. lia.
Qed.

Lemma empty_vertices_wf : Vertices.wf Scenario.empty_vertices.
Proof. split; constructor. Qed.

Lemma init_mesh_vertices_spec_witness :
  Front.init_mesh_vertices
    [mkSeedEdge 100 (Scenario.P 0 0) (Scenario.P 1 0);
     mkSeedEdge 101 (Scenario.P 1 1) (Scenario.P 1 0)]
    [false; true] Scenario.empty_vertices =
  Ret ([0; 1],
       Vertices.mk
         [(0, Vertex.mk (Scenario.P 0 0) true true true);
          (1, Vertex.mk (Scenario.P 1 0) true true true)] 2) ∧
  Front.init_mesh_vertices
    [mkSeedEdge 100 (Scenario.P 0 0) (Scenario.P 1 0);
     mkSeedEdge 101 (Scenario.P 1 1) (Scenario.P 1 0)]
    [false] Scenario.empty_vertices = Undef.
Proof.
  split.
  - exact (proj1 (init_mesh_vertices_spec
                    [mkSeedEdge 100 (Scenario.P 0 0) (Scenario.P 1 0);
                     mkSeedEdge 101 (Scenario.P 1 1) (Scenario.P 1 0)]
                    [false; true] Scenario.empty_vertices empty_vertices_wf)
             (le_n 2)).
  - exact (proj2 (init_mesh_vertices_spec
                    [mkSeedEdge 100 (Scenario.P 0 0) (Scenario.P 1 0);
                     mkSeedEdge 101 (Scenario.P 1 1) (Scenario.P 1 0)]
                    [false] Scenario.empty_vertices empty_vertices_wf)
             (le_n 2)).
Defined.

(** ** Front::init_front_edges *)

Lemma MOD_succ_nat (i n : nat) :
  0 < n → Z.to_nat (MOD (Z.of_nat i + 1) (Z.of_nat n)) = (i + 1) `mod` n.
Proof.
  intros Hn. rewrite MOD_mod by lia.
  replace (Z.of_nat i + 1)%Z with (Z.of_nat (i + 1)) by lia.
  by rewrite <- Nat2Z.inj_mod, Nat2Z.id.
Qed.

Lemma on_front_of_mark_objects (a b q : VertexPtr) (vs : Vertices) :
  is_Some (vertex_xy vs q) →
  (q = a ∨ q = b ∨ on_front_of vs q = Some true) →
  on_front_of (Front.mark_objects a b vs) q = Some true.
Proof.
  intros Hq Hc. unfold on_front_of. rewrite mark_objects_find.
  destruct (vertex_xy_find vs q Hq) as (v & Hv). unfold on_front_of in Hc.
  rewrite Hv in *. cbn.
  destruct (Nat.eqb_spec q b) as [->|Hb]; [done|].
  destruct (Nat.eqb_spec q a) as [->|Ha]; [done|]. cbn.
  destruct Hc as [?|[?|Hc]]; [done|done|]. by injection Hc as ->.
Qed.

Lemma init_front_edges_loop_spec (rest : list SeedEdge) :
  ∀ (i : nat) (markers : list Z) (new_vertices : list VertexPtr)
    (new_edges : list EdgePtr) (front : EdgeList) (vs : Vertices),
  i + length rest ≤ length new_vertices → i + length rest ≤ length markers →
  Forall (λ p, is_Some (vertex_xy vs p)) new_vertices →
  ∃ news vs',
    Front.init_front_edges_loop rest i markers new_vertices new_edges front vs =
      Ret (new_edges ++ seq (EdgeList.fresh front) (length rest),
           EdgeList.mk (EdgeList.edges_ front ++ news)
             (EdgeList.fresh front + length rest) (EdgeList.area_ front), vs') ∧
    length news = length rest ∧
    (∀ j e, news !! j = Some e →
            ring_edge vs new_vertices markers (i + j) (EdgeList.fresh front + j) e) ∧
    (∀ q, vertex_xy vs' q = vertex_xy vs q) ∧
    (∀ q, on_front_of vs q = Some true → on_front_of vs' q = Some true) ∧
    (∀ j e, news !! j = Some e →
            on_front_of vs' (Edge.v1 e) = Some true ∧
            on_front_of vs' (Edge.v2 e) = Some true).
Proof.
  induction rest as [|s rest IH];
    intros i markers new_vertices new_edges front vs Hnv Hmk Hin.
  - exists [], vs. cbn. rewrite !app_nil_r, Nat.add_0_r.
    split; [by destruct front|]. split; [done|].
    split; [intros j e Hj; by rewrite lookup_nil in Hj|]. split; [done|].
    split; [done|]. intros j e Hj. by rewrite lookup_nil in Hj.
  - cbn [length] in *. cbn [Front.init_front_edges_loop].
    assert (0 < length new_vertices) as Hpos by lia.
    rewrite Nat2Z.id, (MOD_succ_nat _ _ Hpos).
    destruct (lookup_lt_is_Some_2 new_vertices i) as (a & Ha); [lia|].
    destruct (lookup_lt_is_Some_2 new_vertices ((i + 1) `mod` length new_vertices))
      as (b & Hb); [by apply Nat.mod_upper_bound; lia|].
    destruct (lookup_lt_is_Some_2 markers i) as (m & Hm); [lia|].
    unfold at_index. rewrite Ha, Hb, Hm. exec_simpl.
    pose proof Hin as Hin'. rewrite Forall_forall in Hin'.
    assert (is_Some (vertex_xy vs a)) as Hxa
      by (apply Hin'; by eapply list_elem_of_lookup_2).
    assert (is_Some (vertex_xy vs b)) as Hxb
      by (apply Hin'; by eapply list_elem_of_lookup_2).
    destruct (vertex_xy_find vs a Hxa) as (va & Fa).
    destruct (vertex_xy_find vs b Hxb) as (vb & Fb).
    unfold EdgeList.add_edge, Vertices.get. rewrite Fa, Fb. exec_simpl.
    set (e_new := Edge.create _ _ _ _ _ _). cbn [Edge.ptr Edge.create e_new].
    set (front1 := EdgeList.mk _ _ _). set (vs1 := Front.mark_objects a b vs).
    assert (∀ q, vertex_xy vs1 q = vertex_xy vs q) as Hxy1
      by (intros q; apply mark_objects_xy).
    destruct (IH (S i) markers new_vertices (new_edges ++ [EdgeList.fresh front])
                front1 vs1) as (news & vs' & E & Hlen & Hring & Hxy & Hmono & Hends);
      [lia|lia| |].
    { eapply Forall_impl; [exact Hin|]. intros q Hq. cbn beta. by rewrite Hxy1. }
    exists (e_new :: news), vs'. rewrite E. cbn [EdgeList.fresh EdgeList.edges_
      EdgeList.area_ front1].
    assert (on_front_of vs' a = Some true ∧ on_front_of vs' b = Some true) as [Hfa Hfb].
    { split; apply Hmono, on_front_of_mark_objects; auto. }
    split; [|split; [|split; [|split; [|split]]]].
    + do 3 f_equal.
      * rewrite <- app_assoc. done.
      * f_equal; [by rewrite <- app_assoc|lia].
    + cbn. by rewrite Hlen.
    + intros [|j] e Hj.
      * injection Hj as <-. rewrite !Nat.add_0_r.
        exists a, b, (Vertex.xy va), (Vertex.xy vb), m.
        unfold vertex_xy. rewrite Fa, Fb. done.
      * cbn in Hj. destruct (Hring j e Hj) as (a' & b' & ca & cb & m' & H1 & H2 & H3 & H4 & H5 & ->).
        exists a', b', ca, cb, m'.
        replace (i + S j) with (S i + j) by lia. rewrite <- Hxy1, <- (Hxy1 b').
        repeat (split; [done|]). f_equal. cbn. lia.
    + intros q. by rewrite Hxy.
    + intros q Hq. apply Hmono, on_front_of_mark_objects; [|auto].
      unfold on_front_of in Hq. unfold vertex_xy.
      destruct (Vertices.find q _); [by eexists|done].
    + intros [|j] e Hj.
      * by injection Hj as <-.
      * by apply (Hends j).
Qed.

(** [init_front_edges] appends one edge per seed edge to the front, in
    order: edge k leads from new vertex k to new vertex (k + 1) mod n_verts,
    with marker k, without a twin and with the next free handle; it returns
    these edges. With as many vertices as seed edges the new edges form a
    closed ring. The coordinates of the vertices stay as they are and the
    end vertices of the new edges are on the front afterwards. *)
Theorem init_front_edges_spec (front_edges : list SeedEdge) (markers : list Z)
    (new_vertices : list VertexPtr) (front : EdgeList) (vs : Vertices) :
  length front_edges ≤ length new_vertices →
  length front_edges ≤ length markers →
  Forall (λ p, is_Some (vertex_xy vs p)) new_vertices →
  ∃ news vs',
    Front.init_front_edges front_edges markers new_vertices front vs =
      Ret (seq (EdgeList.fresh front) (length front_edges),
           EdgeList.mk (EdgeList.edges_ front ++ news)
             (EdgeList.fresh front + length front_edges) (EdgeList.area_ front),
           vs') ∧
    length news = length front_edges ∧
    (∀ k e, news !! k = Some e →
            ring_edge vs new_vertices markers k (EdgeList.fresh front + k) e) ∧
    (length new_vertices = length front_edges →
     ∀ k e e', news !! k = Some e →
               news !! ((k + 1) `mod` length front_edges) = Some e' →
               Edge.v2 e = Edge.v1 e') ∧
    (∀ q, vertex_xy vs' q = vertex_xy vs q) ∧
    (∀ k e, news !! k = Some e →
            on_front_of vs' (Edge.v1 e) = Some true ∧
            on_front_of vs' (Edge.v2 e) = Some true).
Proof.
  intros Hnv Hmk Hin. unfold Front.init_front_edges.
  destruct (init_front_edges_loop_spec front_edges 0 markers new_vertices [] front vs)
    as (news & vs' & E & Hlen & Hring & Hxy & _ & Hends); [done..|].
  exists news, vs'. split; [done|]. split; [done|].
  split; [exact Hring|]. split; [|done].
  intros Hn k e e' Hk Hk'.
  destruct (Hring k e Hk) as (a & b & ca & cb & m & _ & Hb & _ & _ & _ & ->).
  destruct (Hring _ e' Hk') as (a' & b' & ca' & cb' & m' & Ha' & _ & _ & _ & _ & ->).
  cbn in *. rewrite Hn in Hb. rewrite Hb in Ha'. by injection Ha'.
Qed.

Lemma square4_has_corners :
  Forall (λ p, is_Some (vertex_xy (snd Scenario.square4) p)) [0; 1; 2; 3].
Proof. repeat constructor; by eexists. Qed.

Lemma init_front_edges_spec_witness :
  ∃ news vs',
    Front.init_front_edges
      (Scenario.ring 100 (Scenario.P 0 0) (Scenario.P 1 0) (Scenario.P 1 1)
         (Scenario.P 0 1))
      (Scenario.markers_of 1) [0; 1; 2; 3] Scenario.empty_front
      (snd Scenario.square4) =
      Ret ([0; 1; 2; 3], EdgeList.mk news 4 0%float, vs') ∧
    length news = 4 ∧
    (∀ k e, news !! k = Some e →
            ring_edge (snd Scenario.square4) [0; 1; 2; 3] (Scenario.markers_of 1)
              k k e) ∧
    (4 = 4 →
     ∀ k e e', news !! k = Some e → news !! ((k + 1) `mod` 4) = Some e' →
               Edge.v2 e = Edge.v1 e') ∧
    (∀ q, vertex_xy vs' q = vertex_xy (snd Scenario.square4) q) ∧
    (∀ k e, news !! k = Some e →
            on_front_of vs' (Edge.v1 e) = Some true ∧
            on_front_of vs' (Edge.v2 e) = Some true).
Proof.
  exact (init_front_edges_spec
           (Scenario.ring 100 (Scenario.P 0 0) (Scenario.P 1 0) (Scenario.P 1 1)
              (Scenario.P 0 1))
           (Scenario.markers_of 1) [0; 1; 2; 3] Scenario.empty_front
           (snd Scenario.square4) (le_n 4) (le_n 4) square4_has_corners).
Defined.

(** ** Front::mark_twin_edges *)

Lemma EdgeList_find_update (p q : EdgePtr) (f : Edge → Edge) (el : EdgeList) :
  (∀ e, Edge.ptr (f e) = Edge.ptr e) →
  EdgeList.find p (EdgeList.edges_ (EdgeList.update q f el)) =
  (if Nat.eqb p q then f else id) <$> EdgeList.find p (EdgeList.edges_ el).
Proof.
  intros Hf. destruct el as [edges fr ar]. cbn.
  induction edges as [|e l IH]; [done|]. cbn.
  destruct (Nat.eqb_spec (Edge.ptr e) q) as [Heq|Hne]; cbn.
  - rewrite Hf. destruct (Nat.eqb_spec (Edge.ptr e) p) as [Hp|Hp].
    + cbn. rewrite <- Hp, Heq, Nat.eqb_refl. done.
    + exact IH.
  - destruct (Nat.eqb_spec (Edge.ptr e) p) as [Hp|Hp]; [|exact IH].
    cbn. rewrite <- Hp. by destruct (Nat.eqb_spec (Edge.ptr e) q).
Qed.

Lemma set_twin_edge_same (e : Edge) : Edge.set_twin_edge (Edge.twin_edge e) e = e.
Proof. by destruct e. Qed.

Lemma retwin_nil (front : EdgeList) : retwin [] front = front.
Proof.
  unfold retwin, twin_for. cbn. destruct front as [edges fr ar]. cbn. f_equal.
  rewrite <- (map_id edges) at 2. apply map_ext. intros e. apply set_twin_edge_same.
Qed.

Lemma twin_pairs_handles (front_edges : list SeedEdge) :
  ∀ (is_twin_edge : list bool) (new_edges : list EdgePtr) (sp : EdgePtr * EdgePtr),
  sp ∈ twin_pairs front_edges is_twin_edge new_edges →
  snd sp ∈ take (length front_edges) new_edges.
Proof.
  induction front_edges as [|s rest IH]; intros [|tw tws] [|ne nes] sp Hsp;
    try (by apply elem_of_nil in Hsp).
  cbn in Hsp. apply elem_of_app in Hsp as [Hsp|Hsp].
  - destruct tw; [|by apply elem_of_nil in Hsp].
    apply list_elem_of_singleton in Hsp as ->. cbn. left.
  - cbn. right. by apply IH in Hsp.
Qed.

Lemma twin_for_absent (pairs : list (EdgePtr * EdgePtr)) (e : Edge) :
  Edge.ptr e ∉ map snd pairs → twin_for pairs e = Edge.twin_edge e.
Proof.
  intros Hn. unfold twin_for.
  destruct (List.find (λ sp, Nat.eqb (snd sp) (Edge.ptr e)) pairs) as [sp|] eqn:Hf;
    [|done].
  apply find_some in Hf as (Hin & Heq). apply Nat.eqb_eq in Heq.
  exfalso. apply Hn. rewrite <- Heq. apply list_elem_of_fmap_2. by apply list_elem_of_In.
Qed.

(** Binding one twin and then the pairs that do not involve it is binding
    all of them. *)
Lemma retwin_update (s ne : EdgePtr) (pairs : list (EdgePtr * EdgePtr))
    (front : EdgeList) :
  ne ∉ map snd pairs →
  retwin pairs (EdgeList.update ne (Edge.set_twin_edge (Some s)) front) =
  retwin ((s, ne) :: pairs) front.
Proof.
  intros Hn. unfold retwin, EdgeList.update. cbn [EdgeList.edges_ EdgeList.fresh
    EdgeList.area_]. f_equal. rewrite map_map. apply map_ext. intros e.
  destruct (Nat.eqb_spec (Edge.ptr e) ne) as [Heq|Hne].
  - rewrite twin_for_absent by (cbn; by rewrite Heq).
    unfold twin_for. cbn. rewrite <- Heq, Nat.eqb_refl. by destruct e.
  - unfold twin_for. cbn. destruct (Nat.eqb_spec ne (Edge.ptr e)); [done|]. done.
Qed.

Lemma mark_twin_edges_loop_spec (rest : list SeedEdge) :
  ∀ (i : nat) (is_twin_edge : list bool) (new_edges : list EdgePtr)
    (front : EdgeList) (seeds : list (EdgePtr * EdgePtr)),
  i + length rest ≤ length is_twin_edge → i + length rest ≤ length new_edges →
  NoDup (take (length rest) (drop i new_edges)) →
  (∀ ne, ne ∈ take (length rest) (drop i new_edges) →
         ∃ e, EdgeList.find ne (EdgeList.edges_ front) = Some e ∧
              Edge.twin_edge e = None) →
  Front.mark_twin_edges_loop rest i is_twin_edge new_edges front seeds =
  Ret (retwin (twin_pairs rest (drop i is_twin_edge) (drop i new_edges)) front,
       seeds ++ twin_pairs rest (drop i is_twin_edge) (drop i new_edges)).
Proof.
  induction rest as [|s rest IH]; intros i is_twin_edge new_edges front seeds
    Htw Hne Hnd Hin.
  - cbn. by rewrite retwin_nil, app_nil_r.
  - cbn [length] in *. cbn [Front.mark_twin_edges_loop].
    destruct (lookup_lt_is_Some_2 is_twin_edge i) as (tw & Etw); [lia|].
    destruct (lookup_lt_is_Some_2 new_edges i) as (ne & Ene); [lia|].
    unfold at_index. rewrite Etw, Ene. exec_simpl.
    rewrite (drop_S _ _ _ Etw), (drop_S _ _ _ Ene) in *.
    cbn [take twin_pairs] in *. apply NoDup_cons in Hnd as (Hfresh & Hnd).
    set (pairs := twin_pairs rest (drop (S i) is_twin_edge) (drop (S i) new_edges)).
    assert (ne ∉ map snd pairs) as Hpairs.
    { intros Hc. apply list_elem_of_fmap in Hc as (sp & -> & Hsp).
      by apply twin_pairs_handles in Hsp. }
    destruct tw.
    + rewrite IH; [|lia|lia|done|].
      * fold pairs. rewrite retwin_update by done. by rewrite <- app_assoc.
      * intros ne' Hne'. destruct (Hin ne') as (e & He & Htwin); [by right|].
        exists e. split; [|done].
        rewrite EdgeList_find_update by done. rewrite He. cbn.
        destruct (Nat.eqb_spec ne' ne) as [->|_]; [done|done].
    + destruct (Hin ne) as (e & He & Htwin); [by left|].
      unfold EdgeList.get. rewrite He. exec_simpl. rewrite Htwin. exec_simpl.
      rewrite IH; [done|lia|lia|done|].
      intros ne' Hne'. apply Hin. by right.
Qed.

Lemma mark_twin_edges_Ret (front_edges : list SeedEdge) (is_twin_edge : list bool)
    (new_edges : list EdgePtr) (front : EdgeList) (seeds : list (EdgePtr * EdgePtr)) :
  length front_edges ≤ length is_twin_edge →
  length front_edges ≤ length new_edges →
  NoDup (take (length front_edges) new_edges) →
  (∀ ne, ne ∈ take (length front_edges) new_edges →
         ∃ e, EdgeList.find ne (EdgeList.edges_ front) = Some e ∧
              Edge.twin_edge e = None) →
  Front.mark_twin_edges front_edges is_twin_edge new_edges front seeds =
  Ret (retwin (twin_pairs front_edges is_twin_edge new_edges) front,
       seeds ++ twin_pairs front_edges is_twin_edge new_edges).
Proof.
  intros Htw Hne Hnd Hin. unfold Front.mark_twin_edges.
  by rewrite (mark_twin_edges_loop_spec front_edges 0 is_twin_edge new_edges front seeds).
Qed.

Lemma find_absent (ne : EdgePtr) (pairs : list (EdgePtr * EdgePtr)) :
  ne ∉ map snd pairs → List.find (λ sp, Nat.eqb (snd sp) ne) pairs = None.
Proof.
  intros Hn.
  destruct (List.find (λ sp, Nat.eqb (snd sp) ne) pairs) as [sp|] eqn:Hf; [|done].
  apply find_some in Hf as (Hin & Heq). apply Nat.eqb_eq in Heq.
  exfalso. apply Hn. rewrite <- Heq. apply list_elem_of_fmap_2. by apply list_elem_of_In.
Qed.

Lemma twin_pairs_find (front_edges : list SeedEdge) :
  ∀ (is_twin_edge : list bool) (new_edges : list EdgePtr) (k : nat) (s : SeedEdge)
    (tw : bool) (ne : EdgePtr),
  NoDup (take (length front_edges) new_edges) →
  front_edges !! k = Some s → is_twin_edge !! k = Some tw → new_edges !! k = Some ne →
  List.find (λ sp, Nat.eqb (snd sp) ne) (twin_pairs front_edges is_twin_edge new_edges) =
  if tw then Some (seed_ptr s, ne) else None.
Proof.
  induction front_edges as [|s0 rest IH]; intros [|tw0 tws] [|ne0 nes] k s tw ne
    Hnd Hs Htw Hne; try done.
  cbn [length take] in Hnd. apply NoDup_cons in Hnd as (Hfresh & Hnd).
  cbn [twin_pairs].
  assert (ne0 ∉ map snd (twin_pairs rest tws nes)) as Hpairs.
  { intros Hc. apply list_elem_of_fmap in Hc as (sp & -> & Hsp).
    by apply twin_pairs_handles in Hsp. }
  destruct k as [|k].
  - injection Hs as ->. injection Htw as ->. injection Hne as ->.
    destruct tw; cbn.
    + by rewrite Nat.eqb_refl.
    + by apply find_absent.
  - cbn in Hs, Htw, Hne.
    assert (ne ≠ ne0) as Hdiff.
    { intros ->. apply Hfresh. apply list_elem_of_lookup. exists k.
      rewrite lookup_take_lt; [done|]. by apply lookup_lt_Some in Hs. }
    destruct tw0; cbn.
    + destruct (Nat.eqb_spec ne0 ne); [congruence|]. by apply (IH tws nes k s tw ne).
    + by apply (IH tws nes k s tw ne).
Qed.

Lemma EdgeList_find_ptr (p : EdgePtr) (l : list Edge) (e : Edge) :
  EdgeList.find p l = Some e → Edge.ptr e = p.
Proof.
  induction l as [|d l IH]; [done|]. cbn.
  destruct (Nat.eqb_spec (Edge.ptr d) p); [|done]. by intros [= <-].
Qed.

Lemma EdgeList_find_map (p : EdgePtr) (g : Edge → Edge) (l : list Edge) :
  (∀ e, Edge.ptr (g e) = Edge.ptr e) →
  EdgeList.find p (map g l) = g <$> EdgeList.find p l.
Proof.
  intros Hg. induction l as [|d l IH]; [done|]. cbn. rewrite Hg.
  by destruct (Nat.eqb (Edge.ptr d) p).
Qed.

(** [mark_twin_edges] on new edges that are in the front, distinct and
    without a twin, returns: the new edge of every seed edge that is
    flagged as a twin has the seed edge as its twin and is otherwise
    unchanged, and the pair is handed on for the twin reference of the seed
    edge; the new edges that are not flagged and the other edges of the
    front stay as they are. *)
Theorem mark_twin_edges_spec (front_edges : list SeedEdge) (is_twin_edge : list bool)
    (new_edges : list EdgePtr) (front : EdgeList) (seeds : list (EdgePtr * EdgePtr)) :
  length front_edges ≤ length is_twin_edge →
  length front_edges ≤ length new_edges →
  NoDup (take (length front_edges) new_edges) →
  (∀ ne, ne ∈ take (length front_edges) new_edges →
         ∃ e, EdgeList.find ne (EdgeList.edges_ front) = Some e ∧
              Edge.twin_edge e = None) →
  ∃ front',
    Front.mark_twin_edges front_edges is_twin_edge new_edges front seeds =
      Ret (front', seeds ++ twin_pairs front_edges is_twin_edge new_edges) ∧
    map Edge.ptr (EdgeList.edges_ front') = map Edge.ptr (EdgeList.edges_ front) ∧
    (∀ (k : nat) (s : SeedEdge) (tw : bool) (ne : EdgePtr),
       front_edges !! k = Some s → is_twin_edge !! k = Some tw →
       new_edges !! k = Some ne →
       ∃ e, EdgeList.find ne (EdgeList.edges_ front) = Some e ∧
            EdgeList.find ne (EdgeList.edges_ front') =
              Some (Edge.set_twin_edge (if tw then Some (seed_ptr s) else None) e) ∧
            (tw = true →
             (seed_ptr s, ne) ∈ twin_pairs front_edges is_twin_edge new_edges)) ∧
    (∀ p e, p ∉ take (length front_edges) new_edges →
            EdgeList.find p (EdgeList.edges_ front) = Some e →
            EdgeList.find p (EdgeList.edges_ front') = Some e).
Proof.
  intros Htw Hne Hnd Hin.
  exists (retwin (twin_pairs front_edges is_twin_edge new_edges) front).
  split; [by apply mark_twin_edges_Ret|]. split; [|split].
  - unfold retwin. cbn. rewrite map_map. by apply map_ext.
  - intros k s tw ne Hs Hk Hk'.
    destruct (Hin ne) as (e & He & Htwin).
    { apply list_elem_of_lookup. exists k. rewrite lookup_take_lt; [done|].
      by apply lookup_lt_Some in Hs. }
    exists e. split; [done|].
    pose proof (twin_pairs_find front_edges is_twin_edge new_edges k s tw ne
                  Hnd Hs Hk Hk') as Hfind.
    split.
    + unfold retwin. cbn [EdgeList.edges_]. rewrite EdgeList_find_map by done.
      rewrite He. cbn. do 2 f_equal. unfold twin_for.
      rewrite (EdgeList_find_ptr _ _ _ He), Hfind. by destruct tw.
    + intros ->. apply find_some in Hfind as (Hfind & _). by apply list_elem_of_In.
  - intros p e Hp He. unfold retwin. cbn [EdgeList.edges_].
    rewrite EdgeList_find_map by done. rewrite He. cbn. f_equal.
    rewrite twin_for_absent; [apply set_twin_edge_same|].
    rewrite (EdgeList_find_ptr _ _ _ He). intros Hc.
    apply list_elem_of_fmap in Hc as (sp & -> & Hsp).
    by apply twin_pairs_handles in Hsp.
Qed.

Lemma beside4_untwinned :
  ∀ ne, ne ∈ take 4 [0; 1; 2; 3] →
        ∃ e, EdgeList.find ne (EdgeList.edges_ (fst Scenario.square4)) = Some e ∧
             Edge.twin_edge e = None.
Proof.
  intros ne Hne. cbn in Hne.
  repeat (apply elem_of_cons in Hne as [->|Hne]; [by eexists|]).
  by apply elem_of_nil in Hne.
Qed.

Lemma mark_twin_edges_spec_witness :
  ∃ front',
    Front.mark_twin_edges
      [mkSeedEdge 100 (Scenario.P 0 0) (Scenario.P 1 0);
       mkSeedEdge 101 (Scenario.P 1 1) (Scenario.P 1 0);
       mkSeedEdge 102 (Scenario.P 1 1) (Scenario.P 0 1);
       mkSeedEdge 103 (Scenario.P 0 1) (Scenario.P 0 0)]
      [false; true; false; false] [0; 1; 2; 3] (fst Scenario.square4) [] =
      Ret (front', [(101, 1)]) ∧
    map Edge.ptr (EdgeList.edges_ front') =
      map Edge.ptr (EdgeList.edges_ (fst Scenario.square4)) ∧
    (∀ (k : nat) (s : SeedEdge) (tw : bool) (ne : EdgePtr),
       [mkSeedEdge 100 (Scenario.P 0 0) (Scenario.P 1 0);
        mkSeedEdge 101 (Scenario.P 1 1) (Scenario.P 1 0);
        mkSeedEdge 102 (Scenario.P 1 1) (Scenario.P 0 1);
        mkSeedEdge 103 (Scenario.P 0 1) (Scenario.P 0 0)] !! k = Some s →
       [false; true; false; false] !! k = Some tw →
       [0; 1; 2; 3] !! k = Some ne →
       ∃ e, EdgeList.find ne (EdgeList.edges_ (fst Scenario.square4)) = Some e ∧
            EdgeList.find ne (EdgeList.edges_ front') =
              Some (Edge.set_twin_edge (if tw then Some (seed_ptr s) else None) e) ∧
            (tw = true → (seed_ptr s, ne) ∈ [(101, 1)])) ∧
    (∀ p e, p ∉ take 4 [0; 1; 2; 3] →
            EdgeList.find p (EdgeList.edges_ (fst Scenario.square4)) = Some e →
            EdgeList.find p (EdgeList.edges_ front') = Some e).
Proof.
  exact (mark_twin_edges_spec
           [mkSeedEdge 100 (Scenario.P 0 0) (Scenario.P 1 0);
            mkSeedEdge 101 (Scenario.P 1 1) (Scenario.P 1 0);
            mkSeedEdge 102 (Scenario.P 1 1) (Scenario.P 0 1);
            mkSeedEdge 103 (Scenario.P 0 1) (Scenario.P 0 0)]
           [false; true; false; false] [0; 1; 2; 3] (fst Scenario.square4) []
           (le_n 4) (le_n 4) ltac:(apply (bool_decide_unpack _); vm_compute; exact I)
           beside4_untwinned).
Defined.

(** ** Front::set_base_first and Front::set_base_next *)

Lemma position_lookup (l : list Edge) :
  ∀ (i : nat) (e : Edge),
  NoDup (map Edge.ptr l) → l !! i = Some e → Front.position (Edge.ptr e) l = Some i.
Proof.
  induction l as [|d l IH]; intros i e Hnd Hi; [done|].
  cbn in Hnd. apply NoDup_cons in Hnd as (Hd & Hnd). cbn.
  destruct i as [|i].
  - injection Hi as ->. by rewrite Nat.eqb_refl.
  - cbn in Hi. destruct (Nat.eqb_spec (Edge.ptr d) (Edge.ptr e)) as [Heq|_].
    + exfalso. apply Hd. rewrite Heq. apply list_elem_of_fmap_2.
      by eapply list_elem_of_lookup_2.
    + by rewrite (IH i e Hnd Hi).
Qed.

(** One step of the cursor from the edge at place [i]. *)
Lemma set_base_next_step (front : EdgeList) (i : nat) (e e' : Edge) :
  NoDup (map Edge.ptr (EdgeList.edges_ front)) →
  EdgeList.edges_ front !! i = Some e →
  EdgeList.edges_ front !! ((i + 1) `mod` EdgeList.size front) = Some e' →
  Front.set_base_next front (Some (Edge.ptr e)) = Ret (Some (Edge.ptr e')).
Proof.
  intros Hnd Hi Hi'. unfold Front.set_base_next, Front.set_base_first, EdgeList.size in *.
  pose proof (lookup_lt_Some _ _ _ Hi) as Hlt.
  destruct (Nat.ltb_spec (length (EdgeList.edges_ front)) 1) as [?|_]; [lia|].
  exec_simpl. rewrite (position_lookup _ i e Hnd Hi). exec_simpl.
  destruct (decide (S i < length (EdgeList.edges_ front))) as [Hin|Hout].
  - rewrite Nat.mod_small in Hi' by lia. replace (i + 1) with (S i) in Hi' by lia.
    by rewrite Hi'.
  - replace (i + 1) with (length (EdgeList.edges_ front)) in Hi' by lia.
    rewrite Nat.Div0.mod_same in Hi'.
    rewrite (lookup_ge_None_2 _ (S i)) by lia.
    destruct (EdgeList.edges_ front) as [|d l]; [done|]. by injection Hi' as ->.
Qed.

(** The cursor of the front. On an empty front [set_base_first] and
    [set_base_next] leave the cursor as it is. On a front with n edges,
    [set_base_first] puts the cursor on the first edge, and k calls of
    [set_base_next] move it from the edge at place i to the edge at place
    (i + k) mod n: the cursor wraps from the last edge to the first, and
    after n calls it is back where it was. A null cursor on a front that is
    not empty cannot be advanced. *)
Theorem set_base_next_wraps (front : EdgeList) :
  NoDup (map Edge.ptr (EdgeList.edges_ front)) →
  (EdgeList.edges_ front = [] →
   ∀ b, Front.set_base_first front b = b ∧ Front.set_base_next front b = Ret b) ∧
  (∀ e b, EdgeList.edges_ front !! 0 = Some e →
          Front.set_base_first front b = Some (Edge.ptr e)) ∧
  (∀ k i e e',
     EdgeList.edges_ front !! i = Some e →
     EdgeList.edges_ front !! ((i + k) `mod` EdgeList.size front) = Some e' →
     base_steps k front (Some (Edge.ptr e)) = Ret (Some (Edge.ptr e'))) ∧
  (∀ i e, EdgeList.edges_ front !! i = Some e →
          base_steps (EdgeList.size front) front (Some (Edge.ptr e)) =
          Ret (Some (Edge.ptr e))) ∧
  (EdgeList.edges_ front ≠ [] → Front.set_base_next front None = Undef).
Proof.
  intros Hnd.
  assert (∀ k i e e',
     EdgeList.edges_ front !! i = Some e →
     EdgeList.edges_ front !! ((i + k) `mod` EdgeList.size front) = Some e' →
     base_steps k front (Some (Edge.ptr e)) = Ret (Some (Edge.ptr e'))) as Hsteps.
  { induction k as [|k IH]; intros i e e' Hi Hk.
    - pose proof (lookup_lt_Some _ _ _ Hi) as Hlt. unfold EdgeList.size in Hk.
      rewrite Nat.add_0_r, Nat.mod_small in Hk by done.
      rewrite Hi in Hk. by injection Hk as ->.
    - pose proof (lookup_lt_Some _ _ _ Hi) as Hlt. cbn [base_steps].
      destruct (lookup_lt_is_Some_2 (EdgeList.edges_ front)
                  ((i + 1) `mod` EdgeList.size front)) as (e1 & H1).
      { apply Nat.mod_upper_bound. unfold EdgeList.size. lia. }
      rewrite (set_base_next_step front i e e1 Hnd Hi H1). exec_simpl.
      apply (IH _ e1 e' H1).
      rewrite Nat.Div0.add_mod_idemp_l. by replace (i + 1 + k) with (i + S k) by lia. }
  split; [|split; [|split; [|split]]].
  - intros Hempty b. unfold Front.set_base_next, Front.set_base_first, EdgeList.size.
    by rewrite Hempty.
  - intros e b He. unfold Front.set_base_first, EdgeList.size.
    destruct (EdgeList.edges_ front) as [|d l]; [done|]. by injection He as ->.
  - exact Hsteps.
  - intros i e Hi. apply (Hsteps _ i); [done|].
    pose proof (lookup_lt_Some _ _ _ Hi) as Hlt. unfold EdgeList.size.
    rewrite <- (Nat.mul_1_l (length (EdgeList.edges_ front))) at 1.
    rewrite Nat.Div0.mod_add, Nat.mod_small by done. done.
  - intros Hne. unfold Front.set_base_next, EdgeList.size.
    destruct (EdgeList.edges_ front) as [|d l]; [done|]. done.
Qed.

Lemma set_base_next_wraps_witness :
  (∀ k i e e',
     EdgeList.edges_ (fst Scenario.square4) !! i = Some e →
     EdgeList.edges_ (fst Scenario.square4) !! ((i + k) `mod` 4) = Some e' →
     base_steps k (fst Scenario.square4) (Some (Edge.ptr e)) =
     Ret (Some (Edge.ptr e'))) ∧
  base_steps 4 (fst Scenario.square4) (Some 2) = Ret (Some 2) ∧
  base_steps 3 (fst Scenario.square4) (Some 2) = Ret (Some 1).
Proof.
  pose proof (set_base_next_wraps (fst Scenario.square4) (proj1 square4_wf))
    as (_ & _ & Hsteps & Hback & _).
  split; [exact Hsteps|]. split.
  - exact (Hback 2 (Scenario.side 2) eq_refl).
  - exact (Hsteps 3 2 (Scenario.side 2) (Scenario.side 1) eq_refl eq_refl).
Defined.

(** ** The search for the start and the end of a layer *)

Lemma SFltb_trans (x y z : spec_float) :
  SFltb x y = true → SFltb y z = true → SFltb x z = true.
Proof.
  unfold SFltb, SFcompare.
  destruct x as [sx|sx| |sx mx ex], y as [sy|sy| |sy my ey], z as [sz|sz| |sz mz ez];
    try discriminate; try reflexivity;
    repeat match goal with s : bool |- _ => destruct s end;
    try discriminate; try reflexivity.
  all: change (PosDef.Pos.compare_cont Eq) with Pos.compare.
  all: destruct (Z.compare_spec ex ey), (Z.compare_spec ey ez), (Z.compare_spec ex ez);
    try discriminate; try reflexivity; try lia.
  all: destruct (Pos.compare_spec mx my), (Pos.compare_spec my mz),
         (Pos.compare_spec mx mz);
    cbn; try discriminate; try reflexivity; try lia.
Qed.

Lemma SFltb_irrefl (x : spec_float) : SFltb x x = false.
Proof.
  unfold SFltb, SFcompare. destruct x as [s|s| |s m e]; try reflexivity;
    destruct s; try reflexivity.
  all: change (PosDef.Pos.compare_cont Eq) with Pos.compare.
  all: by rewrite Z.compare_refl, Pos.compare_refl.
Qed.

(** [<] on doubles is transitive and irreflexive, NaN included. *)
Lemma ltb_trans (x y z : float) :
  (x <? y)%float = true → (y <? z)%float = true → (x <? z)%float = true.
Proof. rewrite !ltb_spec. apply SFltb_trans. Qed.

Lemma ltb_irrefl (x : float) : (x <? x)%float = false.
Proof. rewrite ltb_spec. apply SFltb_irrefl. Qed.

Lemma closest_so_far_step (vs : Vertices) (seen : list Edge) (xy : Vec2d)
    (v : option VertexPtr) (m d : float) (e : Edge) :
  closest_so_far vs seen xy v m → d_sqr vs xy e = Some d →
  closest_so_far vs (seen ++ [e]) xy
    (if (d <? m)%float then Some (Edge.v1 e) else v)
    (if (d <? m)%float then d else m).
Proof.
  intros [Hmin Hv] Hd. destruct (d <? m)%float eqn:Hlt.
  - split.
    + intros e' d' He' Hd'. apply elem_of_app in He' as [He'|He'].
      * destruct (d' <? d)%float eqn:Hlt'; [|done].
        rewrite <- (Hmin e' d' He' Hd'). symmetry. by apply (ltb_trans d' d m).
      * apply list_elem_of_singleton in He' as ->. rewrite Hd in Hd'.
        injection Hd' as <-. apply ltb_irrefl.
    + split.
      * destruct v as [p|]; [|by rewrite <- Hv].
        destruct Hv as (Hcap & _). by apply (ltb_trans d m).
      * exists e. split; [|done]. apply elem_of_app. right. left.
  - split.
    + intros e' d' He' Hd'. apply elem_of_app in He' as [He'|He'].
      * by apply (Hmin e').
      * apply list_elem_of_singleton in He' as ->. rewrite Hd in Hd'.
        by injection Hd' as <-.
    + destruct v as [p|]; [|done]. destruct Hv as (Hcap & e0 & He0 & Hp & Hd0).
      split; [done|]. exists e0. split; [|done]. apply elem_of_app. by left.
Qed.

Lemma closest_vertices_scan (es : list Edge) :
  ∀ (vs : Vertices) (xy_start xy_end : Vec2d) (seen : list Edge)
    (v_start v_end : option VertexPtr) (m_start m_end : float),
  Forall (λ e, is_Some (vertex_xy vs (Edge.v1 e))) es →
  closest_so_far vs seen xy_start v_start m_start →
  closest_so_far vs seen xy_end v_end m_end →
  ∃ v_start' v_end' m_start' m_end',
    FrontQuadLayering.closest_vertices es vs xy_start xy_end v_start v_end
      m_start m_end = Ret (v_start', v_end') ∧
    closest_so_far vs (seen ++ es) xy_start v_start' m_start' ∧
    closest_so_far vs (seen ++ es) xy_end v_end' m_end'.
Proof.
  induction es as [|e es IH];
    intros vs xy_start xy_end seen v_start v_end m_start m_end Hin Hs He.
  - exists v_start, v_end, m_start, m_end. by rewrite app_nil_r.
  - apply Forall_cons in Hin as (Hv1 & Hin).
    destruct (vertex_xy_find vs (Edge.v1 e) Hv1) as (v1 & Fv1).
    cbn [FrontQuadLayering.closest_vertices]. unfold Vertices.get. rewrite Fv1.
    exec_simpl.
    set (ds := Vec2d.norm_sqr (Vec2d.sub xy_start (Vertex.xy v1))).
    set (de := Vec2d.norm_sqr (Vec2d.sub xy_end (Vertex.xy v1))).
    assert (d_sqr vs xy_start e = Some ds) as Hds by (unfold d_sqr; by rewrite Fv1).
    assert (d_sqr vs xy_end e = Some de) as Hde by (unfold d_sqr; by rewrite Fv1).
    pose proof (closest_so_far_step vs seen xy_start v_start m_start ds e Hs Hds) as Hs'.
    pose proof (closest_so_far_step vs seen xy_end v_end m_end de e He Hde) as He'.
    destruct (IH vs xy_start xy_end (seen ++ [e]) _ _ _ _ Hin Hs' He')
      as (v_start' & v_end' & m_start' & m_end' & E & Hs'' & He'').
    exists v_start', v_end', m_start', m_end'.
    rewrite <- !app_assoc in Hs'', He''. split; [|done].
    rewrite <- E. by destruct (ds <? m_start)%float, (de <? m_end)%float.
Qed.

Lemma closest_so_far_nearest (vs : Vertices) (es : list Edge) (xy : Vec2d)
    (v : option VertexPtr) (m : float) :
  closest_so_far vs es xy v m → nearest_to vs es xy v.
Proof.
  intros [Hmin Hv]. destruct v as [p|]; cbn.
  - destruct Hv as (Hcap & e & He & Hp & Hd). by exists e, m.
  - by rewrite <- Hv.
Qed.

(** The scan of [generate_quad_layer] for the start and the end of the
    layer, on a front whose first vertices are all in the vertex container:
    it finds nothing when no first vertex of a front edge lies at a squared
    distance below 1.0E+10, and else the first vertex of a front edge at
    such a distance than which no other is nearer. *)
Theorem closest_vertices_spec (es : list Edge) (vs : Vertices)
    (xy_start xy_end : Vec2d) :
  Forall (λ e, is_Some (vertex_xy vs (Edge.v1 e))) es →
  ∃ v_start v_end,
    FrontQuadLayering.closest_vertices es vs xy_start xy_end None None
      1.0E+10%float 1.0E+10%float = Ret (v_start, v_end) ∧
    nearest_to vs es xy_start v_start ∧ nearest_to vs es xy_end v_end.
Proof.
  intros Hin.
  destruct (closest_vertices_scan es vs xy_start xy_end [] None None
              1.0E+10%float 1.0E+10%float Hin)
    as (v_start & v_end & m_start & m_end & E & Hs & He).
  { split; [|done]. intros e d He. by apply elem_of_nil in He. }
  { split; [|done]. intros e d He. by apply elem_of_nil in He. }
  exists v_start, v_end. split; [done|].
  split; by eapply closest_so_far_nearest.
Qed.

Lemma square4_first_vertices :
  Forall (λ e, is_Some (vertex_xy (snd Scenario.square4) (Edge.v1 e)))
    (EdgeList.edges_ (fst Scenario.square4)).
Proof. repeat constructor; by eexists. Qed.

Lemma closest_vertices_spec_witness :
  ∃ v_start v_end,
    FrontQuadLayering.closest_vertices (EdgeList.edges_ (fst Scenario.square4))
      (snd Scenario.square4) (Scenario.P 0 0) (Scenario.P 1 1) None None
      1.0E+10%float 1.0E+10%float = Ret (v_start, v_end) ∧
    nearest_to (snd Scenario.square4) (EdgeList.edges_ (fst Scenario.square4))
      (Scenario.P 0 0) v_start ∧
    nearest_to (snd Scenario.square4) (EdgeList.edges_ (fst Scenario.square4))
      (Scenario.P 1 1) v_end.
Proof.
  exact (closest_vertices_spec (EdgeList.edges_ (fst Scenario.square4))
           (snd Scenario.square4) (Scenario.P 0 0) (Scenario.P 1 1)
           square4_first_vertices).
Defined.

(** On the unit square the scan finds the corners themselves; from a
    position farther away than 1.0E+5 it finds nothing. *)
Lemma closest_vertices_square :
  FrontQuadLayering.closest_vertices (EdgeList.edges_ (fst Scenario.square4))
    (snd Scenario.square4) (Scenario.P 0 0) (Scenario.P 1 1) None None
    1.0E+10%float 1.0E+10%float = Ret (Some 0, Some 2) ∧
  FrontQuadLayering.closest_vertices (EdgeList.edges_ (fst Scenario.square4))
    (snd Scenario.square4) (Scenario.P 0.25 0.75) (Scenario.P 200000 0) None None
    1.0E+10%float 1.0E+10%float = Ret (Some 3, None).
Proof. split; vm_compute; reflexivity. Qed.

(** ** The early exits of FrontQuadLayering::generate_quad_layer *)

Lemma nearest_to_in_reach (vs : Vertices) (es : list Edge) (xy : Vec2d)
    (p : VertexPtr) :
  nearest_to vs es xy (Some p) →
  ¬ (∀ e d, e ∈ es → d_sqr vs xy e = Some d → (d <? 1.0E+10)%float = false).
Proof.
  intros (e & m & He & _ & Hd & Hcap & _) Hfar.
  rewrite (Hfar e m He Hd) in Hcap. done.
Qed.

Lemma get_edge_at_first (front : EdgeList) (e : Edge) :
  e ∈ EdgeList.edges_ front →
  ∃ e', EdgeList.get_edge_at front (Edge.v1 e) 1 = Some e' ∧ Edge.v1 e' = Edge.v1 e.
Proof.
  intros He. unfold EdgeList.get_edge_at. cbn.
  destruct (List.find (λ e', Nat.eqb (Edge.v1 e') (Edge.v1 e)) (EdgeList.edges_ front))
    as [e'|] eqn:Hf.
  - exists e'. split; [done|]. apply find_some in Hf as (_ & Hf).
    by apply Nat.eqb_eq in Hf.
  - exfalso. apply list_elem_of_In in He.
    pose proof (find_none _ _ Hf e He) as Hn. cbn in Hn.
    by rewrite Nat.eqb_refl in Hn.
Qed.

(** [generate_quad_layer] on a front whose first vertices are all in the
    vertex container. It returns false, with the driver and the mesh as
    they were, when no front vertex lies at a squared distance below
    1.0E+10 from the start position or from the ending position (in
    particular on an empty front), when no front edge ends at the vertex
    nearest to the ending position, and when the span between the two edges
    is not traversable. A front edge that begins at the vertex nearest to
    the start position always exists. *)
Theorem generate_quad_layer_early_exits {Rest} `{Geometry} `{EdgeLinks}
    `{Collaborators Rest} (fuel : nat) (height : float)
    (s : FrontQuadLayering.t Rest) :
  let w := FrontQuadLayering.mesh_ s in
  let es := EdgeList.edges_ (front (env w)) in
  let vs := verts (env w) in
  Forall (λ e, is_Some (vertex_xy vs (Edge.v1 e))) es →
  ∃ v_start v_end,
    nearest_to vs es (FrontQuadLayering.xy_start_ s) v_start ∧
    nearest_to vs es (FrontQuadLayering.xy_end_ s) v_end ∧
    (v_start = None ∨ v_end = None →
     FrontQuadLayering.generate_quad_layer fuel height s = Ret (false, s)) ∧
    ((∀ e d, e ∈ es → d_sqr vs (FrontQuadLayering.xy_start_ s) e = Some d →
             (d <? 1.0E+10)%float = false) ∨
     (∀ e d, e ∈ es → d_sqr vs (FrontQuadLayering.xy_end_ s) e = Some d →
             (d <? 1.0E+10)%float = false) →
     FrontQuadLayering.generate_quad_layer fuel height s = Ret (false, s)) ∧
    (∀ a b, v_start = Some a → v_end = Some b →
       ∃ e_start,
         EdgeList.get_edge_at (front (env w)) a 1 = Some e_start ∧
         Edge.v1 e_start = a ∧
         (EdgeList.get_edge_at (front (env w)) b 2 = None →
          FrontQuadLayering.generate_quad_layer fuel height s = Ret (false, s)) ∧
         (∀ e_end,
            EdgeList.get_edge_at (front (env w)) b 2 = Some e_end →
            is_traversable w (Edge.ptr e_start) (Edge.ptr e_end) = false →
            FrontQuadLayering.generate_quad_layer fuel height s = Ret (false, s))).
Proof.
  intros w es vs Hin.
  destruct (closest_vertices_scan es vs (FrontQuadLayering.xy_start_ s)
              (FrontQuadLayering.xy_end_ s) [] None None 1.0E+10%float 1.0E+10%float Hin)
    as (v_start & v_end & m_start & m_end & E & Hs%closest_so_far_nearest
        & He%closest_so_far_nearest).
  { split; [|done]. intros e d He. by apply elem_of_nil in He. }
  { split; [|done]. intros e d He. by apply elem_of_nil in He. }
  exists v_start, v_end. split; [done|]. split; [done|].
  assert (v_start = None ∨ v_end = None →
          FrontQuadLayering.generate_quad_layer fuel height s = Ret (false, s)) as Hnone.
  { intros Hc. unfold FrontQuadLayering.generate_quad_layer. fold w. fold es. fold vs.
    rewrite E. exec_simpl. destruct Hc as [-> | ->]; [done|]. by destruct v_start. }
  split; [done|]. split.
  - intros [Hfar|Hfar]; apply Hnone.
    + left. destruct v_start as [p|]; [|done].
      by destruct (nearest_to_in_reach vs es _ p Hs).
    + right. destruct v_end as [p|]; [|done].
      by destruct (nearest_to_in_reach vs es _ p He).
  - intros a b -> ->. destruct Hs as (e & m & Hein & Hv1 & _).
    destruct (get_edge_at_first (front (env w)) e Hein) as (e_start & Hget & Hv1').
    rewrite Hv1 in Hget, Hv1'. exists e_start. split; [done|]. split; [done|].
    unfold FrontQuadLayering.generate_quad_layer. fold w. fold es. fold vs.
    rewrite E. exec_simpl. rewrite Hget. split.
    + by intros ->.
    + intros e_end -> ->. done.
Qed.

Lemma ring_first_vertices :
  Forall (λ e, is_Some (vertex_xy (verts (env Scenario.ring_world)) (Edge.v1 e)))
    (EdgeList.edges_ (front (env Scenario.ring_world))).
Proof. repeat constructor; by eexists. Qed.

Lemma generate_quad_layer_early_exits_witness :
  ∃ v_start v_end,
    nearest_to (verts (env Scenario.ring_world))
      (EdgeList.edges_ (front (env Scenario.ring_world))) (Scenario.P 0 0) v_start ∧
    nearest_to (verts (env Scenario.ring_world))
      (EdgeList.edges_ (front (env Scenario.ring_world))) (Scenario.P 0 0) v_end ∧
    (v_start = None ∨ v_end = None →
     FrontQuadLayering.generate_quad_layer (H := Scenario.approx_geometry)
       (H0 := Scenario.links_by_vertex) (H1 := Scenario.accepting) 10 0.5%float
       Scenario.ring_driver = Ret (false, Scenario.ring_driver)) ∧
    ((∀ e d, e ∈ EdgeList.edges_ (front (env Scenario.ring_world)) →
             d_sqr (verts (env Scenario.ring_world)) (Scenario.P 0 0) e = Some d →
             (d <? 1.0E+10)%float = false) ∨
     (∀ e d, e ∈ EdgeList.edges_ (front (env Scenario.ring_world)) →
             d_sqr (verts (env Scenario.ring_world)) (Scenario.P 0 0) e = Some d →
             (d <? 1.0E+10)%float = false) →
     FrontQuadLayering.generate_quad_layer (H := Scenario.approx_geometry)
       (H0 := Scenario.links_by_vertex) (H1 := Scenario.accepting) 10 0.5%float
       Scenario.ring_driver = Ret (false, Scenario.ring_driver)) ∧
    (∀ a b, v_start = Some a → v_end = Some b →
       ∃ e_start,
         EdgeList.get_edge_at (front (env Scenario.ring_world)) a 1 = Some e_start ∧
         Edge.v1 e_start = a ∧
         (EdgeList.get_edge_at (front (env Scenario.ring_world)) b 2 = None →
          FrontQuadLayering.generate_quad_layer (H := Scenario.approx_geometry)
            (H0 := Scenario.links_by_vertex) (H1 := Scenario.accepting) 10 0.5%float
            Scenario.ring_driver = Ret (false, Scenario.ring_driver)) ∧
         (∀ e_end,
            EdgeList.get_edge_at (front (env Scenario.ring_world)) b 2 = Some e_end →
            is_traversable (Collaborators := Scenario.accepting)
              Scenario.ring_world (Edge.ptr e_start) (Edge.ptr e_end) = false →
            FrontQuadLayering.generate_quad_layer (H := Scenario.approx_geometry)
              (H0 := Scenario.links_by_vertex) (H1 := Scenario.accepting) 10
              0.5%float Scenario.ring_driver = Ret (false, Scenario.ring_driver))).
Proof.
  exact (generate_quad_layer_early_exits (H := Scenario.approx_geometry)
           (H0 := Scenario.links_by_vertex) (H1 := Scenario.accepting) 10 0.5%float
           Scenario.ring_driver ring_first_vertices).
Defined.

(** On a front without edges the layer is rejected at once. *)
Lemma generate_quad_layer_empty_front :
  FrontQuadLayering.generate_quad_layer (H := Scenario.approx_geometry)
    (H0 := Scenario.links_by_vertex) (H1 := Scenario.accepting) 10 0.5%float
    Scenario.frontless_driver = Ret (false, Scenario.frontless_driver).
Proof. vm_compute. reflexivity. Qed.

(** ** What the driver keeps *)

Section DriverFrame.
Context {Rest : Type} `{Geometry} `{EdgeLinks} `{Collaborators Rest}.

Lemma set_new_anchors_frame (is_closed : bool) (ql : QuadLayer.t)
    (s s' : FrontQuadLayering.t Rest) (b : bool) :
  FrontQuadLayering.set_new_anchors is_closed ql s = Ret (b, s') →
  FrontQuadLayering.domain_ s' = FrontQuadLayering.domain_ s ∧
  (b = false → s' = s).
Proof.
  unfold FrontQuadLayering.set_new_anchors. intros E.
  apply bind_Ret_inv in E as ([a c] & _ & E).
  destruct a as [p|]; [|by injection E as <- <-].
  destruct c as [q|]; [|by injection E as <- <-].
  apply bind_Ret_inv in E as (vp & _ & E). apply bind_Ret_inv in E as (vq & _ & E).
  by injection E as <- <-.
Qed.

Lemma generate_quad_layer_frame (fuel : nat) (height : float)
    (s s' : FrontQuadLayering.t Rest) (b : bool) :
  FrontQuadLayering.generate_quad_layer fuel height s = Ret (b, s') →
  FrontQuadLayering.domain_ s' = FrontQuadLayering.domain_ s ∧
  (b = false →
   FrontQuadLayering.xy_start_ s' = FrontQuadLayering.xy_start_ s ∧
   FrontQuadLayering.xy_end_ s' = FrontQuadLayering.xy_end_ s).
Proof.
  unfold FrontQuadLayering.generate_quad_layer. intros E.
  apply bind_Ret_inv in E as ([v_start v_end] & _ & E).
  destruct v_start as [v_start|]; [|by injection E as <- <-].
  destruct v_end as [v_end|]; [|by injection E as <- <-].
  destruct (EdgeList.get_edge_at _ v_start 1) as [e_start|];
    [|by injection E as <- <-].
  destruct (EdgeList.get_edge_at _ v_end 2) as [e_end|]; [|by injection E as <- <-].
  destruct (negb _); [by injection E as <- <-|].
  apply bind_Ret_inv in E as ([p_start p_end] & _ & E).
  apply bind_Ret_inv in E as (ql1 & _ & E). apply bind_Ret_inv in E as (ql2 & _ & E).
  apply bind_Ret_inv in E as ([ql3 env1] & _ & E).
  apply bind_Ret_inv in E as ([ql4 w1] & _ & E).
  apply bind_Ret_inv in E as (w2 & _ & E). apply bind_Ret_inv in E as (w3 & _ & E).
  apply set_new_anchors_frame in E as (Hd & Hs). split; [done|].
  intros Hb. by rewrite (Hs Hb).
Qed.

Lemma layer_loop_frame (fuel todo : nat) :
  ∀ (height : float) (success b : bool) (s s' : FrontQuadLayering.t Rest),
  FrontQuadLayering.layer_loop fuel todo height success s = Ret (b, s') →
  FrontQuadLayering.n_layers_ s' = FrontQuadLayering.n_layers_ s ∧
  FrontQuadLayering.first_height_ s' = FrontQuadLayering.first_height_ s ∧
  FrontQuadLayering.growth_rate_ s' = FrontQuadLayering.growth_rate_ s ∧
  FrontQuadLayering.domain_ s' = FrontQuadLayering.domain_ s.
Proof.
  induction todo as [|todo IH]; intros height success b s s' E.
  - by injection E as <- <-.
  - cbn [FrontQuadLayering.layer_loop] in E.
    apply bind_Ret_inv in E as ([ok s1] & E1 & E).
    pose proof (generate_quad_layer_params _ _ _ _ _ E1) as (Hf & Hg & Hn).
    pose proof (generate_quad_layer_frame _ _ _ _ _ E1) as (Hd & _).
    destruct ok.
    + apply IH in E as (-> & -> & -> & ->). done.
    + by injection E as <- <-.
Qed.

End DriverFrame.

(** Neither [generate_quad_layer] nor [generate_elements] changes the
    number of layers, the first height, the growth rate or the domain of
    the driver; a call of [generate_quad_layer] that returns false leaves
    the start and ending positions where they were; and when
    [generate_elements] returns on a mesh with boundary edges, the front is
    empty. *)
Theorem generate_elements_frame {Rest} `{Geometry} `{EdgeLinks}
    `{Collaborators Rest} (fuel : nat) (s s' : FrontQuadLayering.t Rest) (b : bool) :
  (∀ height,
     FrontQuadLayering.generate_quad_layer fuel height s = Ret (b, s') →
     FrontQuadLayering.n_layers_ s' = FrontQuadLayering.n_layers_ s ∧
     FrontQuadLayering.first_height_ s' = FrontQuadLayering.first_height_ s ∧
     FrontQuadLayering.growth_rate_ s' = FrontQuadLayering.growth_rate_ s ∧
     FrontQuadLayering.domain_ s' = FrontQuadLayering.domain_ s ∧
     (b = false →
      FrontQuadLayering.xy_start_ s' = FrontQuadLayering.xy_start_ s ∧
      FrontQuadLayering.xy_end_ s' = FrontQuadLayering.xy_end_ s)) ∧
  (FrontQuadLayering.generate_elements fuel s = Ret (b, s') →
   FrontQuadLayering.n_layers_ s' = FrontQuadLayering.n_layers_ s ∧
   FrontQuadLayering.first_height_ s' = FrontQuadLayering.first_height_ s ∧
   FrontQuadLayering.growth_rate_ s' = FrontQuadLayering.growth_rate_ s ∧
   FrontQuadLayering.domain_ s' = FrontQuadLayering.domain_ s ∧
   (0 < EdgeList.size (bdry_edges (env (FrontQuadLayering.mesh_ s))) →
    EdgeList.edges_ (front (env (FrontQuadLayering.mesh_ s'))) = [])).
Proof.
  split.
  - intros height E.
    pose proof (generate_quad_layer_params _ _ _ _ _ E) as (Hf & Hg & Hn).
    pose proof (generate_quad_layer_frame _ _ _ _ _ E) as (Hd & Hxy). done.
  - unfold FrontQuadLayering.generate_elements. intros E.
    destruct (Nat.ltb_spec (EdgeList.size (bdry_edges (env (FrontQuadLayering.mesh_ s))))
                1) as [Hnone|Hsome].
    + injection E as <- <-. repeat (split; [done|]). lia.
    + apply bind_Ret_inv in E as (w1 & _ & E). apply bind_Ret_inv in E as (w2 & _ & E).
      apply bind_Ret_inv in E as (w3 & _ & E).
      apply bind_Ret_inv in E as ([ok s1] & Eloop & E).
      apply bind_Ret_inv in E as (w4 & _ & E). injection E as <- <-.
      apply layer_loop_frame in Eloop as (Hn & Hf & Hg & Hd). cbn in *. done.
Qed.

Lemma ring_elements_accepted :
  FrontQuadLayering.generate_elements (H := Scenario.approx_geometry)
    (H0 := Scenario.links_by_vertex) (H1 := Scenario.accepting) 10
    Scenario.ring_driver =
  Ret (true,
       FrontQuadLayering.set_mesh_
         (with_cleared_front (FrontQuadLayering.mesh_ Scenario.ring_after_layers))
         Scenario.ring_after_layers).
Proof. vm_compute. reflexivity. Qed.

Lemma generate_elements_frame_witness :
  (FrontQuadLayering.n_layers_ Scenario.ring_after_layer = 3 ∧
   FrontQuadLayering.first_height_ Scenario.ring_after_layer = 0.5%float ∧
   FrontQuadLayering.growth_rate_ Scenario.ring_after_layer = 1.5%float ∧
   FrontQuadLayering.domain_ Scenario.ring_after_layer = Scenario.uniform 2 10 ∧
   (true = false →
    FrontQuadLayering.xy_start_ Scenario.ring_after_layer = Scenario.P 0 0 ∧
    FrontQuadLayering.xy_end_ Scenario.ring_after_layer = Scenario.P 0 0)) ∧
  EdgeList.edges_
    (front (env (FrontQuadLayering.mesh_
       (FrontQuadLayering.set_mesh_
          (with_cleared_front (FrontQuadLayering.mesh_ Scenario.ring_after_layers))
          Scenario.ring_after_layers)))) = [].
Proof.
  split.
  - exact (proj1 (generate_elements_frame (H := Scenario.approx_geometry)
                    (H0 := Scenario.links_by_vertex) (H1 := Scenario.accepting) 10
                    Scenario.ring_driver Scenario.ring_after_layer true)
             0.5%float ring_layer_accepted).
  - exact (proj2 (proj2 (proj2 (proj2
             (proj2 (generate_elements_frame (H := Scenario.approx_geometry)
                       (H0 := Scenario.links_by_vertex) (H1 := Scenario.accepting) 10
                       Scenario.ring_driver _ true)
                ring_elements_accepted))))
             ring_driver_has_boundary).
Defined.

(** ** FrontQuadLayering::create_quad_layer_elements *)

Lemma fills_refl (l : list (option VertexPtr)) : fills l l.
Proof. split; [done|]. intros j. by left. Qed.

Lemma fills_trans (l1 l2 l3 : list (option VertexPtr)) :
  fills l1 l2 → fills l2 l3 → fills l1 l3.
Proof.
  intros [L12 H12] [L23 H23]. split; [by rewrite L23|]. intros j.
  destruct (H23 j) as [E|?]; [|by right]. rewrite E. apply H12.
Qed.

Lemma fills_insert (l : list (option VertexPtr)) (i : nat) (p : VertexPtr) :
  fills l (<[i := Some p]> l).
Proof.
  split; [by rewrite length_insert|]. intros j.
  destruct (decide (i = j)) as [->|Hne].
  - destruct (decide (j < length l)) as [Hlt|Hge].
    + right. exists p. by rewrite list_lookup_insert_eq.
    + left. rewrite !lookup_ge_None_2; [done|lia|rewrite length_insert; lia].
  - left. by rewrite list_lookup_insert_ne.
Qed.

Lemma only_fills_refl (q : QuadLayer.t) : only_fills q q.
Proof.
  split; [apply same_bases_refl|]. split; [done|]. split; [done|].
  split; apply fills_refl.
Qed.

Lemma only_fills_trans (q1 q2 q3 : QuadLayer.t) :
  only_fills q1 q2 → only_fills q2 q3 → only_fills q1 q3.
Proof.
  intros (B12 & X12 & Y12 & P12 & Q12) (B23 & X23 & Y23 & P23 & Q23).
  split; [by apply (same_bases_trans q1 q2)|].
  split; [by rewrite X23|]. split; [by rewrite Y23|].
  split; [by apply (fills_trans _ (QuadLayer.proj_v1_ q2))|
          by apply (fills_trans _ (QuadLayer.proj_v2_ q2))].
Qed.

Lemma create_quad_layer_element_fills {Rest} `{Collaborators Rest} (i : nat)
    (ql ql' : QuadLayer.t) (w w' : World Rest) :
  FrontQuadLayering.create_quad_layer_element i ql w = Ret (ql', w') →
  only_fills ql ql'.
Proof.
  intros E. pose proof (create_quad_layer_element_bases i ql ql' w w' E) as Hb.
  unfold FrontQuadLayering.create_quad_layer_element in E. exec_inv.
  all: try apply only_fills_refl.
  all: split; [exact Hb|]; cbn; split; [done|]; split; [done|].
  all: split; try apply fills_refl; try apply fills_insert.
Qed.

Lemma create_quad_layer_elements_loop_fills {Rest} `{Collaborators Rest}
    (todo : nat) :
  ∀ (i : nat) (ql ql' : QuadLayer.t) (w w' : World Rest),
  FrontQuadLayering.create_quad_layer_elements_loop todo i ql w = Ret (ql', w') →
  only_fills ql ql'.
Proof.
  induction todo as [|todo IH]; intros i ql ql' w w' E.
  - injection E as <- <-. apply only_fills_refl.
  - cbn [FrontQuadLayering.create_quad_layer_elements_loop] in E.
    apply bind_Ret_inv in E as ([ql1 w1] & E1 & E).
    apply (only_fills_trans ql ql1);
      [by apply create_quad_layer_element_fills in E1|by apply (IH _ _ _ _ _ E)].
Qed.

Ltac ql_simpl :=
  cbn [QuadLayer.base_v1_ QuadLayer.base_v2_ QuadLayer.proj_v1_ QuadLayer.proj_v2_
       QuadLayer.proj_v1_xy_ QuadLayer.proj_v2_xy_ QuadLayer.set_proj_v1_
       QuadLayer.set_proj_v2_].

Lemma create_quad_layer_element_returns {Rest} `{Collaborators Rest} (i : nat)
    (ql : QuadLayer.t) (w : World Rest) :
  collaborators_return → same_lengths ql → i < length (QuadLayer.base_edges_ ql) →
  ∃ ql' w', FrontQuadLayering.create_quad_layer_element i ql w = Ret (ql', w').
Proof.
  intros (Hin & Hupd & Hv3 & Hrie & Hrt & Hquad) (M1 & M2 & M3 & M4 & M5 & M6 & M7) Hi.
  destruct (lookup_lt_is_Some_2 (QuadLayer.heights_ ql) i) as (h & Eh); [lia|].
  destruct (lookup_lt_is_Some_2 (QuadLayer.base_edges_ ql) i) as (base & Ebase); [lia|].
  destruct (lookup_lt_is_Some_2 (QuadLayer.proj_v1_xy_ ql) i) as (c1 & Ec1); [lia|].
  destruct (lookup_lt_is_Some_2 (QuadLayer.proj_v2_xy_ ql) i) as (c2 & Ec2); [lia|].
  destruct (lookup_lt_is_Some_2 (QuadLayer.base_v1_ ql) i) as (b1 & Eb1); [lia|].
  destruct (lookup_lt_is_Some_2 (QuadLayer.base_v2_ ql) i) as (b2 & Eb2); [lia|].
  unfold FrontQuadLayering.create_quad_layer_element, at_index.
  rewrite Eh, Ebase. exec_simpl. destruct (Hin w base) as (inc & ->). exec_simpl.
  destruct inc; cbn [negb]; [|by eexists _, _].
  rewrite Ec1. exec_simpl.
  destruct (Hupd base c1 c1 (FrontQuadLayering.quad_layer_range_ * h)%float w)
    as (t1 & w1 & ->). exec_simpl.
  destruct t1 as [t1|]; [|by eexists _, _].
  destruct (Hv3 w1 t1) as (p1i & ->). exec_simpl.
  rewrite set_Z_nat by lia. exec_simpl. ql_simpl.
  rewrite Eb2. exec_simpl.
  destruct (EdgeList.get_edge _ p1i b2) as [base'|]; [|by eexists _, _].
  ql_simpl. rewrite Ec2. exec_simpl.
  destruct (Hupd (Edge.ptr base') c2 c2 (FrontQuadLayering.quad_layer_range_ * h)%float w1)
    as (t2 & w2 & ->). exec_simpl.
  destruct t2 as [t2|]; [|by eexists _, _].
  destruct (Hv3 w2 t2) as (p2i & ->). exec_simpl. ql_simpl.
  rewrite set_Z_nat by lia. exec_simpl.
  destruct (interior_edges_get_edge w2 b2 p1i) as [e_rem|]; [|by eexists _, _].
  destruct (Hrie e_rem w2) as (w3 & ->). exec_simpl.
  destruct (Hrt t1 w3) as (w4 & ->). exec_simpl.
  destruct (Hrt t2 w4) as (w5 & ->). exec_simpl.
  ql_simpl. rewrite Eb1. exec_simpl.
  destruct (Hquad b1 b2 p2i p1i w5) as (w6 & ->). exec_simpl. by eexists _, _.
Qed.

Lemma create_quad_layer_elements_loop_returns {Rest} `{Collaborators Rest}
    (todo : nat) :
  ∀ (i : nat) (ql : QuadLayer.t) (w : World Rest),
  collaborators_return → same_lengths ql →
  i + todo ≤ length (QuadLayer.base_edges_ ql) →
  ∃ ql' w',
    FrontQuadLayering.create_quad_layer_elements_loop todo i ql w = Ret (ql', w').
Proof.
  induction todo as [|todo IH]; intros i ql w Hret Hlen Hi.
  - by eexists _, _.
  - cbn [FrontQuadLayering.create_quad_layer_elements_loop].
    destruct (create_quad_layer_element_returns i ql w Hret Hlen) as (ql1 & w1 & E);
      [lia|].
    rewrite E. exec_simpl.
    pose proof (create_quad_layer_element_bases i ql ql1 w w1 E) as Hb.
    apply IH; [done|by apply (same_lengths_same_bases ql)|].
    destruct Hb as (_ & _ & _ & _ & -> & _). lia.
Qed.

(** [create_quad_layer_elements] on a layer whose arrays have one length.
    It stays inside the arrays of the layer: it returns whenever the calls
    into the mesh and the front update return. It changes nothing of the
    layer but entries of the projected vertices, which it never sets back
    to null: the base edges and vertices, the heights and both arrays of
    projected coordinates are as before. *)
Theorem create_quad_layer_elements_spec {Rest} `{Collaborators Rest}
    (ql : QuadLayer.t) (w : World Rest) :
  same_lengths ql →
  (collaborators_return →
   ∃ ql' w', FrontQuadLayering.create_quad_layer_elements ql w = Ret (ql', w')) ∧
  (∀ ql' w',
     FrontQuadLayering.create_quad_layer_elements ql w = Ret (ql', w') →
     only_fills ql ql' ∧ same_lengths ql').
Proof.
  intros Hlen. unfold FrontQuadLayering.create_quad_layer_elements. split.
  - intros Hret. by apply create_quad_layer_elements_loop_returns.
  - intros ql' w' E. apply create_quad_layer_elements_loop_fills in E.
    split; [done|]. destruct E as (Hb & _). by apply (same_lengths_same_bases ql).
Qed.

Lemma ring_layer_lengths : same_lengths Scenario.ring_layer.
Proof. repeat split. Qed.

Lemma accepting_returns : collaborators_return (H := Scenario.accepting).
Proof.
  repeat split; intros; cbn; try (by eexists); try (by eexists _, _).
Qed.

Lemma create_quad_layer_elements_spec_witness :
  ∃ ql' w',
    FrontQuadLayering.create_quad_layer_elements (H := Scenario.accepting)
      Scenario.ring_layer Scenario.ring_world = Ret (ql', w') ∧
    only_fills Scenario.ring_layer ql' ∧ same_lengths ql'.
Proof.
  destruct (proj1 (create_quad_layer_elements_spec (H := Scenario.accepting)
                     Scenario.ring_layer Scenario.ring_world ring_layer_lengths)
              accepting_returns) as (ql' & w' & E).
  exists ql', w'. split; [exact E|].
  exact (proj2 (create_quad_layer_elements_spec (H := Scenario.accepting)
                  Scenario.ring_layer Scenario.ring_world ring_layer_lengths)
           ql' w' E).
Defined.

(** ** FrontQuadLayering::finish_quad_layer *)

Lemma finish_quad_layer_gap_skip {Rest} `{Geometry} `{Collaborators Rest} (i : nat)
    (ql : QuadLayer.t) (w : World Rest) :
  1 ≤ i → i < length (QuadLayer.proj_v1_ ql) → i ≤ length (QuadLayer.proj_v2_ ql) →
  (∀ c a, QuadLayer.proj_v1_ ql !! i = Some (Some c) →
          QuadLayer.proj_v2_ ql !! (i - 1) = Some (Some a) → c = a) →
  FrontQuadLayering.finish_quad_layer_gap i ql w = Ret w.
Proof.
  intros Hi H1 H2 Hgap. unfold FrontQuadLayering.finish_quad_layer_gap, at_index.
  destruct (lookup_lt_is_Some_2 (QuadLayer.proj_v1_ ql) i) as (p1i & E1); [lia|].
  destruct (lookup_lt_is_Some_2 (QuadLayer.proj_v2_ ql) (i - 1)) as (p2i & E2); [lia|].
  rewrite E1. exec_simpl. destruct p1i as [c|]; [|done].
  rewrite E2. exec_simpl. destruct p2i as [a|]; [|done].
  rewrite (Hgap c a E1 E2), Nat.eqb_refl. done.
Qed.

Lemma finish_quad_layer_loop_skip {Rest} `{Geometry} `{Collaborators Rest}
    (todo : nat) :
  ∀ (i : nat) (ql : QuadLayer.t) (w : World Rest),
  1 ≤ i → i + todo ≤ length (QuadLayer.proj_v1_ ql) →
  i + todo ≤ S (length (QuadLayer.proj_v2_ ql)) →
  (∀ j c a, QuadLayer.proj_v1_ ql !! j = Some (Some c) →
            QuadLayer.proj_v2_ ql !! (j - 1) = Some (Some a) → 1 ≤ j → c = a) →
  FrontQuadLayering.finish_quad_layer_loop todo i ql w = Ret w.
Proof.
  induction todo as [|todo IH]; intros i ql w Hi H1 H2 Hgap; [done|].
  cbn [FrontQuadLayering.finish_quad_layer_loop].
  rewrite finish_quad_layer_gap_skip; [|lia|lia|lia|].
  - exec_simpl. apply IH; [lia|lia|lia|done].
  - intros c a E1 E2. by apply (Hgap i).
Qed.

(** [finish_quad_layer] adds triangles only at gaps: on a layer in which,
    for every base i >= 1, the projected vertex p1[i] is null, or p2[i-1]
    is null, or the two are the same vertex -- in particular on a layer
    without any projected vertex, and on a layer whose quads share all
    their projected vertices -- it returns and leaves the mesh and the
    front as they are. *)
Theorem finish_quad_layer_no_gaps {Rest} `{Geometry} `{Collaborators Rest}
    (ql : QuadLayer.t) (w : World Rest) :
  same_lengths ql →
  (∀ j c a, QuadLayer.proj_v1_ ql !! j = Some (Some c) →
            QuadLayer.proj_v2_ ql !! (j - 1) = Some (Some a) → 1 ≤ j → c = a) →
  FrontQuadLayering.finish_quad_layer ql w = Ret w.
Proof.
  intros (M1 & M2 & M3 & M4 & M5 & M6 & M7) Hgap.
  unfold FrontQuadLayering.finish_quad_layer.
  destruct (length (QuadLayer.base_edges_ ql)) as [|n] eqn:Hn; [done|].
  apply finish_quad_layer_loop_skip; [lia|lia|lia|done].
Qed.

Lemma quads_layer_lengths : same_lengths Scenario.quads_layer.
Proof. by repeat split. Qed.

(** In the layer of the four quads every projected vertex [p1[i]], i >= 1,
    is the projected vertex [p2[i-1]] of the quad before it. *)
Lemma quads_layer_no_gaps :
  ∀ j c a, QuadLayer.proj_v1_ Scenario.quads_layer !! j = Some (Some c) →
           QuadLayer.proj_v2_ Scenario.quads_layer !! (j - 1) = Some (Some a) →
           1 ≤ j → c = a.
Proof.
  intros j c a E1 E2 Hj.
  do 4 (destruct j as [|j]; [cbn in E1, E2; try lia; congruence|]).
  by rewrite lookup_ge_None_2 in E1 by (cbn; lia).
Qed.

Lemma quads_layer_shared :
  QuadLayer.proj_v1_ Scenario.quads_layer !! 1 = Some (Some 9) ∧
  QuadLayer.proj_v2_ Scenario.quads_layer !! 0 = Some (Some 9).
Proof. by split. Qed.

Lemma finish_quad_layer_no_gaps_witness :
  FrontQuadLayering.finish_quad_layer (H := Scenario.approx_geometry)
    (H0 := Scenario.accepting) Scenario.quads_layer Scenario.quads_world =
  Ret Scenario.quads_world.
Proof.
  exact (finish_quad_layer_no_gaps (H := Scenario.approx_geometry)
           (H0 := Scenario.accepting) Scenario.quads_layer Scenario.quads_world
           quads_layer_lengths quads_layer_no_gaps).
Defined.

(** Without any projected vertex there is no gap either. *)
Lemma ring_layer_no_gaps :
  ∀ j c a, QuadLayer.proj_v1_ Scenario.ring_layer !! j = Some (Some c) →
           QuadLayer.proj_v2_ Scenario.ring_layer !! (j - 1) = Some (Some a) →
           1 ≤ j → c = a.
Proof.
  intros j c a E1 _ _. exfalso.
  assert (Forall (λ o, o = None) (QuadLayer.proj_v1_ Scenario.ring_layer)) as Hnull
    by (repeat constructor).
  rewrite Forall_lookup in Hnull. by specialize (Hnull j _ E1).
Qed.

(** ** The refined front *)

Tactic Notation "exec_simpl" "in" hyp(E) :=
  cbn [deref_opt mbind Exec_bind mret Exec_ret ASSERT] in E.

(** What a call of [refine_edge] that has returned has done. *)
Lemma refine_edge_outcome `{Build} (fuel : nat) (domain : Domain)
    (front front1 : EdgeList) (vs vs1 : Vertices) (pre post : list Edge) (e : Edge)
    (ok : bool) :
  EdgeList.wf front → Vertices.wf vs →
  EdgeList.edges_ front = pre ++ e :: post →
  Front.refine_edge fuel domain (Edge.ptr e) front vs = Ret (ok, front1, vs1) →
  (ok = false ∧ front1 = front ∧ vs1 = vs) ∨
  (ok = true ∧
   ∃ news mids,
     mids ≠ [] ∧
     EdgeList.edges_ front1 = pre ++ news ++ e :: post ∧
     EdgeList.fresh front1 = EdgeList.fresh front + length news ∧
     links (Edge.marker e) (Edge.v1 e) (mids ++ [Edge.v2 e]) news ∧
     map Edge.ptr news = seq (EdgeList.fresh front) (length news) ∧
     Vertices.wf vs1 ∧ Vertices.fresh vs ≤ Vertices.fresh vs1 ∧
     (∀ q, q < Vertices.fresh vs → vertex_xy vs1 q = vertex_xy vs q)).
Proof.
  intros Hwf Hvwf Hfront E.
  destruct (EdgeList_wf_split front pre post e Hwf Hfront) as (Hpre & _ & Hlt).
  unfold Front.refine_edge, EdgeList.get, Vertices.get in E.
  rewrite Hfront, (EdgeList_find_app _ e pre post Hpre eq_refl) in E.
  exec_simpl in E.
  destruct (Vertices.find (Edge.v1 e) _) as [a|] eqn:Fa; [|done].
  destruct (Vertices.find (Edge.v2 e) _) as [b|] eqn:Fb; [|done].
  exec_simpl in E. apply bind_Ret_inv in E as (xy_new & _ & E).
  destruct (Nat.ltb_spec (length xy_new) 3) as [Hshort|Hlong].
  { injection E as <- <- <-. by left. }
  destruct (create_sub_edges_spec e xy_new front vs pre post Hwf Hvwf Hfront)
    as (news & vs' & Esub & Hlinks & Hptrs & Hwf' & Hfr' & Hold & _).
  { unfold vertex_xy. rewrite Fa. by eexists. }
  { unfold vertex_xy. rewrite Fb. by eexists. }
  rewrite Esub in E. exec_simpl in E. injection E as <- <- <-. right.
  split; [done|]. exists news, (seq (Vertices.fresh vs) (length xy_new - 2)).
  split; [|split; [done|split; [done|split; [done|split; [done|split; [done|split]]]]]].
  - intros Hnil. apply (f_equal length) in Hnil. rewrite length_seq in Hnil.
    cbn in Hnil. lia.
  - lia.
  - done.
Qed.

Lemma EdgeList_wf_chain (front front1 : EdgeList) (pre post news : list Edge)
    (e : Edge) :
  EdgeList.wf front →
  EdgeList.edges_ front = pre ++ e :: post →
  EdgeList.edges_ front1 = pre ++ news ++ e :: post →
  EdgeList.fresh front1 = EdgeList.fresh front + length news →
  map Edge.ptr news = seq (EdgeList.fresh front) (length news) →
  EdgeList.wf front1.
Proof.
  rewrite !EdgeList_wf_handles. intros [Hnd Hlt] Hfront Hfront1 Hfr Hptrs.
  rewrite Hfront in Hnd, Hlt. rewrite Hfront1, Hfr.
  assert (map Edge.ptr (pre ++ news ++ e :: post) ≡ₚ
          map Edge.ptr news ++ map Edge.ptr (pre ++ e :: post)) as Hp.
  { rewrite !map_app. rewrite (app_assoc (map Edge.ptr pre)).
    rewrite (Permutation_app_comm (map Edge.ptr pre)). by rewrite <- app_assoc. }
  rewrite Hp, Hptrs. split.
  - apply NoDup_app. split; [apply NoDup_seq|]. split; [|done].
    intros q Hq Hq'. apply elem_of_seq in Hq.
    rewrite Forall_forall in Hlt. specialize (Hlt _ Hq'). lia.
  - apply Forall_app. split.
    + apply Forall_forall. intros q Hq. apply elem_of_seq in Hq. lia.
    + eapply Forall_impl; [exact Hlt|]. intros q Hq. cbn in Hq. lia.
Qed.

Lemma Forall2_impl_elem {A B} (R R' : A → B → Prop) (l : list A) (k : list B) :
  Forall2 R l k → (∀ x y, x ∈ l → R x y → R' x y) → Forall2 R' l k.
Proof.
  induction 1 as [|x y l k Hxy _ IH]; intros Himp; [constructor|].
  constructor; [apply Himp; [left|done]|].
  apply IH. intros x' y' Hx'. apply Himp. by right.
Qed.

Lemma NoDup_map_filter {A B} (f : A → B) (P : A → Prop) `{∀ x, Decision (P x)}
    (l : list A) :
  NoDup (map f l) → NoDup (map f (filter P l)).
Proof.
  induction l as [|x l IH]; [done|]. cbn [map]. intros Hnd.
  apply NoDup_cons in Hnd as (Hx & Hnd). rewrite filter_cons.
  destruct (decide (P x)); [|by apply IH]. cbn [map]. apply NoDup_cons.
  split; [|by apply IH]. intros Hin. apply Hx.
  apply list_elem_of_fmap in Hin as (y & Hy & Hin).
  apply list_elem_of_filter in Hin as (_ & Hin). rewrite Hy.
  by apply list_elem_of_fmap_2.
Qed.

Lemma without_wf (removed : list EdgePtr) (front : EdgeList) :
  EdgeList.wf front → EdgeList.wf (without removed front).
Proof.
  intros [Hnd Hlt]. split; cbn.
  - by apply NoDup_map_filter.
  - apply Forall_forall. intros e He. apply list_elem_of_filter in He as (_ & He).
    rewrite Forall_forall in Hlt. by apply Hlt.
Qed.

Lemma filter_concat {A} (P : A → Prop) `{∀ x, Decision (P x)} (ls : list (list A)) :
  filter P (concat ls) = concat (map (filter P) ls).
Proof.
  induction ls as [|l ls IH]; [done|]. cbn. by rewrite filter_app, IH.
Qed.

Lemma to_refine_cons (e : Edge) (l : list Edge) :
  to_refine (e :: l) =
  match Edge.twin_edge e with
  | None => Edge.ptr e :: to_refine l
  | Some _ => to_refine l
  end.
Proof. unfold to_refine, Front.get_edges_to_refine. cbn. by destruct (Edge.twin_edge e). Qed.

Lemma refined_part_later (removed : list EdgePtr) (lo p : EdgePtr) (e : Edge)
    (part : list Edge) :
  Edge.ptr e ≠ p → refined_part removed lo e part →
  refined_part (p :: removed) lo e part.
Proof.
  intros Hne [[-> Hout]|(Htw & Hin & Hrest)].
  - left. split; [done|]. by apply not_elem_of_cons.
  - right. split; [done|]. split; [by right|done].
Qed.

(** The run of the refinement over the edges [rest] of a front that begins
    with [pre]: every edge of [rest] is still in its place, after the
    chain that was made of it if it was refined. *)
Lemma refine_run_parts `{Build} (fuel : nat) (domain : Domain) (lo : EdgePtr)
    (rest : list Edge) :
  ∀ (pre : list Edge) (front front' : EdgeList) (vs vs' : Vertices)
    (removed : list EdgePtr),
  EdgeList.wf front → Vertices.wf vs →
  EdgeList.edges_ front = pre ++ rest →
  lo ≤ EdgeList.fresh front →
  refine_run fuel domain (to_refine rest) front vs removed front' vs' →
  ∃ parts,
    EdgeList.edges_ front' = pre ++ concat parts ∧
    Forall2 (refined_part removed lo) rest parts ∧
    Forall (λ p, p ∈ map Edge.ptr rest) removed ∧
    EdgeList.wf front' ∧ Vertices.wf vs' ∧
    Vertices.fresh vs ≤ Vertices.fresh vs' ∧
    (∀ q, q < Vertices.fresh vs → vertex_xy vs' q = vertex_xy vs q).
Proof.
  induction rest as [|e rest IH];
    intros pre front front' vs vs' removed Hwf Hvwf Hfront Hlo Hrun.
  - inversion Hrun; subst. exists []. cbn. by rewrite app_nil_r in *.
  - assert (Edge.ptr e ∉ map Edge.ptr rest) as Hfresh.
    { destruct Hwf as [Hnd _]. rewrite Hfront, map_app in Hnd. cbn in Hnd.
      apply NoDup_app in Hnd as (_ & _ & Hnd). by apply NoDup_cons in Hnd as (? & _). }
    assert (∀ removed0 parts0,
              Forall (λ p, p ∈ map Edge.ptr rest) removed0 →
              Forall2 (refined_part removed0 lo) rest parts0 →
              (Edge.ptr e ∉ removed0) ∧
              Forall2 (refined_part (Edge.ptr e :: removed0) lo) rest parts0)
      as Hlater.
    { intros removed0 parts0 Hsub Hparts. split.
      - intros Hin. rewrite Forall_forall in Hsub. by apply Hfresh, Hsub.
      - apply (Forall2_impl_elem _ _ _ _ Hparts). intros x y Hx Hxy.
        apply refined_part_later; [|done]. intros Heq. apply Hfresh.
        rewrite <- Heq. by apply list_elem_of_fmap_2. }
    rewrite to_refine_cons in Hrun. destruct (Edge.twin_edge e) as [tw|] eqn:Htw.
    + destruct (IH (pre ++ [e]) front front' vs vs' removed Hwf Hvwf)
        as (parts & Hedges & Hparts & Hsub & Hwf' & Hvwf' & Hfr & Hold);
        [by rewrite <- app_assoc|done|done|].
      exists ([e] :: parts). split; [by rewrite Hedges, <- app_assoc|].
      destruct (Hlater removed parts Hsub Hparts) as (Hout & _).
      split; [constructor; [by left|done]|]. split; [|done].
      eapply Forall_impl; [exact Hsub|]. intros p Hp. by right.
    + inversion Hrun as [|? ? ? ? ok front1 vs1 removed0 ? ? Eedge Hrun']; subst.
      destruct (refine_edge_outcome fuel domain front front1 vs vs1 pre rest e ok
                  Hwf Hvwf Hfront Eedge)
        as [(-> & -> & ->)|(-> & news & mids & Hmids & Hedges1 & Hfr1 & Hlinks & Hptrs
                             & Hvwf1 & Hvfr1 & Hold1)].
      * destruct (IH (pre ++ [e]) front front' vs vs' removed0 Hwf Hvwf)
          as (parts & Hedges & Hparts & Hsub & Hwf' & Hvwf' & Hfr & Hold);
          [by rewrite <- app_assoc|done|done|].
        exists ([e] :: parts). split; [by rewrite Hedges, <- app_assoc|].
        destruct (Hlater removed0 parts Hsub Hparts) as (Hout & _).
        split; [constructor; [by left|done]|]. split; [|done].
        eapply Forall_impl; [exact Hsub|]. intros p Hp. by right.
      * assert (EdgeList.wf front1) as Hwf1
          by by apply (EdgeList_wf_chain front front1 pre rest news e).
        destruct (IH (pre ++ news ++ [e]) front1 front' vs1 vs' removed0 Hwf1 Hvwf1)
          as (parts & Hedges & Hparts & Hsub & Hwf' & Hvwf' & Hfr & Hold);
          [by rewrite Hedges1, <- !app_assoc|lia|done|].
        exists ((news ++ [e]) :: parts).
        split; [by rewrite Hedges; cbn; rewrite <- !app_assoc|].
        destruct (Hlater removed0 parts Hsub Hparts) as (_ & Hparts').
        split; [|split; [|split; [done|split; [done|split; [lia|]]]]].
        -- constructor; [|done]. right. split; [done|]. split; [by left|].
           exists news, mids. repeat (split; [done|]).
           apply Forall_forall. intros x Hx.
           assert (Edge.ptr x ∈ map Edge.ptr news) as Hin
             by by apply list_elem_of_fmap_2.
           rewrite Hptrs in Hin. apply elem_of_seq in Hin. lia.
        -- constructor; [by left|].
           eapply Forall_impl; [exact Hsub|]. intros p Hp. by right.
        -- intros q Hq. rewrite Hold by lia. by apply Hold1.
Qed.

Lemma refined_part_replaced (removed : list EdgePtr) (lo : EdgePtr) (e : Edge)
    (part : list Edge) :
  Forall (λ p, p < lo) removed → refined_part removed lo e part →
  replaced_by e (filter (λ x, Edge.ptr x ∉ removed) part).
Proof.
  intros Hlo [[-> Hout]|(Htw & Hin & news & mids & -> & Hmids & Hlinks & Hnews)].
  - left. by rewrite filter_cons_True, filter_nil.
  - right. split; [done|]. exists mids. split; [done|].
    rewrite filter_app, filter_cons_False, filter_nil, app_nil_r
      by (intros Hc; by apply Hc).
    rewrite filter_Forall; [done|]. eapply Forall_impl; [exact Hnews|].
    intros x Hx Hc. rewrite Forall_forall in Hlo. specialize (Hlo _ Hc). cbn in Hx. lia.
Qed.

Lemma refine_front_edges_parts `{Build} (fuel : nat) (domain : Domain)
    (front front' : EdgeList) (vs vs' : Vertices) (n : Z) :
  EdgeList.wf front → Vertices.wf vs →
  Front.refine_front_edges fuel domain front vs = Ret (n, front', vs') →
  ∃ parts,
    EdgeList.edges_ front' = concat parts ∧
    Forall2 replaced_by (EdgeList.edges_ front) parts ∧
    (∀ q, q < Vertices.fresh vs → vertex_xy vs' q = vertex_xy vs q) ∧
    EdgeList.wf front' ∧ Vertices.wf vs'.
Proof.
  intros Hwf Hvwf E. unfold Front.refine_front_edges in E.
  apply bind_Ret_inv in E as ([[rem front1] vs1] & Eloop & E).
  apply bind_Ret_inv in E as (front3 & Earea & E). injection E as <- <- <-.
  apply refine_loop_run in Eloop as (removed & -> & Hrun).
  apply compute_area_edges in Earea as (Hedges & Hfresh).
  rewrite remove_all_without in Hedges, Hfresh. cbn [app] in Hedges, Hfresh.
  destruct (refine_run_parts fuel domain (EdgeList.fresh front) (EdgeList.edges_ front)
              [] front front1 vs vs1 removed Hwf Hvwf eq_refl (le_n _) Hrun)
    as (parts & Hparts & Hall & Hsub & Hwf1 & Hvwf1 & _ & Hold).
  assert (Forall (λ p, p < EdgeList.fresh front) removed) as Hlo.
  { eapply Forall_impl; [exact Hsub|]. intros p Hp. cbn in Hp.
    apply list_elem_of_fmap in Hp as (e & -> & He).
    destruct Hwf as [_ Hlt]. rewrite Forall_forall in Hlt. by apply Hlt. }
  exists (map (filter (λ x, Edge.ptr x ∉ removed)) parts).
  split; [|split; [|split; [done|split; [|done]]]].
  - rewrite Hedges. unfold without. cbn [EdgeList.edges_ app] in *.
    by rewrite Hparts, filter_concat.
  - apply Forall2_fmap_r. eapply Forall2_impl; [exact Hall|].
    intros e part Hpart. by apply (refined_part_replaced removed (EdgeList.fresh front)).
  - pose proof (without_wf removed front1 Hwf1) as [Hnd Hlt].
    split; [by rewrite Hedges|]. by rewrite Hedges, Hfresh.
Qed.


(** [refine_front_edges] on a front and a vertex container with distinct
    identities: when it returns, the front is the front it was given with
    every edge either left in its place or replaced, in its place, by a
    chain of at least two new edges that leads from the first to the second
    vertex of the edge and carries its marker; only edges without a twin
    are replaced, the order of the front is kept, and all vertices that
    were there keep their coordinates. *)
Theorem refine_front_edges_in_place `{Build} (fuel : nat) (domain : Domain)
    (front front' : EdgeList) (vs vs' : Vertices) (n : Z) :
  EdgeList.wf front → Vertices.wf vs →
  Front.refine_front_edges fuel domain front vs = Ret (n, front', vs') →
  ∃ parts,
    EdgeList.edges_ front' = concat parts ∧
    Forall2 replaced_by (EdgeList.edges_ front) parts ∧
    (∀ q, q < Vertices.fresh vs → vertex_xy vs' q = vertex_xy vs q) ∧
    EdgeList.wf front' ∧ Vertices.wf vs' ∧
    n = (Z.of_nat (length (concat parts)) - Z.of_nat (length parts))%Z.
Proof.
  intros Hwf Hvwf E.
  destruct (refine_front_edges_parts fuel domain front front' vs vs' n Hwf Hvwf E)
    as (parts & Hedges & Hall & Hold & Hwf' & Hvwf').
  exists parts. repeat (split; [done|]).
  apply refine_front_edges_inv in E as (_ & _ & _ & _ & ->).
  unfold EdgeList.size. rewrite Hedges. by rewrite (Forall2_length _ _ _ Hall).
Qed.

Lemma beside4_vertices_wf : Vertices.wf (snd Scenario.beside4).
Proof.
  split.
  - apply (bool_decide_unpack _). vm_compute. exact I.
  - apply (bool_decide_unpack _). vm_compute. exact I.
Qed.

Lemma refine_front_edges_in_place_witness :
  ∃ parts,
    EdgeList.edges_ (fst Scenario.beside13) = concat parts ∧
    Forall2 replaced_by (EdgeList.edges_ (fst Scenario.beside4)) parts ∧
    (∀ q, q < Vertices.fresh (snd Scenario.beside4) →
          vertex_xy (snd Scenario.beside13) q = vertex_xy (snd Scenario.beside4) q) ∧
    EdgeList.wf (fst Scenario.beside13) ∧ Vertices.wf (snd Scenario.beside13) ∧
    9%Z = (Z.of_nat (length (concat parts)) - Z.of_nat (length parts))%Z.
Proof.
  exact (refine_front_edges_in_place (H := Scenario.debug_build) 10
           (Scenario.uniform 1 0.25) (fst Scenario.beside4) (fst Scenario.beside13)
           (snd Scenario.beside4) (snd Scenario.beside13) 9%Z beside4_wf
           beside4_vertices_wf beside4_refined).
Defined.

(** ** The rings of the front *)

Lemma path_app (l1 l2 : list Edge) :
  ∀ a b c, path a l1 b → path b l2 c → path a (l1 ++ l2) c.
Proof.
  induction l1 as [|e l1 IH]; intros a b c H1 H2.
  - cbn in H1. by subst.
  - destruct H1 as (Ha & H1). split; [done|]. by apply (IH _ b).
Qed.

Lemma links_path (m : Z) (through : list VertexPtr) :
  ∀ (a b : VertexPtr) (l : list Edge),
  links m a through l → last (a :: through) = Some b → path a l b.
Proof.
  induction through as [|v through IH]; intros a b [|e l] Hl Hlast; try done.
  - cbn in Hlast. by injection Hlast as ->.
  - destruct Hl as (H1 & H2 & _ & _ & Hl). rewrite last_cons_cons in Hlast.
    split; [done|]. rewrite H2. by apply IH.
Qed.

Lemma replaced_by_path (e : Edge) (part : list Edge) :
  replaced_by e part → path (Edge.v1 e) part (Edge.v2 e).
Proof.
  intros [->|(_ & mids & _ & Hlinks)]; [done|].
  apply (links_path _ _ _ _ _ Hlinks).
  rewrite app_comm_cons. apply last_app_singleton.
Qed.

Lemma Forall2_concat_inv {A B} (R : A → B → Prop) (ls : list (list A)) :
  ∀ k, Forall2 R (concat ls) k →
       ∃ ks, k = concat ks ∧ Forall2 (Forall2 R) ls ks.
Proof.
  induction ls as [|l ls IH]; intros k Hall.
  - inversion Hall; subst. by exists [].
  - cbn in Hall. apply Forall2_app_inv_l in Hall as (k1 & k2 & H1 & H2 & ->).
    destruct (IH k2 H2) as (ks & -> & Hks). exists (k1 :: ks). split; [done|].
    by constructor.
Qed.

Lemma init_mesh_vertices_loop_inv (front_edges : list SeedEdge) :
  ∀ (i : nat) (is_twin_edge : list bool) (acc new_vertices : list VertexPtr)
    (vs vs' : Vertices),
  Front.init_mesh_vertices_loop front_edges i is_twin_edge acc vs
    = Ret (new_vertices, vs') →
  length new_vertices = length acc + length front_edges ∧
  (Vertices.wf vs → Vertices.wf vs').
Proof.
  induction front_edges as [|s rest IH]; intros i is_twin_edge acc new_vertices vs vs' E.
  - injection E as <- <-. cbn. split; [lia|done].
  - cbn [Front.init_mesh_vertices_loop] in E. apply bind_Ret_inv in E as (tw & _ & E).
    unfold Vertices.push_back in E. cbn [fst snd] in E.
    apply IH in E as (Hlen & Hwf). rewrite length_app in Hlen. cbn in *.
    split; [lia|]. intros Hvs. apply Hwf. repeat apply Vertices_update_wf.
    destruct vs as [cells fr]. by apply Vertices_push_back_wf.
Qed.

Lemma links_marker (m : Z) (through : list VertexPtr) :
  ∀ (a : VertexPtr) (l : list Edge),
  links m a through l → Forall (λ x, Edge.marker x = m) l.
Proof.
  induction through as [|v through IH]; intros a [|e l] Hl; try done.
  destruct Hl as (_ & _ & Hm & _ & Hl). constructor; [done|]. by apply (IH v).
Qed.

Lemma replaced_by_covers (e e' : Edge) (part : list Edge) :
  same_edge e e' → replaced_by e' part → covers e part.
Proof.
  intros (H1 & H2 & H3) Hr. pose proof (replaced_by_path e' part Hr) as Hp.
  rewrite H1, H2 in Hp. split; [|split; [done|]].
  - destruct Hr as [->|(_ & mids & Hmids & Hl)]; [done|].
    apply links_length in Hl. intros ->. rewrite length_app in Hl. cbn in Hl. lia.
  - destruct Hr as [->|(_ & mids & _ & Hl)].
    + by apply Forall_singleton.
    + rewrite <- H3. by apply (links_marker _ _ _ _ Hl).
Qed.

Lemma path_covered (l : list Edge) :
  ∀ (a b : VertexPtr) (parts : list (list Edge)),
  path a l b → Forall2 covers l parts → path a (concat parts) b.
Proof.
  induction l as [|e l IH]; intros a b parts Hp Hall.
  - inversion Hall; subst. done.
  - inversion Hall as [|? part ? parts' (_ & Hpart & _) Hall']; subst.
    destruct Hp as (Ha & Hp). cbn. apply (path_app _ _ _ (Edge.v2 e)).
    + by rewrite <- Ha.
    + by apply IH.
Qed.

Lemma marker_covered (m : Z) (l : list Edge) :
  ∀ parts, Forall (λ x, Edge.marker x = m) l → Forall2 covers l parts →
           Forall (λ x, Edge.marker x = m) (concat parts).
Proof.
  induction l as [|e l IH]; intros parts Hm Hall.
  - inversion Hall; subst. constructor.
  - inversion Hall as [|? part ? parts' (_ & _ & Hpart) Hall']; subst.
    apply Forall_cons in Hm as (He & Hm). cbn. apply Forall_app. split.
    + eapply Forall_impl; [exact Hpart|]. intros x Hx. cbn in Hx. congruence.
    + by apply IH.
Qed.

Lemma nonempty_covered (l : list Edge) (parts : list (list Edge)) :
  l ≠ [] → Forall2 covers l parts → concat parts ≠ [].
Proof.
  intros Hl Hall. destruct Hall as [|e part l parts (Hne & _) _]; [done|].
  cbn. intros Happ. apply app_eq_nil in Happ as [-> _]. done.
Qed.

Lemma concat_singletons {A} (l : list A) : concat (map (λ x, [x]) l) = l.
Proof. induction l as [|x l IH]; [done|]. cbn. by rewrite IH. Qed.

Lemma concat_concat {A} (ks : list (list (list A))) :
  concat (concat ks) = concat (map (λ k, concat k) ks).
Proof. induction ks as [|k ks IH]; [done|]. cbn. by rewrite concat_app, IH. Qed.

Lemma path_concat_indexed (g : nat → VertexPtr) (parts : list (list Edge)) :
  ∀ i, (∀ k part, parts !! k = Some part → path (g (i + k)) part (g (i + S k))) →
       path (g i) (concat parts) (g (i + length parts)).
Proof.
  induction parts as [|p parts IH]; intros i Hl.
  - cbn. by rewrite Nat.add_0_r.
  - cbn [concat]. apply (path_app _ _ _ (g (S i))).
    + specialize (Hl 0 p eq_refl). rewrite Nat.add_0_r in Hl.
      by replace (i + 1) with (S i) in Hl by lia.
    + replace (i + length (p :: parts)) with (S i + length parts) by (cbn; lia).
      apply IH. intros k part Hk. specialize (Hl (S k) part Hk).
      replace (S i + k) with (i + S k) by lia.
      by replace (S i + S k) with (i + S (S k)) by lia.
Qed.

Lemma boundary_ring_closed (vs : Vertices) (fi : FrontInitializer.t) (i : nat)
    (ring : list Edge) :
  boundary_ring vs fi i ring → closed_ring ring.
Proof.
  intros (ss & tws & ms & corners & parts & _ & _ & _ & Hc & _ & Hp & -> & Hall).
  set (g := λ k, default (0 : VertexPtr) (corners !! (k `mod` length corners))).
  exists (g 0).
  assert (g (0 + length parts) = g 0) as Hwrap.
  { unfold g. by rewrite Nat.add_0_l, Hp, <- Hc, Nat.Div0.mod_same, Nat.Div0.mod_0_l. }
  rewrite <- Hwrap at 2. apply path_concat_indexed. intros k part Hk.
  pose proof (lookup_lt_Some _ _ _ Hk) as Hlt. rewrite Hp in Hlt.
  destruct (lookup_lt_is_Some_2 ss k Hlt) as (s & Hs).
  destruct (Hall k s Hs) as (tw & m & a & b & part' & _ & _ & Ha & Hb & Hk' & _ & _ & Hpath & _).
  rewrite Hk in Hk'. injection Hk' as <-. unfold g. rewrite !Nat.add_0_l.
  rewrite Hb, Nat.mod_small, Ha by lia. done.
Qed.

Lemma boundary_ring_mono (vs vs' : Vertices) (fi : FrontInitializer.t) (i : nat)
    (ring : list Edge) :
  (∀ q, is_Some (vertex_xy vs q) → vertex_xy vs' q = vertex_xy vs q) →
  boundary_ring vs fi i ring → boundary_ring vs' fi i ring.
Proof.
  intros Hxy (ss & tws & ms & corners & parts & H1 & H2 & H3 & Hc & Hnd & Hp & -> & Hall).
  exists ss, tws, ms, corners, parts. repeat (split; [done|]).
  intros k s Hs.
  destruct (Hall k s Hs) as (tw & m & a & b & part & Htw & Hm & Ha & Hb & Hk & Hv & Hrest).
  exists tw, m, a, b, part. repeat (split; [done|]). split; [|done].
  rewrite Hxy; [done|]. by rewrite Hv.
Qed.

Lemma boundary_ring_refined (vs : Vertices) (fi : FrontInitializer.t) (i : nat)
    (ring : list Edge) (ps : list (list Edge)) :
  boundary_ring vs fi i ring → Forall2 covers ring ps →
  boundary_ring vs fi i (concat ps).
Proof.
  intros (ss & tws & ms & corners & parts & H1 & H2 & H3 & Hc & Hnd & Hp & -> & Hall) Hps.
  apply Forall2_concat_inv in Hps as (qs & -> & Hqs).
  exists ss, tws, ms, corners, (map (λ k, concat k) qs).
  repeat (split; [done|]).
  split; [by rewrite length_map, <- (Forall2_length _ _ _ Hqs)|].
  split; [apply concat_concat|].
  intros k s Hs.
  destruct (Hall k s Hs) as (tw & m & a & b & part & Htw & Hm & Ha & Hb & Hk & Hv & Hne & Hpath & Hmk).
  destruct (Forall2_lookup_l _ _ _ _ _ Hqs Hk) as (q & Hq & Hpq).
  exists tw, m, a, b, (concat q). repeat (split; [done|]).
  split; [by rewrite list_lookup_fmap, Hq|]. split; [done|].
  split; [by apply (nonempty_covered part)|].
  split; [by apply (path_covered part)|by apply (marker_covered m part)].
Qed.

Lemma same_edge_refl (e : Edge) : same_edge e e.
Proof. done. Qed.

Lemma same_edge_trans (e1 e2 e3 : Edge) :
  same_edge e1 e2 → same_edge e2 e3 → same_edge e1 e3.
Proof. intros (A1 & A2 & A3) (B1 & B2 & B3). repeat split; congruence. Qed.

Lemma seed_cells_find (front_edges : list SeedEdge) :
  ∀ (is_twin_edge : list bool) (fr k : nat) (s : SeedEdge) (tw : bool),
  front_edges !! k = Some s → is_twin_edge !! k = Some tw →
  Vertices.find (fr + k) (seed_cells fr front_edges is_twin_edge) =
  Some (seed_vertex s tw).
Proof.
  induction front_edges as [|s0 rest IH]; intros [|tw0 tws] fr k s tw Hs Htw; try done.
  destruct k as [|k]; cbn [seed_cells Vertices.find fst snd].
  - injection Hs as ->. injection Htw as ->. by rewrite Nat.add_0_r, Nat.eqb_refl.
  - destruct (Nat.eqb_spec fr (fr + S k)) as [Heq|_]; [lia|].
    replace (fr + S k) with (S fr + k) by lia. by apply IH.
Qed.

Lemma Vertices_find_ge (vs : Vertices) (q : VertexPtr) :
  Vertices.wf vs → Vertices.fresh vs ≤ q → Vertices.find q (Vertices.cells vs) = None.
Proof.
  intros Hwf Hq. destruct (Vertices.find q (Vertices.cells vs)) as [v|] eqn:Hv; [|done].
  apply (Vertices_find_lt vs q v Hwf) in Hv. lia.
Qed.

(** What [init_mesh_vertices] has done when it has returned. *)
Lemma init_mesh_vertices_corners (front_edges : list SeedEdge)
    (is_twin_edge : list bool) (new_vertices : list VertexPtr) (vs vs' : Vertices) :
  Vertices.wf vs →
  Front.init_mesh_vertices front_edges is_twin_edge vs = Ret (new_vertices, vs') →
  new_vertices = seq (Vertices.fresh vs) (length front_edges) ∧
  Vertices.wf vs' ∧
  (∀ q, is_Some (vertex_xy vs q) → vertex_xy vs' q = vertex_xy vs q) ∧
  ∀ k s, front_edges !! k = Some s →
    ∃ tw, is_twin_edge !! k = Some tw ∧
          vertex_xy vs' (Vertices.fresh vs + k) =
          Some (if tw : bool then seed_v2_xy s else seed_v1_xy s).
Proof.
  intros Hwf E. unfold Front.init_mesh_vertices in E.
  destruct (le_lt_dec (length front_edges) (length is_twin_edge)) as [Hlen|Hlen].
  - pose proof (init_mesh_vertices_loop_inv _ _ _ _ _ _ _ E) as (_ & Hwf').
    rewrite init_mesh_vertices_loop_spec in E by done. injection E as <- <-.
    rewrite drop_0 in *. split; [done|]. split; [by apply Hwf'|]. split.
    + intros q Hq. unfold vertex_xy in *. cbn [Vertices.cells].
      rewrite Vertices_find_app.
      destruct (Vertices.find q (Vertices.cells vs)); [done|].
      by destruct Hq.
    + intros k s Hs. pose proof (lookup_lt_Some _ _ _ Hs) as Hk.
      destruct (lookup_lt_is_Some_2 is_twin_edge k) as (tw & Htw); [lia|].
      exists tw. split; [done|]. unfold vertex_xy. cbn [Vertices.cells].
      rewrite Vertices_find_app, (Vertices_find_ge vs) by (done || lia).
      rewrite (seed_cells_find _ _ _ _ s tw Hs Htw). by destruct tw.
  - rewrite init_mesh_vertices_loop_short in E by lia. done.
Qed.

Lemma init_front_edges_loop_ring (rest : list SeedEdge) :
  ∀ (i : nat) (markers : list Z) (new_vertices : list VertexPtr)
    (acc new_edges : list EdgePtr) (front front' : EdgeList) (vs vs' : Vertices),
  Front.init_front_edges_loop rest i markers new_vertices acc front vs
    = Ret (new_edges, front', vs') →
  ∃ news,
    EdgeList.edges_ front' = EdgeList.edges_ front ++ news ∧
    length news = length rest ∧
    (∀ k e, news !! k = Some e →
            new_vertices !! (i + k) = Some (Edge.v1 e) ∧
            new_vertices !! (S (i + k) `mod` length new_vertices) = Some (Edge.v2 e) ∧
            markers !! (i + k) = Some (Edge.marker e)) ∧
    (Vertices.wf vs → Vertices.wf vs') ∧
    (∀ q, vertex_xy vs' q = vertex_xy vs q).
Proof.
  induction rest as [|s rest IH];
    intros i markers new_vertices acc new_edges front front' vs vs' E.
  - injection E as <- <- <-. exists []. rewrite app_nil_r. split; [done|].
    split; [done|]. split; [|done]. intros k e Hk. by rewrite lookup_nil in Hk.
  - cbn [Front.init_front_edges_loop] in E. rewrite Nat2Z.id in E.
    apply bind_Ret_inv in E as (a & Ea & E). apply bind_Ret_inv in E as (b & Eb & E).
    apply bind_Ret_inv in E as (m & Em & E).
    apply bind_Ret_inv in E as ([[e_new front1] vs1] & Eadd & E).
    apply add_edge_inv in Eadd as (_ & H1 & H2 & H3 & _ & Hedges & _ & _ & ->).
    unfold at_index in Ea, Eb, Em.
    destruct (new_vertices !! i) as [a'|] eqn:Ha; [|done]. injection Ea as ->.
    destruct (markers !! i) as [m'|] eqn:Hm; [|done]. injection Em as ->.
    assert (0 < length new_vertices) as Hpos
      by (apply lookup_lt_Some in Ha; lia).
    rewrite (MOD_succ_nat _ _ Hpos) in Eb.
    destruct (new_vertices !! ((i + 1) `mod` length new_vertices)) as [b'|] eqn:Hb;
      [|done]. injection Eb as ->.
    apply IH in E as (news & Hedges' & Hlen & Hidx & Hwf & Hxy).
    exists (e_new :: news). split; [by rewrite Hedges', Hedges, <- app_assoc|].
    split; [cbn; by rewrite Hlen|]. split; [|split].
    + intros [|k] e Hk.
      * injection Hk as <-. rewrite !Nat.add_0_r, H1, H2, H3.
        replace (S i) with (i + 1) by lia. done.
      * cbn in Hk. destruct (Hidx k e Hk) as (Hk1 & Hk2 & Hk3).
        replace (i + S k) with (S i + k) by lia. done.
    + intros Hvs. apply Hwf. unfold Front.mark_objects.
      by repeat apply Vertices_update_wf.
    + intros q. rewrite Hxy. unfold Front.mark_objects.
      rewrite vertex_xy_update by done. by rewrite vertex_xy_update.
Qed.

Lemma mark_twin_edges_loop_ends (front_edges : list SeedEdge) :
  ∀ (i : nat) (is_twin_edge : list bool) (new_edges : list EdgePtr)
    (front front' : EdgeList) (seeds seeds' : list (EdgePtr * EdgePtr)),
  Front.mark_twin_edges_loop front_edges i is_twin_edge new_edges front seeds
    = Ret (front', seeds') →
  Forall2 same_edge (EdgeList.edges_ front) (EdgeList.edges_ front').
Proof.
  induction front_edges as [|s rest IH];
    intros i is_twin_edge new_edges front front' seeds seeds' E.
  - injection E as <- <-. apply Forall_Forall2_diag, Forall_forall. intros e _.
    apply same_edge_refl.
  - cbn [Front.mark_twin_edges_loop] in E.
    apply bind_Ret_inv in E as (tw & _ & E). apply bind_Ret_inv in E as (ne & _ & E).
    destruct tw.
    + apply IH in E. cbn in E.
      assert (Forall2 same_edge (EdgeList.edges_ front)
                (map (λ e, if Nat.eqb (Edge.ptr e) ne
                           then Edge.set_twin_edge (Some (seed_ptr s)) e else e)
                   (EdgeList.edges_ front))) as Hstep.
      { apply Forall2_fmap_r, Forall_Forall2_diag, Forall_forall. intros e _.
        unfold compose. by destruct (Nat.eqb (Edge.ptr e) ne). }
      eapply Forall2_trans; [|exact Hstep|exact E].
      intros e1 e2 e3. apply same_edge_trans.
    + apply bind_Ret_inv in E as (e & _ & E). apply bind_Ret_inv in E as (u & _ & E).
      by apply IH in E.
Qed.

(** The ring that one pass of the loop of [init_front] has appended. *)
Lemma seeded_ring (vs : Vertices) (fi : FrontInitializer.t) (i : nat)
    (front_edges : list SeedEdge) (is_twin_edge : list bool) (markers : list Z)
    (corners : list VertexPtr) (ring : list Edge) :
  FrontInitializer.edges fi !! i = Some front_edges →
  FrontInitializer.is_twin_edge fi !! i = Some is_twin_edge →
  FrontInitializer.markers fi !! i = Some markers →
  length corners = length front_edges → NoDup corners →
  length ring = length front_edges →
  (∀ k s, front_edges !! k = Some s →
     ∃ tw a, is_twin_edge !! k = Some tw ∧ corners !! k = Some a ∧
             vertex_xy vs a = Some (if tw : bool then seed_v2_xy s else seed_v1_xy s)) →
  (∀ k e, ring !! k = Some e →
     corners !! k = Some (Edge.v1 e) ∧
     corners !! (S k `mod` length corners) = Some (Edge.v2 e) ∧
     markers !! k = Some (Edge.marker e)) →
  boundary_ring vs fi i ring.
Proof.
  intros H1 H2 H3 Hc Hnd Hr Hseed Hring.
  exists front_edges, is_twin_edge, markers, corners, (map (λ e, [e]) ring).
  repeat (split; [done|]). split; [by rewrite length_map|].
  split; [by rewrite concat_singletons|]. intros k s Hs.
  destruct (Hseed k s Hs) as (tw & a & Htw & Ha & Hv).
  destruct (lookup_lt_is_Some_2 ring k) as (e & He);
    [rewrite Hr; by apply (lookup_lt_Some _ _ _ Hs)|].
  destruct (Hring k e He) as (E1 & E2 & E3).
  exists tw, (Edge.marker e), a, (Edge.v2 e), [e]. repeat (split; [done|]).
  split; [by rewrite list_lookup_fmap, He|]. split; [done|]. split; [done|].
  split; [|by apply Forall_singleton]. split; [|done]. congruence.
Qed.

Lemma same_edge_ring (vs : Vertices) (fi : FrontInitializer.t) (i : nat)
    (ring ring' : list Edge) :
  Forall2 same_edge ring ring' → boundary_ring vs fi i ring →
  boundary_ring vs fi i ring'.
Proof.
  intros Hsame Hring.
  replace ring' with (concat (map (λ e, [e]) ring')) by apply concat_singletons.
  apply (boundary_ring_refined vs fi i ring); [done|].
  apply Forall2_fmap_r. eapply Forall2_impl; [exact Hsame|].
  intros e e' (E1 & E2 & E3). unfold compose, covers. split; [done|].
  split; [by split|]. by apply Forall_singleton.
Qed.

Lemma init_front_loop_seeds (n_bdry : nat) :
  ∀ (i_bdry : nat) (fi : FrontInitializer.t) (front front' : EdgeList)
    (vs vs' : Vertices) (seeds seeds' : list (EdgePtr * EdgePtr)),
  Vertices.wf vs →
  Front.init_front_loop n_bdry i_bdry fi front vs seeds = Ret (front', vs', seeds') →
  ∃ olds news,
    EdgeList.edges_ front' = olds ++ concat news ∧
    Forall2 same_edge (EdgeList.edges_ front) olds ∧
    length news = n_bdry ∧
    (∀ j ring, news !! j = Some ring → boundary_ring vs' fi (i_bdry + j) ring) ∧
    Vertices.wf vs' ∧
    (∀ q, is_Some (vertex_xy vs q) → vertex_xy vs' q = vertex_xy vs q).
Proof.
  induction n_bdry as [|n IH];
    intros i_bdry fi front front' vs vs' seeds seeds' Hwf E.
  - injection E as <- <- <-. exists (EdgeList.edges_ front), [].
    cbn. rewrite app_nil_r. split; [done|].
    split; [apply Forall_Forall2_diag, Forall_forall; intros e _; apply same_edge_refl|].
    split; [done|]. split; [|done]. intros j ring Hj. by rewrite lookup_nil in Hj.
  - cbn [Front.init_front_loop] in E.
    apply bind_Ret_inv in E as (front_edges & E1 & E).
    apply bind_Ret_inv in E as (is_twin_edge & E2 & E).
    apply bind_Ret_inv in E as (markers & E3 & E).
    apply bind_Ret_inv in E as ([new_vertices vs1] & Everts & E).
    apply bind_Ret_inv in E as ([[new_edges front1] vs2] & Eedges & E).
    apply bind_Ret_inv in E as ([front2 seeds1] & Etwin & E).
    unfold at_index in E1, E2, E3.
    destruct (FrontInitializer.edges fi !! i_bdry) as [x|] eqn:F1; [|done].
    injection E1 as ->.
    destruct (FrontInitializer.is_twin_edge fi !! i_bdry) as [x|] eqn:F2; [|done].
    injection E2 as ->.
    destruct (FrontInitializer.markers fi !! i_bdry) as [x|] eqn:F3; [|done].
    injection E3 as ->.
    apply (init_mesh_vertices_corners _ _ _ _ _ Hwf) in Everts
      as (-> & Hwf1 & Hxy1 & Hseed).
    apply init_front_edges_loop_ring in Eedges
      as (news & Hedges1 & Hnews & Hidx & Hwf2 & Hxy2).
    apply mark_twin_edges_loop_ends in Etwin. rewrite Hedges1 in Etwin.
    apply Forall2_app_inv_l in Etwin as (o1 & o2 & Ho1 & Ho2 & Hedges2).
    destruct (IH _ _ _ _ _ _ _ _ (Hwf2 Hwf1) E)
      as (olds & rings & Hedges' & Holds & Hlen & Hrings & Hwf' & Hxy').
    rewrite Hedges2 in Holds.
    apply Forall2_app_inv_l in Holds as (p1 & p2 & Hp1 & Hp2 & ->).
    exists p1, (p2 :: rings). split; [by rewrite Hedges', <- app_assoc|].
    split; [eapply Forall2_trans; [|exact Ho1|exact Hp1]; apply same_edge_trans|].
    split; [cbn; by rewrite Hlen|]. split; [|split; [done|]].
    + intros [|j] ring Hj.
      * injection Hj as <-. rewrite Nat.add_0_r.
        apply (same_edge_ring _ _ _ news).
        { eapply Forall2_trans; [|exact Ho2|exact Hp2]. apply same_edge_trans. }
        apply (boundary_ring_mono vs2); [done|].
        apply (seeded_ring vs2 fi i_bdry front_edges is_twin_edge markers
                 (seq (Vertices.fresh vs) (length front_edges)) news);
          try done.
        { by rewrite length_seq. }
        { apply NoDup_seq. }
        intros k s Hs. destruct (Hseed k s Hs) as (tw & Htw & Hv).
        exists tw, (Vertices.fresh vs + k). split; [done|].
        split; [|by rewrite Hxy2].
        apply lookup_seq. split; [done|]. by apply (lookup_lt_Some _ _ _ Hs).
      * cbn in Hj. replace (i_bdry + S j) with (S i_bdry + j) by lia.
        by apply Hrings.
    + intros q Hq. rewrite Hxy', Hxy2, Hxy1; [done|done|].
      by rewrite Hxy2, Hxy1.
Qed.

(** [init_front] on a front that consists of closed rings (the empty front,
    for one) and on vertices with distinct identities: when it returns,
    the front consists of the rings it had, each edge of them kept or
    refined in place, followed by one new ring for every boundary of the
    domain, in the order of the boundaries. The ring of boundary i has one
    part for every seed edge of that boundary, in order: at least one edge,
    with the marker of the seed edge, leading from the corner of that seed
    edge to the corner of the next one, cyclically; the corners are distinct
    vertices and stand at the first vertex of their seed edge, or at its
    second one for a twin. Every ring is closed: each edge begins where the
    edge before it ends and the last edge ends where the first begins. The
    vertices that were there keep their coordinates. *)
Theorem init_front_rings `{Build} (fuel : nat) (domain : Domain)
    (fi : FrontInitializer.t) (front front' : EdgeList) (vs vs' : Vertices)
    (seeds : list (EdgePtr * EdgePtr)) (rings : list (list Edge)) :
  EdgeList.wf front → Vertices.wf vs → rings_of front rings →
  Front.init_front fuel domain fi front vs = Ret (front', vs', seeds) →
  ∃ olds news,
    rings_of front' (olds ++ news) ∧
    Forall2 refined_ring rings olds ∧
    length news = Domain.size domain ∧
    (∀ i ring, news !! i = Some ring → boundary_ring vs' fi i ring) ∧
    (∀ q, is_Some (vertex_xy vs q) → vertex_xy vs' q = vertex_xy vs q) ∧
    EdgeList.wf front' ∧ Vertices.wf vs'.
Proof.
  intros Hwf Hvwf [Hfront Hclosed] E. unfold Front.init_front in E.
  apply bind_Ret_inv in E as ([[front1 vs1] seeds1] & Eseed & E).
  apply bind_Ret_inv in E as ([[n front2] vs2] & Eref & E). injection E as <- <- <-.
  unfold Front.seed_front in Eseed.
  pose proof (init_front_loop_wf _ _ _ _ _ _ _ _ _ Eseed Hwf) as Hwf1.
  destruct (init_front_loop_seeds _ _ _ _ _ _ _ _ _ Hvwf Eseed)
    as (olds & news & Hedges1 & Holds & Hlen & Hnews & Hvwf1 & Hxy1).
  destruct (refine_front_edges_parts fuel domain front1 front2 vs1 vs2 n Hwf1
              Hvwf1 Eref) as (parts & Hedges2 & Hall & Hxy2 & Hwf2 & Hvwf2).
  rewrite Hedges1 in Hall.
  apply Forall2_app_inv_l in Hall as (po & pn & Hpo & Hpn & ->).
  assert (Forall2 covers (concat rings) po) as Hcov.
  { rewrite <- Hfront. eapply Forall2_trans; [|exact Holds|exact Hpo].
    intros e e' part. apply replaced_by_covers. }
  apply Forall2_concat_inv in Hcov as (pos & -> & Hpos).
  apply Forall2_concat_inv in Hpn as (pns & -> & Hpns).
  assert (∀ q, is_Some (vertex_xy vs1 q) → vertex_xy vs2 q = vertex_xy vs1 q) as Hxy2'.
  { intros q Hq. apply Hxy2. by apply vertex_xy_lt. }
  assert (∀ i ring, map (λ k, concat k) pns !! i = Some ring →
                    boundary_ring vs2 fi i ring) as Hnews2.
  { intros i ring Hi. rewrite list_lookup_fmap in Hi.
    destruct (pns !! i) as [pn|] eqn:Hpn; [|done]. injection Hi as <-.
    destruct (Forall2_lookup_r _ _ _ _ _ Hpns Hpn) as (r & Hr & Hrp).
    apply (boundary_ring_refined vs2 fi i r).
    - apply (boundary_ring_mono vs1); [done|]. specialize (Hnews i r Hr). done.
    - eapply Forall2_impl; [exact Hrp|]. intros e part.
      apply replaced_by_covers, same_edge_refl. }
  exists (map (λ k, concat k) pos), (map (λ k, concat k) pns).
  split; [split|].
  - by rewrite Hedges2, concat_app, concat_app, !concat_concat.
  - apply Forall_app. split.
    + apply Forall_fmap. clear -Hclosed Hpos.
      induction Hpos as [|r ps rs pss Hr _ IH]; [constructor|].
      apply Forall_cons in Hclosed as ((a & Ha) & Hclosed).
      constructor; [|by apply IH]. exists a. by apply (path_covered r).
    + apply Forall_forall. intros ring Hin.
      apply list_elem_of_lookup in Hin as (i & Hi).
      by apply (boundary_ring_closed vs2 fi i), Hnews2.
  - split.
    { apply Forall2_fmap_r. eapply Forall2_impl; [exact Hpos|].
      intros r ps Hr. by exists ps. }
    split; [by rewrite length_map, <- (Forall2_length _ _ _ Hpns)|].
    split; [done|]. split; [|done].
    intros q Hq. rewrite Hxy2', Hxy1; [done|done|]. by rewrite Hxy1.
Qed.

Lemma beside13_wf : EdgeList.wf (fst Scenario.beside13).
Proof.
  split.
  - apply (bool_decide_unpack _). vm_compute. exact I.
  - apply (bool_decide_unpack _). vm_compute. exact I.
Qed.

Lemma beside13_vertices_wf : Vertices.wf (snd Scenario.beside13).
Proof.
  split.
  - apply (bool_decide_unpack _). vm_compute. exact I.
  - apply (bool_decide_unpack _). vm_compute. exact I.
Qed.

(** The thirteen edges of the square beside the mesh go once around it. *)
Lemma beside13_ring : path 0 (EdgeList.edges_ (fst Scenario.beside13)) 0.
Proof. vm_compute. repeat split. Qed.

Lemma beside13_rings :
  rings_of (fst Scenario.beside13) [EdgeList.edges_ (fst Scenario.beside13)].
Proof.
  split; [exact (eq_sym (app_nil_r _))|]. apply Forall_singleton. exists 0.
  apply beside13_ring.
Qed.

Lemma hole_initialised :
  Front.init_front (H := Scenario.debug_build) 10 (Scenario.uniform 1 0.25)
    Scenario.hole_in_square (fst Scenario.beside13) (snd Scenario.beside13) =
  Ret (fst Scenario.beside_with_hole, snd Scenario.beside_with_hole, []).
Proof. vm_compute. reflexivity. Qed.

Lemma init_front_rings_witness :
  ∃ olds news,
    rings_of (fst Scenario.beside_with_hole) (olds ++ news) ∧
    Forall2 refined_ring [EdgeList.edges_ (fst Scenario.beside13)] olds ∧
    length news = Domain.size (Scenario.uniform 1 0.25) ∧
    (∀ i ring, news !! i = Some ring →
               boundary_ring (snd Scenario.beside_with_hole) Scenario.hole_in_square
                 i ring) ∧
    (∀ q, is_Some (vertex_xy (snd Scenario.beside13) q) →
          vertex_xy (snd Scenario.beside_with_hole) q =
          vertex_xy (snd Scenario.beside13) q) ∧
    EdgeList.wf (fst Scenario.beside_with_hole) ∧
    Vertices.wf (snd Scenario.beside_with_hole).
Proof.
  exact (init_front_rings (H := Scenario.debug_build) 10 (Scenario.uniform 1 0.25)
           Scenario.hole_in_square (fst Scenario.beside13)
           (fst Scenario.beside_with_hole) (snd Scenario.beside13)
           (snd Scenario.beside_with_hole) []
           [EdgeList.edges_ (fst Scenario.beside13)]
           beside13_wf beside13_vertices_wf beside13_rings hole_initialised).
Defined.

(** The front with the hole: the thirteen edges of the square, then the
    eight edges of the hole, which carry the marker 2. *)
Lemma beside_with_hole_edges :
  map Edge.marker (EdgeList.edges_ (fst Scenario.beside_with_hole)) =
  replicate 13 1%Z ++ replicate 8 2%Z.
Proof. vm_compute. reflexivity. Qed.

(** ** The refinement, call by call *)








(** With the size 0.25 below y = 0.5 and 10 above, a call for the bottom
    side of the unit square returns true, a call for any other side
    false; the refined front has the four new edges in the place of the
    bottom side. *)
Lemma square4_bottom_only :
  map (λ p, match Front.refine_edge (H := Scenario.debug_build) 10 Scenario.coarse_top p
                    (fst Scenario.square4) (snd Scenario.square4) with
            | Ret (ok, _, _) => Some ok
            | _ => None
            end) [0; 1; 2; 3] = [Some true; Some false; Some false; Some false] ∧
  map Edge.ptr (EdgeList.edges_ (fst Scenario.square7)) = [4; 5; 6; 7; 1; 2; 3].
Proof. split; vm_compute; reflexivity. Qed.

(** ** The refinement and the twins *)

Lemma replaced_by_twin (e : Edge) (part : list Edge) :
  replaced_by e part → is_Some (Edge.twin_edge e) → part = [e].
Proof. intros [->|(Htw & _)] [tw Hs]; [done|congruence]. Qed.

Lemma refine_front_edges_spares `{Build} (fuel : nat) (domain : Domain)
    (front front' : EdgeList) (vs vs' : Vertices) (n : Z) :
  EdgeList.wf front → Vertices.wf vs →
  Front.refine_front_edges fuel domain front vs = Ret (n, front', vs') →
  ∃ parts, twins_spared (EdgeList.edges_ front) (EdgeList.edges_ front') parts.
Proof.
  intros Hwf Hvwf E.
  destruct (refine_front_edges_parts fuel domain front front' vs vs' n Hwf Hvwf E)
    as (parts & Hparts & Hall & _).
  exists parts. split; [done|]. split; [done|]. split.
  - intros i e Hi Htw. destruct (Forall2_lookup_l _ _ _ _ _ Hall Hi) as (part & Hp & Hr).
    by rewrite Hp, (replaced_by_twin e part Hr Htw).
  - by apply (refine_front_edges_twinned fuel domain front front' vs vs' n).
Qed.

(** C6: the refinement considers the edges of the front whose twin is null
    and no others. In [init_front] the refinement pass runs on the front as
    the loop over the boundaries has left it: it calls [refine_edge] for the
    edges without a twin of that front, and when it is over every edge that
    has a twin stands where it stood, neither split nor removed; the edges
    with a twin are the same before and after the pass, in the same order. *)
Theorem refinement_only_without_twin `{Build} (fuel : nat) (domain : Domain)
    (front : EdgeList) (vs : Vertices) :
  EdgeList.wf front → Vertices.wf vs →
  (∀ front1 p,
     p ∈ Front.get_edges_to_refine front1 ↔
     ∃ e, e ∈ EdgeList.edges_ front1 ∧ Edge.ptr e = p ∧ Edge.twin_edge e = None) ∧
  (∀ fi front2 vs2 seeds,
     Front.init_front fuel domain fi front vs = Ret (front2, vs2, seeds) →
     ∃ front1 vs1 n removed front_mid parts,
       Front.seed_front domain fi front vs = Ret (front1, vs1, seeds) ∧
       Front.refine_front_edges fuel domain front1 vs1 = Ret (n, front2, vs2) ∧
       refine_run fuel domain (Front.get_edges_to_refine front1) front1 vs1
         removed front_mid vs2 ∧
       twins_spared (EdgeList.edges_ front1) (EdgeList.edges_ front2) parts).
Proof.
  intros Hwf Hvwf. split.
  - intros front1 p. apply get_edges_to_refine_spec.
  - intros fi front2 vs2 seeds E. unfold Front.init_front in E.
    apply bind_Ret_inv in E as ([[front1 vs1] seeds1] & Eseed & E).
    apply bind_Ret_inv in E as ([[n front3] vs3] & Eref & E). injection E as <- <- <-.
    pose proof (init_front_loop_wf _ _ _ _ _ _ _ _ _ Eseed Hwf) as Hwf1.
    destruct (init_front_loop_seeds _ _ _ _ _ _ _ _ _ Hvwf Eseed)
      as (_ & _ & _ & _ & _ & _ & Hvwf1 & _).
    destruct (refine_front_edges_spares fuel domain front1 front3 vs1 vs3 n Hwf1 Hvwf1 Eref)
      as (parts & Hparts).
    destruct (refine_front_edges_inv _ _ _ _ _ _ _ Eref) as (removed & front_mid & Hrun & _).
    by exists front1, vs1, n, removed, front_mid, parts.
Qed.

Lemma beside4_seeded :
  Front.seed_front (Scenario.uniform 1 0.25) Scenario.square_beside_mesh
    Scenario.empty_front Scenario.empty_vertices =
  Ret (fst Scenario.beside4, snd Scenario.beside4, [(101, 1)]).
Proof. vm_compute. reflexivity. Qed.

Lemma refinement_only_without_twin_witness :
  ∃ front1 vs1 n removed front_mid parts,
    Front.seed_front (Scenario.uniform 1 0.25) Scenario.square_beside_mesh
      Scenario.empty_front Scenario.empty_vertices = Ret (front1, vs1, [(101, 1)]) ∧
    Front.refine_front_edges (H := Scenario.debug_build) 10 (Scenario.uniform 1 0.25)
      front1 vs1 = Ret (n, fst Scenario.beside13, snd Scenario.beside13) ∧
    refine_run (H := Scenario.debug_build) 10 (Scenario.uniform 1 0.25)
      (Front.get_edges_to_refine front1) front1 vs1 removed front_mid
      (snd Scenario.beside13) ∧
    twins_spared (EdgeList.edges_ front1) (EdgeList.edges_ (fst Scenario.beside13)) parts.
Proof.
  exact (proj2 (refinement_only_without_twin (H := Scenario.debug_build) 10
                  (Scenario.uniform 1 0.25) Scenario.empty_front Scenario.empty_vertices
                  empty_front_wf empty_vertices_wf)
           Scenario.square_beside_mesh (fst Scenario.beside13) (snd Scenario.beside13)
           [(101, 1)] beside13_initialised).
Defined.

(** The side of the square that is the twin of the boundary edge 101 is the
    only edge with a twin; it is selected neither before nor after the
    pass. *)
Lemma beside_twin_not_selected :
  Front.get_edges_to_refine (fst Scenario.beside4) = [0; 2; 3] ∧
  map Edge.ptr (twinned (EdgeList.edges_ (fst Scenario.beside4))) = [1] ∧
  map Edge.ptr (twinned (EdgeList.edges_ (fst Scenario.beside13))) = [1].
Proof. repeat split; vm_compute; reflexivity. Qed.

(** ** The constructor of the layer, then smooth_heights *)

Lemma add_quadlayer_edge_found (env : Env) (p : EdgePtr) (q q' : QuadLayer.t) :
  QuadLayer.add_quadlayer_edge env p q = Ret q' →
  is_Some (EdgeList.find p (EdgeList.edges_ (front env))) ∧
  QuadLayer.base_edges_ q' = QuadLayer.base_edges_ q ++ [p].
Proof.
  unfold QuadLayer.add_quadlayer_edge, EdgeList.get. intros E.
  apply bind_Ret_inv in E as (e & Ee & E). apply bind_Ret_inv in E as (a & _ & E).
  apply bind_Ret_inv in E as (b & _ & E). injection E as <-. split; [|done].
  destruct (EdgeList.find p _); [by eexists|done].
Qed.

Lemma walk_found `{EdgeLinks} (fuel : nat) (env : Env) :
  ∀ (e : option EdgePtr) (q q' : QuadLayer.t),
  QuadLayer.walk fuel env e q = Ret q' →
  Forall (λ p, is_Some (EdgeList.find p (EdgeList.edges_ (front env))))
    (QuadLayer.base_edges_ q) →
  Forall (λ p, is_Some (EdgeList.find p (EdgeList.edges_ (front env))))
    (QuadLayer.base_edges_ q') ∧
  length (QuadLayer.base_edges_ q) < length (QuadLayer.base_edges_ q').
Proof.
  induction fuel as [|fuel IH]; intros e q q' E Hq; [done|].
  cbn [QuadLayer.walk] in E.
  apply bind_Ret_inv in E as (_ & _ & E). apply bind_Ret_inv in E as (p & _ & E).
  apply bind_Ret_inv in E as (q1 & E1 & E).
  apply add_quadlayer_edge_found in E1 as (Hp & Hb).
  assert (Forall (λ p, is_Some (EdgeList.find p (EdgeList.edges_ (front env))))
            (QuadLayer.base_edges_ q1)) as Hq1.
  { rewrite Hb. apply Forall_app. split; [done|]. by apply Forall_singleton. }
  assert (length (QuadLayer.base_edges_ q) < length (QuadLayer.base_edges_ q1)) as Hlt.
  { rewrite Hb, length_app. cbn. lia. }
  destruct (bool_decide _).
  - apply IH in E as (Hq' & Hlt'); [|done]. split; [done|lia].
  - by injection E as <-.
Qed.

(** A layer that the constructor has built has at least two base edges,
    the edge it begins with and the edge it ends with, and all its arrays
    have that length; [smooth_heights] on it returns, changing only the
    heights: its accesses are all within the arrays and its base edges are
    all in the front. On a layer without heights, [smooth_heights] reads
    outside the array, because the bound [heights_.size()-1] of its loop
    wraps around. *)
Theorem smooth_heights_after_constructor `{EdgeLinks} (fuel : nat)
    (domain : Domain) (env : Env) (e_start e_end : EdgePtr) (is_closed : bool)
    (height : float) :
  (∀ q,
     QuadLayer.create fuel env e_start e_end is_closed height = Ret q →
     2 ≤ length (QuadLayer.base_edges_ q) ∧ same_lengths q ∧
     head (QuadLayer.base_edges_ q) = Some e_start ∧
     last (QuadLayer.base_edges_ q) = Some e_end ∧
     ((Z.of_nat (length (QuadLayer.heights_ q)) < QuadLayer.size_t_max)%Z →
      ∃ hs', QuadLayer.smooth_heights domain env q =
               Ret (QuadLayer.set_heights_ hs' q) ∧
             length hs' = length (QuadLayer.heights_ q))) ∧
  (∀ q, QuadLayer.heights_ q = [] → QuadLayer.smooth_heights domain env q = Undef).
Proof.
  split.
  - intros q E. pose proof (create_lengths _ _ _ _ _ _ _ E) as Hlen.
    unfold QuadLayer.create in E. apply bind_Ret_inv in E as (q1 & E1 & E).
    assert (head (QuadLayer.base_edges_ q1) = Some e_start) as Hhead.
    { destruct fuel as [|fuel']; [done|]. cbn [QuadLayer.walk] in E1.
      apply bind_Ret_inv in E1 as (_ & _ & E1). apply bind_Ret_inv in E1 as (p & Ep & E1).
      injection Ep as <-. apply bind_Ret_inv in E1 as (q2 & E2 & E1).
      apply add_quadlayer_edge_found in E2 as (_ & Hb2). cbn in Hb2.
      destruct (bool_decide _).
      - destruct fuel' as [|fuel'']; [done|]. cbn [QuadLayer.walk] in E1.
        apply bind_Ret_inv in E1 as (_ & _ & E1).
        apply bind_Ret_inv in E1 as (p' & _ & E1).
        apply bind_Ret_inv in E1 as (q3 & E3 & E1).
        apply add_quadlayer_edge_found in E3 as (_ & Hb3). rewrite Hb2 in Hb3.
        assert (∀ fuel e q q', QuadLayer.walk fuel env e q = Ret q' →
                  ∀ x, head (QuadLayer.base_edges_ q) = Some x →
                       head (QuadLayer.base_edges_ q') = Some x) as Hkeep.
        { clear. induction fuel as [|fuel IH]; intros e q q' E x Hx; [done|].
          cbn [QuadLayer.walk] in E. apply bind_Ret_inv in E as (_ & _ & E).
          apply bind_Ret_inv in E as (p & _ & E). apply bind_Ret_inv in E as (q1 & E1 & E).
          apply add_quadlayer_edge_found in E1 as (_ & Hb).
          assert (head (QuadLayer.base_edges_ q1) = Some x) as Hx1.
          { rewrite Hb. by destruct (QuadLayer.base_edges_ q). }
          destruct (bool_decide _); [by apply (IH _ _ _ E)|by injection E as <-]. }
        destruct (bool_decide _).
        + apply (Hkeep _ _ _ _ E1). by rewrite Hb3.
        + injection E1 as <-. by rewrite Hb3.
      - injection E1 as <-. by rewrite Hb2. }
    apply walk_found in E1 as (Hfound1 & Hlt1); [|constructor]. cbn in Hlt1.
    apply add_quadlayer_edge_found in E as (Hend & Hb).
    assert (length (QuadLayer.base_edges_ q) = S (length (QuadLayer.base_edges_ q1)))
      as Hn by (rewrite Hb, length_app; cbn; lia).
    split; [lia|]. split; [done|]. split; [|split].
    + rewrite Hb. destruct (QuadLayer.base_edges_ q1); [done|]. done.
    + rewrite Hb. apply last_app_singleton.
    + intros Hmax. destruct Hlen as (_ & _ & _ & _ & _ & _ & M7).
      destruct (smooth_loop_spec domain env (S (length (QuadLayer.heights_ q))) 1 q)
        as (hs' & Es & Hl & _); [|done|lia|lia|lia|by exists hs'].
      split; [done|]. split; [|done]. rewrite Hb. apply Forall_app.
      split; [done|]. by apply Forall_singleton.
  - intros q Hq. unfold QuadLayer.smooth_heights. rewrite Hq. cbn [length].
    cbn [QuadLayer.smooth_loop]. rewrite Hq. done.
Qed.

Lemma ring_layer_created :
  QuadLayer.create (H := Scenario.links_by_vertex) 10 Scenario.two_rings_env 0 3 true
    0.5%float = Ret Scenario.ring_layer.
Proof. vm_compute. reflexivity. Qed.

Lemma smooth_heights_after_constructor_witness :
  (2 ≤ length (QuadLayer.base_edges_ Scenario.ring_layer) ∧
   same_lengths Scenario.ring_layer ∧
   head (QuadLayer.base_edges_ Scenario.ring_layer) = Some 0 ∧
   last (QuadLayer.base_edges_ Scenario.ring_layer) = Some 3 ∧
   ((Z.of_nat (length (QuadLayer.heights_ Scenario.ring_layer))
       < QuadLayer.size_t_max)%Z →
    ∃ hs', QuadLayer.smooth_heights Scenario.graded Scenario.two_rings_env
             Scenario.ring_layer = Ret (QuadLayer.set_heights_ hs' Scenario.ring_layer) ∧
           length hs' = length (QuadLayer.heights_ Scenario.ring_layer))) ∧
  QuadLayer.smooth_heights Scenario.graded Scenario.two_rings_env
    (QuadLayer.mk 0 3 true 0.5%float [] [] [] [] [] [] [] []) = Undef.
Proof.
  split.
  - exact (proj1 (smooth_heights_after_constructor (H := Scenario.links_by_vertex) 10
                    Scenario.graded Scenario.two_rings_env 0 3 true 0.5%float)
             Scenario.ring_layer ring_layer_created).
  - exact (proj2 (smooth_heights_after_constructor (H := Scenario.links_by_vertex) 10
                    Scenario.graded Scenario.two_rings_env 0 3 true 0.5%float)
             (QuadLayer.mk 0 3 true 0.5%float [] [] [] [] [] [] [] []) eq_refl).
Defined.

(** The heights of the closed layer on the outer ring after the smoothing,
    with the size function 0.125 + 0.0625 x. *)
Lemma ring_layer_smoothed :
  ∃ q, QuadLayer.smooth_heights Scenario.graded Scenario.two_rings_env
         Scenario.ring_layer = Ret q ∧
       length (QuadLayer.heights_ q) = 4.
Proof. eexists. split; [vm_compute; reflexivity|reflexivity]. Qed.
